(** * Babylon relayer: the vault contract, the staking ledger engine and the
      deposit relay controller

    A shallow embedding of
    - the [Vault] contract (with the [StBTC] token it mints),
    - [BabylonWatcher] (relayer/src/babylonWatcher.js), the in-memory staking
      ledger: finality providers, staking positions, rewards, slashing,
      epochs and network statistics,
    - [EVMTrigger] (relayer/src/evmTrigger.js), the relay controller:
      validation, register, mint and the retry loop,
    followed by the properties proved about them.

    Conventions of the embedding.
    - Solidity [uint256] values are [Z] with the checked arithmetic of
      Solidity 0.8 written out: an operation whose result leaves
      [0, 2^256) aborts the call with [Panic 0x11]; a failed [require]
      aborts it with [Revert reason]. An aborted call leaves the chain as it
      was, so a call returns either an error or the new chain.
    - Solidity mappings are finite maps read with the zero value as default.
    - A JavaScript number is the rational it denotes. Every arithmetic
      operation of the engine rounds its exact result to the nearest
      binary64 number, ties to even ([Double.round64]), and a decimal
      literal is the binary64 number nearest to it; [Math.floor] is
      [Qfloor]. Amounts (satoshi) and clock readings are integers kept as
      [Z]: they stay below 2^53, where binary64 holds every integer. [NaN]
      is written [None] where a value can be [NaN]; infinities do not arise
      from finite inputs of the sizes above.
    - [Date.now()] and [Math.random()] are inputs of the functions reading
      them.
    - A JavaScript object used as a map is the association list of its own
      properties in insertion order (the order of [for ... in] for keys
      that are not array indices). A bracket read that finds no own
      property goes on to [Object.prototype] ([JS.read]); what the engine
      inherits besides is part of its state ([Watcher.stakersParent],
      [Watcher.objectPrototype]).
    - A call of the engine that throws has made the writes that precede the
      [throw]: the functions return the state they leave together with the
      way they ended. *)

From Stdlib Require Import ZArith QArith Qround Qminmax Qabs Qpower Lia Lqa List String Ascii Bool.
From Stdlib Require Import Floats.
From stdpp Require Import base option strings gmap pretty.
Import ListNotations.

Local Open Scope string_scope.
Local Open Scope Z_scope.

(* ===================================================================== *)
(** * The Vault contract and the stBTC token *)
(* ===================================================================== *)

Module Vault.

(** An [address] is a 160-bit number; [address(0)] is [0]. *)
Definition address := Z.

Definition MAX_UINT256 : Z := 2 ^ 256 - 1.

Inductive error :=
| Revert (reason : string)
| Panic (code : Z).

Definition result (A : Type) := sum error A.

Definition ok {A} (a : A) : result A := inr a.
Definition revert {A} (reason : string) : result A := inl (Revert reason).

Definition bind {A B} (m : result A) (k : A -> result B) : result B :=
  match m with
  | inl e => inl e
  | inr a => k a
  end.

Notation "x <- m ;; k" := (bind m (fun x => k))
  (at level 100, m at next level, right associativity).
Notation "m ;;; k" := (bind m (fun _ => k))
  (at level 100, right associativity).

Definition require (c : bool) (reason : string) : result unit :=
  if c then ok tt else revert reason.

(** Checked arithmetic of Solidity 0.8: overflow is [Panic(0x11)]. *)
Definition checked_add (a b : Z) : result Z :=
  if a + b <=? MAX_UINT256 then ok (a + b) else inl (Panic 17).

Definition checked_mul (a b : Z) : result Z :=
  if a * b <=? MAX_UINT256 then ok (a * b) else inl (Panic 17).

(** [msg.sender] and [block.timestamp] of a call. *)
Record context := {
  sender : address;
  block_timestamp : Z
}.

(** ** StBTC (contracts/StBTC.sol) *)

Record StBTC := {
  token_owner : address;
  token_paused : bool;
  authorized : gmap address bool;
  balances : gmap address Z;
  totalSupply : Z
}.

Definition balanceOf (t : StBTC) (a : address) : Z :=
  default 0 (balances t !! a).

Definition onlyAuthorized (t : StBTC) (caller : address) : result unit :=
  require (default false (authorized t !! caller) || (caller =? token_owner t))
          "Not authorized".

(** [ERC20._mint] of the token's base contract: the supply is added
    with overflow check, the balance cannot overflow once the supply
    did not. *)
Definition _mint (t : StBTC) (account : address) (amount : Z) : result StBTC :=
  require (negb (account =? 0)) "ERC20: mint to the zero address" ;;;
  supply <- checked_add (totalSupply t) amount ;;
  ok {| token_owner := token_owner t;
        token_paused := token_paused t;
        authorized := authorized t;
        balances := <[account := balanceOf t account + amount]> (balances t);
        totalSupply := supply |}.

Definition mint (t : StBTC) (caller to : address) (amount : Z) : result StBTC :=
  onlyAuthorized t caller ;;;
  require (negb (token_paused t)) "Pausable: paused" ;;;
  _mint t to amount.

(** ** Vault

    [Ownable] and [Pausable] are the [owner] and [paused] fields.
    [nonReentrant] has no counterpart: a call of the model runs to its end
    and the token never calls back. *)

Record BabylonDeposit := {
  user : address;
  amount : Z;
  btcTxHash : string;
  unlockTime : Z;
  finalityProvider : string;
  timestamp : Z;
  processed : bool
}.

(** The value a mapping returns for a key never written. *)
Definition zeroDeposit : BabylonDeposit :=
  {| user := 0; amount := 0; btcTxHash := ""; unlockTime := 0;
     finalityProvider := ""; timestamp := 0; processed := false |}.

Record VaultState := {
  owner : address;
  paused : bool;
  deposits : gmap string BabylonDeposit;
  userBalances : gmap address Z;
  authorizedFinalityProviders : gmap string bool;
  totalDeposits : Z
}.

(** The two contracts as deployed: the vault at [vault_address] holds a
    reference to the token. *)
Record chain := {
  vault_address : address;
  vault : VaultState;
  stBTC : StBTC
}.

Definition getDeposit (c : chain) (txHash : string) : BabylonDeposit :=
  default zeroDeposit (deposits (vault c) !! txHash).

Definition isFinalityProviderAuthorized (c : chain) (provider : string) : bool :=
  default false (authorizedFinalityProviders (vault c) !! provider).

Definition userBalance (c : chain) (a : address) : Z :=
  default 0 (userBalances (vault c) !! a).

Definition onlyRelayer (c : chain) (ctx : context) : result unit :=
  require (sender ctx =? owner (vault c)) "Only relayer can call".

Definition whenNotPaused (c : chain) : result unit :=
  require (negb (paused (vault c))) "Pausable: paused".

Definition set_deposit (v : VaultState) (txHash : string) (d : BabylonDeposit)
  : VaultState :=
  {| owner := owner v;
     paused := paused v;
     deposits := <[txHash := d]> (deposits v);
     userBalances := userBalances v;
     authorizedFinalityProviders := authorizedFinalityProviders v;
     totalDeposits := totalDeposits v |}.

(** [deposits[txHash] = d]. *)
Definition store_deposit (c : chain) (txHash : string) (d : BabylonDeposit)
  : chain :=
  {| vault_address := vault_address c;
     vault := set_deposit (vault c) txHash d;
     stBTC := stBTC c |}.

(** A call sent by [from] in a block of time [now]. *)
Definition call_from (from : address) (now : Z) : context :=
  {| sender := from; block_timestamp := now |}.

Definition registerBabylonDeposit (ctx : context) (c : chain)
    (txHash : string) (usr : address) (amt unlock : Z) (provider : string)
  : result chain :=
  onlyRelayer c ctx ;;;
  whenNotPaused c ;;;
  require (0 <? Z.of_nat (String.length txHash)) "Invalid transaction hash" ;;;
  require (negb (usr =? 0)) "Invalid user address" ;;;
  require (0 <? amt) "Amount must be greater than 0" ;;;
  require (block_timestamp ctx <? unlock) "Unlock time must be in future" ;;;
  require (isFinalityProviderAuthorized c provider)
          "Unauthorized finality provider" ;;;
  require (timestamp (getDeposit c txHash) =? 0) "Deposit already registered" ;;;
  ok (store_deposit c txHash
        {| user := usr; amount := amt; btcTxHash := txHash;
           unlockTime := unlock; finalityProvider := provider;
           timestamp := block_timestamp ctx; processed := false |}).

Definition mark_processed (d : BabylonDeposit) : BabylonDeposit :=
  {| user := user d; amount := amount d; btcTxHash := btcTxHash d;
     unlockTime := unlockTime d; finalityProvider := finalityProvider d;
     timestamp := timestamp d; processed := true |}.

Definition mintStBTC (ctx : context) (c : chain) (txHash : string)
  : result chain :=
  onlyRelayer c ctx ;;;
  whenNotPaused c ;;;
  let deposit := getDeposit c txHash in
  require (0 <? timestamp deposit) "Deposit not registered" ;;;
  require (negb (processed deposit)) "Deposit already processed" ;;;
  tokenAmount <- checked_mul (amount deposit) (10 ^ 10) ;;
  newBalance <- checked_add (userBalance c (user deposit)) tokenAmount ;;
  newTotal <- checked_add (totalDeposits (vault c)) tokenAmount ;;
  token <- mint (stBTC c) (vault_address c) (user deposit) tokenAmount ;;
  ok {| vault_address := vault_address c;
        vault :=
          {| owner := owner (vault c);
             paused := paused (vault c);
             deposits := <[txHash := mark_processed deposit]> (deposits (vault c));
             userBalances := <[user deposit := newBalance]> (userBalances (vault c));
             authorizedFinalityProviders := authorizedFinalityProviders (vault c);
             totalDeposits := newTotal |};
        stBTC := token |}.

(** The chain right after deployment (scripts/deploy.js and the tests'
    [beforeEach]): the constructor authorizes "fp1" and "fp2", the token
    authorizes the vault, and the relayer owns the vault. *)
Definition deployed (vaultAddr tokenOwner relayer : address) : chain :=
  {| vault_address := vaultAddr;
     vault := {| owner := relayer;
                 paused := false;
                 deposits := ∅;
                 userBalances := ∅;
                 authorizedFinalityProviders := <["fp2" := true]> (<["fp1" := true]> ∅);
                 totalDeposits := 0 |};
     stBTC := {| token_owner := tokenOwner;
                 token_paused := false;
                 authorized := <[vaultAddr := true]> ∅;
                 balances := ∅;
                 totalSupply := 0 |} |}.

End Vault.

(* ===================================================================== *)
(** * binary64 numbers

    The value of a JavaScript number is a rational; [round64] is the
    rounding every arithmetic operation ends with (IEEE 754 binary64,
    round to nearest, ties to even): 53 bits of significand, and no unit
    in the last place below 2^-1074. *)
(* ===================================================================== *)

Module Double.

Local Open Scope Q_scope.

(** The exponent of the least subnormal number. *)
Definition emin : Z := -1074.

(** The integer [k] with [2^k <= x < 2^(k+1)], for [x] positive. *)
Definition ilog2 (x : Q) : Z :=
  let k := (Z.log2 (Qnum x) - Z.log2 (Zpos (Qden x)))%Z in
  if Qle_bool (2 ^ k) x then k else (k - 1)%Z.

(** The exponent of the unit in the last place of [x]. *)
Definition expo (x : Q) : Z := Z.max (ilog2 (Qabs x) - 52) emin.

(** The integer nearest to [t], the even one of two equally near. *)
Definition nearest_even (t : Q) : Z :=
  let f := Qfloor t in
  match Qcompare (t - inject_Z f) (1 # 2) with
  | Lt => f
  | Gt => (f + 1)%Z
  | Eq => if Z.even f then f else (f + 1)%Z
  end.

(** [x] rounded to a multiple of [2^e]. *)
Definition round_at (e : Z) (x : Q) : Q :=
  inject_Z (nearest_even (x / 2 ^ e)) * 2 ^ e.

Definition round64 (x : Q) : Q :=
  if Qeq_bool x 0 then 0 else Qred (round_at (expo x) x).

(** [x] is a binary64 number. *)
Definition representable (x : Q) : Prop := (round64 x == x)%Q.

End Double.

(* ===================================================================== *)
(** * JavaScript values used by the relayer *)
(* ===================================================================== *)

Module JS.

(** ** Numbers *)

(** A decimal literal of the source. *)
Definition lit (q : Q) : Q := Double.round64 q.

(** [x + y], [x - y], [x * y] and [x / y] on numbers. *)
Definition add (x y : Q) : Q := Double.round64 (x + y).
Definition sub (x y : Q) : Q := Double.round64 (x - y).
Definition mul (x y : Q) : Q := Double.round64 (x * y).
Definition div (x y : Q) : Q := Double.round64 (x / y).

Definition Math_floor (x : Q) : Z := Qfloor x.
Definition Math_max (x y : Q) : Q := Qmax x y.
Definition Math_min (x y : Q) : Q := Qmin x y.

(** [x > y] and [x < y] on numbers. *)
Definition gt (x y : Q) : bool := negb (Qle_bool x y).
Definition lt (x y : Q) : bool := negb (Qle_bool y x).

(** [str.startsWith(p)]. *)
Definition startsWith (str p : string) : bool := String.prefix p str.

(** ** Objects *)

(** An object used as a map from string keys: its own properties in
    insertion order. *)
Definition object (V : Type) := list (string * V).

(** The own property of [o] named [k], if there is one. *)
Fixpoint get {V} (o : object V) (k : string) : option V :=
  match o with
  | [] => None
  | (k', v) :: o' => if String.eqb k' k then Some v else get o' k
  end.

(** [Object.keys(o)] and [Object.values(o)]. *)
Definition keys {V} (o : object V) : list string := map fst o.
Definition values {V} (o : object V) : list V := map snd o.

(** [Object.hasOwn(o, k)]. *)
Definition has {V} (o : object V) (k : string) : bool :=
  existsb (String.eqb k) (keys o).

(** [o[k] = v] for a key that is an own property of [o] or is not
    [__proto__]: an existing key keeps its place, a new key goes last.
    (Assigning under [__proto__] to an object without such an own property
    sets the object's prototype and adds no property.) *)
Fixpoint set {V} (o : object V) (k : string) (v : V) : object V :=
  match o with
  | [] => [(k, v)]
  | (k', v') :: o' =>
      if String.eqb k' k then (k, v) :: o' else (k', v') :: set o' k v
  end.

(** The properties of [Object.prototype]: eleven functions and the
    accessor [__proto__], which reads as [Object.prototype] itself. None
    of them is enumerable. *)
Definition builtins : list string :=
  [ "constructor"; "__defineGetter__"; "__defineSetter__"; "hasOwnProperty";
    "__lookupGetter__"; "__lookupSetter__"; "isPrototypeOf";
    "propertyIsEnumerable"; "toString"; "valueOf"; "__proto__";
    "toLocaleString" ].

(** What [o[k]] finds on an object whose prototype is [Object.prototype]:
    an own property; or a member of [Object.prototype], a function or
    object that is truthy and has none of the engine's fields; or nothing
    truthy ([undefined], or a [NaN] the engine has written on
    [Object.prototype], see [Watcher.objectPrototype]). *)
Inductive Lookup (V : Type) :=
| Own (v : V)
| Builtin
| Absent.

Arguments Own {V} v.
Arguments Builtin {V}.
Arguments Absent {V}.

Definition read {V} (o : object V) (k : string) : Lookup V :=
  match get o k with
  | Some v => Own v
  | None => if existsb (String.eqb k) builtins then Builtin else Absent
  end.

End JS.

(* ===================================================================== *)
(** * BabylonWatcher: the staking ledger engine *)
(* ===================================================================== *)

Module Watcher.

Inductive Severity := major | minor.

(** The event pushed on a position's [slashing.slashingEvents]. *)
Record PositionSlashingEvent := {
  pse_amount : Z;
  pse_reason : string;
  pse_severity : Severity;
  pse_timestamp : Z
}.

(** The event pushed on a provider's [slashingHistory]. *)
Record ProviderSlashingEvent := {
  fse_amount : Z;
  fse_reason : string;
  fse_severity : Severity;
  fse_timestamp : Z;
  fse_affectedDelegators : Z
}.

Record FinalityProvider := {
  id : string;
  address : string;
  publicKey : string;
  commission : Q;
  name : string;
  reputation : Q;
  uptime : Q;
  totalDelegated : Z;
  delegatorCount : Z;
  fp_votingPower : Z;
  slashingHistory : list ProviderSlashingEvent;
  rewardsDistributed : Z;
  commissionEarned : Z;
  isActive : bool;
  joinedEpoch : Z;
  maxDelegation : Z;
  selfStake : Z
}.

Record Rewards := {
  accumulated : Z;
  lastDistribution : Z;
  annualRate : Q
}.

Record Slashing := {
  penaltyAmount : Z;
  slashingEvents : list PositionSlashingEvent
}.

(** A staking position. [timestamp] (milliseconds) is written by
    [createStakingPosition] only; a position built by
    [processBabylonDepositWithSimulation] has no such property, which
    reads as [undefined]: [None] here. [stakerAddress] is [undefined]
    ([None]) when the output lists no address, [unbondingStartTime] is
    [null] ([None]) until unbonding starts, and [votingPower] is [NaN]
    ([None]) when it was computed from something that is not a provider. *)
Record StakingPosition := {
  txHash : string;
  stakerAddress : option string;
  amount : Z;
  finalityProvider : string;
  timestamp : option Z;
  unlockTime : Z;
  votingPower : option Z;
  status : string;
  rewards : Rewards;
  slashing : Slashing;
  delegationTime : Z;
  isUnbonding : bool;
  unbondingStartTime : option Z
}.

Record NetworkStats := {
  totalStaked : Z;
  totalDelegators : Z;
  activeFinality : Z;
  averageCommission : Q;
  totalRewardsDistributed : Z;
  totalSlashed : Z;
  networkUptime : Q;
  lastEpochBlock : Z;
  ns_currentEpoch : Z
}.

Record StakingParams := {
  minStakingAmount : Z;
  maxStakingAmount : Z;
  minStakingTime : Z;
  maxStakingTime : Z;
  slashingRate : Q;
  baseRewardRate : Q;
  epochDuration : Z;
  unbondingPeriod : Z;
  maxDelegations : Z
}.

(** The fields of [BabylonWatcher] the engine reads and writes, and what
    its two plain objects inherit.

    [finalityProviders] and [activeStakers] are created as [{}], so both
    start with [Object.prototype] as their prototype.
    - [stakersParent] is the position [activeStakers] inherits from, once
      [createStakingPosition] has assigned one under the key [__proto__]
      (the assignment sets the prototype and adds no property).
    - [objectPrototype] lists the enumerable properties the engine has
      added to [Object.prototype] by writing fields of
      [finalityProviders["__proto__"]], which is [Object.prototype]; each
      of them holds [NaN]. *)
Record t := {
  finalityProviders : JS.object FinalityProvider;
  activeStakers : JS.object StakingPosition;
  currentEpoch : Z;
  networkStats : NetworkStats;
  stakingParams : StakingParams;
  stakersParent : option StakingPosition;
  objectPrototype : list string
}.

(** How a call of the engine ended: it returned, or a [TypeError] was
    thrown on the way. *)
Inductive Completion := Returned | TypeError.

(** ** Field updates *)

Definition fp_with_delegation (fp : FinalityProvider) (total count : Z)
  : FinalityProvider :=
  {| id := id fp; address := address fp; publicKey := publicKey fp;
     commission := commission fp; name := name fp;
     reputation := reputation fp; uptime := uptime fp;
     totalDelegated := total; delegatorCount := count;
     fp_votingPower := fp_votingPower fp;
     slashingHistory := slashingHistory fp;
     rewardsDistributed := rewardsDistributed fp;
     commissionEarned := commissionEarned fp; isActive := isActive fp;
     joinedEpoch := joinedEpoch fp; maxDelegation := maxDelegation fp;
     selfStake := selfStake fp |}.

Definition fp_with_votingPower (fp : FinalityProvider) (vp : Z)
  : FinalityProvider :=
  {| id := id fp; address := address fp; publicKey := publicKey fp;
     commission := commission fp; name := name fp;
     reputation := reputation fp; uptime := uptime fp;
     totalDelegated := totalDelegated fp; delegatorCount := delegatorCount fp;
     fp_votingPower := vp;
     slashingHistory := slashingHistory fp;
     rewardsDistributed := rewardsDistributed fp;
     commissionEarned := commissionEarned fp; isActive := isActive fp;
     joinedEpoch := joinedEpoch fp; maxDelegation := maxDelegation fp;
     selfStake := selfStake fp |}.

Definition fp_with_performance (fp : FinalityProvider) (rep up : Q)
  : FinalityProvider :=
  {| id := id fp; address := address fp; publicKey := publicKey fp;
     commission := commission fp; name := name fp;
     reputation := rep; uptime := up;
     totalDelegated := totalDelegated fp; delegatorCount := delegatorCount fp;
     fp_votingPower := fp_votingPower fp;
     slashingHistory := slashingHistory fp;
     rewardsDistributed := rewardsDistributed fp;
     commissionEarned := commissionEarned fp; isActive := isActive fp;
     joinedEpoch := joinedEpoch fp; maxDelegation := maxDelegation fp;
     selfStake := selfStake fp |}.

Definition fp_with_commissionEarned (fp : FinalityProvider) (earned : Z)
  : FinalityProvider :=
  {| id := id fp; address := address fp; publicKey := publicKey fp;
     commission := commission fp; name := name fp;
     reputation := reputation fp; uptime := uptime fp;
     totalDelegated := totalDelegated fp; delegatorCount := delegatorCount fp;
     fp_votingPower := fp_votingPower fp;
     slashingHistory := slashingHistory fp;
     rewardsDistributed := rewardsDistributed fp;
     commissionEarned := earned; isActive := isActive fp;
     joinedEpoch := joinedEpoch fp; maxDelegation := maxDelegation fp;
     selfStake := selfStake fp |}.

(** The three writes [executeSlashing] makes to the provider. *)
Definition fp_slashed (fp : FinalityProvider) (total : Z) (rep : Q)
    (ev : ProviderSlashingEvent) : FinalityProvider :=
  {| id := id fp; address := address fp; publicKey := publicKey fp;
     commission := commission fp; name := name fp;
     reputation := rep; uptime := uptime fp;
     totalDelegated := total; delegatorCount := delegatorCount fp;
     fp_votingPower := fp_votingPower fp;
     slashingHistory := slashingHistory fp ++ [ev];
     rewardsDistributed := rewardsDistributed fp;
     commissionEarned := commissionEarned fp; isActive := isActive fp;
     joinedEpoch := joinedEpoch fp; maxDelegation := maxDelegation fp;
     selfStake := selfStake fp |}.

Definition pos_with_amount_slashing (p : StakingPosition) (a : Z) (s : Slashing)
  : StakingPosition :=
  {| txHash := txHash p; stakerAddress := stakerAddress p; amount := a;
     finalityProvider := finalityProvider p; timestamp := timestamp p;
     unlockTime := unlockTime p; votingPower := votingPower p;
     status := status p; rewards := rewards p; slashing := s;
     delegationTime := delegationTime p; isUnbonding := isUnbonding p;
     unbondingStartTime := unbondingStartTime p |}.

Definition pos_with_rewards (p : StakingPosition) (r : Rewards)
  : StakingPosition :=
  {| txHash := txHash p; stakerAddress := stakerAddress p; amount := amount p;
     finalityProvider := finalityProvider p; timestamp := timestamp p;
     unlockTime := unlockTime p; votingPower := votingPower p;
     status := status p; rewards := r; slashing := slashing p;
     delegationTime := delegationTime p; isUnbonding := isUnbonding p;
     unbondingStartTime := unbondingStartTime p |}.

Definition with_finalityProviders (w : t) (fps : JS.object FinalityProvider) : t :=
  {| finalityProviders := fps; activeStakers := activeStakers w;
     currentEpoch := currentEpoch w; networkStats := networkStats w;
     stakingParams := stakingParams w;
     stakersParent := stakersParent w; objectPrototype := objectPrototype w |}.

Definition with_activeStakers (w : t) (ps : JS.object StakingPosition) : t :=
  {| finalityProviders := finalityProviders w; activeStakers := ps;
     currentEpoch := currentEpoch w; networkStats := networkStats w;
     stakingParams := stakingParams w;
     stakersParent := stakersParent w; objectPrototype := objectPrototype w |}.

Definition with_networkStats (w : t) (ns : NetworkStats) : t :=
  {| finalityProviders := finalityProviders w; activeStakers := activeStakers w;
     currentEpoch := currentEpoch w; networkStats := ns;
     stakingParams := stakingParams w;
     stakersParent := stakersParent w; objectPrototype := objectPrototype w |}.

Definition with_currentEpoch (w : t) (epoch : Z) : t :=
  {| finalityProviders := finalityProviders w; activeStakers := activeStakers w;
     currentEpoch := epoch; networkStats := networkStats w;
     stakingParams := stakingParams w;
     stakersParent := stakersParent w; objectPrototype := objectPrototype w |}.

Definition with_stakersParent (w : t) (p : StakingPosition) : t :=
  {| finalityProviders := finalityProviders w; activeStakers := activeStakers w;
     currentEpoch := currentEpoch w; networkStats := networkStats w;
     stakingParams := stakingParams w;
     stakersParent := Some p; objectPrototype := objectPrototype w |}.

(** [Object.prototype[name] = NaN] for each of [names]: a name that is
    not yet a property of [Object.prototype] becomes one. *)
Definition with_objectPrototype (w : t) (names : list string) : t :=
  {| finalityProviders := finalityProviders w; activeStakers := activeStakers w;
     currentEpoch := currentEpoch w; networkStats := networkStats w;
     stakingParams := stakingParams w;
     stakersParent := stakersParent w;
     objectPrototype :=
       fold_left
         (fun (props : list string) name =>
            if existsb (String.eqb name) props then props
            else (props ++ [name])%list)
         names (objectPrototype w) |}.

Definition ns_with_totalSlashed (ns : NetworkStats) (total : Z) : NetworkStats :=
  {| totalStaked := totalStaked ns;
     totalDelegators := totalDelegators ns;
     activeFinality := activeFinality ns;
     averageCommission := averageCommission ns;
     totalRewardsDistributed := totalRewardsDistributed ns;
     totalSlashed := total;
     networkUptime := networkUptime ns;
     lastEpochBlock := lastEpochBlock ns;
     ns_currentEpoch := ns_currentEpoch ns |}.

Definition ns_with_totalRewardsDistributed (ns : NetworkStats) (total : Z)
  : NetworkStats :=
  {| totalStaked := totalStaked ns;
     totalDelegators := totalDelegators ns;
     activeFinality := activeFinality ns;
     averageCommission := averageCommission ns;
     totalRewardsDistributed := total;
     totalSlashed := totalSlashed ns;
     networkUptime := networkUptime ns;
     lastEpochBlock := lastEpochBlock ns;
     ns_currentEpoch := ns_currentEpoch ns |}.

Definition ns_with_currentEpoch (ns : NetworkStats) (epoch : Z) : NetworkStats :=
  {| totalStaked := totalStaked ns;
     totalDelegators := totalDelegators ns;
     activeFinality := activeFinality ns;
     averageCommission := averageCommission ns;
     totalRewardsDistributed := totalRewardsDistributed ns;
     totalSlashed := totalSlashed ns;
     networkUptime := networkUptime ns;
     lastEpochBlock := lastEpochBlock ns;
     ns_currentEpoch := epoch |}.

Definition is_active (p : StakingPosition) : bool :=
  String.eqb (status p) "active".

(** ** The [for ... in] loops

    A [for ... in] loop visits the own keys of the object and then the
    enumerable keys the object inherits that no own key hides.

    Over [activeStakers] these are the properties of [stakersParent], in
    the order a position is written, followed by those of
    [objectPrototype]. The loops of the engine read a field of
    [this.activeStakers[key]] first thing: that is [undefined] and harmless
    on a string, a number, a boolean, [NaN] or a record without such a
    field, and throws a [TypeError] on [undefined] and on [null], which
    only [stakerAddress] and [unbondingStartTime] can hold. *)
Definition stakers_loop_throws (w : t) : bool :=
  match stakersParent w with
  | None => false
  | Some parent =>
      (match stakerAddress parent with None => true | Some _ => false end
       && negb (JS.has (activeStakers w) "stakerAddress"))
      || (match unbondingStartTime parent with None => true | Some _ => false end
          && negb (JS.has (activeStakers w) "unbondingStartTime"))
  end.

(** Over [finalityProviders] the inherited keys are those of
    [objectPrototype]. The loop of [updateProviderPerformance] assigns
    [fp.uptime] on what it reads, which throws a [TypeError] on [NaN] (the
    body of a class is strict code). *)
Definition providers_loop_throws (w : t) : bool :=
  existsb (fun name => negb (JS.has (finalityProviders w) name))
          (objectPrototype w).

(** ** Construction *)

Definition defaultStakingParams : StakingParams :=
  {| minStakingAmount := 1000000;
     maxStakingAmount := 1000000000000;
     minStakingTime := 86400;
     maxStakingTime := 31536000;
     slashingRate := JS.lit 0.05;
     baseRewardRate := JS.lit 0.06;
     epochDuration := 21600;
     unbondingPeriod := 604800;
     maxDelegations := 1000 |}.

Definition enhancedProviders : list FinalityProvider :=
  [ {| id := "fp1"; address := "bc1qbabylon_finality_provider_1";
       publicKey := "0x1234567890abcdef1234567890abcdef12345678";
       commission := JS.lit 0.05; name := "Babylon Finality Provider Alpha";
       reputation := JS.lit 95.0; uptime := JS.lit 99.0;
       totalDelegated := 0; delegatorCount := 0; fp_votingPower := 0;
       slashingHistory := []; rewardsDistributed := 0; commissionEarned := 0;
       isActive := true; joinedEpoch := 1;
       maxDelegation := 50000000000000; selfStake := 1000000000 |};
    {| id := "fp2"; address := "bc1qbabylon_finality_provider_2";
       publicKey := "0xabcdef1234567890abcdef1234567890abcdef12";
       commission := JS.lit 0.03; name := "Babylon Finality Provider Beta";
       reputation := JS.lit 92.0; uptime := JS.lit 97.0;
       totalDelegated := 0; delegatorCount := 0; fp_votingPower := 0;
       slashingHistory := []; rewardsDistributed := 0; commissionEarned := 0;
       isActive := true; joinedEpoch := 1;
       maxDelegation := 30000000000000; selfStake := 500000000 |};
    {| id := "fp3"; address := "bc1qbabylon_finality_provider_3";
       publicKey := "0xfedcba0987654321fedcba0987654321fedcba09";
       commission := JS.lit 0.08; name := "Babylon Finality Provider Gamma";
       reputation := JS.lit 88.0; uptime := JS.lit 95.0;
       totalDelegated := 0; delegatorCount := 0; fp_votingPower := 0;
       slashingHistory := []; rewardsDistributed := 0; commissionEarned := 0;
       isActive := true; joinedEpoch := 2;
       maxDelegation := 20000000000000; selfStake := 200000000 |} ].

(** [this.finalityProviders = {}] followed by one assignment per provider. *)
Definition enhanceFinalityProviders (w : t) : t :=
  with_finalityProviders w
    (fold_left (fun o fp => JS.set o (id fp) fp) enhancedProviders []).

(** [new BabylonWatcher()] where nothing has touched [Object.prototype].
    [activeFinality] is computed while the provider object is still
    empty. *)
Definition constructor : t :=
  enhanceFinalityProviders
    {| finalityProviders := [];
       activeStakers := [];
       currentEpoch := 1;
       networkStats :=
         {| totalStaked := 0; totalDelegators := 0; activeFinality := 0;
            averageCommission := 0%Q; totalRewardsDistributed := 0;
            totalSlashed := 0; networkUptime := JS.lit 100.0;
            lastEpochBlock := 0; ns_currentEpoch := 1 |};
       stakingParams := defaultStakingParams;
       stakersParent := None;
       objectPrototype := [] |}.

(** ** Voting power *)

Definition calculateVotingPowerBasic (amount : Z) : Z :=
  let basePower := JS.div (inject_Z amount) 100000000 in
  let timeBonus := JS.lit 1.0 in
  JS.Math_floor (JS.mul (JS.mul basePower timeBonus) 1000).

(** [provider] is what [this.finalityProviders[id]] found. The fields of a
    member of [Object.prototype] are [undefined], which makes the product
    [NaN]. *)
Definition calculateVotingPower (amount : Z)
    (provider : JS.Lookup FinalityProvider) : option Z :=
  match provider with
  | JS.Absent => Some (calculateVotingPowerBasic amount)
  | JS.Own provider =>
      let basePower := JS.div (inject_Z amount) 100000000 in
      let reputationMultiplier := JS.div (reputation provider) 100 in
      let uptimeMultiplier := JS.div (uptime provider) 100 in
      Some (JS.Math_floor
              (JS.mul (JS.mul (JS.mul basePower reputationMultiplier)
                              uptimeMultiplier)
                      1000))
  | JS.Builtin => None
  end.

Definition calculateFinalityProviderVotingPower (fp : FinalityProvider) : Z :=
  JS.Math_floor
    (JS.mul
       (JS.mul
          (JS.mul (JS.div (inject_Z (totalDelegated fp)) 100000000)
                  (JS.div (reputation fp) 100))
          (JS.div (uptime fp) 100))
       1000).

(** ** Creating a position *)

Record Vout := {
  value : Z;
  addresses : list string
}.

Record Tx := {
  txid : string;
  vout : list Vout
}.

(** [createStakingPosition(mockTx, finalityProvider)] at clock reading
    [nowMs]. Reading [mockTx.vout[0].value] of an empty [vout] throws
    before anything is written: [None].

    The position is assigned under the transaction id: for the id
    [__proto__], unless [activeStakers] has such an own property, the
    assignment makes the position the prototype of [activeStakers]. The
    provider read by the guard [if (this.finalityProviders[id])] is then
    updated; when the id names a member of [Object.prototype] the three
    writes put [NaN] on that member, which shows only for [__proto__],
    where the member is [Object.prototype] itself.

    The other way to a position, [processBabylonDepositWithSimulation],
    stores a position without [timestamp] and then calls
    [updateFinalityProviderDelegation], which the class does not define;
    it is not modelled. *)
Definition createStakingPosition (nowMs : Z) (mockTx : Tx) (fpId : string)
    (w : t) : option (StakingPosition * t) :=
  match vout mockTx with
  | [] => None
  | out :: _ =>
      let amount := value out in
      let stakingPosition :=
        {| txHash := txid mockTx;
           stakerAddress := head (addresses out);
           amount := amount;
           finalityProvider := fpId;
           timestamp := Some nowMs;
           unlockTime := nowMs / 1000 + 86400 * 30;
           votingPower :=
             calculateVotingPower amount (JS.read (finalityProviders w) fpId);
           status := "active";
           rewards := {| accumulated := 0;
                         lastDistribution := nowMs / 1000;
                         annualRate := baseRewardRate (stakingParams w) |};
           slashing := {| penaltyAmount := 0; slashingEvents := [] |};
           delegationTime := nowMs / 1000;
           isUnbonding := false;
           unbondingStartTime := None |} in
      let w1 :=
        if String.eqb (txid mockTx) "__proto__"
           && negb (JS.has (activeStakers w) "__proto__")
        then with_stakersParent w stakingPosition
        else
          with_activeStakers w
            (JS.set (activeStakers w) (txid mockTx) stakingPosition) in
      let w2 :=
        match JS.read (finalityProviders w1) fpId with
        | JS.Own fp =>
            let fp1 :=
              fp_with_delegation fp (totalDelegated fp + amount)
                                 (delegatorCount fp + 1) in
            let fp2 :=
              fp_with_votingPower fp1 (calculateFinalityProviderVotingPower fp1) in
            with_finalityProviders w1 (JS.set (finalityProviders w1) fpId fp2)
        | JS.Builtin =>
            if String.eqb fpId "__proto__"
            then with_objectPrototype w1
                   ["totalDelegated"; "delegatorCount"; "votingPower"]
            else w1
        | JS.Absent => w1
        end in
      Some (stakingPosition, w2)
  end.

(** ** Network statistics *)

(** The [for ... in] loop of [updateNetworkStats] over the own keys. *)
Fixpoint sumActive (ps : JS.object StakingPosition)
    (totalStaked totalDelegators : Z) : Z * Z :=
  match ps with
  | [] => (totalStaked, totalDelegators)
  | (_, position) :: rest =>
      if is_active position
      then sumActive rest (totalStaked + amount position) (totalDelegators + 1)
      else sumActive rest totalStaked totalDelegators
  end.

(** [updateNetworkStats()]: the statistics are assigned after the loop, so
    a loop that throws has written nothing. *)
Definition updateNetworkStats (w : t) : t * Completion :=
  if stakers_loop_throws w then (w, TypeError)
  else
    let '(totalStaked', totalDelegators') := sumActive (activeStakers w) 0 0 in
    let activeProviders := List.filter isActive (JS.values (finalityProviders w)) in
    let n := Z.of_nat (length activeProviders) in
    let averageCommission' :=
      if 0 <? n
      then JS.div (fold_left (fun sum fp => JS.add sum (commission fp))
                             activeProviders 0%Q)
                  (inject_Z n)
      else 0%Q in
    let ns := networkStats w in
    (with_networkStats w
       {| totalStaked := totalStaked';
          totalDelegators := totalDelegators';
          activeFinality := n;
          averageCommission := averageCommission';
          totalRewardsDistributed := totalRewardsDistributed ns;
          totalSlashed := totalSlashed ns;
          networkUptime :=
            if 0 <? n
            then JS.div (fold_left (fun sum fp => JS.add sum (uptime fp))
                                   activeProviders 0%Q)
                        (inject_Z n)
            else networkUptime ns;
          lastEpochBlock := lastEpochBlock ns;
          ns_currentEpoch := ns_currentEpoch ns |},
     Returned).

(** ** Epochs *)

(** The body of the loop of [updateProviderPerformance] for one provider,
    [draw] being the value of [Math.random()]. *)
Definition updateProvider (draw : Q) (fp : FinalityProvider) : FinalityProvider :=
  let uptimeChange := JS.mul (JS.sub draw (JS.lit 0.5)) (JS.lit 2.0) in
  let uptime' :=
    JS.Math_max 90 (JS.Math_min 100 (JS.add (uptime fp) uptimeChange)) in
  let reputation' :=
    if JS.gt uptime' 98 then JS.Math_min 100 (JS.add (reputation fp) (JS.lit 0.1))
    else if JS.lt uptime' 95 then JS.Math_max 10 (JS.sub (reputation fp) (JS.lit 0.5))
    else reputation fp in
  let fp' := fp_with_performance fp reputation' uptime' in
  fp_with_votingPower fp' (calculateFinalityProviderVotingPower fp').

(** The [i]-th call of [Math.random()] of the run returns [rnd i]. *)
Fixpoint updateProviders (rnd : nat -> Q) (i : nat)
    (fps : JS.object FinalityProvider) : JS.object FinalityProvider :=
  match fps with
  | [] => []
  | (k, fp) :: rest =>
      (k, updateProvider (rnd i) fp) :: updateProviders rnd (S i) rest
  end.

(** [updateProviderPerformance()]: the own providers are updated before
    the loop comes to an inherited key. *)
Definition updateProviderPerformance (rnd : nat -> Q) (w : t) : t * Completion :=
  (with_finalityProviders w (updateProviders rnd 0 (finalityProviders w)),
   if providers_loop_throws w then TypeError else Returned).

Definition updateEpoch (rnd : nat -> Q) (w : t) : t * Completion :=
  let epoch := currentEpoch w + 1 in
  let w1 :=
    with_networkStats (with_currentEpoch w epoch)
      (ns_with_currentEpoch (networkStats w) epoch) in
  match updateProviderPerformance rnd w1 with
  | (w2, TypeError) => (w2, TypeError)
  | (w2, Returned) => updateNetworkStats w2
  end.

(** ** Slashing *)

(** The body of the loop of [executeSlashing] for one position: the
    position after the step and the amount slashed from it. *)
Definition slashPosition (fpId reason : string) (severity : Severity)
    (rate : Q) (currentTime : Z) (position : StakingPosition)
  : StakingPosition * Z :=
  if String.eqb (finalityProvider position) fpId && is_active position then
    let slashingAmount :=
      JS.Math_floor (JS.mul (inject_Z (amount position)) rate) in
    (pos_with_amount_slashing position
       (amount position - slashingAmount)
       {| penaltyAmount := penaltyAmount (slashing position) + slashingAmount;
          slashingEvents :=
            slashingEvents (slashing position)
            ++ [ {| pse_amount := slashingAmount; pse_reason := reason;
                    pse_severity := severity; pse_timestamp := currentTime |} ] |},
     slashingAmount)
  else (position, 0).

Fixpoint slashLoop (fpId reason : string) (severity : Severity) (rate : Q)
    (currentTime : Z) (ps : JS.object StakingPosition) (totalSlashed : Z)
  : JS.object StakingPosition * Z :=
  match ps with
  | [] => ([], totalSlashed)
  | (k, position) :: rest =>
      let '(position', slashingAmount) :=
        slashPosition fpId reason severity rate currentTime position in
      let '(rest', total) :=
        slashLoop fpId reason severity rate currentTime rest
                  (totalSlashed + slashingAmount) in
      ((k, position') :: rest', total)
  end.

Definition severityOf (draw : Q) : Severity :=
  if JS.gt draw (JS.lit 0.7) then major else minor.

Definition slashingRateFor (params : StakingParams) (severity : Severity) : Q :=
  match severity with
  | major => slashingRate params
  | minor => JS.mul (slashingRate params) (JS.lit 0.5)
  end.

(** [executeSlashing(fpId, reason)] at clock reading [nowMs], [draw] being
    the value of [Math.random()].

    The guard [if (!fp)] lets through whatever is truthy. For an id that
    names a member of [Object.prototype] the loop slashes the positions
    that name the same id, the writes of [totalDelegated] and [reputation]
    put [NaN] on that member (which shows only for [__proto__]), and
    [fp.slashingHistory.push] throws, [slashingHistory] being [undefined]
    there: [networkStats.totalSlashed] is not reached. *)
Definition executeSlashing (nowMs : Z) (draw : Q) (fpId reason : string)
    (w : t) : t * Completion :=
  match JS.read (finalityProviders w) fpId with
  | JS.Absent => (w, Returned)
  | found =>
      let severity := severityOf draw in
      let rate := slashingRateFor (stakingParams w) severity in
      let currentTime := nowMs / 1000 in
      let '(stakers, totalSlashed') :=
        slashLoop fpId reason severity rate currentTime (activeStakers w) 0 in
      let w1 := with_activeStakers w stakers in
      if stakers_loop_throws w then (w1, TypeError)
      else
        match found with
        | JS.Own fp =>
            let fp' :=
              fp_slashed fp
                (totalDelegated fp - totalSlashed')
                (JS.Math_max 10 (JS.sub (reputation fp) 10))
                {| fse_amount := totalSlashed'; fse_reason := reason;
                   fse_severity := severity; fse_timestamp := currentTime;
                   fse_affectedDelegators :=
                     Z.of_nat (length (JS.keys (activeStakers w))) |} in
            (with_networkStats
               (with_finalityProviders w1
                  (JS.set (finalityProviders w) fpId fp'))
               (ns_with_totalSlashed (networkStats w)
                  (totalSlashed (networkStats w) + totalSlashed')),
             Returned)
        | _ =>
            (if String.eqb fpId "__proto__"
             then with_objectPrototype w1 ["totalDelegated"; "reputation"]
             else w1,
             TypeError)
        end
  end.

(** ** Rewards *)

(** Milliseconds in a year: [365.25 * 24 * 3600 * 1000]. *)
Definition msPerYear : Q :=
  JS.mul (JS.mul (JS.mul (JS.lit 365.25) 24) 3600) 1000.

(** [calculateRewards(position)] at clock reading [nowMs]. With
    [position.timestamp] undefined every number below is [NaN], and so is
    the multiplier when the provider id names a member of
    [Object.prototype]: [None]. *)
Definition calculateRewards (params : StakingParams)
    (fps : JS.object FinalityProvider) (nowMs : Z) (position : StakingPosition)
  : option Z :=
  match timestamp position with
  | None => None
  | Some start =>
      let timeSinceStart := nowMs - start in
      let timeRatio := JS.div (inject_Z timeSinceStart) msPerYear in
      let baseRewards :=
        JS.mul (JS.mul (inject_Z (amount position)) (baseRewardRate params))
               timeRatio in
      match JS.read fps (finalityProvider position) with
      | JS.Own fp =>
          let multiplier := JS.mul (JS.lit 1.0) (JS.div (reputation fp) 100) in
          let multiplier :=
            JS.mul multiplier (JS.Math_max (JS.lit 0.8) (JS.div (uptime fp) 100)) in
          Some (JS.Math_floor (JS.mul baseRewards multiplier))
      | JS.Builtin => None
      | JS.Absent => Some (JS.Math_floor (JS.mul baseRewards (JS.lit 1.0)))
      end
  end.

(** The body of the loop of [distributeStakingRewards] for one position:
    the position and the providers after the step, and the reward paid.
    [rewardAmount > 0] is false of [NaN], so the commission is computed for
    own providers only. *)
Definition rewardPosition (params : StakingParams) (nowMs currentTime : Z)
    (position : StakingPosition) (fps : JS.object FinalityProvider)
  : StakingPosition * JS.object FinalityProvider * Z :=
  if is_active position && negb (isUnbonding position) then
    match calculateRewards params fps nowMs position with
    | Some rewardAmount =>
        if 0 <? rewardAmount then
          let position' :=
            pos_with_rewards position
              {| accumulated := accumulated (rewards position) + rewardAmount;
                 lastDistribution := currentTime;
                 annualRate := annualRate (rewards position) |} in
          let fpId := finalityProvider position in
          let fps' :=
            match JS.read fps fpId with
            | JS.Own fp =>
                let commission' :=
                  JS.Math_floor (JS.mul (inject_Z rewardAmount) (commission fp)) in
                JS.set fps fpId
                  (fp_with_commissionEarned fp (commissionEarned fp + commission'))
            | _ => fps
            end in
          (position', fps', rewardAmount)
        else (position, fps, 0)
    | None => (position, fps, 0)
    end
  else (position, fps, 0).

Fixpoint rewardLoop (params : StakingParams) (nowMs currentTime : Z)
    (ps : JS.object StakingPosition) (fps : JS.object FinalityProvider)
    (total : Z)
  : JS.object StakingPosition * JS.object FinalityProvider * Z :=
  match ps with
  | [] => ([], fps, total)
  | (k, position) :: rest =>
      let '(position', fps', rewardAmount) :=
        rewardPosition params nowMs currentTime position fps in
      let '(rest', fps'', total') :=
        rewardLoop params nowMs currentTime rest fps' (total + rewardAmount) in
      ((k, position') :: rest', fps'', total')
  end.

Record RewardRun := {
  run_totalRewardsDistributed : Z;
  stakersRewarded : Z
}.

(** [distributeStakingRewards()] at clock reading [nowMs]: the state it
    leaves and what it returns, [None] when the loop throws, which is
    before [networkStats.totalRewardsDistributed] is written. *)
Definition distributeStakingRewards (nowMs : Z) (w : t)
  : t * option RewardRun :=
  let currentTime := nowMs / 1000 in
  let '(stakers, fps, total) :=
    rewardLoop (stakingParams w) nowMs currentTime
               (activeStakers w) (finalityProviders w) 0 in
  let w1 := with_finalityProviders (with_activeStakers w stakers) fps in
  if stakers_loop_throws w then (w1, None)
  else
    (with_networkStats w1
       (ns_with_totalRewardsDistributed (networkStats w)
          (totalRewardsDistributed (networkStats w) + total)),
     Some
       {| run_totalRewardsDistributed := total;
          stakersRewarded :=
            Z.of_nat
              (length
                 (List.filter (fun '(_, p) => is_active p && negb (isUnbonding p))
                         stakers)) |}).

(** ** Sequences of engine calls

    [step w c] is the state call [c] leaves, whether it returned or
    threw. *)

Inductive call :=
| ExecuteSlashing (nowMs : Z) (draw : Q) (fpId reason : string)
| UpdateEpoch (rnd : nat -> Q)
| DistributeStakingRewards (nowMs : Z).

Definition step (w : t) (c : call) : t :=
  match c with
  | ExecuteSlashing nowMs draw fpId reason =>
      fst (executeSlashing nowMs draw fpId reason w)
  | UpdateEpoch rnd => fst (updateEpoch rnd w)
  | DistributeStakingRewards nowMs => fst (distributeStakingRewards nowMs w)
  end.

Definition run (w : t) (cs : list call) : t := fold_left step cs w.

End Watcher.

(* ===================================================================== *)
(** * EVMTrigger: the deposit relay controller *)
(* ===================================================================== *)

Module Trigger.

(** What [getDepositStatus] returns for a deposit the vault answered for. *)
Record DepositStatus := {
  ds_exists : bool;
  ds_processed : bool
}.

(** The arguments of [processBabylonDeposit]. [userAddress] is [undefined]
    when the scanner has no relayer key: [None]. *)
Record Deposit := {
  btcTxHash : string;
  userAddress : option string;
  amount : Z;
  unlockTime : Z;
  finalityProvider : string
}.

(** What the controller does, in the order done: the attempts of the retry
    loop (one per call of [processBabylonDeposit]), the queries and
    transactions it sends to the ledger, and the delays between attempts. *)
Inductive event :=
| ProcessingAttempt (attempt : Z)
| GetDeposit (txHash : string)
| IsFinalityProviderAuthorized (provider : string)
| GetBalance
| EstimateGasCosts (txHash : string)
| RegisterBabylonDeposit (d : Deposit)
| MintStBTC (txHash : string)
| LogUserBalance (user : option string)
| Sleep (ms : Z).

(** The ledger client and the host clock as the controller uses them. A
    transaction ([registerTx], [mintTx]) covers sending it and monitoring
    it to its receipt: [inl msg] is an error raised on the way, [inr s]
    the status of the receipt. [getDepositStatus] answers [None] and
    [isFinalityProviderAuthorized] answers [false] when the query fails;
    the balance query is taken to answer. *)
Class LedgerClient (W : Type) := {
  clock : W -> Z;
  sleep : Z -> W -> W;
  getDepositStatus : string -> W -> option DepositStatus;
  isFinalityProviderAuthorized : string -> W -> bool;
  getBalance : W -> Z;
  registerTx : Deposit -> W -> W * (string + Z);
  mintTx : string -> W -> W * (string + Z)
}.

(** ** Parameter checks *)

Definition is_hex_digit (c : ascii) : bool :=
  let n := nat_of_ascii c in
  ((48 <=? n) && (n <=? 57) || (97 <=? n) && (n <=? 102)
   || (65 <=? n) && (n <=? 70))%nat.

Fixpoint all_chars (f : ascii -> bool) (s : string) : bool :=
  match s with
  | EmptyString => true
  | String c s' => f c && all_chars f s'
  end.

(** [/^[a-fA-F0-9]{64}$/.test(s)]. *)
Definition isRealHash (s : string) : bool :=
  (String.length s =? 64)%nat && all_chars is_hex_digit s.

Definition isTestHash (s : string) : bool :=
  JS.startsWith s "test_"
  || JS.startsWith s "duplicate_test_"
  || JS.startsWith s "integration_test_"
  || JS.startsWith s "perf_test_".

Definition validAddress (a : option string) : bool :=
  match a with
  | None => false
  | Some a =>
      negb (String.eqb a "") && JS.startsWith a "0x"
      && (String.length a =? 42)%nat
  end.

Definition maxAmount : Z := 21000000 * 100000000.

(** [new Date(ms).toISOString()] throws outside the range of dates. *)
Definition validDate (ms : Z) : bool := Z.abs ms <=? 8640000000000000.

(** [parseEther("0.005")]. *)
Definition minBalance : Z := 5000000000000000.

Record Outcome := {
  success : bool;
  error : option string;
  attempts : option Z
}.

Section Controller.

Context {W : Type} `{LedgerClient W}.

(** A computation of the controller: it reads and changes the world,
    extends the trace and returns a value or raises an [Error]. *)
Definition M (A : Type) : Type :=
  W * list event -> (W * list event) * (string + A).

Definition ret {A} (a : A) : M A := fun s => (s, inr a).

Definition throw {A} (msg : string) : M A := fun s => (s, inl msg).

Definition bind {A B} (m : M A) (k : A -> M B) : M B :=
  fun s =>
    let '(s', r) := m s in
    match r with
    | inl e => (s', inl e)
    | inr a => k a s'
    end.

Definition emit (e : event) : M unit :=
  fun '(w, tr) => ((w, (tr ++ [e])%list), inr tt).

Definition ask {A} (f : W -> A) : M A :=
  fun '(w, tr) => ((w, tr), inr (f w)).

Definition act {A} (f : W -> W * (string + A)) : M A :=
  fun '(w, tr) => let '(w', r) := f w in ((w', tr), r).

(** [if (c) throw new Error(msg)]. *)
Definition throw_if (c : bool) (msg : string) : M unit :=
  if c then throw msg else ret tt.

(** [try { m } catch (error) { handler(error.message) }]. *)
Definition try_catch {A} (m : M A) (handler : string -> M A) : M A :=
  fun s =>
    let '(s', r) := m s in
    match r with
    | inl e => handler e s'
    | inr a => (s', inr a)
    end.

Definition update (f : W -> W) : M unit :=
  fun '(w, tr) => ((f w, tr), inr tt).

Notation "x <- m ;; k" := (bind m (fun x => k))
  (at level 100, m at next level, right associativity).
Notation "m ;;; k" := (bind m (fun _ => k))
  (at level 100, right associativity).

(** ** validateDepositBeforeProcessing

    The function's own [catch] logs the error and throws it again. The
    gas estimate of step 5 is asked for and its failure ignored. The
    message of the balance check ends with the formatted balance, left
    out here. *)
Definition validateDepositBeforeProcessing (d : Deposit) : M bool :=
  emit (GetDeposit (btcTxHash d)) ;;;
  existingDeposit <- ask (getDepositStatus (btcTxHash d)) ;;
  throw_if
    match existingDeposit with
    | Some e => ds_exists e && ds_processed e
    | None => false
    end
    ("Deposit already processed: " ++ btcTxHash d) ;;;
  throw_if (String.eqb (btcTxHash d) "") "Invalid Bitcoin transaction hash" ;;;
  throw_if (negb (isRealHash (btcTxHash d)) && negb (isTestHash (btcTxHash d)))
           "Invalid Bitcoin transaction hash" ;;;
  throw_if (negb (validAddress (userAddress d)))
           "Invalid Ethereum user address" ;;;
  throw_if ((amount d =? 0) || (amount d <=? 0) || (maxAmount <? amount d))
           "Invalid amount" ;;;
  now <- ask clock ;;
  throw_if ((unlockTime d =? 0) || (unlockTime d <=? now))
           "Invalid unlock time - must be in the future" ;;;
  emit (IsFinalityProviderAuthorized (finalityProvider d)) ;;;
  isAuthorized <- ask (isFinalityProviderAuthorized (finalityProvider d)) ;;
  throw_if (negb isAuthorized)
           ("Finality provider not authorized: " ++ finalityProvider d) ;;;
  emit GetBalance ;;;
  balance <- ask getBalance ;;
  throw_if (balance <? minBalance) "Insufficient ETH balance for gas" ;;;
  emit (EstimateGasCosts (btcTxHash d)) ;;;
  ret true.

(** ** processBabylonDeposit

    The log lines at the top format [unlockTime] as a date, which throws
    for a time outside the range of dates; the [catch] turns every error
    into a failed outcome. *)
Definition processBabylonDeposit (d : Deposit) : M Outcome :=
  try_catch
    (throw_if (negb (validDate (unlockTime d * 1000))) "Invalid time value" ;;;
     validateDepositBeforeProcessing d ;;;
     emit (RegisterBabylonDeposit d) ;;;
     registerStatus <- act (registerTx d) ;;
     throw_if (negb (registerStatus =? 1)) "Registration transaction failed" ;;;
     emit (MintStBTC (btcTxHash d)) ;;;
     mintStatus <- act (mintTx (btcTxHash d)) ;;
     throw_if (negb (mintStatus =? 1)) "Minting transaction failed" ;;;
     emit (LogUserBalance (userAddress d)) ;;;
     ret {| success := true; error := None; attempts := None |})
    (fun msg =>
       ret {| success := false; error := Some msg; attempts := None |}).

(** ** processBabylonDepositWithRetry

    [remaining] counts the iterations the [for] loop has left, [attempt]
    is its loop variable. *)
Fixpoint retryLoop (remaining : nat) (attempt maxRetries : Z) (d : Deposit)
    (lastError : option string) : M Outcome :=
  match remaining with
  | O =>
      match lastError with
      | Some msg =>
          ret {| success := false;
                 error := Some ("All retry attempts failed: " ++ msg);
                 attempts := Some maxRetries |}
      | None => throw "Cannot read properties of null (reading 'message')"
      end
  | S k =>
      emit (ProcessingAttempt attempt) ;;;
      result <- processBabylonDeposit d ;;
      if success result then ret result
      else
        let msg := default "" (error result) in
        (if attempt <? maxRetries
         then
           let delay := Z.min (1000 * 2 ^ (attempt - 1)) 10000 in
           emit (Sleep delay) ;;; update (sleep delay)
         else ret tt) ;;;
        retryLoop k (attempt + 1) maxRetries d (Some msg)
  end.

Definition processBabylonDepositWithRetry (d : Deposit) (maxRetries : nat)
  : M Outcome :=
  retryLoop maxRetries 1 (Z.of_nat maxRetries) d None.

(** Runs a computation from world [w] with an empty trace. *)
Definition exec {A} (m : M A) (w : W) : (W * list event) * (string + A) :=
  m (w, []).

End Controller.

(** ** Reading traces *)

Definition is_attempt (e : event) : bool :=
  match e with ProcessingAttempt _ => true | _ => false end.

Definition is_register (e : event) : bool :=
  match e with RegisterBabylonDeposit _ => true | _ => false end.

Definition is_mint (e : event) : bool :=
  match e with MintStBTC _ => true | _ => false end.

Definition count (f : event -> bool) (tr : list event) : nat :=
  length (List.filter f tr).

(** The register and mint transactions and the read-only queries go to the
    ledger; attempts and delays are the controller's own. *)
Definition is_chain_call (e : event) : bool :=
  match e with
  | ProcessingAttempt _ | Sleep _ => false
  | _ => true
  end.

(** The parameter checks of [validateDepositBeforeProcessing] that do not
    depend on the clock: transaction id, user address and amount. *)
Definition paramsWellFormed (d : Deposit) : Prop :=
  btcTxHash d <> ""
  /\ isRealHash (btcTxHash d) || isTestHash (btcTxHash d) = true
  /\ validAddress (userAddress d) = true
  /\ 0 < amount d <= maxAmount.

(** The parameters [validateDepositBeforeProcessing] lets through at host
    time [now]. *)
Definition paramsAccepted (now : Z) (d : Deposit) : Prop :=
  paramsWellFormed d /\ now < unlockTime d.

(** The vault has not yet minted for the deposit, as far as
    [getDepositStatus] tells. *)
Definition notYetProcessed {W} `{LedgerClient W} (d : Deposit) (w : W) : Prop :=
  match getDepositStatus (btcTxHash d) w with
  | Some e => ds_exists e && ds_processed e
  | None => false
  end = false.

(** ** A ledger client backed by the Vault model

    The world of a relayer in front of a node that mines each transaction
    it accepts in a block of its own.
    - The relayer's clock ([hostTime], read by the local checks) and the
      clock of the node ([blockTime], the timestamp the next block gets,
      read by the contracts as [block.timestamp]) are two clocks.
    - [registerGas] and [mintGas] are the gas the node needs to run the
      register and the mint transaction, [gasPrice] is the price of gas
      (legacy pricing). The controller sends both with [gasLimit: 500000]:
      the node refuses a transaction the balance cannot cover at that
      limit, a transaction that needs more than the limit fails, and every
      mined transaction, reverted or not, is paid for.
    - [checksummed a] tells whether the mixed-case spelling [a] of an
      address carries its EIP-55 checksum, which ethers requires of an
      address written in mixed case.
    A transaction that fails raises its reason, on sending or on
    monitoring. *)

Record VaultWorld := {
  chain : Vault.chain;
  relayer : Vault.address;
  hostTime : Z;
  blockTime : Z;
  ethBalance : Z;
  gasPrice : Z;
  registerGas : Z;
  mintGas : Z;
  checksummed : string -> bool
}.

Definition hex_value (c : ascii) : option Z :=
  let n := Z.of_nat (nat_of_ascii c) in
  if (48 <=? n) && (n <=? 57) then Some (n - 48)
  else if (97 <=? n) && (n <=? 102) then Some (n - 87)
  else if (65 <=? n) && (n <=? 70) then Some (n - 55)
  else None.

Fixpoint parse_hex (s : string) (acc : Z) : option Z :=
  match s with
  | EmptyString => Some acc
  | String c s' =>
      match hex_value c with
      | Some v => parse_hex s' (16 * acc + v)
      | None => None
      end
  end.

(** [/[a-f]/] and [/[A-F]/]. *)
Definition is_lower_hex_letter (c : ascii) : bool :=
  let n := nat_of_ascii c in ((97 <=? n) && (n <=? 102))%nat.

Definition is_upper_hex_letter (c : ascii) : bool :=
  let n := nat_of_ascii c in ((65 <=? n) && (n <=? 70))%nat.

Fixpoint any_char (f : ascii -> bool) (s : string) : bool :=
  match s with
  | EmptyString => false
  | String c s' => f c || any_char f s'
  end.

(** [/([A-F].*[a-f])|([a-f].*[A-F])/]. *)
Definition mixed_case (digits : string) : bool :=
  any_char is_lower_hex_letter digits && any_char is_upper_hex_letter digits.

(** The address ethers encodes for a ["0x..."] string of 42 characters:
    40 hex digits, all letters in one case or else spelled with the
    checksum. Any other string is taken for a name, which no resolver
    resolves. *)
Definition parse_address (checksummed : string -> bool) (a : option string)
  : option Vault.address :=
  match a with
  | Some (String "0" (String "x" digits) as a) =>
      if (String.length digits =? 40)%nat then
        if mixed_case digits && negb (checksummed a) then None
        else parse_hex digits 0
      else None
  | _ => None
  end.

Definition error_message (e : Vault.error) : string :=
  match e with
  | Vault.Revert reason => reason
  | Vault.Panic _ => "panic"
  end.

(** The gas limit the controller gives both transactions. *)
Definition gasLimit : Z := 500000.

(** The context of the next transaction the relayer sends. *)
Definition vault_context (w : VaultWorld) : Vault.context :=
  {| Vault.sender := relayer w; Vault.block_timestamp := blockTime w |}.

(** The world once a transaction of the relayer that used [gas] is mined
    and has left the contracts as [c]: the gas is paid and the next block
    is stamped later. *)
Definition mined (w : VaultWorld) (gas : Z) (c : Vault.chain) : VaultWorld :=
  {| chain := c; relayer := relayer w; hostTime := hostTime w;
     blockTime := blockTime w + 1;
     ethBalance := ethBalance w - gas * gasPrice w;
     gasPrice := gasPrice w; registerGas := registerGas w;
     mintGas := mintGas w; checksummed := checksummed w |}.

(** Sending a transaction that needs [gas] and following it to its
    receipt. *)
Definition vault_send (gas : Z)
    (tx : Vault.context -> Vault.chain -> Vault.error + Vault.chain)
    (w : VaultWorld) : VaultWorld * (string + Z) :=
  if ethBalance w <? gasLimit * gasPrice w
  then (w, inl "insufficient funds for intrinsic transaction cost")
  else if gasLimit <? gas
  then (mined w gasLimit (chain w), inl "Transaction failed: out of gas")
  else
    match tx (vault_context w) (chain w) with
    | inl e => (mined w gas (chain w), inl (error_message e))
    | inr c => (mined w gas c, inr 1)
    end.

Definition vault_registerTx (d : Deposit) (w : VaultWorld)
  : VaultWorld * (string + Z) :=
  match parse_address (checksummed w) (userAddress d) with
  | None => (w, inl "invalid address")
  | Some usr =>
      vault_send (registerGas w)
        (fun ctx c =>
           Vault.registerBabylonDeposit ctx c (btcTxHash d) usr (amount d)
             (unlockTime d) (finalityProvider d))
        w
  end.

Definition vault_mintTx (txHash : string) (w : VaultWorld)
  : VaultWorld * (string + Z) :=
  vault_send (mintGas w) (fun ctx c => Vault.mintStBTC ctx c txHash) w.

(** Time passes on both clocks. *)
Definition vault_sleep (ms : Z) (w : VaultWorld) : VaultWorld :=
  {| chain := chain w; relayer := relayer w;
     hostTime := hostTime w + ms / 1000;
     blockTime := blockTime w + ms / 1000;
     ethBalance := ethBalance w;
     gasPrice := gasPrice w; registerGas := registerGas w;
     mintGas := mintGas w; checksummed := checksummed w |}.

#[global] Instance vault_client : LedgerClient VaultWorld := {|
  clock := hostTime;
  sleep := vault_sleep;
  getDepositStatus := fun txHash w =>
    let deposit := Vault.getDeposit (chain w) txHash in
    Some {| ds_exists := 0 <? Vault.timestamp deposit;
            ds_processed := Vault.processed deposit |};
  isFinalityProviderAuthorized := fun provider w =>
    Vault.isFinalityProviderAuthorized (chain w) provider;
  getBalance := ethBalance;
  registerTx := vault_registerTx;
  mintTx := vault_mintTx
|}.

End Trigger.

(* ===================================================================== *)
(** * The formulas of the specification

    Written from the words of the specification, to be compared with what
    the engine computes. The products and quotients of a formula are those
    of the engine's numbers ([JS.mul], [JS.div]), taken from left to
    right. *)
(* ===================================================================== *)

Module Spec.

Import Watcher.

(** "floor((totalDelegated / unit) x (reputation/100) x (uptime/100) x 1000)",
    the unit being 100000000. *)
Definition votingPower (totalDelegated : Z) (reputation uptime : Q) : Z :=
  Qfloor
    (JS.mul
       (JS.mul
          (JS.mul (JS.div (inject_Z totalDelegated) 100000000)
                  (JS.div reputation 100))
          (JS.div uptime 100))
       1000).

(** The same formula over the rationals, nothing rounded. *)
Definition votingPower_exact (totalDelegated : Z) (reputation uptime : Q) : Z :=
  Qfloor ((inject_Z totalDelegated / 100000000)
          * (reputation / 100) * (uptime / 100) * 1000)%Q.

(** "elapsed time since last distribution, converted to a year fraction":
    both times in seconds, a year of 365.25 days. *)
Definition yearFraction (nowSec lastDistribution : Z) : Q :=
  JS.div (inject_Z (nowSec - lastDistribution))
         (JS.mul (JS.mul (JS.lit 365.25) 24) 3600).

(** "amount x baseAnnualRate x yearFraction, then multiply by a performance
    factor = (provider.reputation/100) x max(0.8, provider.uptime/100);
    floor to integer smallest-units". *)
Definition reward (amount : Z) (baseAnnualRate yearFraction reputation uptime : Q)
  : Z :=
  Qfloor
    (JS.mul
       (JS.mul (JS.mul (inject_Z amount) baseAnnualRate) yearFraction)
       (JS.mul (JS.div reputation 100)
               (Qmax (JS.lit 0.8) (JS.div uptime 100)))).

(** A reward run from [w] to [w'] at [nowMs] accrues, to every active
    position that is not unbonding, the reward for the time since its last
    distribution. *)
Definition accrues_since_last_distribution (nowMs : Z) (w w' : Watcher.t) : Prop :=
  forall k p fp,
    JS.get (activeStakers w) k = Some p ->
    is_active p = true ->
    isUnbonding p = false ->
    JS.get (finalityProviders w) (finalityProvider p) = Some fp ->
    exists p',
      JS.get (activeStakers w') k = Some p'
      /\ accumulated (rewards p')
         = accumulated (rewards p)
           + reward (amount p) (baseRewardRate (stakingParams w))
                    (yearFraction (nowMs / 1000) (lastDistribution (rewards p)))
                    (reputation fp) (uptime fp).

(** The run advances the last-distribution timestamp of every such
    position to now. *)
Definition advances_last_distribution (nowMs : Z) (w w' : Watcher.t) : Prop :=
  forall k p,
    JS.get (activeStakers w) k = Some p ->
    is_active p = true ->
    isUnbonding p = false ->
    exists p',
      JS.get (activeStakers w') k = Some p'
      /\ lastDistribution (rewards p') = nowMs / 1000.

(** "For every active position delegated to that provider: reduce amount
    by floor(amount x slashingRate)": the amount of position [p] after a
    slashing of provider [fpId] at [rate]. *)
Definition slashedAmount (fpId : string) (rate : Q) (p : StakingPosition) : Z :=
  if String.eqb (finalityProvider p) fpId && is_active p
  then amount p - Qfloor (JS.mul (inject_Z (amount p)) rate)
  else amount p.

(** NetworkStats recomputed from the live collections. *)
Definition sum_Z (xs : list Z) : Z := fold_right Z.add 0 xs.

(** The average of numbers: their sum, taken in order, over their count. *)
Definition average (xs : list Q) : Q :=
  JS.div (fold_left JS.add xs 0%Q) (inject_Z (Z.of_nat (length xs))).

Definition activePositions (w : Watcher.t) : list StakingPosition :=
  List.filter is_active (JS.values (activeStakers w)).

Definition activeProviders (w : Watcher.t) : list FinalityProvider :=
  List.filter isActive (JS.values (finalityProviders w)).

(** "totalStaked = sum of active position amounts, totalDelegators = count
    of active positions, activeFinality = count of active providers,
    averageCommission and networkUptime = averages over active providers"
    (the averages are read only when there is an active provider). *)
Definition stats_recomputed (w : Watcher.t) : Prop :=
  let ns := networkStats w in
  totalStaked ns = sum_Z (map amount (activePositions w))
  /\ totalDelegators ns = Z.of_nat (length (activePositions w))
  /\ activeFinality ns = Z.of_nat (length (activeProviders w))
  /\ (activeProviders w <> [] ->
      (averageCommission ns == average (map commission (activeProviders w)))%Q
      /\ (networkUptime ns == average (map uptime (activeProviders w)))%Q).

(** "A validation error is terminal and is not retried": the failed unit
    is attempted once. *)
Definition not_retried (tr : list Trigger.event) : Prop :=
  Trigger.count Trigger.is_attempt tr = 1%nat.

(** "No chain call made". *)
Definition no_chain_call (tr : list Trigger.event) : Prop :=
  Trigger.count Trigger.is_chain_call tr = 0%nat.

(** The destination chain's address format: 0x followed by 40 hex
    characters. *)
Definition evm_address (a : string) : bool :=
  match a with
  | String "0" (String "x" digits) =>
      (String.length digits =? 40)%nat
      && Trigger.all_chars Trigger.is_hex_digit digits
  | _ => false
  end.

(** The parameters the specification says are validated before the
    register operation is invoked, at host time [now]. *)
Definition paramsValid (now : Z) (d : Trigger.Deposit) : Prop :=
  Trigger.btcTxHash d <> ""
  /\ (Trigger.isRealHash (Trigger.btcTxHash d) = true
      \/ Trigger.isTestHash (Trigger.btcTxHash d) = true)
  /\ (exists a, Trigger.userAddress d = Some a /\ evm_address a = true)
  /\ 0 < Trigger.amount d < 21000000 * 10 ^ 8
  /\ now < Trigger.unlockTime d.

End Spec.

(* ===================================================================== *)
(** * binary64 cross-checks

    The expressions of the engine on the primitive binary64 numbers of the
    prover, to be compared with [Double.round64] at the inputs of the
    scenarios. *)
(* ===================================================================== *)

Module Binary64.

(** [Math.floor] of a finite binary64 number, as an integer. *)
Definition floor (x : float) : option Z :=
  match Prim2SF x with
  | S754_zero _ => Some 0
  | S754_finite s m e =>
      let mant := if s then Z.opp (Z.pos m) else Z.pos m in
      Some (Z.div (mant * 2 ^ Z.max e 0) (2 ^ Z.max (- e) 0))
  | _ => None
  end.

(** The rational a finite binary64 number denotes. *)
Definition value (x : float) : option Q :=
  match Prim2SF x with
  | S754_zero _ => Some 0%Q
  | S754_finite s m e =>
      let mant := if s then Z.opp (Z.pos m) else Z.pos m in
      Some (Qred (inject_Z mant * 2 ^ e)%Q)
  | _ => None
  end.

#[warnings="-inexact-float"]
Definition minorSlashingAmount (amount baseRate : float) : option Z :=
  floor (amount * (baseRate * 0.5))%float.

Definition votingPower (totalDelegated reputation uptime : float) : option Z :=
  floor ((totalDelegated / 100000000) * (reputation / 100)
         * (uptime / 100) * 1000)%float.

Definition votingPowerBasic (amount : float) : option Z :=
  floor (amount / 100000000 * 1 * 1000)%float.

#[warnings="-inexact-float"]
Definition reward (amount rate elapsedMs reputation uptime : float) : option Z :=
  let timeRatio := (elapsedMs / (365.25 * 24 * 3600 * 1000))%float in
  let baseRewards := (amount * rate * timeRatio)%float in
  let multiplier := (1 * (reputation / 100))%float in
  let u := (uptime / 100)%float in
  let multiplier := (multiplier * (if (u <? 0.8)%float then 0.8 else u))%float in
  floor (baseRewards * multiplier)%float.

End Binary64.

(* ===================================================================== *)
(** * Invariants of the ledger *)
(* ===================================================================== *)

Module Invariants.

Import Watcher.

(** Every position holds a non-negative amount. *)
Definition amounts_nonneg (w : Watcher.t) : Prop :=
  forall k p, In (k, p) (activeStakers w) -> 0 <= amount p.

(** Every amount is an integer binary64 holds: at most 2^53. *)
Definition amounts_safe (w : Watcher.t) : Prop :=
  forall k p, In (k, p) (activeStakers w) -> amount p <= 2 ^ 53.

(** The configured slashing rate is a fraction. *)
Definition rate_is_fraction (w : Watcher.t) : Prop :=
  (0 <= slashingRate (stakingParams w) <= 1)%Q.

(** Reputation within [10, 100] and uptime within [90, 100]. *)
Definition performance_bounded (fp : FinalityProvider) : Prop :=
  (10 <= reputation fp <= 100)%Q /\ (90 <= uptime fp <= 100)%Q.

Definition providers_bounded (w : Watcher.t) : Prop :=
  forall k fp, In (k, fp) (finalityProviders w) -> performance_bounded fp.

End Invariants.

(* ===================================================================== *)
(** * The scenarios of the specification *)
(* ===================================================================== *)

Module Scenario.

Import Watcher.

(** The clock reading at which the scenarios start, in milliseconds. *)
Definition t0 : Z := 1700000000000.

Definition year : Z := 31557600000.

(** One output of [value] satoshi, as the tests build their transactions. *)
Definition mockTx (id : string) (value : Z) : Tx :=
  {| txid := id; vout := [ {| value := value; addresses := ["bc1qtest"] |} ] |}.

(** The engine after [createStakingPosition(mockTx, fpId)] on a new
    watcher. *)
Definition delegated (id : string) (value : Z) (fpId : string) : Watcher.t :=
  match createStakingPosition t0 (mockTx id value) fpId constructor with
  | Some (_, w) => w
  | None => constructor
  end.

(** Scenario D: provider "fp1" with one active position of 100,000,000. *)
Definition scenarioD : Watcher.t := delegated "slashing_test_1" 100000000 "fp1".

(** A draw for which the severity is minor, and one for which it is major. *)
Definition minorDraw : Q := JS.lit 0.5.
Definition majorDraw : Q := JS.lit 0.9.

(** Scenario D after a reward run one year after the position was created. *)
Definition rewardedOnce : Watcher.t :=
  fst (distributeStakingRewards (t0 + year) scenarioD).

(** A position of one satoshi, too small to earn a reward in an hour. *)
Definition dust : Watcher.t := delegated "dust_test_1" 1 "fp1".

(** ** The relay scenarios

    A relayer (address 7) holding one ether, in front of the freshly
    deployed contracts, at host time 1,700,000,000; the node's clock is
    twelve seconds ahead, gas costs one gwei, and the user address of the
    scenarios carries its checksum. *)
Definition world : Trigger.VaultWorld :=
  {| Trigger.chain := Vault.deployed 100 1 7;
     Trigger.relayer := 7;
     Trigger.hostTime := 1700000000;
     Trigger.blockTime := 1700000012;
     Trigger.ethBalance := 10 ^ 18;
     Trigger.gasPrice := 10 ^ 9;
     Trigger.registerGas := 180000;
     Trigger.mintGas := 120000;
     Trigger.checksummed :=
       String.eqb "0x70997970C51812dc3A010C7d01b50e0d17dc79C8" |}.

(** Scenario A as a deposit: 250,000,000 satoshi unlocking in a day. *)
Definition deposit : Trigger.Deposit :=
  {| Trigger.btcTxHash := "test_tx_1";
     Trigger.userAddress := Some "0x70997970C51812dc3A010C7d01b50e0d17dc79C8";
     Trigger.amount := 250000000;
     Trigger.unlockTime := 1700000000 + 86400;
     Trigger.finalityProvider := "fp1" |}.

(** Scenario B: the unlock time is in the past. *)
Definition pastUnlock : Trigger.Deposit :=
  {| Trigger.btcTxHash := "test_tx_1";
     Trigger.userAddress := Some "0x70997970C51812dc3A010C7d01b50e0d17dc79C8";
     Trigger.amount := 250000000;
     Trigger.unlockTime := 1700000000 - 1;
     Trigger.finalityProvider := "fp1" |}.

(** A user address of 42 characters starting with 0x that is not hex. *)
Definition badAddress : Trigger.Deposit :=
  {| Trigger.btcTxHash := "test_tx_1";
     Trigger.userAddress := Some "0xZZZZZZZZZZZZZZZZZZZZZZZZZZZZZZZZZZZZZZZZ";
     Trigger.amount := 250000000;
     Trigger.unlockTime := 1700000000 + 86400;
     Trigger.finalityProvider := "fp1" |}.

(** An amount equal to the ceiling of 21,000,000 x 10^8. *)
Definition atCeiling : Trigger.Deposit :=
  {| Trigger.btcTxHash := "test_tx_1";
     Trigger.userAddress := Some "0x70997970C51812dc3A010C7d01b50e0d17dc79C8";
     Trigger.amount := 2100000000000000;
     Trigger.unlockTime := 1700000000 + 86400;
     Trigger.finalityProvider := "fp1" |}.

(** An empty transaction id. *)
Definition noHash : Trigger.Deposit :=
  {| Trigger.btcTxHash := "";
     Trigger.userAddress := Some "0x70997970C51812dc3A010C7d01b50e0d17dc79C8";
     Trigger.amount := 250000000;
     Trigger.unlockTime := 1700000000 + 86400;
     Trigger.finalityProvider := "fp1" |}.

(** The world once [deposit] is registered with the vault and not minted. *)
Definition registeredWorld : Trigger.VaultWorld :=
  fst (Trigger.vault_registerTx deposit world).

(** The trace of a computation of the controller run from [w]. *)
Definition trace_of {A} (m : Trigger.M A) (w : Trigger.VaultWorld)
  : list Trigger.event :=
  snd (fst (Trigger.exec m w)).

Definition outcome_of {A} (m : Trigger.M A) (w : Trigger.VaultWorld)
  : string + A :=
  snd (Trigger.exec m w).

End Scenario.

(* ===================================================================== *)
(** * The other functions of the contracts *)
(* ===================================================================== *)

Module VaultCalls.

Import Vault.

(** Checked subtraction of Solidity 0.8: underflow is [Panic(0x11)]. *)
Definition checked_sub (a b : Z) : result Z :=
  if b <=? a then ok (a - b) else inl (Panic 17).

(** ** StBTC: burn and the list of authorized minters *)

(** [ERC20._burn] of the token's base contract (OpenZeppelin 4.9, the
    version package.json asks for): the balance is checked, the two
    subtractions are unchecked and wrap around. *)
Definition _burn (t : StBTC) (account : address) (amount : Z) : result StBTC :=
  require (negb (account =? 0)) "ERC20: burn from the zero address" ;;;
  let accountBalance := balanceOf t account in
  require (amount <=? accountBalance) "ERC20: burn amount exceeds balance" ;;;
  ok {| token_owner := token_owner t;
        token_paused := token_paused t;
        authorized := authorized t;
        balances := <[account := accountBalance - amount]> (balances t);
        totalSupply := (totalSupply t - amount) mod 2 ^ 256 |}.

Definition burn (t : StBTC) (caller from : address) (amount : Z) : result StBTC :=
  onlyAuthorized t caller ;;;
  require (negb (token_paused t)) "Pausable: paused" ;;;
  _burn t from amount.

Definition token_onlyOwner (t : StBTC) (caller : address) : result unit :=
  require (caller =? token_owner t) "Ownable: caller is not the owner".

Definition set_authorized (t : StBTC) (account : address) (b : bool) : StBTC :=
  {| token_owner := token_owner t;
     token_paused := token_paused t;
     authorized := <[account := b]> (authorized t);
     balances := balances t;
     totalSupply := totalSupply t |}.

Definition addAuthorized (t : StBTC) (caller account : address) : result StBTC :=
  token_onlyOwner t caller ;;;
  ok (set_authorized t account true).

Definition removeAuthorized (t : StBTC) (caller account : address)
  : result StBTC :=
  token_onlyOwner t caller ;;;
  ok (set_authorized t account false).

Definition token_set_paused (t : StBTC) (b : bool) : StBTC :=
  {| token_owner := token_owner t;
     token_paused := b;
     authorized := authorized t;
     balances := balances t;
     totalSupply := totalSupply t |}.

(** [StBTC.pause()] and [StBTC.unpause()]. *)
Definition token_pause (t : StBTC) (caller : address) : result StBTC :=
  token_onlyOwner t caller ;;;
  require (negb (token_paused t)) "Pausable: paused" ;;;
  ok (token_set_paused t true).

Definition token_unpause (t : StBTC) (caller : address) : result StBTC :=
  token_onlyOwner t caller ;;;
  require (token_paused t) "Pausable: not paused" ;;;
  ok (token_set_paused t false).

(** ** Vault: providers, pausing and withdrawal *)

Definition onlyOwner (c : chain) (ctx : context) : result unit :=
  require (sender ctx =? owner (vault c)) "Ownable: caller is not the owner".

Definition set_provider (c : chain) (provider : string) (b : bool) : chain :=
  {| vault_address := vault_address c;
     vault :=
       {| owner := owner (vault c);
          paused := paused (vault c);
          deposits := deposits (vault c);
          userBalances := userBalances (vault c);
          authorizedFinalityProviders :=
            <[provider := b]> (authorizedFinalityProviders (vault c));
          totalDeposits := totalDeposits (vault c) |};
     stBTC := stBTC c |}.

Definition authorizeFinalityProvider (ctx : context) (c : chain)
    (provider : string) : result chain :=
  onlyOwner c ctx ;;;
  ok (set_provider c provider true).

Definition deauthorizeFinalityProvider (ctx : context) (c : chain)
    (provider : string) : result chain :=
  onlyOwner c ctx ;;;
  ok (set_provider c provider false).

Definition set_paused (c : chain) (b : bool) : chain :=
  {| vault_address := vault_address c;
     vault :=
       {| owner := owner (vault c);
          paused := b;
          deposits := deposits (vault c);
          userBalances := userBalances (vault c);
          authorizedFinalityProviders := authorizedFinalityProviders (vault c);
          totalDeposits := totalDeposits (vault c) |};
     stBTC := stBTC c |}.

(** [pause()]: [Pausable._pause] runs only when not paused. *)
Definition pause (ctx : context) (c : chain) : result chain :=
  onlyOwner c ctx ;;;
  whenNotPaused c ;;;
  ok (set_paused c true).

(** [unpause()]: [Pausable._unpause] runs only when paused. *)
Definition unpause (ctx : context) (c : chain) : result chain :=
  onlyOwner c ctx ;;;
  require (paused (vault c)) "Pausable: not paused" ;;;
  ok (set_paused c false).

Definition requestWithdrawal (ctx : context) (c : chain) (amount : Z)
    (btcAddress : string) : result chain :=
  whenNotPaused c ;;;
  require (0 <? amount) "Invalid amount" ;;;
  require (0 <? Z.of_nat (String.length btcAddress)) "Invalid Bitcoin address" ;;;
  require (amount <=? balanceOf (stBTC c) (sender ctx)) "Insufficient balance" ;;;
  require (amount <=? userBalance c (sender ctx)) "Insufficient vault balance" ;;;
  token <- burn (stBTC c) (vault_address c) (sender ctx) amount ;;
  newBalance <- checked_sub (userBalance c (sender ctx)) amount ;;
  newTotal <- checked_sub (totalDeposits (vault c)) amount ;;
  ok {| vault_address := vault_address c;
        vault :=
          {| owner := owner (vault c);
             paused := paused (vault c);
             deposits := deposits (vault c);
             userBalances := <[sender ctx := newBalance]> (userBalances (vault c));
             authorizedFinalityProviders := authorizedFinalityProviders (vault c);
             totalDeposits := newTotal |};
        stBTC := token |}.

(** ** Sequences of transactions *)

(** The functions the two contracts declare, as transactions. The functions
    they inherit (the ERC20 transfers and allowances of the token, the
    transfer and renouncing of ownership of [Ownable]) are not among
    them. *)
Inductive call :=
| Register (txHash : string) (usr : address) (amt unlock : Z) (provider : string)
| Mint (txHash : string)
| Withdraw (amount : Z) (btcAddress : string)
| AuthorizeProvider (provider : string)
| DeauthorizeProvider (provider : string)
| Pause
| Unpause
| TokenMint (to : address) (amount : Z)
| TokenBurn (from : address) (amount : Z)
| TokenAddAuthorized (account : address)
| TokenRemoveAuthorized (account : address)
| TokenPause
| TokenUnpause.

Definition with_token (c : chain) (t : StBTC) : chain :=
  {| vault_address := vault_address c; vault := vault c; stBTC := t |}.

Definition perform (ctx : context) (c : chain) (k : call) : result chain :=
  match k with
  | Register txHash usr amt unlock provider =>
      registerBabylonDeposit ctx c txHash usr amt unlock provider
  | Mint txHash => mintStBTC ctx c txHash
  | Withdraw amount btcAddress => requestWithdrawal ctx c amount btcAddress
  | AuthorizeProvider provider => authorizeFinalityProvider ctx c provider
  | DeauthorizeProvider provider => deauthorizeFinalityProvider ctx c provider
  | Pause => pause ctx c
  | Unpause => unpause ctx c
  | TokenMint to amount =>
      t <- mint (stBTC c) (sender ctx) to amount ;; ok (with_token c t)
  | TokenBurn from amount =>
      t <- burn (stBTC c) (sender ctx) from amount ;; ok (with_token c t)
  | TokenAddAuthorized account =>
      t <- addAuthorized (stBTC c) (sender ctx) account ;; ok (with_token c t)
  | TokenRemoveAuthorized account =>
      t <- removeAuthorized (stBTC c) (sender ctx) account ;; ok (with_token c t)
  | TokenPause => t <- token_pause (stBTC c) (sender ctx) ;; ok (with_token c t)
  | TokenUnpause => t <- token_unpause (stBTC c) (sender ctx) ;; ok (with_token c t)
  end.

(** A transaction that aborts leaves the chain as it was. *)
Definition step (c : chain) (tx : context * call) : chain :=
  match perform (fst tx) c (snd tx) with
  | inr c' => c'
  | inl _ => c
  end.

Definition run (c : chain) (txs : list (context * call)) : chain :=
  fold_left step txs c.

(** ** Invariants *)

Definition sum_values (m : gmap address Z) : Z :=
  map_fold (fun _ v acc => v + acc) 0 m.

(** The arguments of a call are uint256 values. *)
Definition uint256 (x : Z) : Prop := 0 <= x <= MAX_UINT256.

Definition well_typed (k : call) : Prop :=
  match k with
  | Register _ _ amt unlock _ => uint256 amt /\ uint256 unlock
  | Withdraw amount _ | TokenMint _ amount | TokenBurn _ amount => uint256 amount
  | _ => True
  end.

(** The vault's books: no negative balance or deposit, and the total of
    deposits is the sum of the user balances. *)
Definition vault_books (c : chain) : Prop :=
  (forall a v, userBalances (vault c) !! a = Some v -> 0 <= v)
  /\ (forall t d, deposits (vault c) !! t = Some d -> 0 <= amount d)
  /\ totalDeposits (vault c) = sum_values (userBalances (vault c)).

(** The token's books: no negative balance, and a supply within uint256
    that is the sum of the balances. *)
Definition token_books (t : StBTC) : Prop :=
  (forall a v, balances t !! a = Some v -> 0 <= v)
  /\ totalSupply t = sum_values (balances t)
  /\ totalSupply t <= MAX_UINT256.

(** Deposit [d'] is deposit [d] with, at most, [processed] turned on. *)
Definition same_deposit (d d' : BabylonDeposit) : Prop :=
  user d' = user d /\ amount d' = amount d /\ btcTxHash d' = btcTxHash d
  /\ unlockTime d' = unlockTime d /\ finalityProvider d' = finalityProvider d
  /\ timestamp d' = timestamp d
  /\ (processed d = true -> processed d' = true).

End VaultCalls.

(* ===================================================================== *)
(** * Transactions on the deployed contracts *)
(* ===================================================================== *)

Module Ledger.

Import Vault VaultCalls.

(** The contracts as deployed: the vault at address 100, the token owned by
    account 1, the relayer at account 7. *)
Definition genesis : chain := deployed 100 1 7.

Definition user1 : address := 42.

(** Scenario A sent to the contracts, followed by a withdrawal of one token
    by the user, a provider taken off the list, and a mint that a stranger
    attempts on the token. *)
Definition txs : list (context * call) :=
  [ (call_from 7 1700000000,
     Register "test_tx_1" user1 250000000 (1700000000 + 86400) "fp1");
    (call_from 7 1700000012, Mint "test_tx_1");
    (call_from user1 1700000024, Withdraw (10 ^ 18) "bc1qexample");
    (call_from 7 1700000036, DeauthorizeProvider "fp1");
    (call_from 9 1700000048, TokenMint 9 5) ].

(** The chain once scenario A's deposit is registered, and once minted. *)
Definition registered : chain := run genesis (firstn 1 txs).

Definition minted : chain := run genesis (firstn 2 txs).

(** What the relayer and the user may send afterwards. *)
Definition later : list (context * call) :=
  [ (call_from 7 1700000012, Mint "test_tx_1");
    (call_from 7 1700000024,
     Register "test_tx_1" 43 1 (1700000000 + 86400) "fp2");
    (call_from 7 1700000036, Pause);
    (call_from 7 1700000048, Unpause);
    (call_from user1 1700000060, Withdraw (10 ^ 18) "bc1qexample");
    (call_from 7 1700000072, Mint "test_tx_1") ].

End Ledger.

(* ===================================================================== *)
(** * The staking engine: its other entry points *)
(* ===================================================================== *)

Module WatcherCalls.

Import Watcher.

(** ** getStats *)

Record StakingStats := {
  totalActivePositions : Z;
  totalActiveStake : Z;
  averageStakeAmount : Q;
  ss_totalRewardsDistributed : Z
}.

Record Stats := {
  st_networkStats : NetworkStats;
  stakingStats : StakingStats;
  st_finalityProviders : JS.object FinalityProvider;
  st_currentEpoch : Z
}.

Definition getStats (w : t) : Stats :=
  let activePositions := List.filter is_active (JS.values (activeStakers w)) in
  let totalActiveStake :=
    fold_left (fun sum p => sum + amount p) activePositions 0 in
  let n := Z.of_nat (length activePositions) in
  {| st_networkStats := networkStats w;
     stakingStats :=
       {| totalActivePositions := n;
          totalActiveStake := totalActiveStake;
          averageStakeAmount :=
            if 0 <? n then JS.div (inject_Z totalActiveStake) (inject_Z n)
            else 0%Q;
          ss_totalRewardsDistributed :=
            totalRewardsDistributed (networkStats w) |};
     st_finalityProviders := finalityProviders w;
     st_currentEpoch := currentEpoch w |}.

Definition getStakingStats (w : t) : Stats := getStats w.

(** ** Sequences of calls that create positions as well

    [step w c] is the state call [c] leaves. A [createStakingPosition]
    that throws (no output to read the value from) has written nothing. *)
Inductive call :=
| Engine (c : Watcher.call)
| CreateStakingPosition (nowMs : Z) (mockTx : Tx) (fpId : string).

Definition step (w : t) (c : call) : t :=
  match c with
  | Engine c => Watcher.step w c
  | CreateStakingPosition nowMs mockTx fpId =>
      match createStakingPosition nowMs mockTx fpId w with
      | Some (_, w') => w'
      | None => w
      end
  end.

Definition run (w : t) (cs : list call) : t := fold_left step cs w.

End WatcherCalls.

(* ===================================================================== *)
(** * Stakes, penalties and delegations, summed *)
(* ===================================================================== *)

Module Stakes.

Import Watcher WatcherCalls.

(** The sum of [f] over the positions of an object. *)
Fixpoint total (f : StakingPosition -> Z) (ps : JS.object StakingPosition) : Z :=
  match ps with
  | [] => 0
  | (_, p) :: rest => f p + total f rest
  end.

Definition penalty (p : StakingPosition) : Z := penaltyAmount (slashing p).

Definition accrued (p : StakingPosition) : Z := accumulated (rewards p).

(** The positions a slashing of [fpId] takes from. *)
Definition delegates_to (fpId : string) (p : StakingPosition) : bool :=
  String.eqb (finalityProvider p) fpId && is_active p.

Definition delegated_to (fpId : string) (ps : JS.object StakingPosition) : Z :=
  total (fun p => if delegates_to fpId p then amount p else 0) ps.

Definition delegators_of (fpId : string) (ps : JS.object StakingPosition) : Z :=
  total (fun p => if delegates_to fpId p then 1 else 0) ps.

(** The positions a reward run pays. *)
Definition eligible (p : StakingPosition) : bool :=
  is_active p && negb (isUnbonding p).

(** Every provider's [totalDelegated] and [delegatorCount] are the sum and
    the number of the active positions delegated to it. *)
Definition delegation_consistent (w : Watcher.t) : Prop :=
  forall k fp,
    JS.get (finalityProviders w) k = Some fp ->
    totalDelegated fp = delegated_to k (activeStakers w)
    /\ delegatorCount fp = delegators_of k (activeStakers w).

(** The assignment of [createStakingPosition] under the id of [tx] sets
    what the positions inherit from and stores no position: the id is
    [__proto__] and names no property. *)
Definition reparents (tx : Tx) (w : Watcher.t) : bool :=
  String.eqb (txid tx) "__proto__"
  && negb (JS.has (activeStakers w) "__proto__").

(** No position is created under a transaction id in [seen] or under one
    created earlier in the sequence, and none under [__proto__], which
    is the name of no position. *)
Fixpoint fresh_ids (seen : list string) (cs : list call) : Prop :=
  match cs with
  | [] => True
  | CreateStakingPosition _ mockTx _ :: rest =>
      ~ In (txid mockTx) seen
      /\ txid mockTx <> "__proto__"
      /\ fresh_ids (txid mockTx :: seen) rest
  | Engine _ :: rest => fresh_ids seen rest
  end.

(** Position [p'] is position [p] after slashings and reward runs: the
    same stake, with what was slashed moved from the amount to the
    penalty, and rewards that only grow. *)
Definition same_stake (p p' : StakingPosition) : Prop :=
  txHash p' = txHash p
  /\ stakerAddress p' = stakerAddress p
  /\ finalityProvider p' = finalityProvider p
  /\ timestamp p' = timestamp p
  /\ unlockTime p' = unlockTime p
  /\ votingPower p' = votingPower p
  /\ status p' = status p
  /\ isUnbonding p' = isUnbonding p
  /\ amount p' + penalty p' = amount p + penalty p
  /\ accrued p <= accrued p'.

Definition same_stakes (ps ps' : JS.object StakingPosition) : Prop :=
  Forall2 (fun e e' => fst e' = fst e /\ same_stake (snd e) (snd e')) ps ps'.

(** Providers [fps'] are providers [fps] with the delegations they had. *)
Definition keeps_delegation (fps fps' : JS.object FinalityProvider) : Prop :=
  forall k fp',
    JS.get fps' k = Some fp' ->
    exists fp,
      JS.get fps k = Some fp
      /\ totalDelegated fp' = totalDelegated fp
      /\ delegatorCount fp' = delegatorCount fp.

Definition is_epoch (c : call) : bool :=
  match c with
  | Engine (UpdateEpoch _) => true
  | _ => false
  end.

(** A few calls on scenario D: a second position with "fp2", a minor
    slashing of "fp1", an epoch, a reward run a year later. *)
Definition calls : list call :=
  [ CreateStakingPosition Scenario.t0 (Scenario.mockTx "stake_2" 250000000) "fp2";
    Engine (ExecuteSlashing (Scenario.t0 + 1000) Scenario.minorDraw "fp1"
              "double_signing");
    Engine (UpdateEpoch (fun _ => JS.lit 0.5));
    Engine (DistributeStakingRewards (Scenario.t0 + Scenario.year)) ].

End Stakes.

(* ===================================================================== *)
(** * Reading the traces of the relay controller *)
(* ===================================================================== *)

Module Relay.

Import Trigger.

(** The events of a run of [processBabylonDeposit] that goes through, in
    the order made. *)
Definition happy_path (d : Deposit) : list event :=
  [ GetDeposit (btcTxHash d);
    IsFinalityProviderAuthorized (finalityProvider d);
    GetBalance;
    EstimateGasCosts (btcTxHash d);
    RegisterBabylonDeposit d;
    MintStBTC (btcTxHash d);
    LogUserBalance (userAddress d) ].

(** The delays of a trace, in milliseconds. *)
Definition delays (tr : list event) : list Z :=
  flat_map (fun e => match e with Sleep ms => [ms] | _ => [] end) tr.

(** The delay after a failed attempt: one second doubled with every
    attempt, ten seconds at most. *)
Definition backoff (attempt : Z) : Z := Z.min (1000 * 2 ^ (attempt - 1)) 10000.

(** The delays after the failures of [n] attempts in a row, the first of
    them being attempt number [attempt]. *)
Fixpoint schedule (n : nat) (attempt : Z) : list Z :=
  match n with
  | O => []
  | S k => backoff attempt :: schedule k (attempt + 1)
  end.

End Relay.

(* ===================================================================== *)
(** * The poller of the watched address *)
(* ===================================================================== *)

Module Scanner.

(** An entry of [GET /address/:address/utxo]. The status of an
    unconfirmed output has no block height. *)
Record UtxoStatus := {
  confirmed : bool;
  block_height : option Z
}.

Record Utxo := {
  txid : string;
  vout : Z;
  value : Z;
  status : option UtxoStatus
}.

(** What [fetchUtxoScriptPubKey] returns for an output it found. *)
Record Output := {
  scriptPubKey : string;
  type : string;
  out_value : Z
}.

(** What the block explorer answers. [utxosOf a] is the result of the
    address request: [None] when the request fails, [Some None] when the
    body is not an array. [outputOf txid n] is what
    [fetchUtxoScriptPubKey(txid, n)] returns: [None] (null) when the
    request fails or the transaction has no such output. *)
Record Explorer := {
  utxosOf : string -> option (option (list Utxo));
  outputOf : string -> Z -> option Output
}.

(** The [options] of a poll; a property left out is [None]. *)
Record Options := {
  opt_finalityProvider : option string;
  opt_lockDays : option Z
}.

(** The data of a ['babylonDeposit'] event. *)
Record DepositData := {
  btcTxHash : string;
  dd_vout : Z;
  amount : Z;
  unlockTime : Z;
  finalityProvider : string;
  userAddress : option string;
  blockHeight : Z;
  confirmations : Z
}.

Definition fetchUtxoScriptPubKey (net : Explorer) (txid : string) (vout : Z)
  : option Output :=
  outputOf net txid vout.

Definition isBabylonP2WSHUTXO (net : Explorer) (txid : string) (vout : Z)
  : bool :=
  match fetchUtxoScriptPubKey net txid vout with
  | None => false
  | Some utxo =>
      String.eqb (type utxo) "v0_p2wsh"
      || String.eqb (type utxo) "witness_v0_scripthash"
  end.

(** [`${utxo.txid}:${utxo.vout}`]. *)
Definition key (utxo : Utxo) : string :=
  txid utxo ++ (":" ++ pretty (vout utxo)).

(** [options.lockDays || 30]: zero counts as left out. *)
Definition lockDays (options : Options) : Z :=
  match opt_lockDays options with
  | Some n => if n =? 0 then 30 else n
  | None => 30
  end.

(** [options.finalityProvider || "fp1"]: the empty string counts as left
    out. *)
Definition providerOf (options : Options) : string :=
  match opt_finalityProvider options with
  | Some p => if String.eqb p "" then "fp1" else p
  | None => "fp1"
  end.

(** The deposit data composed for [utxo] at clock reading [nowMs], the
    relayer's address being [relayerAddress] ([None] without a private
    key). *)
Definition depositData (nowMs : Z) (relayerAddress : option string)
    (options : Options) (utxo : Utxo) : DepositData :=
  {| btcTxHash := txid utxo;
     dd_vout := vout utxo;
     amount := value utxo;
     unlockTime := nowMs / 1000 + lockDays options * 86400;
     finalityProvider := providerOf options;
     userAddress := relayerAddress;
     blockHeight :=
       match status utxo with
       | Some s => default 0 (block_height s)
       | None => 0
       end;
     confirmations :=
       match status utxo with
       | Some s => if confirmed s then 6 else 0
       | None => 0
       end |}.

(** The loop of [pollBabylonAddressForDeposits]: the set of processed keys
    and the events emitted, in order. *)
Fixpoint pollLoop (nowMs : Z) (relayerAddress : option string)
    (net : Explorer) (options : Options) (utxos : list Utxo)
    (processedTxs : gset string) : gset string * list DepositData :=
  match utxos with
  | [] => (processedTxs, [])
  | utxo :: rest =>
      if decide (key utxo ∈ processedTxs)
      then pollLoop nowMs relayerAddress net options rest processedTxs
      else if negb (isBabylonP2WSHUTXO net (txid utxo) (vout utxo))
      then pollLoop nowMs relayerAddress net options rest processedTxs
      else
        let '(processedTxs', emitted) :=
          pollLoop nowMs relayerAddress net options rest
                   ({[ key utxo ]} ∪ processedTxs) in
        (processedTxs', depositData nowMs relayerAddress options utxo :: emitted)
  end.

(** [pollBabylonAddressForDeposits(btcAddress, options)]: a failed request
    is logged, a body that is not an array is skipped. *)
Definition pollBabylonAddressForDeposits (nowMs : Z)
    (relayerAddress : option string) (net : Explorer) (btcAddress : string)
    (options : Options) (processedTxs : gset string)
  : gset string * list DepositData :=
  match utxosOf net btcAddress with
  | Some (Some utxos) =>
      pollLoop nowMs relayerAddress net options utxos processedTxs
  | _ => (processedTxs, [])
  end.

(** The key under which an emitted deposit was remembered. *)
Definition key_of (d : DepositData) : string :=
  btcTxHash d ++ (":" ++ pretty (dd_vout d)).

(** A call of [pollBabylonAddressForDeposits] at one of its awaits:
    waiting for the answer to the address request, or for the type of an
    output of the answer (the outputs after it are still to come), or
    over. [net] is what the explorer answers this call. *)
Inductive Call :=
| Fetching (net : Explorer) (btcAddress : string) (options : Options)
| Checking (net : Explorer) (options : Options) (utxo : Utxo)
    (rest : list Utxo)
| Finished.

(** The loop up to its next await: outputs whose key is processed are
    passed over, and the type of the first other output is asked for. *)
Fixpoint advance (net : Explorer) (options : Options) (utxos : list Utxo)
    (processedTxs : gset string) : Call :=
  match utxos with
  | [] => Finished
  | utxo :: rest =>
      if decide (key utxo ∈ processedTxs)
      then advance net options rest processedTxs
      else Checking net options utxo rest
  end.

(** A call from the await it stands at to its next one, at clock reading
    [nowMs]: the call it has become, the processed keys and the events
    emitted on the way. The key was looked up before the await and is
    added after it. *)
Definition resume (nowMs : Z) (relayerAddress : option string) (call : Call)
    (processedTxs : gset string) : Call * gset string * list DepositData :=
  match call with
  | Fetching net btcAddress options =>
      match utxosOf net btcAddress with
      | Some (Some utxos) =>
          (advance net options utxos processedTxs, processedTxs, [])
      | _ => (Finished, processedTxs, [])
      end
  | Checking net options utxo rest =>
      if negb (isBabylonP2WSHUTXO net (txid utxo) (vout utxo))
      then (advance net options rest processedTxs, processedTxs, [])
      else
        let processedTxs' := {[ key utxo ]} ∪ processedTxs in
        (advance net options rest processedTxs', processedTxs',
         [depositData nowMs relayerAddress options utxo])
  | Finished => (Finished, processedTxs, [])
  end.

(** A call resumed [n] times with nothing in between. *)
Fixpoint drive (n : nat) (nowMs : Z) (relayerAddress : option string)
    (call : Call) (processedTxs : gset string)
  : gset string * list DepositData :=
  match n with
  | O => (processedTxs, [])
  | S n' =>
      let '(call', processedTxs1, emitted1) :=
        resume nowMs relayerAddress call processedTxs in
      let '(processedTxs2, emitted2) :=
        drive n' nowMs relayerAddress call' processedTxs1 in
      (processedTxs2, (emitted1 ++ emitted2)%list)
  end.

(** The watcher as the polling timer sees it: the processed keys, the
    events emitted so far and the calls started, in the order of their
    start. *)
Record Poller := {
  processedTxs : gset string;
  emitted : list DepositData;
  calls : list Call
}.

Definition start (processedTxs : gset string) : Poller :=
  {| processedTxs := processedTxs; emitted := []; calls := [] |}.

(** What happens on the event loop: the timer of [main.js] fires and
    starts a call, which sends its address request and is not awaited; or
    the answer call [i] waits for arrives, at clock reading [nowMs], and
    the call runs on to its next await. *)
Inductive Step :=
| Tick (net : Explorer) (btcAddress : string) (options : Options)
| Answer (i : nat) (nowMs : Z).

Definition step (relayerAddress : option string) (st : Poller) (s : Step)
  : Poller :=
  match s with
  | Tick net btcAddress options =>
      {| processedTxs := processedTxs st; emitted := emitted st;
         calls := (calls st ++ [Fetching net btcAddress options])%list |}
  | Answer i nowMs =>
      match calls st !! i with
      | None => st
      | Some call =>
          let '(call', processedTxs', emitted') :=
            resume nowMs relayerAddress call (processedTxs st) in
          {| processedTxs := processedTxs';
             emitted := (emitted st ++ emitted')%list;
             calls := <[ i := call' ]> (calls st) |}
      end
  end.

Definition run (relayerAddress : option string) (steps : list Step)
    (st : Poller) : Poller :=
  fold_left (step relayerAddress) steps st.

Definition is_finished (call : Call) : bool :=
  match call with
  | Finished => true
  | _ => false
  end.

(** No call is under way. *)
Definition idle (st : Poller) : bool := forallb is_finished (calls st).

(** The calls of a run do not overlap: whenever the timer fires, the calls
    before it are over. *)
Fixpoint sequential (relayerAddress : option string) (steps : list Step)
    (st : Poller) : bool :=
  match steps with
  | [] => true
  | s :: rest =>
      match s with
      | Tick _ _ _ => idle st
      | Answer _ _ => true
      end
      && sequential relayerAddress rest (step relayerAddress st s)
  end.

(** The processed keys are those of the start and those emitted since. *)
Definition remembers (processedTxs0 : gset string) (st : Poller) : Prop :=
  processedTxs st
  = list_to_set (map key_of (emitted st)) ∪ processedTxs0.

(** No event and no call under way is for a key of the start. *)
Definition news_only (processedTxs0 : gset string) (st : Poller) : Prop :=
  (forall d, In d (emitted st) -> key_of d ∉ processedTxs0)
  /\ (forall i net options utxo rest,
         calls st !! i = Some (Checking net options utxo rest) ->
         key utxo ∉ processedTxs0).

(** At most one call is under way, and the key it asks about is not
    processed. *)
Definition one_at_a_time (st : Poller) : Prop :=
  exists i,
    (forall j call, calls st !! j = Some call -> j <> i -> call = Finished)
    /\ (forall net options utxo rest,
           calls st !! i = Some (Checking net options utxo rest) ->
           key utxo ∉ processedTxs st).

(** Two outputs of one transaction, an output of a second transaction and
    an unconfirmed output of a third. *)
Definition first_output : Utxo :=
  {| txid := "aa"; vout := 0; value := 150000;
     status := Some {| confirmed := true; block_height := Some 2500 |} |}.

Definition second_output : Utxo :=
  {| txid := "aa"; vout := 1; value := 70000;
     status := Some {| confirmed := true; block_height := Some 2500 |} |}.

Definition other_output : Utxo :=
  {| txid := "bb"; vout := 0; value := 30000;
     status := Some {| confirmed := true; block_height := Some 2501 |} |}.

Definition unconfirmed_output : Utxo :=
  {| txid := "cc"; vout := 0; value := 9000;
     status := Some {| confirmed := false; block_height := None |} |}.

(** An explorer that has the four outputs at the watched address; those of
    the first and the third transaction are P2WSH outputs. *)
Definition explorer : Explorer :=
  {| utxosOf := fun a =>
       if String.eqb a "tb1qwatched"
       then Some (Some [first_output; second_output; other_output;
                        unconfirmed_output])
       else None;
     outputOf := fun t n =>
       if String.eqb t "aa" && ((n =? 0) || (n =? 1))
       then Some {| scriptPubKey := "0020aa"; type := "v0_p2wsh";
                    out_value := if n =? 0 then 150000 else 70000 |}
       else if String.eqb t "bb" && (n =? 0)
       then Some {| scriptPubKey := "0014bb"; type := "v0_p2wpkh";
                    out_value := 30000 |}
       else if String.eqb t "cc" && (n =? 0)
       then Some {| scriptPubKey := "0020cc"; type := "v0_p2wsh";
                    out_value := 9000 |}
       else None |}.

Definition options : Options :=
  {| opt_finalityProvider := Some "fp1"; opt_lockDays := Some 30 |}.

(** The timer fires with the settings of the scenario. *)
Definition tick : Step := Tick explorer "tb1qwatched" options.

(** Two calls one after the other: the second starts when the first is
    over. *)
Definition inTurn : list Step :=
  [tick; Answer 0 1700000000000; Answer 0 1700000000400;
   Answer 0 1700000000800; Answer 0 1700000001200; Answer 0 1700000001600;
   tick; Answer 1 1700000030000; Answer 1 1700000030400].

(** Two calls that overlap: the explorer is slow, the timer fires again
    before the first call has its first answer, and the answers to the two
    calls arrive in turn. *)
Definition overlapping : list Step :=
  [tick; tick;
   Answer 0 1700000031000; Answer 1 1700000032000;
   Answer 0 1700000033000; Answer 1 1700000034000;
   Answer 0 1700000035000; Answer 1 1700000036000;
   Answer 0 1700000037000; Answer 1 1700000038000;
   Answer 0 1700000039000; Answer 1 1700000040000].

End Scanner.

(* ===================================================================== *)
(** * The relayer's handler of deposit events (main.js) *)
(* ===================================================================== *)

Module Main.

Import Trigger.

(** What an oracle validation carries. A validation attached to a deposit
    event may leave [attestations] out: [None]. *)
Record OracleValidation := {
  isValid : bool;
  confidence : Q;
  validationHash : string;
  attestations : option (list string)
}.

(** [BabylonWatcher.validateWithEnhancedOracle(depositData)]. *)
Definition validateWithEnhancedOracle (depositData : Scanner.DepositData)
  : OracleValidation :=
  {| isValid := true;
     confidence := 1.0%Q;
     validationHash := Scanner.btcTxHash depositData;
     attestations := Some [] |}.

(** The five arguments the handler passes on. *)
Definition deposit_of (depositData : Scanner.DepositData) : Deposit :=
  {| btcTxHash := Scanner.btcTxHash depositData;
     userAddress := Scanner.userAddress depositData;
     amount := Scanner.amount depositData;
     unlockTime := Scanner.unlockTime depositData;
     finalityProvider := Scanner.finalityProvider depositData |}.

Section Handler.

Context {W : Type} `{LedgerClient W}.

(** [handleBabylonDeposit(depositData)], [attached] being
    [depositData.oracleValidation]. The first log lines format the unlock
    time as a date, which throws outside the range of dates; the line that
    logs the number of attestations throws when there are none to count;
    the handler's [catch] logs whatever is thrown. The confidence is
    logged. *)
Definition handleBabylonDeposit (depositData : Scanner.DepositData)
    (attached : option OracleValidation) : M unit :=
  try_catch
    (bind (throw_if (negb (validDate (Scanner.unlockTime depositData * 1000)))
                    "Invalid time value")
       (fun _ =>
          let oracleValidation :=
            match attached with
            | Some v => v
            | None => validateWithEnhancedOracle depositData
            end in
          if negb (isValid oracleValidation) then ret tt
          else
            bind
              match attestations oracleValidation with
              | Some _ => ret tt
              | None =>
                  throw "Cannot read properties of undefined (reading 'length')"
              end
              (fun _ =>
                 bind (emit (IsFinalityProviderAuthorized
                               (Scanner.finalityProvider depositData)))
                   (fun _ =>
                      bind (ask (isFinalityProviderAuthorized
                                   (Scanner.finalityProvider depositData)))
                        (fun isAuthorized =>
                           if negb isAuthorized then ret tt
                           else
                             bind (processBabylonDepositWithRetry
                                     (deposit_of depositData) 3)
                                  (fun _ => ret tt))))))
    (fun _ => ret tt).

End Handler.

(** The oracle validation does not let the deposit through. *)
Definition refused (attached : option OracleValidation) : Prop :=
  match attached with
  | Some v => isValid v = false \/ attestations v = None
  | None => False
  end.

End Main.

(* ===================================================================== *)
(** * The relayer's utilities (src/utils.js) *)
(* ===================================================================== *)

Module Utils.

Import Trigger.

(** [/^0x[a-fA-F0-9]{40}$/.test(address)]. *)
Definition isValidEthereumAddress (address : string) : bool :=
  match address with
  | String "0" (String "x" digits) =>
      (String.length digits =? 40)%nat && all_chars is_hex_digit digits
  | _ => false
  end.

(** [/^[a-fA-F0-9]{64}$/.test(txHash)]. *)
Definition isValidBitcoinTxHash (txHash : string) : bool :=
  (String.length txHash =? 64)%nat && all_chars is_hex_digit txHash.

End Utils.

(* ===================================================================== *)
(** * Rounding to binary64 *)
(* ===================================================================== *)

Section DoubleFacts.
Import Double.
Local Open Scope Q_scope.

Lemma pow2_pos (e : Z) : 0 < 2 ^ e.
Proof. apply Qpower_0_lt. reflexivity. Qed.

Lemma pow2_nonzero (e : Z) : ~ 2 ^ e == 0.
Proof. pose proof (pow2_pos e). lra. Qed.

Lemma pow2_le (a b : Z) : (a <= b)%Z -> 2 ^ a <= 2 ^ b.
Proof. intros H. apply Qpower_le_compat_l; [exact H | discriminate]. Qed.

Lemma pow2_lt (a b : Z) : (a < b)%Z -> 2 ^ a < 2 ^ b.
Proof. intros H. apply Qpower_lt_compat_l; [exact H | reflexivity]. Qed.

Lemma pow2_plus (a b : Z) : 2 ^ (a + b) == 2 ^ a * 2 ^ b.
Proof. apply Qpower_plus. discriminate. Qed.

Lemma pow2_Z (n : Z) : (0 <= n)%Z -> inject_Z (2 ^ n) == 2 ^ n.
Proof. intros H. apply (Zpower_Qpower 2 n H). Qed.

Lemma pow2_split (a b : Z) : (b <= a)%Z -> 2 ^ a == inject_Z (2 ^ (a - b)) * 2 ^ b.
Proof.
  intros H. rewrite pow2_Z by lia. rewrite <- pow2_plus.
  replace (a - b + b)%Z with a by lia. reflexivity.
Qed.

Lemma pow2_succ (a : Z) : 2 ^ (a + 1) == 2 * 2 ^ a.
Proof. rewrite pow2_plus. change (2 ^ 1) with 2. ring. Qed.

Lemma pow2_unique (x : Q) (a b : Z) :
  2 ^ a <= x -> x < 2 ^ (a + 1) -> 2 ^ b <= x -> x < 2 ^ (b + 1) -> a = b.
Proof.
  intros Ha Ha' Hb Hb'.
  destruct (Z.lt_trichotomy a b) as [Hlt | [Heq | Hgt]]; [| exact Heq |].
  - pose proof (pow2_le (a + 1) b ltac:(lia)). lra.
  - pose proof (pow2_le (b + 1) a ltac:(lia)). lra.
Qed.

Lemma ilog2_spec (x : Q) : 0 < x -> 2 ^ ilog2 x <= x /\ x < 2 ^ (ilog2 x + 1).
Proof.
  intros Hx. destruct x as [n d]. unfold ilog2. cbn [Qnum Qden].
  assert (Hn : (0 < n)%Z) by (unfold Qlt in Hx; cbn in Hx; lia).
  set (k := (Z.log2 n - Z.log2 (Zpos d))%Z).
  pose proof (Z.log2_spec n Hn) as [Hn1 Hn2].
  pose proof (Z.log2_spec (Zpos d) ltac:(lia)) as [Hd1 Hd2].
  pose proof (Z.log2_nonneg n) as Hln. pose proof (Z.log2_nonneg (Zpos d)) as Hld.
  assert (Hxe : n # d == inject_Z n / inject_Z (Zpos d)) by (apply Qmake_Qdiv).
  assert (Hdpos : 0 < inject_Z (Zpos d)) by (unfold Qlt; cbn; lia).
  assert (Hlow : 2 ^ (k - 1) <= n # d).
  { rewrite Hxe. apply Qle_shift_div_l; [exact Hdpos |].
    apply Qle_trans with (2 ^ (k - 1) * 2 ^ (Z.log2 (Zpos d) + 1)).
    - apply Qmult_le_l; [apply pow2_pos |].
      rewrite <- pow2_Z by lia. rewrite <- Zle_Qle. unfold Z.succ in Hd2. lia.
    - rewrite <- pow2_plus. replace (k - 1 + (Z.log2 (Zpos d) + 1))%Z with (Z.log2 n) by (unfold k; lia).
      rewrite <- pow2_Z by lia. rewrite <- Zle_Qle. exact Hn1. }
  assert (Hhigh : n # d < 2 ^ (k + 1)).
  { rewrite Hxe. apply Qlt_shift_div_r; [exact Hdpos |].
    apply Qlt_le_trans with (2 ^ (k + 1) * 2 ^ Z.log2 (Zpos d)).
    - rewrite <- pow2_plus. replace (k + 1 + Z.log2 (Zpos d))%Z with (Z.log2 n + 1)%Z by (unfold k; lia).
      rewrite <- pow2_Z by lia. rewrite <- Zlt_Qlt. unfold Z.succ in Hn2. exact Hn2.
    - apply Qmult_le_l; [apply pow2_pos |].
      rewrite <- pow2_Z by lia. rewrite <- Zle_Qle. exact Hd1. }
  destruct (Qle_bool (2 ^ k) (n # d)) eqn:Hb.
  - apply Qle_bool_iff in Hb. split; assumption.
  - assert (Hlt : n # d < 2 ^ k).
    { apply Qnot_le_lt. intros Hle. apply Qle_bool_iff in Hle. congruence. }
    replace (k - 1 + 1)%Z with k by lia. split; assumption.
Qed.

Lemma ilog2_unique (x : Q) (k : Z) : 2 ^ k <= x -> x < 2 ^ (k + 1) -> ilog2 x = k.
Proof.
  intros H1 H2. assert (Hx : 0 < x) by (pose proof (pow2_pos k); lra).
  destruct (ilog2_spec x Hx) as [H3 H4]. exact (pow2_unique x _ _ H3 H4 H1 H2).
Qed.

Lemma ilog2_comp (x y : Q) : 0 < x -> x == y -> ilog2 x = ilog2 y.
Proof.
  intros Hx Hxy. destruct (ilog2_spec y ltac:(lra)) as [H1 H2].
  apply ilog2_unique; lra.
Qed.

Lemma ilog2_mono (x y : Q) : 0 < x -> x <= y -> (ilog2 x <= ilog2 y)%Z.
Proof.
  intros Hx Hxy. destruct (ilog2_spec x Hx) as [H1 H2].
  destruct (ilog2_spec y ltac:(lra)) as [H3 H4].
  destruct (Z_le_gt_dec (ilog2 x) (ilog2 y)) as [H | H]; [exact H |].
  pose proof (pow2_le (ilog2 y + 1) (ilog2 x) ltac:(lia)). lra.
Qed.

Lemma ilog2_lt (x : Q) (k : Z) : 0 < x -> x < 2 ^ k -> (ilog2 x < k)%Z.
Proof.
  intros Hx Hk. destruct (ilog2_spec x Hx) as [H1 _].
  destruct (Z_lt_ge_dec (ilog2 x) k) as [H | H]; [exact H |].
  pose proof (pow2_le k (ilog2 x) ltac:(lia)). lra.
Qed.

Lemma ilog2_ge (x : Q) (k : Z) : 2 ^ k <= x -> (k <= ilog2 x)%Z.
Proof.
  intros Hk. assert (Hx : 0 < x) by (pose proof (pow2_pos k); lra).
  destruct (ilog2_spec x Hx) as [_ H2].
  destruct (Z_le_gt_dec k (ilog2 x)) as [H | H]; [exact H |].
  pose proof (pow2_le (ilog2 x + 1) k ltac:(lia)). lra.
Qed.

Lemma expo_ge_emin (x : Q) : (emin <= expo x)%Z.
Proof. unfold expo. lia. Qed.

Lemma Qabs_pos_iff (x : Q) : ~ x == 0 -> 0 < Qabs x.
Proof. intros Hx. apply Qabs_case; intros; lra. Qed.

Lemma expo_comp (x y : Q) : ~ x == 0 -> x == y -> expo x = expo y.
Proof.
  intros Hx Hxy. unfold expo. f_equal. f_equal. apply ilog2_comp.
  - apply Qabs_pos_iff; exact Hx.
  - rewrite Hxy. reflexivity.
Qed.

Lemma expo_opp (x : Q) : expo (- x) = expo x.
Proof.
  unfold expo. destruct (Qeq_dec x 0) as [H0 | H0].
  - f_equal. f_equal. destruct x as [n d]. unfold Qeq in H0. cbn in H0.
    assert (n = 0%Z) by lia. subst n. reflexivity.
  - f_equal. f_equal. apply ilog2_comp.
    + apply Qabs_pos_iff. lra.
    + apply Qabs_opp.
Qed.

Lemma nearest_even_comp (t u : Q) : t == u -> nearest_even t = nearest_even u.
Proof.
  intros H. unfold nearest_even. rewrite (Qfloor_comp t u H).
  assert (Hc : Qcompare (t - inject_Z (Qfloor u)) (1 # 2) = Qcompare (u - inject_Z (Qfloor u)) (1 # 2)).
  { apply Qcompare_comp; [rewrite H |]; reflexivity. }
  rewrite Hc. reflexivity.
Qed.

Lemma nearest_even_Z (n : Z) : nearest_even (inject_Z n) = n.
Proof.
  unfold nearest_even. rewrite Qfloor_Z.
  destruct (Qcompare_spec (inject_Z n - inject_Z n) (1 # 2)) as [H | H | H]; try lra.
  reflexivity.
Qed.

Lemma nearest_even_cases (t : Q) :
  (nearest_even t = Qfloor t /\ t - inject_Z (Qfloor t) <= 1 # 2) \/
  (nearest_even t = (Qfloor t + 1)%Z /\ 1 # 2 <= t - inject_Z (Qfloor t)).
Proof.
  unfold nearest_even.
  destruct (Qcompare_spec (t - inject_Z (Qfloor t)) (1 # 2)) as [H | H | H].
  - destruct (Z.even (Qfloor t)); [left | right]; split; try reflexivity; lra.
  - left. split; [reflexivity | lra].
  - right. split; [reflexivity | lra].
Qed.

Lemma Qfloor_bounds (t : Q) : inject_Z (Qfloor t) <= t /\ t < inject_Z (Qfloor t) + 1.
Proof.
  split; [apply Qfloor_le |]. pose proof (Qlt_floor t) as H.
  rewrite inject_Z_plus in H. exact H.
Qed.

Lemma nearest_even_error (t : Q) :
  - (1 # 2) <= inject_Z (nearest_even t) - t <= 1 # 2.
Proof.
  pose proof (Qfloor_bounds t) as [H1 H2].
  destruct (nearest_even_cases t) as [[He Hr] | [He Hr]]; rewrite He.
  - lra.
  - rewrite inject_Z_plus. change (inject_Z 1) with 1. lra.
Qed.

Lemma nearest_even_mono (t u : Q) : t <= u -> (nearest_even t <= nearest_even u)%Z.
Proof.
  intros H. pose proof (Qfloor_resp_le t u H) as Hf.
  pose proof (Qfloor_bounds t) as [Ht1 Ht2]. pose proof (Qfloor_bounds u) as [Hu1 Hu2].
  destruct (Z.eq_dec (Qfloor t) (Qfloor u)) as [Heq | Hne].
  - unfold nearest_even. rewrite Heq.
    destruct (Qcompare_spec (t - inject_Z (Qfloor u)) (1 # 2)) as [H1 | H1 | H1];
      destruct (Qcompare_spec (u - inject_Z (Qfloor u)) (1 # 2)) as [H2 | H2 | H2];
      try lra; destruct (Z.even (Qfloor u)); lia.
  - assert (Hlt : (Qfloor t + 1 <= Qfloor u)%Z) by lia.
    destruct (nearest_even_cases t) as [[He _] | [He _]];
      destruct (nearest_even_cases u) as [[He' _] | [He' _]]; lia.
Qed.

Lemma nearest_even_opp (t : Q) : nearest_even (- t) = (- nearest_even t)%Z.
Proof.
  pose proof (Qfloor_bounds t) as [H1 H2]. pose proof (Qfloor_bounds (- t)) as [H3 H4].
  destruct (Qeq_dec t (inject_Z (Qfloor t))) as [Hint | Hfrac].
  - assert (Hn : - t == inject_Z (- Qfloor t)) by (rewrite inject_Z_opp; lra).
    rewrite (nearest_even_comp _ _ Hn), (nearest_even_comp t _ Hint).
    rewrite !nearest_even_Z. reflexivity.
  - assert (Hf : Qfloor (- t) = (- Qfloor t - 1)%Z).
    { assert (Ha : (Qfloor (- t) < - Qfloor t)%Z).
      { rewrite Zlt_Qlt, inject_Z_opp.
        destruct (Qlt_le_dec (inject_Z (Qfloor (- t))) (- inject_Z (Qfloor t))) as [Hl | Hl]; [exact Hl |].
        exfalso. lra. }
      assert (Hb : (- Qfloor t - 1 < Qfloor (- t) + 1)%Z).
      { rewrite Zlt_Qlt. rewrite inject_Z_plus. unfold Zminus. rewrite inject_Z_plus, !inject_Z_opp.
        change (inject_Z 1) with 1. lra. }
      lia. }
    unfold nearest_even. rewrite Hf.
    assert (Hi : inject_Z (- Qfloor t - 1) == - inject_Z (Qfloor t) - 1).
    { unfold Zminus. rewrite inject_Z_plus, !inject_Z_opp. reflexivity. }
    destruct (Qcompare_spec (- t - inject_Z (- Qfloor t - 1)) (1 # 2)) as [Ha | Ha | Ha];
      destruct (Qcompare_spec (t - inject_Z (Qfloor t)) (1 # 2)) as [Hb | Hb | Hb];
      rewrite Hi in Ha; try lra; try lia.
    rewrite Z.even_sub, Z.even_opp. cbn.
    destruct (Z.even (Qfloor t)); cbn; lia.
Qed.

Lemma round_at_comp (e : Z) (x y : Q) : x == y -> round_at e x == round_at e y.
Proof.
  intros H. unfold round_at.
  rewrite (nearest_even_comp (x / 2 ^ e) (y / 2 ^ e)) by (rewrite H; reflexivity).
  reflexivity.
Qed.

Lemma round_at_mono (e : Z) (x y : Q) : x <= y -> round_at e x <= round_at e y.
Proof.
  intros H. unfold round_at. pose proof (pow2_pos e) as Hp.
  apply Qmult_le_compat_r; [| lra].
  rewrite <- Zle_Qle. apply nearest_even_mono.
  unfold Qdiv. apply Qmult_le_compat_r; [exact H |].
  apply Qlt_le_weak, Qinv_lt_0_compat, Hp.
Qed.

Lemma round_at_fix (e j : Z) : round_at e (inject_Z j * 2 ^ e) == inject_Z j * 2 ^ e.
Proof.
  unfold round_at.
  rewrite (nearest_even_comp _ (inject_Z j)).
  - rewrite nearest_even_Z. reflexivity.
  - apply Qdiv_mult_l, pow2_nonzero.
Qed.

Lemma round_at_opp (e : Z) (x : Q) : round_at e (- x) == - round_at e x.
Proof.
  unfold round_at.
  rewrite (nearest_even_comp (- x / 2 ^ e) (- (x / 2 ^ e))).
  - rewrite nearest_even_opp, inject_Z_opp. ring.
  - unfold Qdiv. ring.
Qed.

Lemma round_at_error (e : Z) (x : Q) :
  - (2 ^ e / 2) <= round_at e x - x <= 2 ^ e / 2.
Proof.
  unfold round_at. pose proof (pow2_pos e) as Hp.
  pose proof (nearest_even_error (x / 2 ^ e)) as [H1 H2].
  set (m := inject_Z (nearest_even (x / 2 ^ e))) in *.
  assert (Hx : x == x / 2 ^ e * 2 ^ e) by (field; lra).
  set (t := x / 2 ^ e) in *.
  assert (E1 : m * 2 ^ e - x == (m - t) * 2 ^ e) by (rewrite Hx at 1; ring).
  rewrite E1. split.
  - assert (- (2 ^ e / 2) == - (1 # 2) * 2 ^ e) as -> by (field).
    apply Qmult_le_compat_r; lra.
  - assert (2 ^ e / 2 == (1 # 2) * 2 ^ e) as -> by (field).
    apply Qmult_le_compat_r; lra.
Qed.

Lemma round64_0 : round64 0 = 0.
Proof. reflexivity. Qed.

Lemma round64_unfold (x : Q) : ~ x == 0 -> round64 x == round_at (expo x) x.
Proof.
  intros H. unfold round64. destruct (Qeq_bool x 0) eqn:Hb.
  - apply Qeq_bool_iff in Hb. contradiction.
  - apply Qred_correct.
Qed.

Lemma round64_zero (x : Q) : x == 0 -> round64 x = 0.
Proof. intros H. unfold round64. apply Qeq_bool_iff in H. rewrite H. reflexivity. Qed.

Lemma round64_comp (x y : Q) : x == y -> round64 x = round64 y.
Proof.
  intros H. unfold round64.
  destruct (Qeq_bool x 0) eqn:Hx; destruct (Qeq_bool y 0) eqn:Hy.
  - reflexivity.
  - apply Qeq_bool_iff in Hx. exfalso. apply Qeq_bool_neq in Hy. apply Hy. lra.
  - apply Qeq_bool_iff in Hy. exfalso. apply Qeq_bool_neq in Hx. apply Hx. lra.
  - apply Qred_complete. apply Qeq_bool_neq in Hx.
    rewrite (expo_comp x y Hx H). apply round_at_comp, H.
Qed.

#[global] Instance round64_proper : Proper (Qeq ==> Qeq) round64.
Proof. intros x y H. rewrite (round64_comp x y H). reflexivity. Qed.

Lemma round64_opp (x : Q) : round64 (- x) == - round64 x.
Proof.
  destruct (Qeq_dec x 0) as [H0 | H0].
  - rewrite (round64_zero x H0), (round64_zero (- x)) by lra. reflexivity.
  - rewrite !round64_unfold by lra. rewrite expo_opp. apply round_at_opp.
Qed.

Lemma round_at_0 (e : Z) : round_at e 0 == 0.
Proof.
  pose proof (round_at_fix e 0) as H.
  rewrite <- (round_at_comp e (inject_Z 0 * 2 ^ e) 0) by ring.
  rewrite H. ring.
Qed.

Lemma round64_nonneg (x : Q) : 0 <= x -> 0 <= round64 x.
Proof.
  intros H. destruct (Qeq_dec x 0) as [H0 | H0].
  - rewrite (round64_zero x H0). lra.
  - rewrite round64_unfold by exact H0.
    rewrite <- (round_at_0 (expo x)). apply round_at_mono, H.
Qed.

(** A multiple of a power of two no smaller than the least subnormal, with
    a significand of at most 53 bits, is a double: rounding leaves it. *)
Lemma round64_representable (x : Q) (m e : Z) :
  x == inject_Z m * 2 ^ e -> (Z.abs m <= 2 ^ 53)%Z -> (emin <= e)%Z -> round64 x == x.
Proof.
  intros Hx Hm He. destruct (Qeq_dec x 0) as [H0 | H0].
  - rewrite (round64_zero x H0). lra.
  - rewrite round64_unfold by exact H0.
    pose proof (Qabs_pos_iff x H0) as Hpos.
    pose proof (pow2_pos e) as Hpe.
    assert (Habs : Qabs x == inject_Z (Z.abs m) * 2 ^ e).
    { rewrite Hx, Qabs_Qmult. rewrite (Qabs_pos (2 ^ e)) by lra.
      assert (Qabs (inject_Z m) == inject_Z (Z.abs m)) as ->; [| reflexivity].
      unfold Qabs, inject_Z. reflexivity. }
    destruct (Z.eq_dec (Z.abs m) (2 ^ 53)%Z) as [Htop | Hlow].
    + assert (Hk : ilog2 (Qabs x) = (53 + e)%Z).
      { apply ilog2_unique; rewrite Habs, Htop.
        - rewrite pow2_Z by lia. rewrite <- pow2_plus. apply Qle_refl.
        - rewrite pow2_Z by lia. rewrite <- pow2_plus. apply pow2_lt. lia. }
      assert (Hexpo : expo x = (e + 1)%Z) by (unfold expo, emin in *; rewrite Hk; lia).
      rewrite Hexpo.
      assert (Hx' : x == inject_Z (m / 2) * 2 ^ (e + 1)).
      { rewrite Hx, pow2_succ.
        assert (Hm2 : m = (2 * (m / 2))%Z).
        { assert (Hmod : (m mod 2 = 0)%Z).
          { destruct (Z.abs_eq_or_opp m) as [Ha | Ha].
            - assert (m = 2 ^ 53)%Z by lia. subst m. reflexivity.
            - assert (m = - 2 ^ 53)%Z by lia. subst m. reflexivity. }
          pose proof (Z.div_mod m 2 ltac:(lia)). lia. }
        rewrite Hm2 at 1. rewrite inject_Z_mult. change (inject_Z 2) with 2. ring. }
      rewrite (round_at_comp _ _ _ Hx'). rewrite round_at_fix. lra.
    + assert (Hk : (ilog2 (Qabs x) < 53 + e)%Z).
      { apply ilog2_lt; [exact Hpos |]. rewrite Habs, pow2_plus.
        apply Qmult_lt_compat_r; [exact Hpe |].
        rewrite <- pow2_Z by lia. rewrite <- Zlt_Qlt. lia. }
      assert (Hexpo : (expo x <= e)%Z) by (unfold expo; lia).
      assert (Hx' : x == inject_Z (m * 2 ^ (e - expo x)) * 2 ^ expo x).
      { eapply Qeq_trans; [exact Hx |].
        rewrite inject_Z_mult, (pow2_split e (expo x) Hexpo). ring. }
      eapply Qeq_trans; [apply (round_at_comp _ _ _ Hx') |].
      rewrite round_at_fix. symmetry. exact Hx'.
Qed.

Lemma round64_int (n : Z) : (Z.abs n <= 2 ^ 53)%Z -> round64 (inject_Z n) == inject_Z n.
Proof.
  intros H. apply (round64_representable _ n 0); [| exact H | unfold emin; lia].
  change (2 ^ 0) with 1. ring.
Qed.

Lemma expo_pos (x : Q) : 0 < x -> expo x = Z.max (ilog2 x - 52) emin.
Proof.
  intros H. unfold expo. f_equal. f_equal. apply ilog2_comp.
  - apply Qabs_pos_iff. lra.
  - apply Qabs_pos. lra.
Qed.

Lemma round64_mono_pos (x y : Q) : 0 < x -> x <= y -> round64 x <= round64 y.
Proof.
  intros Hx Hxy. assert (Hy : 0 < y) by lra.
  rewrite (round64_unfold x), (round64_unfold y) by lra.
  pose proof (expo_pos x Hx) as Ex. pose proof (expo_pos y Hy) as Ey.
  pose proof (ilog2_mono x y Hx Hxy) as Hk.
  destruct (ilog2_spec x Hx) as [Hx1 Hx2]. destruct (ilog2_spec y Hy) as [Hy1 Hy2].
  destruct (Z.eq_dec (expo x) (expo y)) as [Heq | Hne].
  - rewrite Heq. apply round_at_mono, Hxy.
  - assert (Hey : expo y = (ilog2 y - 52)%Z) by lia.
    assert (Hkk : (ilog2 x + 1 <= ilog2 y)%Z) by lia.
    assert (Hex : (expo x <= ilog2 y)%Z) by lia.
    pose proof (pow2_le _ _ Hkk) as Hpow.
    apply Qle_trans with (2 ^ ilog2 y).
    + rewrite (pow2_split (ilog2 y) (expo x) Hex).
      rewrite <- (round_at_fix (expo x) (2 ^ (ilog2 y - expo x))).
      apply round_at_mono. rewrite <- pow2_split by exact Hex. lra.
    + assert (Hsp : 2 ^ ilog2 y == inject_Z (2 ^ (ilog2 y - expo y)) * 2 ^ expo y)
        by (apply pow2_split; lia).
      rewrite Hsp at 1. rewrite <- (round_at_fix (expo y) (2 ^ (ilog2 y - expo y))).
      apply round_at_mono. rewrite <- Hsp. exact Hy1.
Qed.

Lemma round64_nonpos (x : Q) : x <= 0 -> round64 x <= 0.
Proof.
  intros H. pose proof (round64_nonneg (- x) ltac:(lra)) as Hn.
  rewrite round64_opp in Hn. lra.
Qed.

(** Rounding to nearest is monotone. *)
Lemma round64_mono (x y : Q) : x <= y -> round64 x <= round64 y.
Proof.
  intros Hxy. destruct (Qlt_le_dec 0 x) as [Hx | Hx].
  - apply round64_mono_pos; assumption.
  - destruct (Qlt_le_dec y 0) as [Hy | Hy].
    + pose proof (round64_mono_pos (- y) (- x) ltac:(lra) ltac:(lra)) as H.
      rewrite !round64_opp in H. lra.
    + pose proof (round64_nonpos x Hx). pose proof (round64_nonneg y Hy). lra.
Qed.

Lemma round64_significand (x : Q) :
  ~ x == 0 -> (Z.abs (nearest_even (x / 2 ^ expo x)) <= 2 ^ 53)%Z.
Proof.
  intros H0. pose proof (Qabs_pos_iff x H0) as Hpos.
  destruct (ilog2_spec (Qabs x) Hpos) as [_ H2].
  pose proof (pow2_pos (expo x)) as Hpe.
  assert (Hb : Qabs x <= inject_Z (2 ^ 53) * 2 ^ expo x).
  { rewrite pow2_Z by lia. rewrite <- pow2_plus.
    apply Qle_trans with (2 ^ (ilog2 (Qabs x) + 1)); [lra |].
    apply pow2_le. unfold expo. lia. }
  apply Qabs_Qle_condition in Hb. destruct Hb as [Hb1 Hb2].
  assert (Hu : x / 2 ^ expo x <= inject_Z (2 ^ 53)).
  { apply Qle_shift_div_r; [exact Hpe | exact Hb2]. }
  assert (Hl : inject_Z (- 2 ^ 53) <= x / 2 ^ expo x).
  { apply Qle_shift_div_l; [exact Hpe |]. rewrite inject_Z_opp. lra. }
  apply nearest_even_mono in Hu. apply nearest_even_mono in Hl.
  rewrite nearest_even_Z in Hu, Hl. lia.
Qed.

(** Rounding lands on a double, so rounding again changes nothing. *)
Lemma round64_idem (x : Q) : round64 (round64 x) == round64 x.
Proof.
  destruct (Qeq_dec x 0) as [H0 | H0].
  - rewrite (round64_zero x H0). reflexivity.
  - apply (round64_representable _ (nearest_even (x / 2 ^ expo x)) (expo x)).
    + rewrite round64_unfold by exact H0. reflexivity.
    + apply round64_significand, H0.
    + apply expo_ge_emin.
Qed.

(** In the normal range the rounding error is at most half a unit in the
    last place, that is 2^-53 of the value. *)
Lemma round64_error (x : Q) :
  2 ^ (-1022) <= x -> x * (1 - 2 ^ (-53)) <= round64 x <= x * (1 + 2 ^ (-53)).
Proof.
  intros Hx. pose proof (pow2_pos (-1022)) as Hp. assert (Hpos : 0 < x) by lra.
  rewrite round64_unfold by lra.
  pose proof (ilog2_ge x (-1022) Hx) as Hk.
  destruct (ilog2_spec x Hpos) as [H1 _].
  assert (He : expo x = (ilog2 x - 52)%Z) by (rewrite (expo_pos x Hpos); unfold emin; lia).
  pose proof (round_at_error (expo x) x) as [E1 E2]. rewrite He in *.
  assert (Hu : 2 ^ (ilog2 x - 52) / 2 == 2 ^ ilog2 x * 2 ^ (-53)).
  { replace (ilog2 x - 52)%Z with (ilog2 x + -53 + 1)%Z by lia.
    rewrite pow2_succ, pow2_plus. field. }
  rewrite Hu in E1, E2.
  assert (Hm : 2 ^ ilog2 x * 2 ^ (-53) <= x * 2 ^ (-53)).
  { apply Qmult_le_compat_r; [exact H1 |]. apply Qlt_le_weak, pow2_pos. }
  split; lra.
Qed.

Lemma round64_le_int (x : Q) (n : Z) :
  (Z.abs n <= 2 ^ 53)%Z -> x <= inject_Z n -> round64 x <= inject_Z n.
Proof. intros Hn H. rewrite <- (round64_int n Hn). apply round64_mono, H. Qed.

Lemma round64_ge_int (x : Q) (n : Z) :
  (Z.abs n <= 2 ^ 53)%Z -> inject_Z n <= x -> inject_Z n <= round64 x.
Proof. intros Hn H. rewrite <- (round64_int n Hn). apply round64_mono, H. Qed.

Lemma representable_round64 (x : Q) : representable (round64 x).
Proof. apply round64_idem. Qed.

Lemma representable_int (n : Z) : (Z.abs n <= 2 ^ 53)%Z -> representable (inject_Z n).
Proof. apply round64_int. Qed.

(** A binary64 number is its significand times its unit in the last
    place. *)
Lemma representable_decompose (x : Q) :
  representable x -> ~ x == 0 ->
  x == inject_Z (nearest_even (x / 2 ^ expo x)) * 2 ^ expo x.
Proof.
  intros Hx H0. unfold representable in Hx.
  rewrite round64_unfold in Hx by exact H0. symmetry. exact Hx.
Qed.

(** Halving a binary64 number is exact, unless it is among the smallest. *)
Lemma round64_half (x : Q) :
  representable x -> 2 ^ (-1021) <= Qabs x -> round64 (x * (1 # 2)) == x * (1 # 2).
Proof.
  intros Hx Hbig.
  assert (H0 : ~ x == 0).
  { intros H0. rewrite H0 in Hbig. pose proof (pow2_pos (-1021)).
    change (Qabs 0) with 0 in Hbig. lra. }
  pose proof (ilog2_ge _ _ Hbig) as Hk.
  apply (round64_representable _ (nearest_even (x / 2 ^ expo x)) (expo x - 1)).
  - rewrite (representable_decompose x Hx H0) at 1.
    replace (expo x) with (expo x - 1 + 1)%Z at 2 by lia.
    rewrite pow2_succ. ring.
  - apply round64_significand, H0.
  - unfold expo, emin. lia.
Qed.

(** Taking an integer off a larger binary64 number with no digit above
    the units missing is exact. *)
Lemma round64_minus_int (x : Q) (n : Z) :
  representable x -> (expo x <= 0)%Z -> (0 <= n)%Z -> inject_Z n <= x ->
  round64 (x - inject_Z n) == x - inject_Z n.
Proof.
  intros Hx He Hn Hle.
  destruct (Qeq_dec x 0) as [H0 | H0].
  - assert (Hn0 : n = 0%Z).
    { rewrite H0 in Hle. change 0 with (inject_Z 0) in Hle.
      rewrite <- Zle_Qle in Hle. lia. }
    subst n. rewrite (round64_zero (x - inject_Z 0)) by (rewrite H0; reflexivity).
    rewrite H0. reflexivity.
  - set (e := expo x) in *. set (m := nearest_even (x / 2 ^ e)).
    pose proof (representable_decompose x Hx H0) as Hd. fold e in Hd. fold m in Hd.
    pose proof (round64_significand x H0) as Hm. fold e in Hm. fold m in Hm.
    pose proof (pow2_pos e) as Hpe.
    assert (Hint : inject_Z n == inject_Z (n * 2 ^ (- e)) * 2 ^ e).
    { rewrite inject_Z_mult, pow2_Z by lia.
      rewrite <- Qmult_assoc, <- pow2_plus.
      replace (- e + e)%Z with 0%Z by lia. change (2 ^ 0) with 1. ring. }
    apply (round64_representable _ (m - n * 2 ^ (- e)) e).
    + rewrite Hd at 1. rewrite Hint at 1.
      unfold Zminus. rewrite inject_Z_plus, inject_Z_opp. ring.
    + assert (Hlow : (0 <= m - n * 2 ^ (- e))%Z).
      { rewrite Zle_Qle. unfold Zminus. rewrite inject_Z_plus, inject_Z_opp.
        apply (Qmult_le_r _ _ (2 ^ e) Hpe).
        rewrite Hd, Hint in Hle. change (inject_Z 0) with 0.
        assert (E : (inject_Z m + - inject_Z (n * 2 ^ (- e))) * 2 ^ e
                    == inject_Z m * 2 ^ e - inject_Z (n * 2 ^ (- e)) * 2 ^ e) by ring.
        rewrite E. lra. }
      assert (Hp : (0 <= n * 2 ^ (- e))%Z).
      { apply Z.mul_nonneg_nonneg; [exact Hn |]. apply Z.pow_nonneg. lia. }
      lia.
    + apply expo_ge_emin.
Qed.

Lemma expo_small (x : Q) : 0 < x -> x < 2 ^ 53 -> (expo x <= 0)%Z.
Proof.
  intros Hx Hlt. rewrite (expo_pos x Hx).
  pose proof (ilog2_lt x 53 Hx Hlt). unfold emin. lia.
Qed.

End DoubleFacts.

(* ===================================================================== *)
(** * Objects used as maps *)
(* ===================================================================== *)

Section ObjectFacts.

Context {V : Type}.
Implicit Types (o : JS.object V) (k : string) (v : V).

Lemma get_None_not_key o k :
  JS.get o k = None <-> ~ In k (JS.keys o).
Proof.
  induction o as [|[k' v'] o IH]; simpl.
  - tauto.
  - destruct (String.eqb_spec k' k) as [->|Hne].
    + split; [discriminate | intros Hn; exfalso; apply Hn; now left].
    + rewrite IH. split; intros Hn; [intros [?|?]; [congruence | tauto] | tauto].
Qed.

Lemma get_set_same o k v : JS.get (JS.set o k v) k = Some v.
Proof.
  induction o as [|[k' v'] o IH]; simpl.
  - now rewrite String.eqb_refl.
  - destruct (String.eqb_spec k' k) as [->|Hne]; simpl.
    + now rewrite String.eqb_refl.
    + destruct (String.eqb_spec k' k); [congruence | exact IH].
Qed.

Lemma get_set_other o k k' v :
  k' <> k -> JS.get (JS.set o k v) k' = JS.get o k'.
Proof.
  intros Hne.
  induction o as [|[k0 v0] o IH]; simpl.
  - destruct (String.eqb_spec k k'); [congruence | reflexivity].
  - destruct (String.eqb_spec k0 k) as [->|Hk0]; simpl.
    + destruct (String.eqb_spec k k'); [congruence | reflexivity].
    + destruct (String.eqb_spec k0 k'); [reflexivity | exact IH].
Qed.

Lemma in_set o k v k' v' :
  In (k', v') (JS.set o k v) -> (k' = k /\ v' = v) \/ In (k', v') o.
Proof.
  induction o as [|[k0 v0] o IH]; simpl.
  - intros [Heq|[]]. left. now inversion Heq.
  - destruct (String.eqb_spec k0 k) as [->|Hk0]; simpl.
    + intros [Heq|Hin]; [left; now inversion Heq | right; now right].
    + intros [Heq|Hin]; [right; now left |].
      destruct (IH Hin) as [?|?]; [now left | right; now right].
Qed.

Lemma get_In o k v : JS.get o k = Some v -> In (k, v) o.
Proof.
  induction o as [|[k0 v0] o IH]; simpl; [discriminate |].
  destruct (String.eqb_spec k0 k) as [->|Hk0].
  - intros [= ->]. now left.
  - intros Hg. right. now apply IH.
Qed.

End ObjectFacts.

(* ===================================================================== *)
(** * Facts about the staking ledger engine *)
(* ===================================================================== *)

Section WatcherFacts.

Import Watcher Invariants.

Lemma inject_Z_nonneg (a : Z) : 0 <= a -> (0 <= inject_Z a)%Q.
Proof. intros Ha. change 0%Q with (inject_Z 0). now rewrite <- Zle_Qle. Qed.

Lemma lit_half : (JS.lit 0.5 == 1 # 2)%Q.
Proof. vm_compute. reflexivity. Qed.

Lemma read_own {V} (o : JS.object V) k v :
  JS.get o k = Some v -> JS.read o k = JS.Own v.
Proof. intros H. unfold JS.read. now rewrite H. Qed.

Lemma read_cases {V} (o : JS.object V) k :
  match JS.read o k with
  | JS.Own v => JS.get o k = Some v
  | _ => JS.get o k = None
  end.
Proof.
  unfold JS.read. destruct (JS.get o k); [reflexivity |].
  now destruct (existsb _ _).
Qed.

Lemma read_absent {V} (o : JS.object V) k :
  ~ In k (JS.keys o) -> ~ In k JS.builtins -> JS.read o k = JS.Absent.
Proof.
  intros Hk Hb. unfold JS.read.
  apply get_None_not_key in Hk. rewrite Hk.
  destruct (existsb (String.eqb k) JS.builtins) eqn:He; [| reflexivity].
  apply existsb_exists in He as (x & Hx & Heq).
  apply String.eqb_eq in Heq. subst x. contradiction.
Qed.

(** The floor of the rounded share [rate <= 1] of an amount binary64
    holds lies between zero and the amount. *)
Lemma floor_share_bounds (a : Z) (rate : Q) :
  0 <= a <= 2 ^ 53 -> (0 <= rate <= 1)%Q ->
  0 <= Qfloor (JS.mul (inject_Z a) rate) <= a.
Proof.
  intros [Ha Hs] [Hr0 Hr1]. unfold JS.mul.
  apply inject_Z_nonneg in Ha as Hq.
  assert (Hp0 : (0 <= inject_Z a * rate)%Q) by (apply Qmult_le_0_compat; lra).
  assert (Hp1 : (inject_Z a * rate <= inject_Z a)%Q).
  { assert (0 <= inject_Z a * (1 - rate))%Q by (apply Qmult_le_0_compat; lra).
    lra. }
  split.
  - change 0 with (Qfloor 0). apply Qfloor_resp_le, round64_nonneg, Hp0.
  - rewrite <- (Qfloor_Z a) at 2. apply Qfloor_resp_le.
    apply round64_le_int; [lia | exact Hp1].
Qed.

Lemma slashingRateFor_fraction params severity :
  (0 <= slashingRate params <= 1)%Q ->
  (0 <= slashingRateFor params severity <= 1)%Q.
Proof.
  intros [H0 H1]. destruct severity; cbn [slashingRateFor]; [split; assumption |].
  unfold JS.mul. pose proof lit_half as Hh. split.
  - apply round64_nonneg. rewrite Hh. lra.
  - apply (round64_le_int _ 1); [simpl; lia |]. rewrite Hh. change (inject_Z 1) with 1%Q. lra.
Qed.

Lemma slashPosition_amount fpId reason severity rate now p :
  amount (fst (slashPosition fpId reason severity rate now p))
  = Spec.slashedAmount fpId rate p.
Proof.
  unfold slashPosition, Spec.slashedAmount.
  now destruct (_ && _).
Qed.

Lemma slashedAmount_bounds fpId rate p :
  (0 <= rate <= 1)%Q -> 0 <= amount p <= 2 ^ 53 ->
  0 <= Spec.slashedAmount fpId rate p <= amount p.
Proof.
  intros Hr Ha. unfold Spec.slashedAmount.
  destruct (_ && _); [| lia].
  pose proof (floor_share_bounds _ _ Ha Hr). lia.
Qed.

(** Every entry of the object after the slashing loop is the image of an
    entry before it, under the same key. *)
Lemma slashLoop_entries fpId reason severity rate now ps total k p' :
  In (k, p') (fst (slashLoop fpId reason severity rate now ps total)) ->
  exists p, In (k, p) ps
            /\ p' = fst (slashPosition fpId reason severity rate now p).
Proof.
  revert total. induction ps as [|[k0 p0] ps IH]; intros total; simpl.
  - intros [].
  - destruct (slashPosition fpId reason severity rate now p0) as [q s] eqn:Hq.
    destruct (slashLoop fpId reason severity rate now ps (total + s))
      as [rest tot] eqn:Hloop.
    simpl. intros [Heq|Hin].
    + inversion Heq; subst. exists p0. split; [now left | now rewrite Hq].
    + specialize (IH (total + s)). rewrite Hloop in IH.
      destruct (IH Hin) as (p & Hp & ->). exists p. split; [now right | reflexivity].
Qed.

(** What [executeSlashing] leaves of the positions, of the parameters and
    of what the positions inherit. *)
Lemma executeSlashing_fields nowMs draw fpId reason w :
  let w' := fst (executeSlashing nowMs draw fpId reason w) in
  activeStakers w'
  = match JS.read (finalityProviders w) fpId with
    | JS.Absent => activeStakers w
    | _ => fst (slashLoop fpId reason (severityOf draw)
                  (slashingRateFor (stakingParams w) (severityOf draw))
                  (nowMs / 1000) (activeStakers w) 0)
    end
  /\ stakingParams w' = stakingParams w
  /\ stakersParent w' = stakersParent w
  /\ currentEpoch w' = currentEpoch w.
Proof.
  unfold executeSlashing.
  destruct (JS.read (finalityProviders w) fpId) as [fp| |];
    try (destruct (slashLoop _ _ _ _ _ _ _) as [stakers tot]);
    try (destruct (stakers_loop_throws w));
    try (destruct (String.eqb fpId "__proto__"));
    cbn; repeat split; reflexivity.
Qed.

Lemma executeSlashing_stakers nowMs draw fpId reason w k p' :
  In (k, p') (activeStakers (fst (executeSlashing nowMs draw fpId reason w))) ->
  exists p, In (k, p) (activeStakers w)
            /\ (p' = p
                \/ p' = fst (slashPosition fpId reason (severityOf draw)
                               (slashingRateFor (stakingParams w) (severityOf draw))
                               (nowMs / 1000) p)).
Proof.
  destruct (executeSlashing_fields nowMs draw fpId reason w) as (-> & _).
  intros Hin.
  destruct (JS.read (finalityProviders w) fpId);
    try (apply slashLoop_entries in Hin as (p & Hp & ->);
         exists p; split; [exact Hp | now right]).
  exists p'. split; [exact Hin | now left].
Qed.

Lemma executeSlashing_params nowMs draw fpId reason w :
  stakingParams (fst (executeSlashing nowMs draw fpId reason w)) = stakingParams w.
Proof. apply executeSlashing_fields. Qed.

Lemma updateNetworkStats_fields w :
  let w' := fst (updateNetworkStats w) in
  finalityProviders w' = finalityProviders w
  /\ activeStakers w' = activeStakers w
  /\ stakingParams w' = stakingParams w
  /\ stakersParent w' = stakersParent w
  /\ objectPrototype w' = objectPrototype w
  /\ currentEpoch w' = currentEpoch w.
Proof.
  unfold updateNetworkStats.
  destruct (stakers_loop_throws w); [cbn; repeat split; reflexivity |].
  destruct (sumActive _ _ _). cbn. repeat split; reflexivity.
Qed.

Lemma updateEpoch_fields rnd w :
  let w' := fst (updateEpoch rnd w) in
  finalityProviders w' = updateProviders rnd 0 (finalityProviders w)
  /\ activeStakers w' = activeStakers w
  /\ stakingParams w' = stakingParams w
  /\ stakersParent w' = stakersParent w
  /\ objectPrototype w' = objectPrototype w
  /\ currentEpoch w' = currentEpoch w + 1.
Proof.
  unfold updateEpoch, updateProviderPerformance.
  destruct (providers_loop_throws _); [cbn; repeat split; reflexivity |].
  match goal with
  | |- context [updateNetworkStats ?x] =>
      destruct (updateNetworkStats_fields x) as (-> & -> & -> & -> & -> & ->)
  end.
  cbn. repeat split; reflexivity.
Qed.

(** The reward loop changes the reward record of a position and nothing
    else of it. *)
Lemma rewardPosition_amount params nowMs now p fps :
  amount (fst (fst (rewardPosition params nowMs now p fps))) = amount p.
Proof.
  unfold rewardPosition.
  destruct (_ && _); [| reflexivity].
  destruct (calculateRewards _ _ _ _) as [r|]; [| reflexivity].
  now destruct (0 <? r).
Qed.

Lemma rewardLoop_entries params nowMs now ps fps total k p' :
  In (k, p') (fst (fst (rewardLoop params nowMs now ps fps total))) ->
  exists p fps0,
    In (k, p) ps
    /\ p' = fst (fst (rewardPosition params nowMs now p fps0)).
Proof.
  revert fps total. induction ps as [|[k0 p0] ps IH]; intros fps total; simpl.
  - intros [].
  - destruct (rewardPosition params nowMs now p0 fps) as [[q fps1] r] eqn:Hq.
    destruct (rewardLoop params nowMs now ps fps1 (total + r))
      as [[rest fps2] tot] eqn:Hloop.
    simpl. intros [Heq|Hin].
    + inversion Heq; subst. exists p0, fps. split; [now left | now rewrite Hq].
    + specialize (IH fps1 (total + r)). rewrite Hloop in IH.
      destruct (IH Hin) as (p & fps0 & Hp & ->).
      exists p, fps0. split; [now right | reflexivity].
Qed.

Lemma distributeStakingRewards_fields nowMs w :
  let w' := fst (distributeStakingRewards nowMs w) in
  activeStakers w'
  = fst (fst (rewardLoop (stakingParams w) nowMs (nowMs / 1000)
                (activeStakers w) (finalityProviders w) 0))
  /\ finalityProviders w'
     = snd (fst (rewardLoop (stakingParams w) nowMs (nowMs / 1000)
                   (activeStakers w) (finalityProviders w) 0))
  /\ stakingParams w' = stakingParams w
  /\ stakersParent w' = stakersParent w
  /\ objectPrototype w' = objectPrototype w
  /\ currentEpoch w' = currentEpoch w.
Proof.
  unfold distributeStakingRewards.
  destruct (rewardLoop _ _ _ _ _ _) as [[stakers fps] total].
  destruct (stakers_loop_throws w); cbn; repeat split; reflexivity.
Qed.

Lemma step_params w c : stakingParams (step w c) = stakingParams w.
Proof.
  destruct c; simpl.
  - apply executeSlashing_params.
  - apply updateEpoch_fields.
  - apply distributeStakingRewards_fields.
Qed.

(** A step of the engine leaves every amount between zero and what it
    was. *)
Lemma step_amounts w c k p' :
  rate_is_fraction w -> amounts_nonneg w -> amounts_safe w ->
  In (k, p') (activeStakers (step w c)) ->
  exists p, In (k, p) (activeStakers w) /\ 0 <= amount p' <= amount p.
Proof.
  intros Hr Hw Hs Hin. destruct c; simpl in Hin.
  - apply executeSlashing_stakers in Hin as (p & Hp & [->| ->]).
    + exists p. split; [exact Hp |]. specialize (Hw _ _ Hp). lia.
    + exists p. split; [exact Hp |]. rewrite slashPosition_amount.
      apply slashedAmount_bounds; [now apply slashingRateFor_fraction |].
      split; [eapply Hw | eapply Hs]; eauto.
  - destruct (updateEpoch_fields rnd w) as (_ & Hst & _).
    rewrite Hst in Hin. exists p'. split; [exact Hin |].
    specialize (Hw _ _ Hin). lia.
  - destruct (distributeStakingRewards_fields nowMs w) as (Hst & _).
    rewrite Hst in Hin.
    apply rewardLoop_entries in Hin as (p & fps0 & Hp & ->).
    exists p. split; [exact Hp |].
    rewrite rewardPosition_amount. specialize (Hw _ _ Hp). lia.
Qed.

Lemma step_amounts_nonneg w c :
  rate_is_fraction w -> amounts_nonneg w -> amounts_safe w ->
  amounts_nonneg (step w c) /\ amounts_safe (step w c).
Proof.
  intros Hr Hw Hs. split; intros k p' Hin;
    destruct (step_amounts w c k p' Hr Hw Hs Hin) as (p & Hp & Hb).
  - lia.
  - specialize (Hs _ _ Hp). lia.
Qed.

Lemma run_params w cs : stakingParams (run w cs) = stakingParams w.
Proof.
  unfold run. revert w.
  induction cs as [|c cs IH]; intros w; simpl; [reflexivity |].
  rewrite IH. apply step_params.
Qed.

End WatcherFacts.

(* ===================================================================== *)
(** * Slashing and the amounts of positions *)
(* ===================================================================== *)

Section Amounts.

Import Watcher Invariants.

Lemma slashLoop_Forall2 fpId reason severity rate now ps total :
  Forall2 (fun e e' =>
             fst e' = fst e
             /\ snd e' = fst (slashPosition fpId reason severity rate now (snd e)))
          ps (fst (slashLoop fpId reason severity rate now ps total)).
Proof.
  revert total. induction ps as [|[k0 p0] ps IH]; intros total; simpl.
  - constructor.
  - destruct (slashPosition fpId reason severity rate now p0) as [q s] eqn:Hq.
    specialize (IH (total + s)).
    destruct (slashLoop fpId reason severity rate now ps (total + s))
      as [rest tot].
    simpl in *. constructor; [| exact IH].
    simpl. now rewrite Hq.
Qed.

Lemma run_amounts_nonneg w cs :
  rate_is_fraction w -> amounts_nonneg w -> amounts_safe w ->
  amounts_nonneg (run w cs) /\ amounts_safe (run w cs).
Proof.
  unfold run. revert w.
  induction cs as [|c cs IH]; intros w Hr Hw Hs; simpl; [now split |].
  destruct (step_amounts_nonneg w c Hr Hw Hs) as [Hw' Hs'].
  apply IH; [| exact Hw' | exact Hs'].
  unfold rate_is_fraction. now rewrite step_params.
Qed.

(** The guard of [executeSlashing] stops an id that is neither a key of
    the provider object nor the name of a member of [Object.prototype]:
    the call returns and has changed nothing. *)
Lemma executeSlashing_absent nowMs draw fpId reason w :
  JS.read (finalityProviders w) fpId = JS.Absent ->
  executeSlashing nowMs draw fpId reason w = (w, Returned).
Proof. intros H. unfold executeSlashing. now rewrite H. Qed.

(** C2. A position's amount never becomes negative. With a configured
    slashing rate between 0 and 1 and amounts that start between 0 and
    2^53, every position holds a non-negative amount after any finite
    sequence of engine calls; in particular after any sequence of
    [executeSlashing] calls, whatever the providers, the reasons and the
    draws deciding the severities. And each slashing step that passes
    the guard subtracts [floor(amount * rate)], the product being the
    engine's rounded one and the rate the configured one or half of it,
    from the amount of every active position that names the provider, and
    leaves the amount of every other position: key by key the amount after
    the step is [Spec.slashedAmount], which lies between zero and the
    amount before; a step the guard stops changes nothing. *)
Theorem slashing_keeps_amounts_nonneg (w : Watcher.t) (cs : list call) :
  rate_is_fraction w ->
  amounts_nonneg w ->
  amounts_safe w ->
  amounts_nonneg (run w cs)
  /\ (forall nowMs draw fpId reason,
        let rate := slashingRateFor (stakingParams w) (severityOf draw) in
        let w' := fst (executeSlashing nowMs draw fpId reason w) in
        match JS.read (finalityProviders w) fpId with
        | JS.Absent => w' = w
        | _ =>
            Forall2 (fun e e' =>
                       fst e' = fst e
                       /\ amount (snd e') = Spec.slashedAmount fpId rate (snd e)
                       /\ 0 <= amount (snd e') <= amount (snd e))
                    (activeStakers w) (activeStakers w')
        end).
Proof.
  intros Hr Hw Hs. split.
  - apply run_amounts_nonneg; assumption.
  - intros nowMs draw fpId reason rate w'.
    assert (Hall : Forall2 (fun e e' =>
                       fst e' = fst e
                       /\ amount (snd e') = Spec.slashedAmount fpId rate (snd e)
                       /\ 0 <= amount (snd e') <= amount (snd e))
                    (activeStakers w)
                    (fst (slashLoop fpId reason (severityOf draw) rate
                            (nowMs / 1000) (activeStakers w) 0))).
    { pose proof (slashLoop_Forall2 fpId reason (severityOf draw) rate
                    (nowMs / 1000) (activeStakers w) 0) as HF.
      assert (Hin : forall e, In e (activeStakers w) ->
                              0 <= amount (snd e) <= 2 ^ 53).
      { intros [k p] Hin. split; [eapply Hw | eapply Hs]; eauto. }
      revert HF Hin. generalize (activeStakers w).
      generalize (fst (slashLoop fpId reason (severityOf draw) rate
                         (nowMs / 1000) (activeStakers w) 0)).
      intros l' l HF. induction HF as [|e e' l0 l0' [Hk Hp] HF IH]; intros Hin.
      - constructor.
      - constructor; [| apply IH; intros; apply Hin; now right].
        split; [exact Hk |]. rewrite Hp, slashPosition_amount.
        split; [reflexivity |].
        apply slashedAmount_bounds; [| apply Hin; now left].
        now apply slashingRateFor_fraction. }
    destruct (executeSlashing_fields nowMs draw fpId reason w) as (Hst & _).
    subst w'.
    destruct (JS.read (finalityProviders w) fpId) eqn:Hread.
    + rewrite Hst. exact Hall.
    + rewrite Hst. exact Hall.
    + now rewrite (executeSlashing_absent _ _ _ _ _ Hread).
Qed.

Lemma scenarioD_amounts_nonneg : amounts_nonneg Scenario.scenarioD.
Proof.
  intros k p Hin. vm_compute in Hin.
  destruct Hin as [Heq|[]]. inversion Heq; subst. cbn [amount]. lia.
Qed.

Lemma scenarioD_amounts_safe : amounts_safe Scenario.scenarioD.
Proof.
  intros k p Hin. vm_compute in Hin.
  destruct Hin as [Heq|[]]. inversion Heq; subst. cbn [amount]. lia.
Qed.

Lemma scenarioD_rate_is_fraction : rate_is_fraction Scenario.scenarioD.
Proof. split; vm_compute; discriminate. Qed.

Lemma slashing_keeps_amounts_nonneg_witness :
  amounts_nonneg
    (run Scenario.scenarioD
       [ ExecuteSlashing Scenario.t0 Scenario.minorDraw "fp1" "double_sign";
         ExecuteSlashing Scenario.t0 Scenario.majorDraw "fp1" "unavailability";
         ExecuteSlashing Scenario.t0 Scenario.majorDraw "constructor"
                         "double_sign" ]).
Proof.
  apply slashing_keeps_amounts_nonneg.
  - exact scenarioD_rate_is_fraction.
  - exact scenarioD_amounts_nonneg.
  - exact scenarioD_amounts_safe.
Defined.

(** A position delegated to the id [constructor], which is no provider. *)
Lemma delegated_to_constructor :
  exists p,
    Scenario.delegated "slashing_test_1" 100000000 "constructor"
    = with_activeStakers constructor [("slashing_test_1", p)]
    /\ amount p = 100000000
    /\ votingPower p = None.
Proof. eexists. split; [vm_compute; reflexivity | split; reflexivity]. Qed.

(** C10. [executeSlashing] with a provider id that is not in the
    finality-provider object, the id [constructor]: the guard does not
    stop it, because the lookup finds the member of [Object.prototype] of
    that name. The call slashes the position that names the id (from
    100,000,000 to 97,500,000 at a minor draw) and ends in a [TypeError];
    the providers and the network statistics are as before. *)
Theorem slashing_inherited_id_throws :
  let w := Scenario.delegated "slashing_test_1" 100000000 "constructor" in
  let r := executeSlashing Scenario.t0 Scenario.minorDraw "constructor"
                           "double_sign" w in
  ~ In "constructor" (JS.keys (finalityProviders w))
  /\ snd r = TypeError
  /\ (exists p',
        activeStakers (fst r) = [("slashing_test_1", p')]
        /\ amount p' = 97500000
        /\ penaltyAmount (slashing p') = 2500000)
  /\ fst r <> w
  /\ finalityProviders (fst r) = finalityProviders w
  /\ networkStats (fst r) = networkStats w.
Proof.
  cbv zeta. split; [| split; [| split; [| split; [| split]]]].
  - vm_compute. intros [H|[H|[H|[]]]]; discriminate H.
  - vm_compute. reflexivity.
  - eexists. split; [vm_compute; reflexivity | split; reflexivity].
  - intros H. apply (f_equal activeStakers) in H. vm_compute in H. discriminate H.
  - vm_compute. reflexivity.
  - vm_compute. reflexivity.
Qed.

End Amounts.

(* ===================================================================== *)
(** * Reputation and uptime stay within their bounds *)
(* ===================================================================== *)

Section Performance.

Import Watcher Invariants.

Lemma lit_tenth_nonneg : (0 <= JS.lit 0.1)%Q.
Proof. vm_compute. discriminate. Qed.

Lemma lit_half_nonneg : (0 <= JS.lit 0.5)%Q.
Proof. vm_compute. discriminate. Qed.

Lemma updateProvider_bounded draw fp :
  performance_bounded fp -> performance_bounded (updateProvider draw fp).
Proof.
  intros [[Hr1 Hr2] [Hu1 Hu2]].
  pose proof lit_tenth_nonneg as Ht. pose proof lit_half_nonneg as Hh.
  unfold performance_bounded, updateProvider, JS.Math_max, JS.Math_min.
  cbn [reputation uptime fp_with_votingPower fp_with_performance].
  repeat split.
  - destruct (JS.gt _ _); [| destruct (JS.lt _ _)].
    + apply Q.min_glb_iff. split; [lra |].
      unfold JS.add. apply (round64_ge_int _ 10); [simpl; lia |].
      change (inject_Z 10) with 10%Q. lra.
    + apply Q.max_le_iff. left. lra.
    + exact Hr1.
  - destruct (JS.gt _ _); [| destruct (JS.lt _ _)].
    + apply Q.min_le_iff. left. lra.
    + apply Q.max_lub_iff. split; [lra |].
      unfold JS.sub. apply (round64_le_int _ 100); [simpl; lia |].
      change (inject_Z 100) with 100%Q. lra.
    + exact Hr2.
  - apply Q.max_le_iff. left. lra.
  - apply Q.max_lub_iff. split; [lra |].
    apply Q.min_le_iff. left. lra.
Qed.

(** The uptime written by an epoch update is clamped whatever it was
    before. *)
Lemma updateProvider_uptime_clamped draw fp :
  (90 <= uptime (updateProvider draw fp) <= 100)%Q.
Proof.
  unfold updateProvider, JS.Math_max, JS.Math_min.
  cbn [uptime fp_with_votingPower fp_with_performance].
  split.
  - apply Q.max_le_iff. left. lra.
  - apply Q.max_lub_iff. split; [lra |].
    apply Q.min_le_iff. left. lra.
Qed.

Lemma updateProviders_entries rnd i fps k fp' :
  In (k, fp') (updateProviders rnd i fps) ->
  exists j fp, In (k, fp) fps /\ fp' = updateProvider (rnd j) fp.
Proof.
  revert i. induction fps as [|[k0 fp0] fps IH]; intros i; simpl.
  - intros [].
  - intros [Heq|Hin].
    + inversion Heq; subst. exists i, fp0. split; [now left | reflexivity].
    + destruct (IH _ Hin) as (j & fp & Hfp & ->).
      exists j, fp. split; [now right | reflexivity].
Qed.

Lemma executeSlashing_providers nowMs draw fpId reason w k fp' :
  In (k, fp')
     (finalityProviders (fst (executeSlashing nowMs draw fpId reason w))) ->
  In (k, fp') (finalityProviders w)
  \/ exists fp, In (k, fp) (finalityProviders w)
                /\ uptime fp' = uptime fp
                /\ reputation fp' = JS.Math_max 10 (JS.sub (reputation fp) 10).
Proof.
  unfold executeSlashing.
  pose proof (read_cases (finalityProviders w) fpId) as Hget.
  destruct (JS.read (finalityProviders w) fpId) as [fp| |]; [| | now left];
    destruct (slashLoop _ _ _ _ _ _ _) as [stakers tot];
    destruct (stakers_loop_throws w); try (now left).
  - cbn. intros Hin. apply in_set in Hin as [[-> ->]|Hin]; [| now left].
    right. exists fp. split; [now apply get_In | split; reflexivity].
  - destruct (String.eqb fpId "__proto__"); now left.
Qed.

Lemma slashed_reputation_bounded (rep : Q) :
  (10 <= rep <= 100)%Q ->
  (10 <= JS.Math_max 10 (JS.sub rep 10) <= 100)%Q.
Proof.
  intros [H1 H2]. unfold JS.Math_max. split.
  - apply Q.max_le_iff. left. lra.
  - apply Q.max_lub_iff. split; [lra |].
    unfold JS.sub. apply (round64_le_int _ 100); [simpl; lia |].
    change (inject_Z 100) with 100%Q. lra.
Qed.

(** A reward run credits commissions and leaves reputation and uptime as
    they were. *)
Lemma rewardPosition_providers params nowMs now p fps k fp' :
  In (k, fp') (snd (fst (rewardPosition params nowMs now p fps))) ->
  exists fp, In (k, fp) fps
             /\ reputation fp' = reputation fp /\ uptime fp' = uptime fp.
Proof.
  unfold rewardPosition.
  destruct (_ && _); [| intros Hin; exists fp'; now repeat split].
  destruct (calculateRewards _ _ _ _) as [r|];
    [| intros Hin; exists fp'; now repeat split].
  destruct (0 <? r); [| intros Hin; exists fp'; now repeat split].
  cbn [fst snd].
  pose proof (read_cases fps (finalityProvider p)) as Hget.
  destruct (JS.read fps (finalityProvider p)) as [fp| |];
    try (intros Hin; exists fp'; now repeat split).
  intros Hin. apply in_set in Hin as [[-> ->]|Hin].
  - exists fp. split; [now apply get_In | split; reflexivity].
  - exists fp'. now repeat split.
Qed.

Lemma rewardLoop_providers params nowMs now ps fps total k fp' :
  In (k, fp') (snd (fst (rewardLoop params nowMs now ps fps total))) ->
  exists fp, In (k, fp) fps
             /\ reputation fp' = reputation fp /\ uptime fp' = uptime fp.
Proof.
  revert fps total fp'.
  induction ps as [|[k0 p0] ps IH]; intros fps total fp'; simpl.
  - intros Hin. exists fp'. now repeat split.
  - destruct (rewardPosition params nowMs now p0 fps) as [[q fps1] r] eqn:Hq.
    destruct (rewardLoop params nowMs now ps fps1 (total + r))
      as [[rest fps2] tot] eqn:Hloop.
    simpl. intros Hin.
    specialize (IH fps1 (total + r) fp'). rewrite Hloop in IH.
    destruct (IH Hin) as (fp1 & Hin1 & Hr1 & Hu1).
    pose proof (rewardPosition_providers params nowMs now p0 fps k fp1) as Hstep.
    rewrite Hq in Hstep. destruct (Hstep Hin1) as (fp & Hfp & Hr & Hu).
    exists fp. split; [exact Hfp | split; congruence].
Qed.

Lemma step_providers_bounded w c :
  providers_bounded w -> providers_bounded (step w c).
Proof.
  intros Hw k fp' Hin. destruct c; simpl in Hin.
  - apply executeSlashing_providers in Hin
      as [Hin|(fp & Hfp & Hu & Hr)].
    + eapply Hw; eauto.
    + destruct (Hw _ _ Hfp) as [Hrep Hup].
      split; [rewrite Hr; now apply slashed_reputation_bounded | now rewrite Hu].
  - destruct (updateEpoch_fields rnd w) as (Hf & _ & _).
    rewrite Hf in Hin.
    apply updateProviders_entries in Hin as (j & fp & Hfp & ->).
    apply updateProvider_bounded. eapply Hw; eauto.
  - destruct (distributeStakingRewards_fields nowMs w) as (_ & Hf & _).
    rewrite Hf in Hin.
    apply rewardLoop_providers in Hin as (fp & Hfp & Hr & Hu).
    destruct (Hw _ _ Hfp) as [Hrep Hup].
    split; [now rewrite Hr | now rewrite Hu].
Qed.

(** C8. Reputation stays within [10, 100] and uptime within [90, 100]:
    when every provider starts within these bounds (as the providers
    created by the constructor do), every provider is within them after
    any finite sequence of epoch updates and slashing executions (and
    reward runs), whatever the random draws. *)
Theorem performance_stays_bounded (w : Watcher.t) (cs : list call) :
  providers_bounded w ->
  providers_bounded (run w cs).
Proof.
  unfold run. revert w.
  induction cs as [|c cs IH]; intros w Hw; simpl; [exact Hw |].
  apply IH. now apply step_providers_bounded.
Qed.

Lemma constructor_providers_bounded : providers_bounded constructor.
Proof.
  intros k fp Hin. vm_compute in Hin.
  destruct Hin as [Heq|[Heq|[Heq|[]]]]; inversion Heq; subst;
    unfold performance_bounded; cbn [reputation uptime];
    repeat split; vm_compute; discriminate.
Qed.

Lemma performance_stays_bounded_witness :
  providers_bounded
    (run constructor
       [ UpdateEpoch (fun _ => 0%Q);
         ExecuteSlashing Scenario.t0 Scenario.majorDraw "fp3" "double_sign";
         UpdateEpoch (fun i => if Nat.even i then 0.99%Q else 0%Q);
         ExecuteSlashing Scenario.t0 Scenario.minorDraw "fp3" "unavailability" ]).
Proof.
  apply performance_stays_bounded.
  exact constructor_providers_bounded.
Defined.

End Performance.

(* ===================================================================== *)
(** * Slashing severity and the slashing rate *)
(* ===================================================================== *)

Section SlashingRate.

Import Watcher.

Lemma severityOf_minor draw : (draw <= JS.lit 0.7)%Q -> severityOf draw = minor.
Proof.
  intros Hd. unfold severityOf, JS.gt.
  apply Qle_bool_iff in Hd. now rewrite Hd.
Qed.

(** Half of a binary64 rate is a binary64 number: the product by 0.5 is
    not rounded. *)
Lemma half_rate_exact (rate : Q) :
  Double.representable rate -> (2 ^ (-1021) <= Qabs rate)%Q ->
  (JS.mul rate (JS.lit 0.5) == rate / 2)%Q.
Proof.
  intros Hrep Hbig. unfold JS.mul.
  rewrite (round64_comp _ (rate * (1 # 2))%Q) by (rewrite lit_half; reflexivity).
  rewrite (round64_half rate Hrep Hbig). field.
Qed.

(** Ten points off a binary64 reputation of at least ten and at most a
    hundred is a binary64 number: the difference is not rounded. *)
Lemma reputation_minus_ten_exact (rep : Q) :
  Double.representable rep -> (10 <= rep <= 100)%Q ->
  (JS.sub rep 10 == rep - 10)%Q.
Proof.
  intros Hrep [H10 H100]. unfold JS.sub.
  apply (round64_minus_int rep 10 Hrep); [| lia | exact H10].
  apply expo_small; [lra |].
  apply Qle_lt_trans with 100%Q; [exact H100 | reflexivity].
Qed.

(** C6. With minor severity (a draw that does not exceed 0.7),
    [executeSlashing] applies half the configured base rate: the rate is
    the engine's product of the base rate by 0.5, which is exactly half of
    a base rate that is a binary64 number (the smallest ones apart); every
    active position of the provider loses [floor(amount * rate)], the
    product being the engine's, and no other position changes its amount;
    a single active position of 100,000,000 at the base rate 0.05 is left
    with 97,500,000; and, where the loop over the positions does not
    throw, the provider's reputation becomes [max(10, reputation - 10)]:
    ten points less for a reputation between 20 and 100, and 10 for a
    reputation of at most 20. *)
Theorem minor_slashing_halves_rate
    (nowMs : Z) (draw : Q) (fpId reason : string) (w : Watcher.t)
    (fp : FinalityProvider) :
  (draw <= JS.lit 0.7)%Q ->
  JS.get (finalityProviders w) fpId = Some fp ->
  let w' := fst (executeSlashing nowMs draw fpId reason w) in
  let rate := slashingRateFor (stakingParams w) (severityOf draw) in
  rate = JS.mul (slashingRate (stakingParams w)) (JS.lit 0.5)
  /\ (Double.representable (slashingRate (stakingParams w)) ->
      (2 ^ (-1021) <= Qabs (slashingRate (stakingParams w)))%Q ->
      (rate == slashingRate (stakingParams w) / 2)%Q)
  /\ Forall2 (fun e e' =>
                fst e' = fst e
                /\ amount (snd e') = Spec.slashedAmount fpId rate (snd e))
             (activeStakers w) (activeStakers w')
  /\ (forall k p,
        activeStakers w = [(k, p)] ->
        finalityProvider p = fpId -> status p = "active" ->
        amount p = 100000000 ->
        (slashingRate (stakingParams w) == JS.lit 0.05)%Q ->
        exists p', activeStakers w' = [(k, p')] /\ amount p' = 97500000)
  /\ (stakers_loop_throws w = false ->
      exists fp',
        JS.get (finalityProviders w') fpId = Some fp'
        /\ reputation fp' = Qmax 10 (JS.sub (reputation fp) 10)
        /\ (Double.representable (reputation fp) ->
            (20 <= reputation fp <= 100)%Q ->
            (reputation fp' == reputation fp - 10)%Q)
        /\ ((reputation fp <= 20)%Q -> (reputation fp' == 10)%Q)).
Proof.
  intros Hd Hget w' rate.
  assert (Hrate : rate = JS.mul (slashingRate (stakingParams w)) (JS.lit 0.5)).
  { subst rate. now rewrite (severityOf_minor _ Hd). }
  assert (HF : Forall2 (fun e e' =>
                fst e' = fst e
                /\ amount (snd e') = Spec.slashedAmount fpId rate (snd e))
             (activeStakers w) (activeStakers w')).
  { subst w'.
    destruct (executeSlashing_fields nowMs draw fpId reason w) as (-> & _).
    rewrite (read_own _ _ _ Hget).
    pose proof (slashLoop_Forall2 fpId reason (severityOf draw) rate
                  (nowMs / 1000) (activeStakers w) 0) as HF.
    eapply Forall2_impl; [exact HF |].
    intros e e' [Hk Hp]. split; [exact Hk |].
    rewrite Hp. apply slashPosition_amount. }
  split; [exact Hrate |]. split; [| split; [exact HF | split]].
  - intros Hrep Hbig. rewrite Hrate. now apply half_rate_exact.
  - intros k p Hw Hfp Hst Ha Hbase.
    rewrite Hw in HF. inversion HF as [|e e' l l' [Hk Hp] Hrest]; subst.
    inversion Hrest; subst. destruct e' as [k' p']. cbn [fst snd] in *. subst k'.
    exists p'. split; [congruence |].
    rewrite Hp. unfold Spec.slashedAmount, is_active.
    rewrite Hst, String.eqb_refl. cbn [andb String.eqb]. rewrite Ha, Hrate.
    unfold JS.mul at 2.
    rewrite (round64_comp _ (JS.lit 0.05 * JS.lit 0.5)%Q)
      by (rewrite Hbase; reflexivity).
    vm_compute. reflexivity.
  - intros Hloop. subst w'. unfold executeSlashing.
    rewrite (read_own _ _ _ Hget), Hloop.
    destruct (slashLoop _ _ _ _ _ _ _) as [stakers tot].
    cbn. rewrite get_set_same.
    eexists. split; [reflexivity |].
    cbn [reputation fp_slashed]. unfold JS.Math_max.
    split; [reflexivity | split].
    + intros Hrep [H20 H100].
      rewrite Q.max_r.
      * apply reputation_minus_ten_exact; [exact Hrep | split; lra].
      * rewrite reputation_minus_ten_exact; [lra | exact Hrep | split; lra].
    + intros H20. apply Q.max_l.
      unfold JS.sub. apply (round64_le_int _ 10); [simpl; lia |].
      change (inject_Z 10) with 10%Q. lra.
Qed.

Lemma minor_slashing_halves_rate_witness :
  exists p' fp',
    activeStakers
      (fst (executeSlashing Scenario.t0 Scenario.minorDraw "fp1" "double_sign"
                            Scenario.scenarioD))
    = [("slashing_test_1", p')]
    /\ amount p' = 97500000
    /\ JS.get
         (finalityProviders
            (fst (executeSlashing Scenario.t0 Scenario.minorDraw "fp1"
                                  "double_sign" Scenario.scenarioD))) "fp1"
       = Some fp'
    /\ (reputation fp' == 85)%Q.
Proof.
  assert (Hd : (Scenario.minorDraw <= JS.lit 0.7)%Q) by (vm_compute; discriminate).
  assert (Hget : exists fp,
             JS.get (finalityProviders Scenario.scenarioD) "fp1" = Some fp
             /\ reputation fp = 95%Q).
  { eexists. split; [vm_compute; reflexivity | reflexivity]. }
  destruct Hget as (fp & Hget & Hrep95).
  destruct (minor_slashing_halves_rate Scenario.t0 Scenario.minorDraw
              "fp1" "double_sign" Scenario.scenarioD fp Hd Hget)
    as (_ & _ & _ & Hscenario & Hprov).
  assert (Hst : exists p,
             activeStakers Scenario.scenarioD = [("slashing_test_1", p)]
             /\ finalityProvider p = "fp1" /\ status p = "active"
             /\ amount p = 100000000).
  { eexists. split; [vm_compute; reflexivity | repeat split]. }
  destruct Hst as (p & Hps & Hfp & Hstat & Ha).
  destruct (Hscenario _ _ Hps Hfp Hstat Ha) as (p' & Hp' & Ha').
  { vm_compute. reflexivity. }
  destruct (Hprov eq_refl) as (fp' & Hget' & _ & Hrep & _).
  exists p', fp'. repeat split; try assumption.
  rewrite Hrep.
  - rewrite Hrep95. reflexivity.
  - rewrite Hrep95. unfold Double.representable. vm_compute. reflexivity.
  - rewrite Hrep95. split; vm_compute; discriminate.
Defined.

End SlashingRate.

(* ===================================================================== *)
(** * Voting power *)
(* ===================================================================== *)

Section VotingPower.

Import Watcher.

(** Over the rationals and for whole percentages the formula is an
    integer division. *)
Lemma votingPower_exact_integral (d r u : Z) :
  Spec.votingPower_exact d (inject_Z r) (inject_Z u) = (d * r * u) / 1000000000.
Proof.
  unfold Spec.votingPower_exact.
  rewrite (Qfloor_comp _ (Qmake (d * r * u) 1000000000)).
  - reflexivity.
  - unfold Qeq, Qdiv, Qmult, Qinv, inject_Z. simpl. lia.
Qed.

(** The engine's products are rounded: its voting power can be one less
    than the floor of the exact product. *)
Lemma votingPower_rounded :
  Spec.votingPower 600000000 95 99 = 5642
  /\ Spec.votingPower_exact 600000000 95 99 = 5643.
Proof. split; vm_compute; reflexivity. Qed.




End VotingPower.

(* ===================================================================== *)
(** * The engine's numbers against primitive binary64

    Where the exact product lies close to an integer the rounding
    decides the floor. The values below are computed twice: by the
    engine's functions over [Double.round64], and by the same expressions
    on the primitive binary64 numbers of the prover. *)
(* ===================================================================== *)

Section Binary64Checks.

Import Watcher.

(** Scenario D on binary64: [Math.floor(100000000 * (0.05 * 0.5))]. *)
#[warnings="-inexact-float"]
Lemma binary64_minor_slashing :
  Binary64.minorSlashingAmount 100000000 0.05 = Some 2500000.
Proof. vm_compute. reflexivity. Qed.

(** The voting-power scenario on binary64. *)
Lemma binary64_voting_power :
  Binary64.votingPower 100000000 95 99 = Some 940.
Proof. vm_compute. reflexivity. Qed.

(** Literals and single operations. *)
#[warnings="-inexact-float"]
Lemma binary64_literals :
  Binary64.value 0.05 = Some (JS.lit 0.05)
  /\ Binary64.value 0.58 = Some (JS.lit 0.58)
  /\ Binary64.value 0.7 = Some (JS.lit 0.7)
  /\ Binary64.value 0.1 = Some (JS.lit 0.1)
  /\ Binary64.value 365.25 = Some (JS.lit 365.25)
  /\ Binary64.value (0.58 * 0.5) = Some (JS.mul (JS.lit 0.58) (JS.lit 0.5))
  /\ Binary64.value (100 * (0.58 * 0.5))
     = Some (JS.mul 100 (JS.mul (JS.lit 0.58) (JS.lit 0.5)))
  /\ Binary64.value (0.1 + 0.2) = Some (JS.add (JS.lit 0.1) (JS.lit 0.2))
  /\ Binary64.value (1 / 3) = Some (JS.div 1 3)
  /\ Binary64.value (95.3 - 10) = Some (JS.sub (JS.lit 95.3) 10)
  /\ Binary64.value 5e-324 = Some (JS.lit (5 # 10 ^ 324)).
Proof. repeat split; vm_compute; reflexivity. Qed.

(** A minor slashing at the configured rate 0.58 takes 28 of 100, where
    the exact product of 100 by 0.29 is 29. *)
#[warnings="-inexact-float"]
Lemma rounded_minor_slashing :
  Qfloor (JS.mul 100 (slashingRateFor
                        {| minStakingAmount := 1000000;
                           maxStakingAmount := 1000000000000;
                           minStakingTime := 86400;
                           maxStakingTime := 31536000;
                           slashingRate := JS.lit 0.58;
                           baseRewardRate := JS.lit 0.06;
                           epochDuration := 21600;
                           unbondingPeriod := 604800;
                           maxDelegations := 1000 |} minor)) = 28
  /\ Binary64.minorSlashingAmount 100 0.58 = Some 28
  /\ Qfloor (JS.mul 90000000 (JS.mul (JS.lit 0.58) (JS.lit 0.5))) = 26100000
  /\ Binary64.minorSlashingAmount 90000000 0.58 = Some 26100000
  /\ Qfloor (90000000 * (JS.lit 0.58 * (1 # 2)))%Q = 26099999.
Proof. repeat split; vm_compute; reflexivity. Qed.

(** The voting power of 600,000,000 delegated to "fp1" is 5642, and the
    basic voting power of 100,500,000 is 1004. *)
Lemma rounded_voting_power :
  Spec.votingPower 600000000 95 99 = 5642
  /\ Binary64.votingPower 600000000 95 99 = Some 5642
  /\ calculateVotingPowerBasic 100500000 = 1004
  /\ Binary64.votingPowerBasic 100500000 = Some 1004.
Proof. repeat split; vm_compute; reflexivity. Qed.

(** The reward of 97,400,000 delegated to "fp1" for thirteen hours is
    8150. *)
#[warnings="-inexact-float"]
Lemma rounded_reward :
  (exists p w,
      createStakingPosition Scenario.t0 (Scenario.mockTx "reward_test_1" 97400000)
                            "fp1" constructor = Some (p, w)
      /\ calculateRewards (stakingParams w) (finalityProviders w)
                          (Scenario.t0 + 13 * 3600 * 1000) p = Some 8150)
  /\ Binary64.reward 97400000 0.06 (13 * 3600 * 1000) 95 99 = Some 8150.
Proof.
  split; [| vm_compute; reflexivity].
  eexists _, _. split; [reflexivity | vm_compute; reflexivity].
Qed.

End Binary64Checks.

(* ===================================================================== *)
(** * Network statistics *)
(* ===================================================================== *)

Section NetworkStatistics.

Import Watcher.

Lemma sumActive_spec ps staked delegators :
  sumActive ps staked delegators
  = (staked + Spec.sum_Z (map amount (List.filter is_active (JS.values ps))),
     delegators + Z.of_nat (length (List.filter is_active (JS.values ps)))).
Proof.
  revert staked delegators.
  induction ps as [|[k p] ps IH]; intros staked delegators; simpl.
  - f_equal; lia.
  - destruct (is_active p); rewrite IH; simpl; f_equal; lia.
Qed.

Lemma fold_left_add_map {A} (f : A -> Q) (l : list A) (a : Q) :
  fold_left (fun sum x => JS.add sum (f x)) l a = fold_left JS.add (map f l) a.
Proof.
  revert a. induction l as [|x l IH]; intros a; simpl; [reflexivity | apply IH].
Qed.

(** [updateNetworkStats] recomputes the statistics from the positions and
    the providers, when its loop over the positions does not throw. *)
Lemma updateNetworkStats_recomputes w :
  stakers_loop_throws w = false ->
  Spec.stats_recomputed (fst (updateNetworkStats w)).
Proof.
  intros Hloop.
  unfold Spec.stats_recomputed, Spec.activePositions, Spec.activeProviders.
  destruct (updateNetworkStats_fields w) as (-> & -> & _).
  unfold updateNetworkStats. rewrite Hloop, sumActive_spec.
  cbn [fst networkStats with_networkStats totalStaked totalDelegators
       activeFinality averageCommission networkUptime].
  repeat split; try lia;
    match goal with H : _ <> [] |- _ => rename H into Hne end;
    destruct (List.filter isActive (JS.values (finalityProviders w)))
      as [|fp fps] eqn:Hf; try congruence;
    replace (0 <? Z.of_nat (length (fp :: fps))) with true
      by (symmetry; apply Z.ltb_lt; simpl; lia);
    unfold Spec.average; rewrite length_map, fold_left_add_map;
    reflexivity.
Qed.

(** The epoch update ends with [updateNetworkStats]: its statistics are
    the recomputed ones, when neither of its loops throws. *)
Lemma updateEpoch_recomputes rnd w :
  stakers_loop_throws w = false ->
  providers_loop_throws w = false ->
  Spec.stats_recomputed (fst (updateEpoch rnd w)).
Proof.
  intros Hs Hp. unfold updateEpoch, updateProviderPerformance.
  unfold providers_loop_throws in *.
  cbn [finalityProviders objectPrototype with_networkStats with_currentEpoch].
  rewrite Hp. apply updateNetworkStats_recomputes. exact Hs.
Qed.

(** C9, evaluated on scenario D. The statistics are recomputed for the
    single position of 100,000,000; [executeSlashing] then slashes the
    position to 97,500,000 and adds the 2,500,000 to [totalSlashed], but
    leaves [totalStaked] at 100,000,000: after the slashing step the
    statistics are not the ones recomputed from the live positions. *)
Theorem slashing_leaves_stats_stale :
  let w := fst (updateNetworkStats Scenario.scenarioD) in
  let w' :=
    fst (executeSlashing Scenario.t0 Scenario.minorDraw "fp1" "double_sign" w) in
  Spec.stats_recomputed w
  /\ totalStaked (networkStats w) = 100000000
  /\ Spec.sum_Z (map amount (Spec.activePositions w')) = 97500000
  /\ totalStaked (networkStats w') = 100000000
  /\ totalSlashed (networkStats w') = 2500000
  /\ ~ Spec.stats_recomputed w'.
Proof.
  intros w w'. split; [apply updateNetworkStats_recomputes; reflexivity |].
  split; [vm_compute; reflexivity |]. split; [vm_compute; reflexivity |].
  split; [vm_compute; reflexivity |]. split; [vm_compute; reflexivity |].
  intros (Hstaked & _). vm_compute in Hstaked. discriminate Hstaked.
Qed.

(** [createStakingPosition] does not recompute the statistics either: the
    tests call [updateNetworkStats] after it. *)
Lemma creation_leaves_stats_stale :
  totalStaked (networkStats Scenario.scenarioD) = 0
  /\ Spec.sum_Z (map amount (Spec.activePositions Scenario.scenarioD))
     = 100000000.
Proof. split; vm_compute; reflexivity. Qed.

End NetworkStatistics.

(* ===================================================================== *)
(** * Reward distribution *)
(* ===================================================================== *)

Section RewardDistribution.

Import Watcher Invariants.

(** C3, evaluated on scenario D: one position of 100,000,000 delegated to
    "fp1" at time [t0]. A first reward run a year later accrues the reward
    of a year, 5,643,000, and stamps the last distribution. A second run
    another year later accrues 11,286,000, the reward of the two years
    since the position was created, where the year since the last
    distribution is worth 5,643,000 again: [calculateRewards] measures the
    time from [position.timestamp], and the run does not accrue the reward
    of the time since the last distribution. *)
Theorem reward_run_reaccrues :
  let key := "slashing_test_1" in
  let now1 := Scenario.t0 + Scenario.year in
  let now2 := Scenario.t0 + 2 * Scenario.year in
  let w1 := fst (distributeStakingRewards now1 Scenario.scenarioD) in
  let w2 := fst (distributeStakingRewards now2 w1) in
  exists p0 p1 p2 fp,
    JS.get (activeStakers Scenario.scenarioD) key = Some p0
    /\ JS.get (activeStakers w1) key = Some p1
    /\ JS.get (activeStakers w2) key = Some p2
    /\ JS.get (finalityProviders w1) "fp1" = Some fp
    /\ is_active p1 = true /\ isUnbonding p1 = false
    /\ amount p1 = 100000000
    /\ accumulated (rewards p0) = 0
    /\ accumulated (rewards p1) = 5643000
    /\ lastDistribution (rewards p1) = now1 / 1000
    /\ accumulated (rewards p2) = 5643000 + 11286000
    /\ Spec.reward (amount p1) (baseRewardRate (stakingParams w1))
                   (Spec.yearFraction (now2 / 1000)
                                      (lastDistribution (rewards p1)))
                   (reputation fp) (uptime fp)
       = 5643000
    /\ ~ Spec.accrues_since_last_distribution now2 w1 w2.
Proof.
  cbv zeta. eexists _, _, _, _.
  split; [vm_compute; reflexivity |].
  split; [vm_compute; reflexivity |].
  split; [vm_compute; reflexivity |].
  split; [vm_compute; reflexivity |].
  split; [reflexivity |]. split; [reflexivity |]. split; [reflexivity |].
  split; [reflexivity |]. split; [reflexivity |].
  split; [vm_compute; reflexivity |]. split; [reflexivity |].
  split; [vm_compute; reflexivity |].
  intros H.
  destruct (H "slashing_test_1" _ _ ltac:(vm_compute; reflexivity)
              eq_refl eq_refl ltac:(vm_compute; reflexivity))
    as (p' & Hget & Hacc).
  vm_compute in Hget. inversion Hget; subst p'; clear Hget.
  vm_compute in Hacc. discriminate Hacc.
Qed.

(** The accrual and the timestamp are guarded by [rewardAmount > 0]: a
    run that yields no positive reward for a position leaves its last
    distribution where it was. *)
Lemma reward_run_skips_dust :
  ~ Spec.advances_last_distribution
      (Scenario.t0 + 3600000) Scenario.dust
      (fst (distributeStakingRewards (Scenario.t0 + 3600000) Scenario.dust)).
Proof.
  intros H.
  destruct (H "dust_test_1" _ ltac:(vm_compute; reflexivity) eq_refl eq_refl)
    as (p' & Hget & Hlast).
  vm_compute in Hget. inversion Hget; subst p'; clear Hget.
  vm_compute in Hlast. discriminate Hlast.
Qed.

End RewardDistribution.

(* ===================================================================== *)
(** * The vault: register and mint *)
(* ===================================================================== *)

Section VaultFacts.

Import Vault.

Lemma length_pos_nonempty (t : string) :
  t <> "" -> (0 <? Z.of_nat (String.length t)) = true.
Proof. intros Ht. apply Z.ltb_lt. destruct t; [congruence | simpl; lia]. Qed.

Lemma getDeposit_store c t d : getDeposit (store_deposit c t d) t = d.
Proof.
  unfold getDeposit, store_deposit, set_deposit. cbn [vault deposits].
  now rewrite lookup_insert_eq.
Qed.

Lemma register_succeeds c relayer t usr amt unlock provider now :
  owner (vault c) = relayer -> paused (vault c) = false ->
  t <> "" -> usr <> 0 -> 0 < amt -> now < unlock ->
  isFinalityProviderAuthorized c provider = true ->
  timestamp (getDeposit c t) = 0 ->
  registerBabylonDeposit (call_from relayer now) c t usr amt unlock provider
  = inr (store_deposit c t
           {| user := usr; amount := amt; btcTxHash := t;
              unlockTime := unlock; finalityProvider := provider;
              timestamp := now; processed := false |}).
Proof.
  intros Ho Hp Ht Hu Ha Hn Hfp Hts.
  unfold registerBabylonDeposit, onlyRelayer, whenNotPaused, call_from.
  cbn [sender block_timestamp].
  rewrite Ho, Z.eqb_refl, Hp, (length_pos_nonempty _ Ht), Hfp, Hts.
  replace (usr =? 0) with false by (symmetry; now apply Z.eqb_neq).
  replace (0 <? amt) with true by (symmetry; now apply Z.ltb_lt).
  replace (now <? unlock) with true by (symmetry; now apply Z.ltb_lt).
  reflexivity.
Qed.

(** Registering a transaction id that already has a deposit fails, whoever
    calls and whatever the other arguments are. *)
Lemma register_duplicate_fails c ctx t usr amt unlock provider :
  timestamp (getDeposit c t) <> 0 ->
  exists e, registerBabylonDeposit ctx c t usr amt unlock provider = inl e.
Proof.
  intros Hts. apply Z.eqb_neq in Hts.
  unfold registerBabylonDeposit, onlyRelayer, whenNotPaused, require, revert,
    ok, bind.
  rewrite Hts.
  repeat match goal with
         | |- context [if ?b then _ else _] => destruct b
         end; eexists; reflexivity.
Qed.

(** With arguments that pass the other checks the failure is the duplicate
    error. *)
Lemma register_duplicate_reason c relayer t usr amt unlock provider now :
  owner (vault c) = relayer -> paused (vault c) = false ->
  t <> "" -> usr <> 0 -> 0 < amt -> now < unlock ->
  isFinalityProviderAuthorized c provider = true ->
  timestamp (getDeposit c t) <> 0 ->
  registerBabylonDeposit (call_from relayer now) c t usr amt unlock provider
  = inl (Revert "Deposit already registered").
Proof.
  intros Ho Hp Ht Hu Ha Hn Hfp Hts. apply Z.eqb_neq in Hts.
  unfold registerBabylonDeposit, onlyRelayer, whenNotPaused, call_from.
  cbn [sender block_timestamp].
  rewrite Ho, Z.eqb_refl, Hp, (length_pos_nonempty _ Ht), Hfp, Hts.
  replace (usr =? 0) with false by (symmetry; now apply Z.eqb_neq).
  replace (0 <? amt) with true by (symmetry; now apply Z.ltb_lt).
  replace (now <? unlock) with true by (symmetry; now apply Z.ltb_lt).
  reflexivity.
Qed.

Lemma mint_processed_fails c relayer t now :
  owner (vault c) = relayer -> paused (vault c) = false ->
  0 < timestamp (getDeposit c t) ->
  processed (getDeposit c t) = true ->
  mintStBTC (call_from relayer now) c t
  = inl (Revert "Deposit already processed").
Proof.
  intros Ho Hp Hts Hpr.
  unfold mintStBTC, onlyRelayer, whenNotPaused, call_from.
  cbn [sender block_timestamp].
  rewrite Ho, Z.eqb_refl, Hp, Hpr.
  replace (0 <? timestamp (getDeposit c t)) with true
    by (symmetry; now apply Z.ltb_lt).
  reflexivity.
Qed.

(** The chain after a successful mint of the deposit [d] stored for [t]. *)
Lemma mint_succeeds c relayer t now d :
  owner (vault c) = relayer -> paused (vault c) = false ->
  token_paused (stBTC c) = false ->
  authorized (stBTC c) !! vault_address c = Some true ->
  getDeposit c t = d ->
  0 < timestamp d -> processed d = false -> user d <> 0 ->
  amount d * 10 ^ 10 <= MAX_UINT256 ->
  userBalance c (user d) + amount d * 10 ^ 10 <= MAX_UINT256 ->
  totalDeposits (vault c) + amount d * 10 ^ 10 <= MAX_UINT256 ->
  totalSupply (stBTC c) + amount d * 10 ^ 10 <= MAX_UINT256 ->
  exists c',
    mintStBTC (call_from relayer now) c t = inr c'
    /\ getDeposit c' t = mark_processed d
    /\ owner (vault c') = owner (vault c)
    /\ paused (vault c') = paused (vault c)
    /\ authorizedFinalityProviders (vault c')
       = authorizedFinalityProviders (vault c)
    /\ balanceOf (stBTC c') (user d)
       = balanceOf (stBTC c) (user d) + amount d * 10 ^ 10
    /\ (forall a, a <> user d ->
                  balanceOf (stBTC c') a = balanceOf (stBTC c) a)
    /\ totalSupply (stBTC c') = totalSupply (stBTC c) + amount d * 10 ^ 10
    /\ userBalance c' (user d) = userBalance c (user d) + amount d * 10 ^ 10.
Proof.
  intros Ho Hp Htp Hauth Hd Hts Hpr Hu Hmul Hbal Htot Hsup.
  unfold mintStBTC, onlyRelayer, whenNotPaused, call_from, mint, _mint,
    onlyAuthorized, checked_mul, checked_add.
  cbn [sender block_timestamp].
  rewrite Ho, Z.eqb_refl, Hp, Hd, Hpr, Htp, Hauth.
  replace (0 <? timestamp d) with true by (symmetry; now apply Z.ltb_lt).
  replace (user d =? 0) with false by (symmetry; now apply Z.eqb_neq).
  replace (amount d * 10 ^ 10 <=? MAX_UINT256) with true
    by (symmetry; now apply Z.leb_le).
  cbn [require negb bind ok default orb].
  replace (userBalance c (user d) + amount d * 10 ^ 10 <=? MAX_UINT256)
    with true by (symmetry; now apply Z.leb_le).
  cbn [bind ok].
  replace (totalDeposits (vault c) + amount d * 10 ^ 10 <=? MAX_UINT256)
    with true by (symmetry; now apply Z.leb_le).
  cbn [bind ok].
  replace (totalSupply (stBTC c) + amount d * 10 ^ 10 <=? MAX_UINT256)
    with true by (symmetry; now apply Z.leb_le).
  cbn [bind ok].
  eexists. split; [reflexivity |].
  unfold getDeposit, balanceOf, userBalance.
  cbn [vault stBTC deposits balances totalSupply owner paused userBalances
       authorizedFinalityProviders].
  rewrite !lookup_insert_eq. cbn [default].
  repeat split.
  intros a Ha. now rewrite lookup_insert_ne by congruence.
Qed.

(** C1. For a transaction id [t] not yet registered, valid parameters (a
    non-empty id, a user other than the zero address, a positive amount, an
    unlock time after the block time, itself positive) and an authorized
    provider, on a vault
    run by the relayer, not paused and allowed to mint, with an amount whose
    18-decimal value fits the balances: register succeeds, then mint
    succeeds; the stored deposit for [t] is the registered one with
    [processed = true]; exactly [amount * 10^10] token units are minted to
    the deposit's user and to nobody else. A second registration for [t]
    fails, before or after the mint, whatever its arguments, and with
    arguments that are themselves valid it fails with "Deposit already
    registered"; a second mint fails with "Deposit already processed". The
    failed calls leave the chain as it is, so [t] keeps its one processed
    deposit. *)
Theorem register_then_mint_once
    (c : chain) (relayer : address) (t : string) (usr : address)
    (amt unlock : Z) (provider : string) (now1 now2 : Z) :
  owner (vault c) = relayer ->
  paused (vault c) = false ->
  token_paused (stBTC c) = false ->
  authorized (stBTC c) !! vault_address c = Some true ->
  t <> "" -> usr <> 0 -> 0 < amt -> 0 < now1 < unlock ->
  isFinalityProviderAuthorized c provider = true ->
  timestamp (getDeposit c t) = 0 ->
  amt * 10 ^ 10 <= MAX_UINT256 ->
  userBalance c usr + amt * 10 ^ 10 <= MAX_UINT256 ->
  totalDeposits (vault c) + amt * 10 ^ 10 <= MAX_UINT256 ->
  totalSupply (stBTC c) + amt * 10 ^ 10 <= MAX_UINT256 ->
  exists c1 c2,
    registerBabylonDeposit (call_from relayer now1) c t usr amt unlock provider
    = inr c1
    /\ mintStBTC (call_from relayer now2) c1 t = inr c2
    /\ getDeposit c2 t
       = {| user := usr; amount := amt; btcTxHash := t; unlockTime := unlock;
            finalityProvider := provider; timestamp := now1;
            processed := true |}
    /\ balanceOf (stBTC c2) usr = balanceOf (stBTC c) usr + amt * 10 ^ 10
    /\ (forall a, a <> usr -> balanceOf (stBTC c2) a = balanceOf (stBTC c) a)
    /\ totalSupply (stBTC c2) = totalSupply (stBTC c) + amt * 10 ^ 10
    /\ (forall ctx usr' amt' unlock' provider',
          (exists e, registerBabylonDeposit ctx c1 t usr' amt' unlock' provider'
                     = inl e)
          /\ (exists e, registerBabylonDeposit ctx c2 t usr' amt' unlock' provider'
                        = inl e))
    /\ (forall now3 usr' amt' unlock' provider',
          usr' <> 0 -> 0 < amt' -> now3 < unlock' ->
          isFinalityProviderAuthorized c provider' = true ->
          registerBabylonDeposit (call_from relayer now3) c1 t usr' amt' unlock'
                                 provider'
          = inl (Revert "Deposit already registered")
          /\ registerBabylonDeposit (call_from relayer now3) c2 t usr' amt'
                                    unlock' provider'
             = inl (Revert "Deposit already registered"))
    /\ (forall now3,
          mintStBTC (call_from relayer now3) c2 t
          = inl (Revert "Deposit already processed")).
Proof.
  intros Ho Hp Htp Hauth Ht Hu Ha [Hnow Hunlock] Hfp Hts Hmul Hbal Htot Hsup.
  set (d := {| user := usr; amount := amt; btcTxHash := t; unlockTime := unlock;
               finalityProvider := provider; timestamp := now1;
               processed := false |}).
  set (c1 := store_deposit c t d).
  assert (Hreg : registerBabylonDeposit (call_from relayer now1) c t usr amt
                   unlock provider = inr c1)
    by now apply register_succeeds.
  assert (Hd1 : getDeposit c1 t = d) by apply getDeposit_store.
  destruct (mint_succeeds c1 relayer t now2 d)
    as (c2 & Hmint & Hd2 & Ho2 & Hp2 & Hfp2 & Hb & Hothers & Hs & _);
    try assumption; try reflexivity.
  exists c1, c2.
  split; [exact Hreg |]. split; [exact Hmint |]. split; [exact Hd2 |].
  split; [exact Hb |]. split; [exact Hothers |]. split; [exact Hs |].
  assert (Hts1 : timestamp (getDeposit c1 t) <> 0)
    by (rewrite Hd1; simpl; lia).
  assert (Hts2 : timestamp (getDeposit c2 t) <> 0)
    by (rewrite Hd2; simpl; lia).
  split; [| split].
  - intros ctx usr' amt' unlock' provider'.
    split; now apply register_duplicate_fails.
  - intros now3 usr' amt' unlock' provider' Hu' Ha' Hn' Hfp'.
    assert (Hfp1 : isFinalityProviderAuthorized c1 provider' = true)
      by exact Hfp'.
    assert (Hfp3 : isFinalityProviderAuthorized c2 provider' = true)
      by (unfold isFinalityProviderAuthorized in *; now rewrite Hfp2).
    split.
    + now apply register_duplicate_reason.
    + apply register_duplicate_reason; try assumption.
      * now rewrite Ho2.
      * now rewrite Hp2.
  - intros now3. apply mint_processed_fails.
    + now rewrite Ho2.
    + now rewrite Hp2.
    + rewrite Hd2. simpl. lia.
    + rewrite Hd2. reflexivity.
Qed.

(** Scenario A on the deployed contracts: 250,000,000 satoshi mint
    2,500,000,000,000,000,000 token units. *)
Lemma register_then_mint_once_witness :
  exists c1 c2,
    registerBabylonDeposit (call_from 7 1700000000) (deployed 100 1 7)
      "test_tx_1" 42 250000000 (1700000000 + 86400) "fp1" = inr c1
    /\ mintStBTC (call_from 7 1700000012) c1 "test_tx_1" = inr c2
    /\ processed (getDeposit c2 "test_tx_1") = true
    /\ balanceOf (stBTC c2) 42 = 2500000000000000000
    /\ mintStBTC (call_from 7 1700000024) c2 "test_tx_1"
       = inl (Revert "Deposit already processed")
    /\ registerBabylonDeposit (call_from 7 1700000024) c2
         "test_tx_1" 42 250000000 (1700000000 + 86400) "fp1"
       = inl (Revert "Deposit already registered").
Proof.
  destruct (register_then_mint_once (deployed 100 1 7) 7 "test_tx_1" 42
              250000000 (1700000000 + 86400) "fp1" 1700000000 1700000012)
    as (c1 & c2 & Hreg & Hmint & Hd & Hb & _ & _ & _ & Hdup & Hagain);
    try reflexivity; try discriminate; try lia;
    try (apply Z.leb_le; reflexivity).
  exists c1, c2.
  split; [exact Hreg |]. split; [exact Hmint |].
  split; [now rewrite Hd |]. split; [exact Hb |].
  split; [apply Hagain |].
  apply Hdup; try reflexivity; try discriminate; lia.
Defined.

End VaultFacts.

(* ===================================================================== *)
(** * The relay controller: validation before register *)
(* ===================================================================== *)

Section ControllerFacts.

Import Trigger.

Context {W : Type} `{LedgerClient W}.

Ltac run_monad :=
  unfold exec, processBabylonDeposit, validateDepositBeforeProcessing,
    try_catch, bind, emit, ask, act, update, throw_if, throw, ret.

Ltac bool_facts :=
  repeat match goal with
         | H : (_ || _) = false |- _ => apply orb_false_iff in H; destruct H
         | H : negb _ = false |- _ => apply negb_false_iff in H
         | H : negb _ = true |- _ => apply negb_true_iff in H
         | H : String.eqb _ _ = false |- _ => apply String.eqb_neq in H
         | H : String.eqb _ _ = true |- _ => apply String.eqb_eq in H
         | H : (_ =? _) = true |- _ => apply Z.eqb_eq in H
         | H : (_ =? _) = false |- _ => apply Z.eqb_neq in H
         | H : (_ <=? _) = true |- _ => apply Z.leb_le in H
         | H : (_ <=? _) = false |- _ => apply Z.leb_gt in H
         | H : (_ <? _) = true |- _ => apply Z.ltb_lt in H
         | H : (_ <? _) = false |- _ => apply Z.ltb_ge in H
         end.

Lemma hash_accepted h :
  negb (isRealHash h) && negb (isTestHash h) = false ->
  isRealHash h || isTestHash h = true.
Proof. destruct (isRealHash h), (isTestHash h); simpl; congruence. Qed.

Lemma count_app f (tr1 tr2 : list event) :
  count f (tr1 ++ tr2) = (count f tr1 + count f tr2)%nat.
Proof. unfold count. now rewrite List.filter_app, length_app. Qed.

(** One run of [processBabylonDeposit] either rejects the deposit before
    any transaction, leaving the world as it is, or has seen the parameters
    pass the checks and invoked register once. It never raises. *)
Lemma process_cases (d : Deposit) (w : W) (tr : list event) :
  exists w' tr' o,
    processBabylonDeposit d (w, tr) = ((w', (tr ++ tr')%list), inr o)
    /\ ((success o = false /\ w' = w
         /\ count is_register tr' = 0%nat /\ count is_mint tr' = 0%nat
         /\ count is_attempt tr' = 0%nat)
        \/ (paramsAccepted (clock w) d
            /\ count is_register tr' = 1%nat
            /\ count is_attempt tr' = 0%nat)).
Proof.
  run_monad. cbn beta iota.
  destruct (negb (validDate (unlockTime d * 1000))) eqn:Hdate.
  { exists w, []. eexists. rewrite app_nil_r. split; [reflexivity |].
    left. repeat split. }
  repeat match goal with
         | |- context [if ?b then _ else _] => destruct b eqn:?
         end.
  all: try (eexists _, _, _; split; [rewrite <- ?app_assoc; reflexivity |];
            left; repeat split).
  assert (Hacc : paramsAccepted (clock w) d).
  { match goal with
    | Hh : negb (isRealHash _) && _ = false |- _ => apply hash_accepted in Hh
    end.
    bool_facts. repeat split; try assumption; lia. }
  destruct (registerTx d w) as [w1 [m1|st1]]; cbn beta iota.
  { eexists _, _, _. split; [rewrite <- ?app_assoc; reflexivity |].
    right. repeat split; apply Hacc. }
  destruct (negb (st1 =? 1)); cbn beta iota.
  { eexists _, _, _. split; [rewrite <- ?app_assoc; reflexivity |].
    right. repeat split; apply Hacc. }
  destruct (mintTx (btcTxHash d) w1) as [w2 [m2|st2]]; cbn beta iota.
  { eexists _, _, _. split; [rewrite <- ?app_assoc; reflexivity |].
    right. repeat split; apply Hacc. }
  destruct (negb (st2 =? 1)); cbn beta iota.
  { eexists _, _, _. split; [rewrite <- ?app_assoc; reflexivity |].
    right. repeat split; apply Hacc. }
  eexists _, _, _. split; [rewrite <- ?app_assoc; reflexivity |].
  right. repeat split; apply Hacc.
Qed.

Lemma process_unlock_in_past (d : Deposit) (w : W) :
  validDate (unlockTime d * 1000) = true ->
  notYetProcessed d w ->
  paramsWellFormed d ->
  unlockTime d <= clock w ->
  exec (processBabylonDeposit d) w
  = ((w, [GetDeposit (btcTxHash d)]),
     inr {| success := false;
            error := Some "Invalid unlock time - must be in the future";
            attempts := None |}).
Proof.
  intros Hdate Hnyp (Hh & Hhash & Haddr & Hamt) Hunlock.
  unfold notYetProcessed in Hnyp.
  run_monad. cbn beta iota.
  rewrite Hdate. cbn [negb]. cbn beta iota.
  rewrite Hnyp. cbn beta iota.
  replace (String.eqb (btcTxHash d) "") with false
    by (symmetry; now apply String.eqb_neq).
  cbn beta iota.
  replace (negb (isRealHash (btcTxHash d)) && negb (isTestHash (btcTxHash d)))
    with false
    by (destruct (isRealHash (btcTxHash d)), (isTestHash (btcTxHash d));
        simpl in *; congruence).
  cbn beta iota. rewrite Haddr. cbn [negb]. cbn beta iota.
  replace ((amount d =? 0) || (amount d <=? 0) || (maxAmount <? amount d))
    with false
    by (symmetry; repeat (apply orb_false_iff; split);
        [apply Z.eqb_neq | apply Z.leb_gt | apply Z.ltb_ge]; lia).
  cbn beta iota.
  replace ((unlockTime d =? 0) || (unlockTime d <=? clock w)) with true
    by (symmetry; apply orb_true_iff; right; now apply Z.leb_le).
  reflexivity.
Qed.

(** The log lines that open [processBabylonDeposit] format the unlock
    time as a date: a time no date can hold is rejected there, before any
    query. *)
Lemma process_invalid_date (d : Deposit) (w : W) :
  validDate (unlockTime d * 1000) = false ->
  exec (processBabylonDeposit d) w
  = ((w, []),
     inr {| success := false; error := Some "Invalid time value";
            attempts := None |}).
Proof.
  intros Hdate. run_monad. cbn beta iota.
  rewrite Hdate. reflexivity.
Qed.

(** C4, as the controller has it. Before the register operation is invoked
    the deposit has passed the local checks: a non-empty transaction id that
    is 64 hex characters or starts with a test prefix, a user address that
    starts with "0x" and is 42 characters long, an amount that is positive
    and at most the ceiling 21,000,000 x 10^8, and an unlock time strictly
    after the host time. A deposit that violates one of them is rejected:
    the outcome is a failure, neither register nor mint is invoked and the
    world is unchanged. In particular an unlock time that is not in the
    future and that a date can hold, for a deposit not yet processed and
    otherwise well formed, is rejected with "Invalid unlock time - must be
    in the future" after the deposit-status query alone; and an unlock
    time that no date can hold (more than 8,640,000,000,000 seconds from
    the epoch) is rejected with "Invalid time value" before any query. *)
Theorem validation_gates_register (d : Deposit) (w : W) :
  exists w' tr o,
    exec (processBabylonDeposit d) w = ((w', tr), inr o)
    /\ (count is_register tr <> 0%nat \/ count is_mint tr <> 0%nat ->
        paramsAccepted (clock w) d)
    /\ (~ paramsAccepted (clock w) d ->
        success o = false /\ w' = w
        /\ count is_register tr = 0%nat /\ count is_mint tr = 0%nat)
    /\ (validDate (unlockTime d * 1000) = true ->
        notYetProcessed d w ->
        paramsWellFormed d ->
        unlockTime d <= clock w ->
        o = {| success := false;
               error := Some "Invalid unlock time - must be in the future";
               attempts := None |}
        /\ tr = [GetDeposit (btcTxHash d)]
        /\ w' = w)
    /\ (validDate (unlockTime d * 1000) = false ->
        o = {| success := false; error := Some "Invalid time value";
               attempts := None |}
        /\ tr = []
        /\ w' = w).
Proof.
  destruct (process_cases d w []) as (w' & tr & o & Hexec & Hcases).
  exists w', tr, o. split; [exact Hexec |]. split; [| split; [| split]].
  - intros Hcount.
    destruct Hcases as [(_ & _ & Hr & Hm & _)|(Hacc & _)]; [| exact Hacc].
    destruct Hcount as [Hc|Hc]; congruence.
  - intros Hrej.
    destruct Hcases as [(Hs & Hw & Hr & Hm & _)|(Hacc & _)]; [| contradiction].
    repeat split; assumption.
  - intros Hdate Hnyp Hwf Hunlock.
    pose proof (process_unlock_in_past d w Hdate Hnyp Hwf Hunlock) as Hpast.
    unfold exec in Hpast. rewrite Hpast in Hexec.
    inversion Hexec; subst. repeat split.
  - intros Hdate.
    pose proof (process_invalid_date d w Hdate) as Hbad.
    unfold exec in Hbad. rewrite Hbad in Hexec.
    inversion Hexec; subst. repeat split.
Qed.

End ControllerFacts.

Section ControllerScenarios.

Import Trigger.

Lemma validation_gates_register_witness :
  Scenario.trace_of (processBabylonDeposit Scenario.pastUnlock) Scenario.world
  = [GetDeposit "test_tx_1"]
  /\ Scenario.outcome_of (processBabylonDeposit Scenario.pastUnlock)
                         Scenario.world
     = inr {| success := false;
              error := Some "Invalid unlock time - must be in the future";
              attempts := None |}.
Proof.
  destruct (validation_gates_register Scenario.pastUnlock Scenario.world)
    as (w' & tr & o & Hexec & _ & _ & Hpast & _).
  destruct Hpast as (Ho & Htr & Hw).
  - reflexivity.
  - reflexivity.
  - repeat split; try reflexivity; try discriminate.
  - simpl. lia.
  - unfold Scenario.trace_of, Scenario.outcome_of.
    rewrite Hexec, Ho, Htr. split; reflexivity.
Defined.

(** C4 as stated fails on three counts. A user address of 42 characters
    that starts with "0x" passes the local check without being hex, and the
    register operation is invoked with it. An amount equal to the ceiling is
    let through. And a rejected deposit has cost one ledger call, the
    deposit-status query that precedes the checks. *)
Lemma validation_counterexample :
  (In (RegisterBabylonDeposit Scenario.badAddress)
      (Scenario.trace_of (processBabylonDeposit Scenario.badAddress)
                         Scenario.world)
   /\ ~ Spec.paramsValid (clock Scenario.world) Scenario.badAddress)
  /\ (In (RegisterBabylonDeposit Scenario.atCeiling)
         (Scenario.trace_of (processBabylonDeposit Scenario.atCeiling)
                            Scenario.world)
      /\ ~ Spec.paramsValid (clock Scenario.world) Scenario.atCeiling)
  /\ (~ Spec.paramsValid (clock Scenario.world) Scenario.pastUnlock
      /\ ~ Spec.no_chain_call
             (Scenario.trace_of (processBabylonDeposit Scenario.pastUnlock)
                                Scenario.world)).
Proof.
  split; [| split]; split.
  - vm_compute. tauto.
  - intros (_ & _ & (a & Ha & Hevm) & _).
    inversion Ha; subst a. vm_compute in Hevm. discriminate Hevm.
  - vm_compute. tauto.
  - intros (_ & _ & _ & (_ & Hlt) & _). vm_compute in Hlt. discriminate Hlt.
  - intros (_ & _ & _ & _ & Hlt). vm_compute in Hlt. discriminate Hlt.
  - vm_compute. discriminate.
Qed.

End ControllerScenarios.

(* ===================================================================== *)
(** * The relay controller: the retry loop *)
(* ===================================================================== *)

Section RetryFacts.

Import Trigger.

Context {W : Type} `{LedgerClient W}.

(** The loop with [remaining] iterations left: it never raises once it has
    an iteration or an error to report, attempts at most [remaining] times,
    and reports a failure only after the last of them. *)
Lemma retryLoop_spec (remaining : nat) :
  forall attempt maxRetries d lastError (w : W) tr,
    remaining <> 0%nat \/ lastError <> None ->
    exists w' tr' o,
      retryLoop remaining attempt maxRetries d lastError (w, tr)
      = ((w', (tr ++ tr')%list), inr o)
      /\ (count is_attempt tr' <= remaining)%nat
      /\ (success o = false ->
          count is_attempt tr' = remaining
          /\ attempts o = Some maxRetries
          /\ exists msg, error o = Some ("All retry attempts failed: " ++ msg))
      /\ (~ paramsWellFormed d ->
          success o = false
          /\ count is_register tr' = 0%nat /\ count is_mint tr' = 0%nat).
Proof.
  induction remaining as [|k IH]; intros attempt maxRetries d lastError w tr Hne.
  - destruct lastError as [msg|]; [| destruct Hne; congruence].
    exists w, []. eexists. rewrite app_nil_r.
    split; [reflexivity |]. cbn [success attempts error].
    split; [cbn; lia |]. split.
    + intros _. split; [reflexivity |]. split; [reflexivity | now exists msg].
    + intros _. repeat split.
  - cbn [retryLoop]. unfold bind at 1. unfold emit at 1.
    unfold bind at 1.
    destruct (process_cases d w (tr ++ [ProcessingAttempt attempt]))
      as (w1 & tr1 & o1 & Hp & Hcases).
    rewrite Hp.
    destruct (success o1) eqn:Hs1.
    + exists w1, (ProcessingAttempt attempt :: tr1), o1.
      unfold ret. rewrite <- app_assoc. split; [reflexivity |].
      assert (Hatt : count is_attempt tr1 = 0%nat)
        by (destruct Hcases as [(_ & _ & _ & _ & Ha)|(_ & _ & Ha)]; exact Ha).
      change (ProcessingAttempt attempt :: tr1)
        with ([ProcessingAttempt attempt] ++ tr1)%list.
      rewrite count_app, Hatt. cbn.
      split; [lia |]. split; [congruence |].
      intros Hwf. exfalso.
      destruct Hcases as [(Hf & _)|(Hacc & _)]; [congruence |].
      apply Hwf, Hacc.
    + unfold bind at 1.
      set (msg := default "" (error o1)).
      assert (Hsleep :
                exists w2 tr2,
                  (if attempt <? maxRetries
                   then bind (emit (Sleep (Z.min (1000 * 2 ^ (attempt - 1)) 10000)))
                             (fun _ => update
                                (sleep (Z.min (1000 * 2 ^ (attempt - 1)) 10000)))
                   else ret tt)
                    (w1, ((tr ++ [ProcessingAttempt attempt]) ++ tr1)%list)
                  = ((w2, (((tr ++ [ProcessingAttempt attempt]) ++ tr1)
                           ++ tr2)%list), inr tt)
                  /\ count is_attempt tr2 = 0%nat
                  /\ count is_register tr2 = 0%nat
                  /\ count is_mint tr2 = 0%nat).
      { destruct (attempt <? maxRetries).
        - eexists _, [Sleep _]. split; [reflexivity | repeat split].
        - exists w1, []. rewrite app_nil_r. split; [reflexivity | repeat split]. }
      destruct Hsleep as (w2 & tr2 & Hsl & Ha2 & Hr2 & Hm2).
      rewrite Hsl.
      destruct (IH (attempt + 1) maxRetries d (Some msg) w2
                  (((tr ++ [ProcessingAttempt attempt]) ++ tr1) ++ tr2)%list)
        as (w3 & tr3 & o3 & Hloop & Hle & Hfail & Hrej);
        [right; discriminate |].
      rewrite Hloop.
      exists w3, ([ProcessingAttempt attempt] ++ tr1 ++ tr2 ++ tr3)%list, o3.
      split; [now rewrite <- !app_assoc |].
      assert (Hatt : count is_attempt tr1 = 0%nat)
        by (destruct Hcases as [(_ & _ & _ & _ & Ha)|(_ & _ & Ha)]; exact Ha).
      rewrite !count_app, Hatt, Ha2, Hr2, Hm2. cbn.
      split; [lia |]. split.
      * intros Hf. destruct (Hfail Hf) as (Hc & Hat & Hmsg).
        split; [lia | split; assumption].
      * intros Hwf. destruct (Hrej Hwf) as (Hf & Hr3 & Hm3).
        destruct Hcases as [(_ & _ & Hr1 & Hm1 & _)|(Hacc & _)];
          [| exfalso; apply Hwf, Hacc].
        rewrite Hr1, Hm1, Hr3, Hm3. repeat split; assumption.
Qed.

(** C5, as the controller has it. The retry loop classifies no error as
    terminal: with [maxRetries >= 1] it returns an outcome, makes at most
    [maxRetries] attempts, and when the outcome is a failure it has made all
    [maxRetries] attempts, whatever the errors were, and reports "All retry
    attempts failed: ..." with the attempt count. A deposit whose
    transaction id, user address or amount is rejected by the local checks
    is attempted [maxRetries] times as well, each attempt failing without a
    register or mint call. *)
Theorem retry_attempts_every_failure (d : Deposit) (maxRetries : nat) (w : W) :
  (0 < maxRetries)%nat ->
  exists w' tr o,
    exec (processBabylonDepositWithRetry d maxRetries) w = ((w', tr), inr o)
    /\ (count is_attempt tr <= maxRetries)%nat
    /\ (success o = false ->
        count is_attempt tr = maxRetries
        /\ attempts o = Some (Z.of_nat maxRetries)
        /\ exists msg, error o = Some ("All retry attempts failed: " ++ msg))
    /\ (~ paramsWellFormed d ->
        success o = false
        /\ count is_attempt tr = maxRetries
        /\ count is_register tr = 0%nat /\ count is_mint tr = 0%nat).
Proof.
  intros Hpos.
  destruct (retryLoop_spec maxRetries 1 (Z.of_nat maxRetries) d None w [])
    as (w' & tr & o & Hloop & Hle & Hfail & Hrej); [left; lia |].
  exists w', tr, o. split; [exact Hloop |]. split; [exact Hle |].
  split; [exact Hfail |].
  intros Hwf. destruct (Hrej Hwf) as (Hf & Hr & Hm).
  destruct (Hfail Hf) as (Hc & _). repeat split; assumption.
Qed.

End RetryFacts.

Section RetryScenarios.

Import Trigger.

Lemma retry_attempts_every_failure_witness :
  count is_attempt
    (Scenario.trace_of (processBabylonDepositWithRetry Scenario.noHash 3)
                       Scenario.world) = 3%nat
  /\ count is_register
       (Scenario.trace_of (processBabylonDepositWithRetry Scenario.noHash 3)
                          Scenario.world) = 0%nat.
Proof.
  destruct (retry_attempts_every_failure Scenario.noHash 3 Scenario.world)
    as (w' & tr & o & Hexec & _ & _ & Hrej); [lia |].
  destruct Hrej as (_ & Hc & Hr & _).
  - intros (Hh & _). apply Hh. reflexivity.
  - unfold Scenario.trace_of. rewrite Hexec. split; assumption.
Defined.

(** C5 as stated fails: a duplicate registration is retried. With the
    deposit already registered with the vault the register call reverts
    with "Deposit already registered", and the loop makes all three
    attempts, invoking register three times. A validation error (an unlock
    time in the past) is attempted three times as well. *)
Lemma retry_counterexample :
  (~ Spec.not_retried
       (Scenario.trace_of (processBabylonDepositWithRetry Scenario.deposit 3)
                          Scenario.registeredWorld)
   /\ count is_register
        (Scenario.trace_of (processBabylonDepositWithRetry Scenario.deposit 3)
                           Scenario.registeredWorld) = 3%nat
   /\ Scenario.outcome_of (processBabylonDepositWithRetry Scenario.deposit 3)
                          Scenario.registeredWorld
      = inr {| success := false;
               error := Some "All retry attempts failed: Deposit already registered";
               attempts := Some 3 |})
  /\ (~ Spec.not_retried
          (Scenario.trace_of
             (processBabylonDepositWithRetry Scenario.pastUnlock 3)
             Scenario.world)
      /\ Scenario.outcome_of
           (processBabylonDepositWithRetry Scenario.pastUnlock 3) Scenario.world
         = inr {| success := false;
                  error := Some "All retry attempts failed: Invalid unlock time - must be in the future";
                  attempts := Some 3 |}).
Proof.
  repeat split; try (vm_compute; reflexivity); vm_compute; discriminate.
Qed.

End RetryScenarios.

(* ===================================================================== *)
(** * The contracts: books, deposits, access *)
(* ===================================================================== *)

Section VaultCallFacts.

Import Vault VaultCalls.

Lemma sum_values_empty : sum_values ∅ = 0.
Proof. unfold sum_values. apply map_fold_empty. Qed.

Lemma sum_values_insert_fresh (m : gmap address Z) k v :
  m !! k = None -> sum_values (<[k := v]> m) = v + sum_values m.
Proof.
  intros Hk. unfold sum_values.
  rewrite map_fold_insert_L; [reflexivity | intros; cbn beta; ring | exact Hk].
Qed.

(** Writing [v] under [k] replaces what was read there. *)
Lemma sum_values_insert (m : gmap address Z) k v :
  sum_values (<[k := v]> m) = sum_values m - default 0 (m !! k) + v.
Proof.
  destruct (m !! k) as [old|] eqn:Hk; cbn [default]; unfold id.
  - assert (Hnew : sum_values (<[k := v]> m) = v + sum_values (delete k m)).
    { rewrite <- (insert_delete_eq m k v).
      apply sum_values_insert_fresh, lookup_delete_eq. }
    assert (Hold : sum_values m = old + sum_values (delete k m)).
    { rewrite <- (insert_delete_id m k old Hk) at 1.
      apply sum_values_insert_fresh, lookup_delete_eq. }
    lia.
  - rewrite sum_values_insert_fresh by exact Hk. lia.
Qed.

Lemma sum_values_lookup_le (m : gmap address Z) k v :
  (forall a x, m !! a = Some x -> 0 <= x) ->
  m !! k = Some v -> v <= sum_values m.
Proof.
  intros Hpos Hk.
  assert (Hnonneg : forall m' : gmap address Z,
             (forall a x, m' !! a = Some x -> 0 <= x) -> 0 <= sum_values m').
  { intros m'. induction m' as [|a x m' Ha IH] using map_ind; intros Hm'.
    - rewrite sum_values_empty. lia.
    - rewrite sum_values_insert_fresh by exact Ha.
      assert (0 <= x) by (apply (Hm' a); apply lookup_insert_eq).
      assert (0 <= sum_values m').
      { apply IH. intros b y Hb. apply (Hm' b).
        rewrite lookup_insert_ne; [exact Hb | intros ->; congruence]. }
      lia. }
  rewrite <- (insert_delete_id m k v Hk).
  rewrite sum_values_insert_fresh by apply lookup_delete_eq.
  assert (0 <= sum_values (delete k m)); [| lia].
  apply Hnonneg. intros a x Ha.
  apply lookup_delete_Some in Ha as [_ Ha]. eauto.
Qed.

(** Reads a successful call back into the checks it passed. *)
Ltac passed H :=
  unfold checked_add, checked_mul, checked_sub, bind, require, ok, revert in H;
  repeat (first
            [ discriminate H
            | match type of H with
              | context [if ?b then _ else _] =>
                  destruct b eqn:?; cbn beta iota in H
              | context [match ?x with inl _ => _ | inr _ => _ end] =>
                  destruct x eqn:?; cbn beta iota in H
              end ]);
  try (injection H as H);
  repeat match goal with
         | Hb : negb _ = true |- _ => apply negb_true_iff in Hb
         end.

Lemma token_mint_inv t caller to amount t' :
  mint t caller to amount = inr t' ->
  to <> 0
  /\ totalSupply t + amount <= MAX_UINT256
  /\ t' = {| token_owner := token_owner t;
             token_paused := token_paused t;
             authorized := authorized t;
             balances := <[to := balanceOf t to + amount]> (balances t);
             totalSupply := totalSupply t + amount |}.
Proof.
  intros H. unfold mint, _mint, onlyAuthorized in H. passed H.
  repeat split; [| lia | now subst].
  match goal with Hz : (to =? 0) = false |- _ =>
    apply Z.eqb_neq in Hz; exact Hz end.
Qed.

Lemma token_burn_inv t caller from amount t' :
  burn t caller from amount = inr t' ->
  amount <= balanceOf t from
  /\ t' = {| token_owner := token_owner t;
             token_paused := token_paused t;
             authorized := authorized t;
             balances := <[from := balanceOf t from - amount]> (balances t);
             totalSupply := (totalSupply t - amount) mod 2 ^ 256 |}.
Proof.
  intros H. unfold burn, _burn, onlyAuthorized in H. passed H.
  split; [lia | now subst].
Qed.

Lemma register_inv ctx c t usr amt unlock provider c' :
  registerBabylonDeposit ctx c t usr amt unlock provider = inr c' ->
  sender ctx = owner (vault c)
  /\ paused (vault c) = false
  /\ usr <> 0
  /\ 0 < amt
  /\ block_timestamp ctx < unlock
  /\ isFinalityProviderAuthorized c provider = true
  /\ timestamp (getDeposit c t) = 0
  /\ c' = store_deposit c t
            {| user := usr; amount := amt; btcTxHash := t;
               unlockTime := unlock; finalityProvider := provider;
               timestamp := block_timestamp ctx; processed := false |}.
Proof.
  intros H. unfold registerBabylonDeposit, onlyRelayer, whenNotPaused in H.
  passed H.
  repeat split; try assumption; try lia; now subst.
Qed.

Lemma mint_inv ctx c t c' :
  mintStBTC ctx c t = inr c' ->
  let d := getDeposit c t in
  let tokens := amount d * 10 ^ 10 in
  sender ctx = owner (vault c)
  /\ paused (vault c) = false
  /\ 0 < timestamp d
  /\ processed d = false
  /\ tokens <= MAX_UINT256
  /\ exists token,
       mint (stBTC c) (vault_address c) (user d) tokens = inr token
       /\ c' = {| vault_address := vault_address c;
                  vault :=
                    {| owner := owner (vault c);
                       paused := paused (vault c);
                       deposits := <[t := mark_processed d]> (deposits (vault c));
                       userBalances :=
                         <[user d := userBalance c (user d) + tokens]>
                           (userBalances (vault c));
                       authorizedFinalityProviders :=
                         authorizedFinalityProviders (vault c);
                       totalDeposits := totalDeposits (vault c) + tokens |};
                  stBTC := token |}.
Proof.
  intros H d tokens. subst d tokens.
  unfold mintStBTC, onlyRelayer, whenNotPaused in H. passed H.
  repeat split; try assumption; try lia.
  eexists. split; [reflexivity | now subst].
Qed.

Lemma withdraw_inv ctx c amount btcAddress c' :
  requestWithdrawal ctx c amount btcAddress = inr c' ->
  paused (vault c) = false
  /\ 0 < amount
  /\ amount <= userBalance c (sender ctx)
  /\ amount <= totalDeposits (vault c)
  /\ exists token,
       burn (stBTC c) (vault_address c) (sender ctx) amount = inr token
       /\ c' = {| vault_address := vault_address c;
                  vault :=
                    {| owner := owner (vault c);
                       paused := paused (vault c);
                       deposits := deposits (vault c);
                       userBalances :=
                         <[sender ctx := userBalance c (sender ctx) - amount]>
                           (userBalances (vault c));
                       authorizedFinalityProviders :=
                         authorizedFinalityProviders (vault c);
                       totalDeposits := totalDeposits (vault c) - amount |};
                  stBTC := token |}.
Proof.
  intros H. unfold requestWithdrawal, whenNotPaused in H. passed H.
  repeat split; try assumption; try lia.
  eexists. split; [reflexivity | now subst].
Qed.

Lemma sum_values_nonneg (m : gmap address Z) :
  (forall a x, m !! a = Some x -> 0 <= x) -> 0 <= sum_values m.
Proof.
  induction m as [|a x m Ha IH] using map_ind; intros Hm.
  - rewrite sum_values_empty. lia.
  - rewrite sum_values_insert_fresh by exact Ha.
    assert (0 <= x) by (apply (Hm a); apply lookup_insert_eq).
    assert (0 <= sum_values m).
    { apply IH. intros b y Hb. apply (Hm b).
      rewrite lookup_insert_ne; [exact Hb | intros ->; congruence]. }
    lia.
Qed.

Lemma default_nonneg (m : gmap address Z) k :
  (forall a x, m !! a = Some x -> 0 <= x) -> 0 <= default 0 (m !! k).
Proof.
  intros Hm. destruct (m !! k) as [v|] eqn:Hk; cbn; [eauto | lia].
Qed.

Lemma default_le_sum (m : gmap address Z) k :
  (forall a x, m !! a = Some x -> 0 <= x) -> default 0 (m !! k) <= sum_values m.
Proof.
  intros Hm. destruct (m !! k) as [v|] eqn:Hk; cbn.
  - eapply sum_values_lookup_le; eauto.
  - now apply sum_values_nonneg.
Qed.

Lemma insert_nonneg (m : gmap address Z) k v :
  (forall a x, m !! a = Some x -> 0 <= x) -> 0 <= v ->
  forall a x, <[k := v]> m !! a = Some x -> 0 <= x.
Proof.
  intros Hm Hv a x Ha. destruct (decide (k = a)) as [->|Hne].
  - rewrite lookup_insert_eq in Ha. congruence.
  - rewrite lookup_insert_ne in Ha by exact Hne. eauto.
Qed.

Lemma token_mint_books t caller to amount t' :
  0 <= amount -> token_books t ->
  mint t caller to amount = inr t' -> token_books t'.
Proof.
  intros Ha (Hpos & Hsum & Hmax) H.
  apply token_mint_inv in H as (_ & Hle & ->).
  unfold token_books, balanceOf. cbn.
  split; [| split; [| exact Hle]].
  - apply insert_nonneg; [exact Hpos |].
    pose proof (default_nonneg (balances t) to Hpos). lia.
  - rewrite sum_values_insert. lia.
Qed.

Lemma token_burn_books t caller from amount t' :
  0 <= amount -> token_books t ->
  burn t caller from amount = inr t' ->
  token_books t' /\ totalSupply t' = totalSupply t - amount.
Proof.
  intros Ha (Hpos & Hsum & Hmax) H.
  apply token_burn_inv in H as (Hle & ->).
  unfold token_books, balanceOf in *. cbn.
  pose proof (default_le_sum (balances t) from Hpos) as Hbal.
  assert (Hmod : (totalSupply t - amount) mod 2 ^ 256 = totalSupply t - amount).
  { apply Z.mod_small. unfold MAX_UINT256 in Hmax. lia. }
  rewrite Hmod. split; [| reflexivity].
  split; [| split; [| lia]].
  - apply insert_nonneg; [exact Hpos | lia].
  - rewrite sum_values_insert. lia.
Qed.

(** A call that returns keeps the books of the vault and of the token. *)
Lemma perform_books ctx c k c' :
  well_typed k -> vault_books c -> token_books (stBTC c) ->
  perform ctx c k = inr c' ->
  vault_books c' /\ token_books (stBTC c').
Proof.
  intros Hk (Hbal & Hdep & Htot) Htok H.
  destruct k as [t usr amt unlock provider|t|amt btc|p|p| | |to amt|from amt|a|a| |];
    cbn [perform well_typed] in H, Hk.
  - apply register_inv in H as (_ & _ & _ & Hamt & _ & _ & _ & ->).
    split; [| exact Htok]. unfold vault_books. cbn.
    split; [exact Hbal | split; [| exact Htot]].
    intros t' d Hd. destruct (decide (t = t')) as [->|Hne].
    + rewrite lookup_insert_eq in Hd. injection Hd as <-. cbn. lia.
    + rewrite lookup_insert_ne in Hd by exact Hne. eauto.
  - apply mint_inv in H as (_ & _ & _ & _ & _ & token & Hmint & ->).
    assert (Hamt : 0 <= Vault.amount (getDeposit c t)).
    { unfold getDeposit. destruct (deposits (vault c) !! t) as [d|] eqn:Hd; cbn.
      - eauto.
      - lia. }
    split.
    + unfold vault_books, userBalance. cbn. split; [| split].
      * apply insert_nonneg; [exact Hbal |].
        pose proof (default_nonneg (userBalances (vault c))
                      (user (getDeposit c t)) Hbal). lia.
      * intros t' d Hd. destruct (decide (t = t')) as [->|Hne].
        -- rewrite lookup_insert_eq in Hd. injection Hd as <-. exact Hamt.
        -- rewrite lookup_insert_ne in Hd by exact Hne. eauto.
      * rewrite sum_values_insert. lia.
    + cbn. eapply token_mint_books; [| exact Htok | exact Hmint]. lia.
  - apply withdraw_inv in H as (_ & Hpos & Hle & _ & token & Hburn & ->).
    split.
    + unfold vault_books, userBalance in *. cbn. split; [| split].
      * apply insert_nonneg; [exact Hbal | lia].
      * exact Hdep.
      * rewrite sum_values_insert. lia.
    + cbn. eapply token_burn_books; [| exact Htok | exact Hburn]. lia.
  - unfold authorizeFinalityProvider, onlyOwner in H. passed H. subst c'.
    split; [split; [| split] |]; assumption.
  - unfold deauthorizeFinalityProvider, onlyOwner in H. passed H. subst c'.
    split; [split; [| split] |]; assumption.
  - unfold pause, onlyOwner, whenNotPaused in H. passed H. subst c'.
    split; [split; [| split] |]; assumption.
  - unfold unpause, onlyOwner in H. passed H. subst c'.
    split; [split; [| split] |]; assumption.
  - destruct (mint (stBTC c) (sender ctx) to amt) as [e|token] eqn:Hmint;
      cbn in H; [discriminate H |]. injection H as <-.
    split; [split; [| split]; assumption |]. cbn.
    eapply token_mint_books; [| exact Htok | exact Hmint].
    unfold uint256 in Hk. lia.
  - destruct (burn (stBTC c) (sender ctx) from amt) as [e|token] eqn:Hburn;
      cbn in H; [discriminate H |]. injection H as <-.
    split; [split; [| split]; assumption |]. cbn.
    eapply token_burn_books; [| exact Htok | exact Hburn].
    unfold uint256 in Hk. lia.
  - unfold addAuthorized, token_onlyOwner in H. passed H. subst c'.
    split; [split; [| split]; assumption |]. exact Htok.
  - unfold removeAuthorized, token_onlyOwner in H. passed H. subst c'.
    split; [split; [| split]; assumption |]. exact Htok.
  - unfold token_pause, token_onlyOwner in H. passed H. subst c'.
    split; [split; [| split]; assumption |]. exact Htok.
  - unfold token_unpause, token_onlyOwner in H. passed H. subst c'.
    split; [split; [| split]; assumption |]. exact Htok.
Qed.

Lemma step_books c tx :
  well_typed (snd tx) -> vault_books c -> token_books (stBTC c) ->
  vault_books (step c tx) /\ token_books (stBTC (step c tx)).
Proof.
  intros Hk Hv Ht. unfold step.
  destruct (perform (fst tx) c (snd tx)) as [e|c'] eqn:Hp.
  - split; assumption.
  - eapply perform_books; eassumption.
Qed.

Lemma run_books c txs :
  vault_books c -> token_books (stBTC c) ->
  Forall (fun tx => well_typed (snd tx)) txs ->
  vault_books (run c txs) /\ token_books (stBTC (run c txs)).
Proof.
  intros Hv Ht Htxs. revert c Hv Ht. unfold run.
  induction Htxs as [|tx txs Htx _ IH]; intros c Hv Ht; cbn [fold_left].
  - split; assumption.
  - destruct (step_books c tx Htx Hv Ht) as (Hv' & Ht'). now apply IH.
Qed.

Lemma deployed_books vaultAddr tokenOwner relayer :
  vault_books (deployed vaultAddr tokenOwner relayer)
  /\ token_books (stBTC (deployed vaultAddr tokenOwner relayer)).
Proof.
  split; (split; [| split]); cbn.
  - intros a v Ha. rewrite lookup_empty in Ha. discriminate Ha.
  - intros t d Hd. rewrite lookup_empty in Hd. discriminate Hd.
  - reflexivity.
  - intros a v Ha. rewrite lookup_empty in Ha. discriminate Ha.
  - reflexivity.
  - unfold MAX_UINT256. lia.
Qed.

Lemma txs_well_typed : Forall (fun tx => well_typed (snd tx)) Ledger.txs.
Proof. repeat constructor; cbn; unfold uint256, MAX_UINT256; lia. Qed.

Lemma registered_books :
  vault_books Ledger.registered /\ token_books (stBTC Ledger.registered).
Proof.
  apply run_books; try apply deployed_books.
  apply Forall_take, txs_well_typed.
Qed.

Lemma minted_books :
  vault_books Ledger.minted /\ token_books (stBTC Ledger.minted).
Proof.
  apply run_books; try apply deployed_books.
  apply Forall_take, txs_well_typed.
Qed.

(** X1. Whatever transactions are sent, in whatever order and by whomever,
    the vault's total of deposits stays the sum of the user balances and
    the token's supply stays the sum of the token balances, with no balance
    negative and the supply within uint256: the two unchecked subtractions
    of the token's burn never wrap around. *)
Theorem books_balance (c : chain) (txs : list (context * call)) :
  vault_books c -> token_books (stBTC c) ->
  Forall (fun tx => well_typed (snd tx)) txs ->
  vault_books (run c txs) /\ token_books (stBTC (run c txs)).
Proof. apply run_books. Qed.

Lemma books_balance_witness :
  vault_books (run Ledger.genesis Ledger.txs)
  /\ token_books (stBTC (run Ledger.genesis Ledger.txs))
  /\ totalDeposits (vault (run Ledger.genesis Ledger.txs)) = 15 * 10 ^ 17
  /\ totalSupply (stBTC (run Ledger.genesis Ledger.txs)) = 15 * 10 ^ 17.
Proof.
  assert (Hb : vault_books (run Ledger.genesis Ledger.txs)
               /\ token_books (stBTC (run Ledger.genesis Ledger.txs))).
  { apply books_balance.
    - apply deployed_books.
    - apply deployed_books.
    - apply txs_well_typed. }
  destruct Hb as (Hv & Ht).
  split; [exact Hv |]. split; [exact Ht |].
  split; vm_compute; reflexivity.
Defined.

Lemma same_deposit_refl d : same_deposit d d.
Proof. unfold same_deposit. tauto. Qed.

Lemma same_deposit_trans d1 d2 d3 :
  same_deposit d1 d2 -> same_deposit d2 d3 -> same_deposit d1 d3.
Proof.
  unfold same_deposit.
  intros (? & ? & ? & ? & ? & ? & ?) (? & ? & ? & ? & ? & ? & ?).
  repeat split; try congruence. auto.
Qed.

Lemma getDeposit_with_token c t tx : getDeposit (with_token c t) tx = getDeposit c tx.
Proof. reflexivity. Qed.

(** A call that returns rewrites no registered deposit. *)
Lemma perform_deposit ctx c k c' t :
  timestamp (getDeposit c t) <> 0 ->
  perform ctx c k = inr c' ->
  same_deposit (getDeposit c t) (getDeposit c' t).
Proof.
  intros Hts H.
  destruct k as [t0 usr amt unlock provider|t0|amt btc|p|p| | |to amt|from amt|a|a| |];
    cbn [perform] in H.
  - apply register_inv in H as (_ & _ & _ & _ & _ & _ & Hfresh & ->).
    unfold getDeposit, store_deposit. cbn.
    destruct (decide (t0 = t)) as [->|Hne]; [contradiction |].
    rewrite lookup_insert_ne by exact Hne. apply same_deposit_refl.
  - apply mint_inv in H as (_ & _ & _ & _ & _ & token & _ & ->).
    unfold getDeposit at 2. cbn.
    destruct (decide (t0 = t)) as [->|Hne].
    + rewrite lookup_insert_eq. cbn. unfold same_deposit. cbn. tauto.
    + rewrite lookup_insert_ne by exact Hne. apply same_deposit_refl.
  - apply withdraw_inv in H as (_ & _ & _ & _ & token & _ & ->).
    apply same_deposit_refl.
  - unfold authorizeFinalityProvider, onlyOwner in H. passed H. subst c'.
    apply same_deposit_refl.
  - unfold deauthorizeFinalityProvider, onlyOwner in H. passed H. subst c'.
    apply same_deposit_refl.
  - unfold pause, onlyOwner, whenNotPaused in H. passed H. subst c'.
    apply same_deposit_refl.
  - unfold unpause, onlyOwner in H. passed H. subst c'.
    apply same_deposit_refl.
  - passed H. subst c'. apply same_deposit_refl.
  - passed H. subst c'. apply same_deposit_refl.
  - passed H. subst c'. apply same_deposit_refl.
  - passed H. subst c'. apply same_deposit_refl.
  - passed H. subst c'. apply same_deposit_refl.
  - passed H. subst c'. apply same_deposit_refl.
Qed.

Lemma run_deposit c txs t :
  timestamp (getDeposit c t) <> 0 ->
  same_deposit (getDeposit c t) (getDeposit (run c txs) t).
Proof.
  revert c. unfold run.
  induction txs as [|tx txs IH]; intros c Hts; cbn [fold_left].
  - apply same_deposit_refl.
  - assert (Hstep : same_deposit (getDeposit c t) (getDeposit (step c tx) t)).
    { unfold step. destruct (perform (fst tx) c (snd tx)) as [e|c'] eqn:Hp.
      - apply same_deposit_refl.
      - eapply perform_deposit; eassumption. }
    eapply same_deposit_trans; [exact Hstep |].
    apply IH. destruct Hstep as (_ & _ & _ & _ & _ & Heq & _). congruence.
Qed.

(** X2. A registered deposit is written once: whatever transactions follow,
    its user, amount, transaction hash, unlock time, finality provider and
    timestamp stay as registered, and [processed], once set, stays set. *)
Theorem deposits_written_once (c : chain) (txs : list (context * call))
    (txHash : string) :
  timestamp (getDeposit c txHash) <> 0 ->
  same_deposit (getDeposit c txHash) (getDeposit (run c txs) txHash).
Proof. apply run_deposit. Qed.

Lemma deposits_written_once_witness :
  same_deposit (getDeposit Ledger.registered "test_tx_1")
               (getDeposit (run Ledger.registered Ledger.later) "test_tx_1")
  /\ processed (getDeposit (run Ledger.registered Ledger.later) "test_tx_1") = true.
Proof.
  split.
  - apply deposits_written_once. vm_compute. discriminate.
  - vm_compute. reflexivity.
Defined.

(** X3. A deposit is minted at most once: after [mintStBTC] has returned
    for a transaction hash, and whatever transactions follow, every further
    [mintStBTC] and every [registerBabylonDeposit] for that hash reverts;
    sent by the relayer to the unpaused vault, the mint reverts with
    "Deposit already processed". *)
Theorem minted_at_most_once (ctx : context) (c c1 : chain) (txHash : string)
    (txs : list (context * call)) (ctx' : context) :
  mintStBTC ctx c txHash = inr c1 ->
  (exists e, mintStBTC ctx' (run c1 txs) txHash = inl e)
  /\ (sender ctx' = owner (vault (run c1 txs)) ->
      paused (vault (run c1 txs)) = false ->
      mintStBTC ctx' (run c1 txs) txHash
      = inl (Revert "Deposit already processed"))
  /\ (forall usr amt unlock provider,
         exists e,
           registerBabylonDeposit ctx' (run c1 txs) txHash usr amt unlock provider
           = inl e).
Proof.
  intros Hmint.
  apply mint_inv in Hmint as (_ & _ & Hts & _ & _ & token & _ & ->).
  match goal with
  | |- context [run ?c0 txs] => set (c1 := c0)
  end.
  assert (Hd1 : getDeposit c1 txHash = mark_processed (getDeposit c txHash)).
  { unfold getDeposit at 1. subst c1. cbn. now rewrite lookup_insert_eq. }
  assert (Hsame : same_deposit (getDeposit c1 txHash)
                               (getDeposit (run c1 txs) txHash)).
  { apply run_deposit. rewrite Hd1. cbn. lia. }
  destruct Hsame as (_ & _ & _ & _ & _ & Hts' & Hproc).
  rewrite Hd1 in Hts', Hproc. cbn in Hts', Hproc.
  specialize (Hproc eq_refl).
  assert (Hpos : (0 <? timestamp (getDeposit (run c1 txs) txHash)) = true)
    by (apply Z.ltb_lt; lia).
  assert (Hnz : (timestamp (getDeposit (run c1 txs) txHash) =? 0) = false)
    by (apply Z.eqb_neq; lia).
  split; [| split].
  - unfold mintStBTC, onlyRelayer, whenNotPaused, bind, require, ok, revert.
    rewrite Hpos, Hproc. cbn.
    destruct (sender ctx' =? owner (vault (run c1 txs))); [| eauto].
    destruct (paused (vault (run c1 txs))); cbn; eauto.
  - intros Hown Hpaused.
    unfold mintStBTC, onlyRelayer, whenNotPaused, bind, require, ok, revert.
    rewrite Hpos, Hproc, Hpaused, Hown, Z.eqb_refl. reflexivity.
  - intros usr amt unlock provider.
    unfold registerBabylonDeposit, onlyRelayer, whenNotPaused, bind, require,
      ok, revert.
    rewrite Hnz.
    repeat match goal with
           | |- context [if ?b then _ else _] => destruct b; cbn
           end; eauto.
Qed.

Lemma minted_at_most_once_witness :
  mintStBTC (call_from 7 1700000099) (run Ledger.minted Ledger.later) "test_tx_1"
  = inl (Revert "Deposit already processed").
Proof.
  apply (minted_at_most_once (call_from 7 1700000012) Ledger.registered
           Ledger.minted "test_tx_1" Ledger.later (call_from 7 1700000099)).
  - vm_compute. reflexivity.
  - vm_compute. reflexivity.
  - vm_compute. reflexivity.
Defined.

(** X4. A caller who is not the vault's owner changes neither the deposits,
    nor the list of finality providers, nor the pause flag, nor anybody
    else's vault balance; their own vault balance can only go down (by a
    withdrawal). *)
Theorem stranger_cannot_manage (c : chain) (ctx : context) (k : call) :
  sender ctx <> owner (vault c) ->
  deposits (vault (step c (ctx, k))) = deposits (vault c)
  /\ authorizedFinalityProviders (vault (step c (ctx, k)))
     = authorizedFinalityProviders (vault c)
  /\ paused (vault (step c (ctx, k))) = paused (vault c)
  /\ (forall a, a <> sender ctx ->
                userBalance (step c (ctx, k)) a = userBalance c a)
  /\ userBalance (step c (ctx, k)) (sender ctx) <= userBalance c (sender ctx).
Proof.
  intros Hown. unfold step. cbn [fst snd].
  destruct (perform ctx c k) as [e|c'] eqn:H;
    [repeat split; try reflexivity; lia |].
  destruct k as [t0 usr amt unlock provider|t0|amt btc|p|p| | |to amt|from amt|a|a| |];
    cbn [perform] in H.
  - apply register_inv in H as (Hs & _). contradiction.
  - apply mint_inv in H as (Hs & _). contradiction.
  - apply withdraw_inv in H as (_ & Hpos & _ & _ & token & _ & ->).
    cbn. repeat split.
    + intros a Ha. unfold userBalance. cbn.
      now rewrite lookup_insert_ne by congruence.
    + unfold userBalance at 1. cbn. rewrite lookup_insert_eq. cbn. lia.
  - unfold authorizeFinalityProvider, onlyOwner in H. passed H. lia.
  - unfold deauthorizeFinalityProvider, onlyOwner in H. passed H. lia.
  - unfold pause, onlyOwner, whenNotPaused in H. passed H. lia.
  - unfold unpause, onlyOwner in H. passed H. lia.
  - passed H. subst c'. repeat split; reflexivity || (cbn; lia).
  - passed H. subst c'. repeat split; reflexivity || (cbn; lia).
  - passed H. subst c'. repeat split; reflexivity || (cbn; lia).
  - passed H. subst c'. repeat split; reflexivity || (cbn; lia).
  - passed H. subst c'. repeat split; reflexivity || (cbn; lia).
  - passed H. subst c'. repeat split; reflexivity || (cbn; lia).
Qed.

Lemma stranger_cannot_manage_witness :
  deposits (vault (step Ledger.minted (call_from 9 1700000100, Pause)))
  = deposits (vault Ledger.minted)
  /\ paused (vault (step Ledger.minted (call_from 9 1700000100, Pause))) = false.
Proof.
  destruct (stranger_cannot_manage Ledger.minted (call_from 9 1700000100) Pause)
    as (Hd & _ & Hp & _).
  - vm_compute. discriminate.
  - split; [exact Hd | exact Hp].
Defined.

Lemma perform_paused ctx c k c' :
  paused (vault c) = true -> k <> Unpause ->
  perform ctx c k = inr c' ->
  paused (vault c') = true
  /\ deposits (vault c') = deposits (vault c)
  /\ userBalances (vault c') = userBalances (vault c)
  /\ totalDeposits (vault c') = totalDeposits (vault c).
Proof.
  intros Hp Hk H.
  destruct k as [t0 usr amt unlock provider|t0|amt btc|p|p| | |to amt|from amt|a|a| |];
    cbn [perform] in H.
  - apply register_inv in H as (_ & Hn & _). congruence.
  - apply mint_inv in H as (_ & Hn & _). congruence.
  - apply withdraw_inv in H as (Hn & _). congruence.
  - unfold authorizeFinalityProvider, onlyOwner in H. passed H. subst c'.
    repeat split. exact Hp.
  - unfold deauthorizeFinalityProvider, onlyOwner in H. passed H. subst c'.
    repeat split. exact Hp.
  - unfold pause, onlyOwner, whenNotPaused in H. passed H. congruence.
  - congruence.
  - passed H. subst c'. repeat split. exact Hp.
  - passed H. subst c'. repeat split. exact Hp.
  - passed H. subst c'. repeat split. exact Hp.
  - passed H. subst c'. repeat split. exact Hp.
  - passed H. subst c'. repeat split. exact Hp.
  - passed H. subst c'. repeat split. exact Hp.
Qed.

(** X5. A paused vault stands still: until [unpause()] is called, no
    transaction registers or mints a deposit or withdraws, so the deposits,
    the user balances and the total of deposits stay as they were, and the
    vault stays paused. *)
Theorem paused_vault_stands_still (c : chain) (txs : list (context * call)) :
  paused (vault c) = true ->
  Forall (fun tx => snd tx <> Unpause) txs ->
  paused (vault (run c txs)) = true
  /\ deposits (vault (run c txs)) = deposits (vault c)
  /\ userBalances (vault (run c txs)) = userBalances (vault c)
  /\ totalDeposits (vault (run c txs)) = totalDeposits (vault c).
Proof.
  intros Hp Htxs. revert c Hp. unfold run.
  induction Htxs as [|tx txs Htx _ IH]; intros c Hp; cbn [fold_left].
  - repeat split. exact Hp.
  - assert (Hstep : paused (vault (step c tx)) = true
                    /\ deposits (vault (step c tx)) = deposits (vault c)
                    /\ userBalances (vault (step c tx)) = userBalances (vault c)
                    /\ totalDeposits (vault (step c tx)) = totalDeposits (vault c)).
    { unfold step. destruct (perform (fst tx) c (snd tx)) as [e|c'] eqn:H.
      - repeat split. exact Hp.
      - eapply perform_paused; eassumption. }
    destruct Hstep as (Hp' & Hd & Hb & Ht).
    destruct (IH _ Hp') as (Hp'' & Hd' & Hb' & Ht').
    repeat split; congruence.
Qed.

Lemma paused_vault_stands_still_witness :
  userBalances (vault (run (set_paused Ledger.minted true) Ledger.txs))
  = userBalances (vault Ledger.minted)
  /\ balanceOf (stBTC (run (set_paused Ledger.minted true) Ledger.txs))
               Ledger.user1 = 25 * 10 ^ 17.
Proof.
  split.
  - apply (paused_vault_stands_still (set_paused Ledger.minted true) Ledger.txs).
    + reflexivity.
    + repeat constructor; discriminate.
  - vm_compute. reflexivity.
Defined.

(** X6. Pausing and unpausing is a round trip: [unpause()] after a
    [pause()] that returned gives back the chain as it was; a second
    [pause()] in between reverts with "Pausable: paused", and [unpause()]
    on the vault that is not paused with "Pausable: not paused". *)
Theorem pause_unpause_round_trip (ctx : context) (c c1 : chain) :
  pause ctx c = inr c1 ->
  unpause ctx c1 = inr c
  /\ pause ctx c1 = inl (Revert "Pausable: paused")
  /\ unpause ctx c = inl (Revert "Pausable: not paused").
Proof.
  intros H. unfold pause, onlyOwner, whenNotPaused in H. passed H. subst c1.
  unfold unpause, pause, onlyOwner, whenNotPaused, bind, require, ok, revert.
  cbn.
  match goal with Ho : (sender ctx =? _) = true |- _ => rewrite Ho end.
  match goal with Hp : paused _ = false |- _ => rewrite Hp end.
  cbn. repeat split.
  destruct c as [va v tok]. destruct v. cbn in *. subst. reflexivity.
Qed.

Lemma pause_unpause_round_trip_witness :
  unpause (call_from 7 1700000200) (set_paused Ledger.minted true)
  = inr Ledger.minted.
Proof.
  apply (pause_unpause_round_trip (call_from 7 1700000200) Ledger.minted).
  vm_compute. reflexivity.
Defined.

(** X7. Taking a finality provider off the list stops new registrations
    with it (by the relayer they revert with "Unauthorized finality
    provider" once the earlier checks pass) and nothing else: a deposit
    registered with that provider is minted as before, [mintStBTC] does not
    look at the list. *)
Theorem deauthorize_blocks_register_only (ctx : context) (c c1 : chain)
    (provider : string) :
  deauthorizeFinalityProvider ctx c provider = inr c1 ->
  (forall ctx' t usr amt unlock,
      exists e, registerBabylonDeposit ctx' c1 t usr amt unlock provider = inl e)
  /\ (forall ctx' t usr amt unlock,
         sender ctx' = owner (vault c1) -> paused (vault c1) = false ->
         t <> "" -> usr <> 0 -> 0 < amt -> block_timestamp ctx' < unlock ->
         registerBabylonDeposit ctx' c1 t usr amt unlock provider
         = inl (Revert "Unauthorized finality provider"))
  /\ (forall other, other <> provider ->
                    isFinalityProviderAuthorized c1 other
                    = isFinalityProviderAuthorized c other)
  /\ (forall ctx' t,
         mintStBTC ctx' c1 t
         = match mintStBTC ctx' c t with
           | inr c' => inr (set_provider c' provider false)
           | inl e => inl e
           end).
Proof.
  intros H. unfold deauthorizeFinalityProvider, onlyOwner in H. passed H.
  subst c1.
  assert (Hoff : isFinalityProviderAuthorized (set_provider c provider false)
                   provider = false).
  { unfold isFinalityProviderAuthorized. cbn. now rewrite lookup_insert_eq. }
  split; [| split; [| split]].
  - intros ctx' t usr amt unlock.
    unfold registerBabylonDeposit, onlyRelayer, whenNotPaused, bind, require,
      ok, revert.
    rewrite Hoff.
    repeat match goal with
           | |- context [if ?b then _ else _] => destruct b; cbn
           end; eauto.
  - intros ctx' t usr amt unlock Hs Hp Ht Hu Ha Hul.
    unfold registerBabylonDeposit, onlyRelayer, whenNotPaused, bind, require,
      ok, revert.
    rewrite Hoff, Hs, Z.eqb_refl, Hp. cbn.
    destruct t as [|ch t]; [congruence |]. cbn [String.length].
    replace (0 <? Z.of_nat (S (String.length t))) with true
      by (symmetry; apply Z.ltb_lt; lia).
    replace (usr =? 0) with false by (symmetry; apply Z.eqb_neq; exact Hu).
    replace (0 <? amt) with true by (symmetry; apply Z.ltb_lt; exact Ha).
    replace (block_timestamp ctx' <? unlock) with true
      by (symmetry; apply Z.ltb_lt; exact Hul).
    reflexivity.
  - intros other Hne. unfold isFinalityProviderAuthorized. cbn.
    now rewrite lookup_insert_ne by congruence.
  - intros ctx' t.
    unfold mintStBTC, onlyRelayer, whenNotPaused, getDeposit, userBalance,
      bind, require, ok, revert, checked_mul, checked_add. cbn.
    repeat match goal with
           | |- context [if ?b then _ else _] => destruct b; cbn
           end; try reflexivity.
    destruct (mint _ _ _ _); reflexivity.
Qed.

Lemma deauthorize_blocks_register_only_witness :
  registerBabylonDeposit (call_from 7 1700000100)
    (set_provider Ledger.registered "fp1" false)
    "test_tx_2" 43 1000 (1700000000 + 86400) "fp1"
  = inl (Revert "Unauthorized finality provider")
  /\ exists c',
      mintStBTC (call_from 7 1700000100)
        (set_provider Ledger.registered "fp1" false) "test_tx_1" = inr c'.
Proof.
  destruct (deauthorize_blocks_register_only (call_from 7 1700000090)
              Ledger.registered (set_provider Ledger.registered "fp1" false)
              "fp1") as (_ & Hreg & _ & Hmint).
  - vm_compute. reflexivity.
  - split.
    + apply Hreg; try reflexivity; try discriminate; lia.
    + rewrite Hmint. eexists. vm_compute. reflexivity.
Defined.

(** X8. A withdrawal that returns takes exactly [amount] from four places:
    the caller's token balance, the caller's vault balance, the total of
    deposits and the token supply. Everybody else's balances and the
    deposits are untouched. *)
Theorem withdrawal_accounting (ctx : context) (c c' : chain) (amount : Z)
    (btcAddress : string) :
  token_books (stBTC c) ->
  requestWithdrawal ctx c amount btcAddress = inr c' ->
  balanceOf (stBTC c') (sender ctx) = balanceOf (stBTC c) (sender ctx) - amount
  /\ userBalance c' (sender ctx) = userBalance c (sender ctx) - amount
  /\ totalDeposits (vault c') = totalDeposits (vault c) - amount
  /\ totalSupply (stBTC c') = totalSupply (stBTC c) - amount
  /\ deposits (vault c') = deposits (vault c)
  /\ (forall a, a <> sender ctx ->
                balanceOf (stBTC c') a = balanceOf (stBTC c) a
                /\ userBalance c' a = userBalance c a).
Proof.
  intros Htok H.
  apply withdraw_inv in H as (_ & Hpos & _ & _ & token & Hburn & ->).
  destruct (token_burn_books _ _ _ _ _ (Z.lt_le_incl _ _ Hpos) Htok Hburn)
    as (_ & Hsupply).
  apply token_burn_inv in Hburn as (_ & ->).
  unfold balanceOf, userBalance in *. cbn in *.
  rewrite !lookup_insert_eq. cbn.
  repeat split; try reflexivity; try exact Hsupply.
  - now rewrite lookup_insert_ne by congruence.
  - now rewrite lookup_insert_ne by congruence.
Qed.

Lemma withdrawal_accounting_witness :
  exists c',
    requestWithdrawal (call_from Ledger.user1 1700000024) Ledger.minted
      (10 ^ 18) "bc1qexample" = inr c'
    /\ balanceOf (stBTC c') Ledger.user1 = 25 * 10 ^ 17 - 10 ^ 18
    /\ totalSupply (stBTC c') = 25 * 10 ^ 17 - 10 ^ 18.
Proof.
  destruct (requestWithdrawal (call_from Ledger.user1 1700000024) Ledger.minted
              (10 ^ 18) "bc1qexample") as [e|c'] eqn:Hw.
  - vm_compute in Hw. discriminate Hw.
  - exists c'. split; [reflexivity |].
    destruct (withdrawal_accounting (call_from Ledger.user1 1700000024)
                Ledger.minted c' (10 ^ 18) "bc1qexample"
                (proj2 minted_books) Hw) as (Hb & _ & _ & Hs & _).
    cbn [sender call_from] in Hb. rewrite Hb, Hs.
    split; vm_compute; reflexivity.
Defined.

(** X9. What is minted can be withdrawn at once: after [mintStBTC] has
    credited a deposit, its user may withdraw the whole token amount in a
    block of any time, before the deposit's unlock time as well, and the
    withdrawal returns the user's two balances, the total of deposits and
    the token supply to what they were before the mint. The deposit stays
    processed. *)
Theorem mint_then_withdraw (ctx : context) (c c1 : chain) (txHash : string)
    (now : Z) (btcAddress : string) :
  vault_books c -> token_books (stBTC c) ->
  0 < amount (getDeposit c txHash) ->
  btcAddress <> "" ->
  mintStBTC ctx c txHash = inr c1 ->
  let usr := user (getDeposit c txHash) in
  let tokens := amount (getDeposit c txHash) * 10 ^ 10 in
  exists c2,
    requestWithdrawal (call_from usr now) c1 tokens btcAddress = inr c2
    /\ balanceOf (stBTC c2) usr = balanceOf (stBTC c) usr
    /\ userBalance c2 usr = userBalance c usr
    /\ totalDeposits (vault c2) = totalDeposits (vault c)
    /\ totalSupply (stBTC c2) = totalSupply (stBTC c)
    /\ processed (getDeposit c2 txHash) = true.
Proof.
  intros (Hbal & _ & Htot) (Hpos & Hsum & Hmax) Hamt Hbtc Hmint usr tokens.
  apply mint_inv in Hmint as (_ & Hp & _ & _ & _ & token & Hmint & ->).
  fold usr tokens in Hmint |- *.
  pose proof Hmint as Hinv.
  apply token_mint_inv in Hinv as (Hnz & Hle & ->).
  unfold mint, onlyAuthorized in Hmint. passed Hmint.
  pose proof (default_nonneg (balances (stBTC c)) usr Hpos) as Hb0.
  pose proof (default_nonneg (userBalances (vault c)) usr Hbal) as Hu0.
  pose proof (sum_values_nonneg (balances (stBTC c)) Hpos) as Hs0.
  assert (Htokens : 0 < tokens) by (subst tokens; lia).
  unfold requestWithdrawal, whenNotPaused, burn, _burn, onlyAuthorized,
    checked_sub, bind, require, ok, revert, balanceOf, userBalance in *.
  cbn.
  rewrite !lookup_insert_eq. cbn.
  rewrite Hp. cbn.
  replace (0 <? tokens) with true by (symmetry; apply Z.ltb_lt; lia).
  destruct btcAddress as [|ch rest]; [congruence |]. cbn [String.length].
  replace (0 <? Z.of_nat (S (String.length rest))) with true
    by (symmetry; apply Z.ltb_lt; lia).
  replace (tokens <=? default 0 (balances (stBTC c) !! usr) + tokens) with true
    by (symmetry; apply Z.leb_le; lia).
  replace (tokens <=? default 0 (userBalances (vault c) !! usr) + tokens)
    with true by (symmetry; apply Z.leb_le; lia).
  replace (tokens <=? totalDeposits (vault c) + tokens) with true
    by (symmetry; apply Z.leb_le;
        pose proof (sum_values_nonneg (userBalances (vault c)) Hbal); lia).
  repeat match goal with
         | Hb : _ = true |- _ => rewrite Hb
         | Hb : _ = false |- _ => rewrite Hb
         end.
  replace (usr =? 0) with false by (symmetry; apply Z.eqb_neq; exact Hnz).
  cbn. eexists. split; [reflexivity |]. cbn.
  rewrite !lookup_insert_eq. cbn.
  repeat split; try lia.
  - replace (totalSupply (stBTC c) + tokens - tokens) with (totalSupply (stBTC c))
      by lia.
    apply Z.mod_small. unfold MAX_UINT256 in Hmax. lia.
  - unfold getDeposit. cbn. rewrite lookup_insert_eq. reflexivity.
Qed.

Lemma mint_then_withdraw_witness :
  exists c2,
    requestWithdrawal (call_from Ledger.user1 1700000012) Ledger.minted
      (250000000 * 10 ^ 10) "bc1qexample" = inr c2
    /\ totalSupply (stBTC c2) = 0
    /\ 1700000012 < unlockTime (getDeposit c2 "test_tx_1").
Proof.
  destruct (mint_then_withdraw (call_from 7 1700000012) Ledger.registered
              Ledger.minted "test_tx_1" 1700000012 "bc1qexample")
    as (c2 & Hw & _ & _ & _ & Hs & _).
  - apply registered_books.
  - apply registered_books.
  - vm_compute. reflexivity.
  - discriminate.
  - vm_compute. reflexivity.
  - exists c2. split; [exact Hw |]. split; [exact Hs |].
    vm_compute in Hw. injection Hw as <-. vm_compute. reflexivity.
Defined.

(** X10. The vault mints and burns through the token's list of authorized
    accounts. Once the token's owner has taken the vault off that list (the
    vault not being the token's owner), every [mintStBTC] and every
    [requestWithdrawal] reverts: registered deposits cannot be minted and
    balances cannot be withdrawn until the vault is authorized again. *)
Theorem unauthorized_vault_is_stuck (c : chain) (caller : address)
    (token : StBTC) :
  vault_address c <> token_owner (stBTC c) ->
  removeAuthorized (stBTC c) caller (vault_address c) = inr token ->
  (forall ctx t, exists e, mintStBTC ctx (with_token c token) t = inl e)
  /\ (forall ctx amount btc,
         exists e, requestWithdrawal ctx (with_token c token) amount btc = inl e)
  /\ (forall ctx t,
         sender ctx = owner (vault c) -> paused (vault c) = false ->
         0 < timestamp (getDeposit c t) -> processed (getDeposit c t) = false ->
         amount (getDeposit c t) * 10 ^ 10 <= MAX_UINT256 ->
         userBalance c (user (getDeposit c t)) + amount (getDeposit c t) * 10 ^ 10
         <= MAX_UINT256 ->
         totalDeposits (vault c) + amount (getDeposit c t) * 10 ^ 10
         <= MAX_UINT256 ->
         mintStBTC ctx (with_token c token) t = inl (Revert "Not authorized")).
Proof.
  intros Hne H. unfold removeAuthorized, token_onlyOwner in H. passed H.
  subst token.
  assert (Hauth : onlyAuthorized (set_authorized (stBTC c) (vault_address c) false)
                    (vault_address c) = inl (Revert "Not authorized")).
  { unfold onlyAuthorized, require, revert. cbn. rewrite lookup_insert_eq. cbn.
    replace (vault_address c =? token_owner (stBTC c)) with false
      by (symmetry; apply Z.eqb_neq; exact Hne).
    reflexivity. }
  split; [| split].
  - intros ctx t.
    unfold mintStBTC, mint, with_token, userBalance, getDeposit. cbn.
    rewrite Hauth.
    unfold onlyRelayer, whenNotPaused, bind, require, ok, revert, checked_mul,
      checked_add.
    repeat match goal with
           | |- context [if ?b then _ else _] => destruct b; cbn
           end; eauto.
  - intros ctx amount btc.
    unfold requestWithdrawal, burn, with_token, userBalance. cbn.
    rewrite Hauth.
    unfold whenNotPaused, bind, require, ok, revert.
    repeat match goal with
           | |- context [if ?b then _ else _] => destruct b; cbn
           end; eauto.
  - intros ctx t Hs Hp Hts Hproc Hmul Hadd Htot.
    unfold mintStBTC, mint, with_token, userBalance, getDeposit in *.
    cbn in *. rewrite Hauth.
    unfold onlyRelayer, whenNotPaused, bind, require, ok, revert, checked_mul,
      checked_add.
    cbn [vault].
    rewrite Hs, Z.eqb_refl, Hp, Hproc. cbn.
    replace (0 <? timestamp (default zeroDeposit (deposits (vault c) !! t)))
      with true by (symmetry; apply Z.ltb_lt; exact Hts).
    cbn.
    apply Z.leb_le in Hmul, Hadd, Htot. rewrite Hmul. cbn.
    rewrite Hadd. cbn. rewrite Htot. reflexivity.
Qed.

Lemma unauthorized_vault_is_stuck_witness :
  mintStBTC (call_from 7 1700000012)
    (with_token Ledger.registered
       (set_authorized (stBTC Ledger.registered) 100 false)) "test_tx_1"
  = inl (Revert "Not authorized").
Proof.
  apply (unauthorized_vault_is_stuck Ledger.registered 1).
  - vm_compute. discriminate.
  - vm_compute. reflexivity.
  - reflexivity.
  - reflexivity.
  - vm_compute. reflexivity.
  - reflexivity.
  - vm_compute. discriminate.
  - vm_compute. discriminate.
  - vm_compute. discriminate.
Defined.

End VaultCallFacts.

(* ===================================================================== *)
(** * The staking engine: conservation and bookkeeping *)
(* ===================================================================== *)

Section StakeFacts.
Import Watcher WatcherCalls Stakes.

Lemma total_app f ps qs : total f (ps ++ qs)%list = total f ps + total f qs.
Proof.
  induction ps as [|[k p] ps IH]; cbn [total app]; [reflexivity | lia].
Qed.

Lemma set_fresh {V} (o : JS.object V) k v :
  ~ In k (JS.keys o) -> JS.set o k v = (o ++ [(k, v)])%list.
Proof.
  induction o as [|[k' v'] o IH]; cbn; [reflexivity |].
  intros Hk. destruct (String.eqb_spec k' k) as [->|Hne].
  - exfalso. apply Hk. now left.
  - f_equal. apply IH. intros Hin. apply Hk. now right.
Qed.

Lemma keys_set {V} (o : JS.object V) k v :
  incl (JS.keys (JS.set o k v)) (k :: JS.keys o).
Proof.
  induction o as [|[k' v'] o IH]; cbn.
  - intros x Hx. exact Hx.
  - destruct (String.eqb_spec k' k) as [->|Hne]; cbn.
    + intros x [<-|Hx]; [now left | now right; right].
    + intros x [<-|Hx]; [now right; left |].
      destruct (IH x Hx) as [<-|Hin]; [now left | now right; right].
Qed.

Lemma same_stake_refl p : same_stake p p.
Proof. unfold same_stake. repeat split; lia. Qed.

Lemma same_stake_trans p1 p2 p3 :
  same_stake p1 p2 -> same_stake p2 p3 -> same_stake p1 p3.
Proof.
  unfold same_stake.
  intros (? & ? & ? & ? & ? & ? & ? & ? & ? & ?)
         (? & ? & ? & ? & ? & ? & ? & ? & ? & ?).
  repeat split; try congruence; lia.
Qed.

Lemma same_stakes_refl ps : same_stakes ps ps.
Proof.
  induction ps as [|e ps IH]; constructor; [| exact IH].
  split; [reflexivity | apply same_stake_refl].
Qed.

Lemma same_stakes_trans ps1 ps2 ps3 :
  same_stakes ps1 ps2 -> same_stakes ps2 ps3 -> same_stakes ps1 ps3.
Proof.
  intros H12. revert ps3.
  induction H12 as [|e1 e2 ps1 ps2 (Hk & Hs) _ IH]; intros ps3 H23;
    inversion H23 as [|e2' e3 ps2' ps3' (Hk' & Hs') Hrest]; subst;
    constructor.
  - split; [congruence | eapply same_stake_trans; eassumption].
  - now apply IH.
Qed.

Lemma same_stakes_keys ps ps' :
  same_stakes ps ps' -> JS.keys ps' = JS.keys ps.
Proof.
  unfold JS.keys.
  induction 1 as [|e e' ps ps' (Hk & _) _ IH]; cbn [map]; [reflexivity |].
  now rewrite Hk, IH.
Qed.

Lemma same_stake_delegates fpId p p' :
  same_stake p p' -> delegates_to fpId p' = delegates_to fpId p.
Proof.
  intros (_ & _ & Hf & _ & _ & _ & Hs & _).
  unfold delegates_to, is_active. now rewrite Hf, Hs.
Qed.

Lemma same_stake_eligible p p' :
  same_stake p p' -> eligible p' = eligible p.
Proof.
  intros (_ & _ & _ & _ & _ & _ & Hs & Hu & _).
  unfold eligible, is_active. now rewrite Hs, Hu.
Qed.

Lemma same_stakes_delegators g ps ps' :
  same_stakes ps ps' -> delegators_of g ps' = delegators_of g ps.
Proof.
  unfold delegators_of.
  induction 1 as [|[k p] [k' p'] ps ps' (_ & Hs) _ IH]; cbn [total];
    [reflexivity |].
  cbn [snd] in Hs. rewrite (same_stake_delegates g p p' Hs). lia.
Qed.

(** ** Slashing *)

Lemma slashPosition_facts fpId reason severity rate now p :
  let r := slashPosition fpId reason severity rate now p in
  same_stake p (fst r)
  /\ amount (fst r) = amount p - snd r
  /\ penalty (fst r) = penalty p + snd r
  /\ accrued (fst r) = accrued p
  /\ (delegates_to fpId p = false -> r = (p, 0))
  /\ (delegates_to fpId p = true ->
      snd r = JS.Math_floor (JS.mul (inject_Z (amount p)) rate)).
Proof.
  unfold slashPosition. fold (delegates_to fpId p).
  destruct (delegates_to fpId p); cbn.
  - unfold same_stake, penalty, accrued. cbn.
    repeat split; try reflexivity; try lia; discriminate.
  - repeat split; try apply same_stake_refl; try lia; try reflexivity;
      discriminate.
Qed.

Lemma slashLoop_facts fpId reason severity rate now ps :
  forall acc,
    let r := slashLoop fpId reason severity rate now ps acc in
    same_stakes ps (fst r)
    /\ snd r - acc = total amount ps - total amount (fst r)
    /\ total penalty (fst r) = total penalty ps + (snd r - acc)
    /\ total accrued (fst r) = total accrued ps
    /\ delegated_to fpId (fst r) = delegated_to fpId ps - (snd r - acc)
    /\ (forall g, g <> fpId -> delegated_to g (fst r) = delegated_to g ps).
Proof.
  induction ps as [|[k p] ps IH]; intros acc; cbn [slashLoop].
  - cbn. repeat split; try lia. constructor.
  - pose proof (slashPosition_facts fpId reason severity rate now p) as Hp.
    destruct (slashPosition fpId reason severity rate now p) as [p' s].
    cbn [fst snd] in Hp.
    destruct Hp as (Hsame & Ham & Hpen & Hacc & Hno & Hyes).
    specialize (IH (acc + s)).
    destruct (slashLoop fpId reason severity rate now ps (acc + s))
      as [rest' t].
    cbn [fst snd] in IH |- *.
    destruct IH as (IHs & IHt & IHp & IHa & IHd & IHo).
    split; [constructor; [split; [reflexivity | exact Hsame] | exact IHs] |].
    unfold delegated_to in *. cbn [total].
    rewrite (same_stake_delegates fpId p p' Hsame).
    repeat split; try lia.
    + destruct (delegates_to fpId p) eqn:Hd.
      * lia.
      * specialize (Hno eq_refl). injection Hno as -> ->. lia.
    + intros g Hg. rewrite (IHo g Hg).
      rewrite (same_stake_delegates g p p' Hsame).
      destruct (delegates_to g p) eqn:Hd; [| reflexivity].
      assert (Hnot : delegates_to fpId p = false).
      { unfold delegates_to in *. apply andb_true_iff in Hd as (Hd & _).
        apply String.eqb_eq in Hd. subst g.
        destruct (String.eqb_spec (finalityProvider p) fpId); [congruence |].
        reflexivity. }
      specialize (Hno Hnot). injection Hno as -> ->. reflexivity.
Qed.

Lemma slashLoop_get fpId reason severity rate now ps k :
  forall acc,
    JS.get (fst (slashLoop fpId reason severity rate now ps acc)) k
    = option_map (fun p => fst (slashPosition fpId reason severity rate now p))
                 (JS.get ps k).
Proof.
  induction ps as [|[k0 p] ps IH]; intros acc; cbn [slashLoop JS.get];
    [reflexivity |].
  destruct (slashPosition fpId reason severity rate now p) as [p' s] eqn:Hs.
  specialize (IH (acc + s)).
  destruct (slashLoop fpId reason severity rate now ps (acc + s)) as [rest' t].
  cbn [fst JS.get] in IH |- *.
  destruct (String.eqb k0 k); [cbn; now rewrite Hs | exact IH].
Qed.

(** The positions after [executeSlashing], whether it returned or threw. *)
Lemma executeSlashing_same_stakes nowMs draw fpId reason w :
  same_stakes (activeStakers w)
              (activeStakers (fst (executeSlashing nowMs draw fpId reason w))).
Proof.
  destruct (executeSlashing_fields nowMs draw fpId reason w) as (-> & _).
  destruct (JS.read (finalityProviders w) fpId);
    try apply slashLoop_facts. apply same_stakes_refl.
Qed.

(** Only the provider slashed is written. *)
Lemma executeSlashing_other_providers nowMs draw fpId reason w g :
  g <> fpId ->
  JS.get (finalityProviders (fst (executeSlashing nowMs draw fpId reason w))) g
  = JS.get (finalityProviders w) g.
Proof.
  intros Hg. unfold executeSlashing.
  destruct (JS.read (finalityProviders w) fpId) as [fp| |]; [| | reflexivity];
    destruct (slashLoop _ _ _ _ _ _ _) as [stakers t];
    destruct (stakers_loop_throws w); try reflexivity.
  - cbn. now apply get_set_other.
  - destruct (String.eqb fpId "__proto__"); reflexivity.
Qed.

(** A slashing that throws has slashed the positions and written nothing
    else of the engine's own. *)
Lemma executeSlashing_thrown nowMs draw fpId reason w :
  snd (executeSlashing nowMs draw fpId reason w) = TypeError ->
  finalityProviders (fst (executeSlashing nowMs draw fpId reason w))
  = finalityProviders w
  /\ networkStats (fst (executeSlashing nowMs draw fpId reason w))
     = networkStats w
  /\ currentEpoch (fst (executeSlashing nowMs draw fpId reason w))
     = currentEpoch w.
Proof.
  unfold executeSlashing.
  destruct (JS.read (finalityProviders w) fpId) as [fp| |];
    try (destruct (slashLoop _ _ _ _ _ _ _) as [stakers t]);
    try (destruct (stakers_loop_throws w));
    try (destruct (String.eqb fpId "__proto__"));
    cbn; intros Hs; try discriminate Hs; repeat split.
Qed.

(** A slashing under an id that is no key of the providers leaves them. *)
Lemma executeSlashing_not_own nowMs draw fpId reason w :
  JS.get (finalityProviders w) fpId = None ->
  finalityProviders (fst (executeSlashing nowMs draw fpId reason w))
  = finalityProviders w.
Proof.
  intros Hget. unfold executeSlashing.
  pose proof (read_cases (finalityProviders w) fpId) as Hr.
  destruct (JS.read (finalityProviders w) fpId) as [fp| |];
    [congruence | | reflexivity].
  destruct (slashLoop _ _ _ _ _ _ _) as [stakers t].
  destruct (stakers_loop_throws w); [reflexivity |].
  destruct (String.eqb fpId "__proto__"); reflexivity.
Qed.

Lemma executeSlashing_known nowMs draw fpId reason w fp :
  JS.get (finalityProviders w) fpId = Some fp ->
  stakers_loop_throws w = false ->
  let r := slashLoop fpId reason (severityOf draw)
             (slashingRateFor (stakingParams w) (severityOf draw))
             (nowMs / 1000) (activeStakers w) 0 in
  let w' := fst (executeSlashing nowMs draw fpId reason w) in
  snd (executeSlashing nowMs draw fpId reason w) = Returned
  /\ activeStakers w' = fst r
  /\ finalityProviders w'
     = JS.set (finalityProviders w) fpId
         (fp_slashed fp (totalDelegated fp - snd r)
            (JS.Math_max 10 (JS.sub (reputation fp) 10))
            {| fse_amount := snd r; fse_reason := reason;
               fse_severity := severityOf draw;
               fse_timestamp := nowMs / 1000;
               fse_affectedDelegators :=
                 Z.of_nat (length (JS.keys (activeStakers w))) |})
  /\ totalSlashed (networkStats w') = totalSlashed (networkStats w) + snd r
  /\ totalRewardsDistributed (networkStats w')
     = totalRewardsDistributed (networkStats w)
  /\ currentEpoch w' = currentEpoch w
  /\ ns_currentEpoch (networkStats w') = ns_currentEpoch (networkStats w).
Proof.
  intros Hfp Hloop. unfold executeSlashing.
  rewrite (read_own _ _ _ Hfp), Hloop.
  destruct (slashLoop fpId reason (severityOf draw)
              (slashingRateFor (stakingParams w) (severityOf draw))
              (nowMs / 1000) (activeStakers w) 0) as [stakers t].
  cbn. repeat split.
Qed.

(** X11. A slashing conserves what it takes: the sum taken from the
    positions' amounts is added to their penalties, to the network's
    [totalSlashed], taken from the provider's [totalDelegated] and from
    the stake delegated to it, and recorded as the amount of the event
    pushed on the provider's history. The provider's voting power is left
    as it was. (The provider is one of the engine's own, and the loop over
    the positions is one that does not throw.) *)
Theorem slashing_conserves (nowMs : Z) (draw : Q) (fpId reason : string)
    (w : Watcher.t) (fp : FinalityProvider) :
  JS.get (finalityProviders w) fpId = Some fp ->
  stakers_loop_throws w = false ->
  let w' := fst (executeSlashing nowMs draw fpId reason w) in
  let slashed :=
    total amount (activeStakers w) - total amount (activeStakers w') in
  total penalty (activeStakers w') = total penalty (activeStakers w) + slashed
  /\ totalSlashed (networkStats w') = totalSlashed (networkStats w) + slashed
  /\ delegated_to fpId (activeStakers w')
     = delegated_to fpId (activeStakers w) - slashed
  /\ exists fp' ev,
      JS.get (finalityProviders w') fpId = Some fp'
      /\ totalDelegated fp' = totalDelegated fp - slashed
      /\ slashingHistory fp' = (slashingHistory fp ++ [ev])%list
      /\ fse_amount ev = slashed
      /\ fp_votingPower fp' = fp_votingPower fp.
Proof.
  intros Hfp Hloop w' slashed. subst w' slashed.
  destruct (executeSlashing_known nowMs draw fpId reason w fp Hfp Hloop)
    as (_ & Hst & Hfps & Hts & _).
  rewrite Hst, Hfps, Hts.
  destruct (slashLoop_facts fpId reason (severityOf draw)
              (slashingRateFor (stakingParams w) (severityOf draw))
              (nowMs / 1000) (activeStakers w) 0)
    as (_ & Ht & Hp & _ & Hd & _).
  repeat split; try lia.
  eexists _, _. rewrite get_set_same. split; [reflexivity |].
  cbn [totalDelegated slashingHistory fp_votingPower fp_slashed].
  split; [lia |]. split; [reflexivity |]. split; [cbn; lia | reflexivity].
Qed.

Lemma slashing_conserves_witness :
  total amount (activeStakers
                  (fst (executeSlashing (Scenario.t0 + 1000) Scenario.majorDraw
                          "fp1" "double_signing" Scenario.scenarioD)))
  = 95000000
  /\ totalSlashed
       (networkStats
          (fst (executeSlashing (Scenario.t0 + 1000) Scenario.majorDraw "fp1"
                  "double_signing" Scenario.scenarioD)))
     = 0 + (100000000 - 95000000).
Proof.
  assert (Hfp : exists fp,
             JS.get (finalityProviders Scenario.scenarioD) "fp1" = Some fp).
  { eexists. vm_compute. reflexivity. }
  destruct Hfp as (fp & Hfp).
  destruct (slashing_conserves (Scenario.t0 + 1000) Scenario.majorDraw "fp1"
              "double_signing" Scenario.scenarioD fp Hfp eq_refl)
    as (_ & Hts & _).
  split; [vm_compute; reflexivity |].
  rewrite Hts. vm_compute. reflexivity.
Defined.

(** X12. A slashing of one provider spares the rest: a position that is
    not an active delegation to that provider is left as it was, and so is
    every other provider. *)
Theorem slashing_spares_the_rest (nowMs : Z) (draw : Q) (fpId reason : string)
    (w : Watcher.t) :
  let w' := fst (executeSlashing nowMs draw fpId reason w) in
  (forall k p,
      JS.get (activeStakers w) k = Some p ->
      delegates_to fpId p = false ->
      JS.get (activeStakers w') k = Some p)
  /\ (forall g, g <> fpId ->
                JS.get (finalityProviders w') g = JS.get (finalityProviders w) g).
Proof.
  intros w'. subst w'. split.
  - intros k p Hk Hd.
    destruct (executeSlashing_fields nowMs draw fpId reason w) as (-> & _).
    assert (Hloop : JS.get (fst (slashLoop fpId reason (severityOf draw)
                     (slashingRateFor (stakingParams w) (severityOf draw))
                     (nowMs / 1000) (activeStakers w) 0)) k = Some p).
    { rewrite slashLoop_get, Hk. cbn.
      destruct (slashPosition_facts fpId reason (severityOf draw)
                  (slashingRateFor (stakingParams w) (severityOf draw))
                  (nowMs / 1000) p) as (_ & _ & _ & _ & Hno & _).
      now rewrite (Hno Hd). }
    destruct (JS.read (finalityProviders w) fpId); assumption.
  - intros g Hg. now apply executeSlashing_other_providers.
Qed.

Lemma slashing_spares_the_rest_witness :
  option_map amount
    (JS.get (activeStakers
               (fst (executeSlashing (Scenario.t0 + 1000) Scenario.majorDraw
                       "fp2" "downtime" Scenario.scenarioD)))
            "slashing_test_1")
  = Some 100000000.
Proof.
  destruct (slashing_spares_the_rest (Scenario.t0 + 1000) Scenario.majorDraw
              "fp2" "downtime" Scenario.scenarioD) as (Hpos & _).
  assert (Hp : exists p,
             JS.get (activeStakers Scenario.scenarioD) "slashing_test_1" = Some p
             /\ delegates_to "fp2" p = false /\ amount p = 100000000).
  { eexists. split; [vm_compute; reflexivity |]. split; reflexivity. }
  destruct Hp as (p & Hk & Hd & Ha).
  rewrite (Hpos _ p Hk Hd). cbn. now rewrite Ha.
Defined.

(** ** Reward runs *)

Lemma keeps_delegation_refl fps : keeps_delegation fps fps.
Proof. intros k fp' H. exists fp'. repeat split. exact H. Qed.

Lemma keeps_delegation_trans fps1 fps2 fps3 :
  keeps_delegation fps1 fps2 -> keeps_delegation fps2 fps3 ->
  keeps_delegation fps1 fps3.
Proof.
  intros H12 H23 k fp3 H3.
  destruct (H23 k fp3 H3) as (fp2 & H2 & Ht & Hc).
  destruct (H12 k fp2 H2) as (fp1 & H1 & Ht' & Hc').
  exists fp1. repeat split; [exact H1 | congruence | congruence].
Qed.

Lemma rewardPosition_facts params nowMs now p fps :
  let r := rewardPosition params nowMs now p fps in
  same_stake p (fst (fst r))
  /\ amount (fst (fst r)) = amount p
  /\ penalty (fst (fst r)) = penalty p
  /\ accrued (fst (fst r)) = accrued p + snd r
  /\ 0 <= snd r
  /\ keeps_delegation fps (snd (fst r)).
Proof.
  unfold rewardPosition.
  assert (Hsame : same_stake p p
                  /\ amount p = amount p
                  /\ penalty p = penalty p
                  /\ accrued p = accrued p + 0
                  /\ 0 <= 0
                  /\ keeps_delegation fps fps).
  { split; [apply same_stake_refl |].
    repeat split; try lia. apply keeps_delegation_refl. }
  destruct (is_active p && negb (isUnbonding p)); [| exact Hsame].
  destruct (calculateRewards params fps nowMs p) as [reward|]; [| exact Hsame].
  destruct (0 <? reward) eqn:Hpos; [| exact Hsame].
  clear Hsame.
  apply Z.ltb_lt in Hpos. cbn [fst snd].
  unfold same_stake, penalty, accrued. cbn.
  repeat split; try lia.
  pose proof (read_cases fps (finalityProvider p)) as Hfp.
  destruct (JS.read fps (finalityProvider p)) as [fp| |];
    try apply keeps_delegation_refl.
  intros k fp' Hk.
  destruct (String.eqb_spec k (finalityProvider p)) as [->|Hne].
  - rewrite get_set_same in Hk. injection Hk as <-.
    exists fp. repeat split. exact Hfp.
  - rewrite get_set_other in Hk by exact Hne.
    exists fp'. repeat split. exact Hk.
Qed.

Lemma rewardLoop_facts params nowMs now ps :
  forall fps acc,
    let r := rewardLoop params nowMs now ps fps acc in
    same_stakes ps (fst (fst r))
    /\ snd r - acc = total accrued (fst (fst r)) - total accrued ps
    /\ acc <= snd r
    /\ total amount (fst (fst r)) = total amount ps
    /\ total penalty (fst (fst r)) = total penalty ps
    /\ keeps_delegation fps (snd (fst r))
    /\ (forall g, delegated_to g (fst (fst r)) = delegated_to g ps).
Proof.
  induction ps as [|[k p] ps IH]; intros fps acc; cbn [rewardLoop].
  - cbn. repeat split; try lia; [constructor | apply keeps_delegation_refl].
  - pose proof (rewardPosition_facts params nowMs now p fps) as Hp.
    destruct (rewardPosition params nowMs now p fps) as [[p' fps'] reward].
    cbn [fst snd] in Hp.
    destruct Hp as (Hsame & Ham & Hpen & Hacc & Hpos & Hkeep).
    specialize (IH fps' (acc + reward)).
    destruct (rewardLoop params nowMs now ps fps' (acc + reward))
      as [[rest' fps''] t].
    cbn [fst snd] in IH |- *.
    destruct IH as (IHs & IHt & IHle & IHa & IHp & IHk & IHd).
    split; [constructor; [split; [reflexivity | exact Hsame] | exact IHs] |].
    cbn [total]. repeat split; try lia.
    + eapply keeps_delegation_trans; eassumption.
    + intros g. unfold delegated_to in *. cbn [total].
      rewrite (same_stake_delegates g p p' Hsame), Ham, (IHd g). reflexivity.
Qed.

Lemma count_eligible (ps : JS.object StakingPosition) :
  Z.of_nat (length (List.filter (fun '(_, p) => is_active p && negb (isUnbonding p))
                                ps))
  = total (fun p => if eligible p then 1 else 0) ps.
Proof.
  induction ps as [|[k p] ps IH]; cbn [List.filter total]; [reflexivity |].
  unfold eligible at 1.
  destruct (is_active p && negb (isUnbonding p)); cbn [length]; lia.
Qed.

Lemma same_stakes_eligible ps ps' :
  same_stakes ps ps' ->
  total (fun p => if eligible p then 1 else 0) ps'
  = total (fun p => if eligible p then 1 else 0) ps.
Proof.
  induction 1 as [|[k p] [k' p'] ps ps' (_ & Hs) _ IH]; cbn [total];
    [reflexivity |].
  cbn [snd] in Hs. rewrite (same_stake_eligible p p' Hs). lia.
Qed.

Lemma distributeStakingRewards_known nowMs w :
  let r := rewardLoop (stakingParams w) nowMs (nowMs / 1000)
             (activeStakers w) (finalityProviders w) 0 in
  let w' := fst (distributeStakingRewards nowMs w) in
  activeStakers w' = fst (fst r)
  /\ finalityProviders w' = snd (fst r)
  /\ totalSlashed (networkStats w') = totalSlashed (networkStats w)
  /\ currentEpoch w' = currentEpoch w
  /\ ns_currentEpoch (networkStats w') = ns_currentEpoch (networkStats w).
Proof.
  unfold distributeStakingRewards.
  destruct (rewardLoop (stakingParams w) nowMs (nowMs / 1000)
              (activeStakers w) (finalityProviders w) 0) as [[stakers fps] t].
  destruct (stakers_loop_throws w); cbn; repeat split.
Qed.

Lemma distributeStakingRewards_returned nowMs w :
  stakers_loop_throws w = false ->
  let r := rewardLoop (stakingParams w) nowMs (nowMs / 1000)
             (activeStakers w) (finalityProviders w) 0 in
  let w' := fst (distributeStakingRewards nowMs w) in
  exists report,
    snd (distributeStakingRewards nowMs w) = Some report
    /\ run_totalRewardsDistributed report = snd r
    /\ stakersRewarded report
       = Z.of_nat
           (length
              (List.filter (fun '(_, p) => is_active p && negb (isUnbonding p))
                           (fst (fst r))))
    /\ totalRewardsDistributed (networkStats w')
       = totalRewardsDistributed (networkStats w) + snd r.
Proof.
  intros Hloop. unfold distributeStakingRewards. rewrite Hloop.
  destruct (rewardLoop (stakingParams w) nowMs (nowMs / 1000)
              (activeStakers w) (finalityProviders w) 0) as [[stakers fps] t].
  cbn. eexists. repeat split.
Qed.

(** X13. What a reward run reports is what it paid: a run whose loop over
    the positions does not throw returns a report; the total it reports is
    never negative, is the sum added to the positions' accumulated
    rewards and the sum added to the network's [totalRewardsDistributed];
    no amount changes. [stakersRewarded] is the number of active positions
    that are not unbonding, whether they were paid or not. *)
Theorem reward_run_report (nowMs : Z) (w : Watcher.t) :
  stakers_loop_throws w = false ->
  let w' := fst (distributeStakingRewards nowMs w) in
  exists r,
    snd (distributeStakingRewards nowMs w) = Some r
    /\ 0 <= run_totalRewardsDistributed r
    /\ total accrued (activeStakers w')
       = total accrued (activeStakers w) + run_totalRewardsDistributed r
    /\ totalRewardsDistributed (networkStats w')
       = totalRewardsDistributed (networkStats w) + run_totalRewardsDistributed r
    /\ total amount (activeStakers w') = total amount (activeStakers w)
    /\ stakersRewarded r
       = total (fun p => if eligible p then 1 else 0) (activeStakers w).
Proof.
  intros Hloop w'. subst w'.
  destruct (distributeStakingRewards_known nowMs w) as (Hst & _).
  destruct (distributeStakingRewards_returned nowMs w Hloop)
    as (r & Hr & Hrun & Hcount & Htr).
  exists r. split; [exact Hr |].
  rewrite Hst, Htr, Hrun, Hcount.
  destruct (rewardLoop_facts (stakingParams w) nowMs (nowMs / 1000)
              (activeStakers w) (finalityProviders w) 0)
    as (Hsame & Ht & Hle & Ha & _).
  repeat split; try lia.
  rewrite count_eligible. now apply same_stakes_eligible.
Qed.

Lemma reward_run_report_witness :
  exists r,
    snd (distributeStakingRewards (Scenario.t0 + Scenario.year)
                                  Scenario.scenarioD) = Some r
    /\ run_totalRewardsDistributed r = 5643000
    /\ stakersRewarded r = 1.
Proof.
  destruct (reward_run_report (Scenario.t0 + Scenario.year) Scenario.scenarioD
              eq_refl) as (r & Hr & _).
  exists r. split; [exact Hr |].
  vm_compute in Hr. injection Hr as <-. split; reflexivity.
Defined.

(** X14. Slashings, epochs and reward runs keep every position what it
    is: over any sequence of them the positions stay the same in number and
    order, under the same keys, and each keeps its transaction hash,
    staker, provider, times, voting power, status and unbonding flag (no
    call deactivates a position or recomputes its voting power); what is
    slashed from its amount is in its penalty, and its accumulated rewards
    never go down. *)
Theorem positions_keep_their_stake (w : Watcher.t) (cs : list Watcher.call) :
  same_stakes (activeStakers w) (activeStakers (Watcher.run w cs)).
Proof.
  revert w. unfold Watcher.run.
  induction cs as [|c cs IH]; intros w; cbn [fold_left].
  - apply same_stakes_refl.
  - eapply same_stakes_trans; [| apply IH].
    destruct c as [nowMs draw fpId reason|rnd|nowMs]; cbn [Watcher.step].
    + apply executeSlashing_same_stakes.
    + destruct (updateEpoch_fields rnd w) as (_ & Hst & _).
      rewrite Hst. apply same_stakes_refl.
    + destruct (distributeStakingRewards_known nowMs w) as (Hst & _).
      rewrite Hst. apply rewardLoop_facts.
Qed.

(** ** Creating positions *)

Lemma keys_set_present {V} (o : JS.object V) k v :
  In k (JS.keys o) -> JS.keys (JS.set o k v) = JS.keys o.
Proof.
  unfold JS.keys.
  induction o as [|[k' v'] o IH]; cbn; [intros [] |].
  destruct (String.eqb_spec k' k) as [->|Hne]; cbn.
  - reflexivity.
  - intros [Heq|Hin]; [congruence |]. f_equal. now apply IH.
Qed.

Lemma key_of_set {V} (o : JS.object V) k v : In k (JS.keys (JS.set o k v)).
Proof.
  unfold JS.keys.
  induction o as [|[k' v'] o IH]; cbn; [now left |].
  destruct (String.eqb_spec k' k) as [->|Hne]; cbn; [now left | now right].
Qed.

Lemma createStakingPosition_known nowMs tx fpId w out outs :
  vout tx = out :: outs ->
  exists p w',
    createStakingPosition nowMs tx fpId w = Some (p, w')
    /\ (txHash p = txid tx /\ amount p = value out
        /\ finalityProvider p = fpId /\ status p = "active"
        /\ penalty p = 0 /\ accrued p = 0
        /\ votingPower p
           = calculateVotingPower (value out)
                                  (JS.read (finalityProviders w) fpId))
    /\ (if reparents tx w
        then activeStakers w' = activeStakers w /\ stakersParent w' = Some p
        else activeStakers w' = JS.set (activeStakers w) (txid tx) p
             /\ stakersParent w' = stakersParent w)
    /\ finalityProviders w'
       = match JS.read (finalityProviders w) fpId with
         | JS.Own fp =>
             let fp1 :=
               fp_with_delegation fp (totalDelegated fp + value out)
                                  (delegatorCount fp + 1) in
             JS.set (finalityProviders w) fpId
               (fp_with_votingPower fp1 (calculateFinalityProviderVotingPower fp1))
         | _ => finalityProviders w
         end
    /\ networkStats w' = networkStats w
    /\ currentEpoch w' = currentEpoch w.
Proof.
  intros Hv. unfold createStakingPosition, reparents. rewrite Hv.
  eexists _, _. split; [reflexivity |].
  destruct (String.eqb (txid tx) "__proto__"
            && negb (JS.has (activeStakers w) "__proto__"));
    cbn [finalityProviders with_stakersParent with_activeStakers];
    destruct (JS.read (finalityProviders w) fpId);
    try (destruct (String.eqb fpId "__proto__"));
    cbn; repeat split.
Qed.

Lemma reparents_false tx w : txid tx <> "__proto__" -> reparents tx w = false.
Proof.
  intros H. unfold reparents.
  destruct (String.eqb_spec (txid tx) "__proto__"); [contradiction | reflexivity].
Qed.

(** X15. [createStakingPosition] stores what it returns: with an output to
    read the value from it returns a position of that value, active, and
    assigns it under the transaction id; a lookup of that id gives it back
    and the other positions are untouched, unless the id is [__proto__]
    and names no property, where the positions are untouched and the
    position becomes what they inherit from. The network statistics are
    untouched. A provider of the engine is credited with the value and one
    delegator, its voting power is recomputed by the formula from the new
    total, and the position gets the value of the formula for its amount;
    for an id that names a member of [Object.prototype] the providers are
    left and the position's voting power is [NaN]; for any other id the
    providers are left and the position gets the basic voting power. No
    bound on the amount is checked. With no output the call throws. *)
Theorem created_position_is_stored (nowMs : Z) (tx : Tx) (fpId : string)
    (w : Watcher.t) :
  (vout tx = [] -> createStakingPosition nowMs tx fpId w = None)
  /\ (forall out outs,
         vout tx = out :: outs ->
         exists p w',
           createStakingPosition nowMs tx fpId w = Some (p, w')
           /\ amount p = value out
           /\ is_active p = true
           /\ networkStats w' = networkStats w
           /\ (if reparents tx w
               then activeStakers w' = activeStakers w
                    /\ stakersParent w' = Some p
               else JS.get (activeStakers w') (txid tx) = Some p
                    /\ (forall k, k <> txid tx ->
                                  JS.get (activeStakers w') k
                                  = JS.get (activeStakers w) k)
                    /\ stakersParent w' = stakersParent w)
           /\ (forall g, g <> fpId ->
                         JS.get (finalityProviders w') g
                         = JS.get (finalityProviders w) g)
           /\ match JS.read (finalityProviders w) fpId with
              | JS.Own fp =>
                  votingPower p
                  = Some (Spec.votingPower (value out) (reputation fp)
                                           (uptime fp))
                  /\ exists fp',
                      JS.get (finalityProviders w') fpId = Some fp'
                      /\ totalDelegated fp' = totalDelegated fp + value out
                      /\ delegatorCount fp' = delegatorCount fp + 1
                      /\ fp_votingPower fp'
                         = Spec.votingPower (totalDelegated fp + value out)
                                            (reputation fp) (uptime fp)
              | JS.Builtin =>
                  finalityProviders w' = finalityProviders w
                  /\ votingPower p = None
              | JS.Absent =>
                  finalityProviders w' = finalityProviders w
                  /\ votingPower p = Some (calculateVotingPowerBasic (value out))
              end).
Proof.
  split.
  - intros Hv. unfold createStakingPosition. now rewrite Hv.
  - intros out outs Hv.
    destruct (createStakingPosition_known nowMs tx fpId w out outs Hv)
      as (p & w' & Hc & (Hh & Ha & Hf & Hs & _ & _ & Hvp) & Hst & Hfps & Hns & _).
    exists p, w'. rewrite Hfps.
    split; [exact Hc |]. split; [exact Ha |].
    split; [unfold is_active; now rewrite Hs |].
    split; [exact Hns |].
    split.
    { destruct (reparents tx w); [exact Hst |].
      destruct Hst as (-> & Hpar).
      split; [apply get_set_same |].
      split; [intros k Hk; now apply get_set_other | exact Hpar]. }
    rewrite Hvp.
    destruct (JS.read (finalityProviders w) fpId) as [fp| |].
    + split; [intros g Hg; now apply get_set_other |].
      split; [reflexivity |].
      eexists. rewrite get_set_same. split; [reflexivity |].
      cbn. repeat split.
    + split; [reflexivity |]. split; reflexivity.
    + split; [reflexivity |]. split; reflexivity.
Qed.

Lemma created_position_is_stored_witness :
  option_map amount
    (JS.get (activeStakers (Scenario.delegated "stake_1" 500 "fp9")) "stake_1")
  = Some 500
  /\ JS.keys (finalityProviders (Scenario.delegated "stake_1" 500 "fp9"))
     = ["fp1"; "fp2"; "fp3"].
Proof.
  destruct (created_position_is_stored Scenario.t0
              (Scenario.mockTx "stake_1" 500) "fp9" constructor) as (_ & H).
  destruct (H _ _ eq_refl) as (p & w' & Hc & Ha & _ & _ & Hst & _ & Hfp).
  change (reparents (Scenario.mockTx "stake_1" 500) constructor) with false
    in Hst.
  destruct Hst as (Hget & _).
  change (txid (Scenario.mockTx "stake_1" 500)) with "stake_1" in Hget.
  unfold Scenario.delegated. rewrite Hc, Hget. cbn [option_map].
  rewrite Ha. split; [reflexivity |].
  assert (Hr : JS.read (finalityProviders constructor) "fp9" = JS.Absent)
    by (vm_compute; reflexivity).
  rewrite Hr in Hfp. destruct Hfp as (-> & _). vm_compute. reflexivity.
Defined.

(** A position created under [__proto__] is stored under no key, and the
    loops over the positions throw from then on. *)
Lemma created_under_proto :
  exists p w',
    createStakingPosition Scenario.t0 (Scenario.mockTx "__proto__" 500) "fp1"
                          constructor = Some (p, w')
    /\ activeStakers w' = []
    /\ stakersParent w' = Some p
    /\ option_map totalDelegated (JS.get (finalityProviders w') "fp1") = Some 500
    /\ snd (updateNetworkStats w') = TypeError.
Proof.
  eexists _, _. split; [reflexivity |].
  repeat split; vm_compute; reflexivity.
Qed.

(** X16. [createStakingPosition] is not idempotent: created twice, a
    transaction leaves one position, of the value of its output (under its
    id, unless that is [__proto__] and names no property), but its
    provider is credited twice with the value and counts two delegators. *)
Theorem duplicate_creation_counts_twice (nowMs nowMs' : Z) (tx : Tx)
    (fpId : string) (w : Watcher.t) (fp : FinalityProvider) (out : Vout)
    (outs : list Vout) :
  JS.get (finalityProviders w) fpId = Some fp ->
  vout tx = out :: outs ->
  exists p1 w1 p2 w2,
    createStakingPosition nowMs tx fpId w = Some (p1, w1)
    /\ createStakingPosition nowMs' tx fpId w1 = Some (p2, w2)
    /\ JS.keys (activeStakers w2) = JS.keys (activeStakers w1)
    /\ (reparents tx w = false ->
        JS.get (activeStakers w2) (txid tx) = Some p2)
    /\ amount p2 = value out
    /\ exists fp2,
        JS.get (finalityProviders w2) fpId = Some fp2
        /\ totalDelegated fp2 = totalDelegated fp + 2 * value out
        /\ delegatorCount fp2 = delegatorCount fp + 2.
Proof.
  intros Hfp Hv.
  destruct (createStakingPosition_known nowMs tx fpId w out outs Hv)
    as (p1 & w1 & Hc1 & _ & Hst1 & Hfps1 & _).
  destruct (createStakingPosition_known nowMs' tx fpId w1 out outs Hv)
    as (p2 & w2 & Hc2 & (_ & Ha2 & _) & Hst2 & Hfps2 & _).
  exists p1, w1, p2, w2.
  split; [exact Hc1 |]. split; [exact Hc2 |].
  rewrite (read_own _ _ _ Hfp) in Hfps1.
  rewrite Hfps1 in Hfps2.
  rewrite (read_own _ _ _ (get_set_same _ _ _)) in Hfps2.
  rewrite Hfps2.
  assert (Hre : reparents tx w1 = reparents tx w).
  { unfold reparents in *.
    destruct (String.eqb_spec (txid tx) "__proto__") as [Heq|Hne];
      [| reflexivity].
    cbn [andb] in *.
    destruct (negb (JS.has (activeStakers w) "__proto__")) eqn:Hhas.
    - destruct Hst1 as (-> & _). exact Hhas.
    - destruct Hst1 as (-> & _). rewrite Heq.
      apply negb_false_iff. apply negb_false_iff in Hhas.
      unfold JS.has in *. apply existsb_exists in Hhas as (x & Hx & Hxe).
      apply String.eqb_eq in Hxe. subst x.
      apply existsb_exists. exists "__proto__".
      split; [| apply String.eqb_refl].
      rewrite keys_set_present; [exact Hx | exact Hx]. }
  rewrite Hre in Hst2.
  split.
  { destruct (reparents tx w).
    - destruct Hst2 as (-> & _). reflexivity.
    - destruct Hst2 as (-> & _), Hst1 as (Hst1 & _).
      apply keys_set_present. rewrite Hst1. apply key_of_set. }
  split.
  { intros Hno. rewrite Hno in Hst2. destruct Hst2 as (-> & _).
    apply get_set_same. }
  split; [exact Ha2 |].
  eexists. rewrite get_set_same. split; [reflexivity |]. cbn. split; lia.
Qed.

Lemma duplicate_creation_counts_twice_witness :
  exists w2 fp2,
    createStakingPosition (Scenario.t0 + 5)
      (Scenario.mockTx "slashing_test_1" 100000000) "fp1" Scenario.scenarioD
    = Some w2
    /\ JS.get (finalityProviders (snd w2)) "fp1" = Some fp2
    /\ totalDelegated fp2 = 200000000
    /\ JS.keys (activeStakers (snd w2)) = ["slashing_test_1"].
Proof.
  assert (Hfp : exists fp,
             JS.get (finalityProviders constructor) "fp1" = Some fp
             /\ totalDelegated fp = 0).
  { eexists. split; vm_compute; reflexivity. }
  destruct Hfp as (fp & Hfp & Hzero).
  destruct (duplicate_creation_counts_twice Scenario.t0 (Scenario.t0 + 5)
              (Scenario.mockTx "slashing_test_1" 100000000) "fp1" constructor
              fp _ _ Hfp eq_refl)
    as (p1 & w1 & p2 & w2 & Hc1 & Hc2 & Hk & _ & _ & fp2 & Hg & Ht & _).
  exists (p2, w2), fp2.
  assert (Hw1 : Scenario.scenarioD = w1).
  { unfold Scenario.scenarioD, Scenario.delegated. now rewrite Hc1. }
  rewrite Hw1. split; [exact Hc2 |]. split; [exact Hg |].
  split; [rewrite Ht, Hzero; reflexivity |].
  cbn [snd]. rewrite Hk, <- Hw1. vm_compute. reflexivity.
Defined.

(** ** Delegations *)

Lemma updateProviders_get rnd fps k fp' :
  forall i,
    JS.get (updateProviders rnd i fps) k = Some fp' ->
    exists j fp, JS.get fps k = Some fp /\ fp' = updateProvider (rnd j) fp.
Proof.
  induction fps as [|[k0 fp0] fps IH]; intros i; cbn [updateProviders JS.get];
    [discriminate |].
  destruct (String.eqb k0 k).
  - intros [= <-]. now exists i, fp0.
  - apply IH.
Qed.

Lemma updateProviders_keeps_delegation rnd i fps :
  keeps_delegation fps (updateProviders rnd i fps).
Proof.
  intros k fp' Hk.
  destruct (updateProviders_get rnd fps k fp' i Hk) as (j & fp & Hfp & ->).
  exists fp. repeat split. exact Hfp.
Qed.

Lemma keeps_delegation_consistent fps fps' ps ps' :
  keeps_delegation fps fps' ->
  (forall g, delegated_to g ps' = delegated_to g ps) ->
  (forall g, delegators_of g ps' = delegators_of g ps) ->
  (forall k fp, JS.get fps k = Some fp ->
                totalDelegated fp = delegated_to k ps
                /\ delegatorCount fp = delegators_of k ps) ->
  forall k fp', JS.get fps' k = Some fp' ->
                totalDelegated fp' = delegated_to k ps'
                /\ delegatorCount fp' = delegators_of k ps'.
Proof.
  intros Hkeep Hd Hn Hcons k fp' Hk.
  destruct (Hkeep k fp' Hk) as (fp & Hfp & Ht & Hc).
  destruct (Hcons k fp Hfp) as (Ht' & Hc').
  rewrite Hd, Hn. split; congruence.
Qed.

Lemma engine_step_delegation w c :
  stakers_loop_throws w = false ->
  delegation_consistent w -> delegation_consistent (Watcher.step w c).
Proof.
  intros Hloop Hcons.
  destruct c as [nowMs draw fpId reason|rnd|nowMs]; cbn [Watcher.step].
  - destruct (slashLoop_facts fpId reason (severityOf draw)
                (slashingRateFor (stakingParams w) (severityOf draw))
                (nowMs / 1000) (activeStakers w) 0)
      as (Hsame & _ & _ & _ & Hd & Ho).
    pose proof (read_cases (finalityProviders w) fpId) as Hfp.
    pose proof (executeSlashing_fields nowMs draw fpId reason w) as (Hst & _).
    destruct (JS.read (finalityProviders w) fpId) as [fp| |] eqn:Hread.
    + destruct (executeSlashing_known nowMs draw fpId reason w fp Hfp Hloop)
        as (_ & _ & Hfps & _).
      intros k fp' Hk. rewrite Hst. rewrite Hfps in Hk.
      rewrite (same_stakes_delegators k _ _ Hsame).
      destruct (String.eqb_spec k fpId) as [->|Hne].
      * rewrite get_set_same in Hk. injection Hk as <-.
        destruct (Hcons fpId fp Hfp) as (Ht & Hc).
        cbn [totalDelegated delegatorCount fp_slashed].
        rewrite Hd. split; [lia | exact Hc].
      * rewrite get_set_other in Hk by exact Hne.
        rewrite (Ho k Hne). now apply Hcons.
    + intros k fp' Hk. rewrite Hst.
      rewrite (executeSlashing_not_own _ _ _ _ _ Hfp) in Hk.
      assert (Hne : k <> fpId) by (intros ->; congruence).
      rewrite (same_stakes_delegators k _ _ Hsame), (Ho k Hne).
      now apply Hcons.
    + unfold executeSlashing. rewrite Hread. exact Hcons.
  - destruct (updateEpoch_fields rnd w) as (Hfps & Hst & _).
    intros k fp' Hk. rewrite Hst. rewrite Hfps in Hk.
    eapply keeps_delegation_consistent;
      [apply updateProviders_keeps_delegation | reflexivity | reflexivity
       | exact Hcons | exact Hk].
  - destruct (distributeStakingRewards_known nowMs w) as (Hst & Hfps & _).
    destruct (rewardLoop_facts (stakingParams w) nowMs (nowMs / 1000)
                (activeStakers w) (finalityProviders w) 0)
      as (Hsame & _ & _ & _ & _ & Hkeep & Hd).
    intros k fp' Hk. rewrite Hst. rewrite Hfps in Hk.
    eapply keeps_delegation_consistent;
      [exact Hkeep | exact Hd
       | intros g; now apply same_stakes_delegators
       | exact Hcons | exact Hk].
Qed.

Lemma engine_step_parent w c :
  stakersParent (Watcher.step w c) = stakersParent w.
Proof.
  destruct c as [nowMs draw fpId reason|rnd|nowMs]; cbn [Watcher.step].
  - apply executeSlashing_fields.
  - apply updateEpoch_fields.
  - apply distributeStakingRewards_fields.
Qed.

Lemma no_parent_no_throw w : stakersParent w = None -> stakers_loop_throws w = false.
Proof. intros H. unfold stakers_loop_throws. now rewrite H. Qed.

Lemma engine_step_keys w c :
  JS.keys (activeStakers (Watcher.step w c)) = JS.keys (activeStakers w).
Proof.
  apply same_stakes_keys.
  destruct c as [nowMs draw fpId reason|rnd|nowMs]; cbn [Watcher.step].
  - apply executeSlashing_same_stakes.
  - destruct (updateEpoch_fields rnd w) as (_ & Hst & _).
    rewrite Hst. apply same_stakes_refl.
  - destruct (distributeStakingRewards_known nowMs w) as (Hst & _).
    rewrite Hst. apply rewardLoop_facts.
Qed.

Lemma create_fresh_delegation nowMs tx fpId w p w' :
  ~ In (txid tx) (JS.keys (activeStakers w)) ->
  txid tx <> "__proto__" ->
  delegation_consistent w ->
  createStakingPosition nowMs tx fpId w = Some (p, w') ->
  delegation_consistent w'
  /\ stakersParent w' = stakersParent w
  /\ activeStakers w' = JS.set (activeStakers w) (txid tx) p.
Proof.
  intros Hfresh Hord Hcons Hc.
  destruct (vout tx) as [|out outs] eqn:Hv;
    [unfold createStakingPosition in Hc; rewrite Hv in Hc; discriminate Hc |].
  destruct (createStakingPosition_known nowMs tx fpId w out outs Hv)
    as (p0 & w0 & Hc0 & (_ & Ha & Hf & Hs & _) & Hst & Hfps & _).
  rewrite Hc in Hc0. injection Hc0 as <- <-.
  rewrite (reparents_false tx w Hord) in Hst. destruct Hst as (Hst & Hpar).
  split; [| split; [exact Hpar | exact Hst]].
  assert (Hnew : forall g,
             delegated_to g (activeStakers w')
             = delegated_to g (activeStakers w)
               + (if String.eqb fpId g then value out else 0)
             /\ delegators_of g (activeStakers w')
                = delegators_of g (activeStakers w)
                  + (if String.eqb fpId g then 1 else 0)).
  { intros g. rewrite Hst, (set_fresh _ _ _ Hfresh).
    unfold delegated_to, delegators_of. rewrite !total_app. cbn [total].
    unfold delegates_to, is_active. rewrite Hf, Hs, Ha.
    destruct (String.eqb fpId g); cbn; lia. }
  intros k fp' Hk. destruct (Hnew k) as (-> & ->).
  rewrite Hfps in Hk.
  pose proof (read_cases (finalityProviders w) fpId) as Hfp.
  destruct (JS.read (finalityProviders w) fpId) as [fp| |].
  - destruct (String.eqb_spec fpId k) as [<-|Hne].
    + cbn zeta in Hk. rewrite get_set_same in Hk. injection Hk as <-.
      destruct (Hcons fpId fp Hfp) as (Ht & Hn).
      cbn. split; lia.
    + cbn zeta in Hk. rewrite get_set_other in Hk by congruence.
      destruct (Hcons k fp' Hk) as (Ht & Hn). split; lia.
  - destruct (String.eqb_spec fpId k) as [<-|Hne]; [congruence |].
    destruct (Hcons k fp' Hk) as (Ht & Hn). split; lia.
  - destruct (String.eqb_spec fpId k) as [<-|Hne]; [congruence |].
    destruct (Hcons k fp' Hk) as (Ht & Hn). split; lia.
Qed.

Lemma run_delegation cs :
  forall w seen,
    stakersParent w = None ->
    delegation_consistent w ->
    incl (JS.keys (activeStakers w)) seen ->
    fresh_ids seen cs ->
    delegation_consistent (WatcherCalls.run w cs).
Proof.
  unfold WatcherCalls.run.
  induction cs as [|c cs IH]; intros w seen Hpar Hcons Hincl Hfresh;
    cbn [fold_left]; [exact Hcons |].
  destruct c as [c|nowMs tx fpId]; cbn [fresh_ids WatcherCalls.step] in *.
  - apply (IH _ seen); [| | | exact Hfresh].
    + now rewrite engine_step_parent.
    + apply engine_step_delegation; [now apply no_parent_no_throw | exact Hcons].
    + now rewrite engine_step_keys.
  - destruct Hfresh as (Hnew & Hord & Hfresh).
    destruct (createStakingPosition nowMs tx fpId w) as [[p w']|] eqn:Hc.
    + assert (Hfr : ~ In (txid tx) (JS.keys (activeStakers w)))
        by (intros Hin; apply Hnew, Hincl, Hin).
      destruct (create_fresh_delegation nowMs tx fpId w p w' Hfr Hord Hcons Hc)
        as (Hcons' & Hpar' & Hst).
      apply (IH _ (txid tx :: seen)); [congruence | exact Hcons' | | exact Hfresh].
      rewrite Hst.
      intros x Hx. apply keys_set in Hx as [<-|Hx]; [now left |].
      right. now apply Hincl.
    + apply (IH _ (txid tx :: seen)); [exact Hpar | exact Hcons | | exact Hfresh].
      intros x Hx. right. now apply Hincl.
Qed.

(** X17. As long as no transaction id is created twice (and none is
    [__proto__]), every provider's [totalDelegated] is the sum of the
    amounts of the active positions delegated to it and its
    [delegatorCount] their number, across any sequence of creations,
    slashings, epochs and reward runs, from an engine whose positions
    inherit from [Object.prototype] alone. *)
Theorem delegations_add_up (w : Watcher.t) (cs : list WatcherCalls.call) :
  stakersParent w = None ->
  delegation_consistent w ->
  fresh_ids (JS.keys (activeStakers w)) cs ->
  delegation_consistent (WatcherCalls.run w cs).
Proof.
  intros Hpar Hcons Hfresh.
  apply (run_delegation cs w (JS.keys (activeStakers w)));
    [exact Hpar | exact Hcons | apply incl_refl | exact Hfresh].
Qed.

(** Both conditions are needed beside the one on repeated ids: a position
    created under [__proto__] is credited to its provider and stored
    under no key. *)
Lemma delegations_need_ordinary_ids :
  ~ delegation_consistent
      (WatcherCalls.run constructor
         [CreateStakingPosition Scenario.t0 (Scenario.mockTx "__proto__" 500)
                                "fp1"]).
Proof.
  intros H. destruct (H "fp1" _ ltac:(vm_compute; reflexivity)) as (Ht & _).
  vm_compute in Ht. discriminate Ht.
Qed.

Lemma scenarioD_delegation : delegation_consistent Scenario.scenarioD.
Proof.
  intros k fp Hk.
  apply get_In in Hk. vm_compute in Hk.
  destruct Hk as [Hk|[Hk|[Hk|[]]]]; injection Hk as <- <-;
    split; vm_compute; reflexivity.
Qed.

Lemma delegations_add_up_witness :
  delegation_consistent (WatcherCalls.run Scenario.scenarioD Stakes.calls)
  /\ option_map totalDelegated
       (JS.get (finalityProviders
                  (WatcherCalls.run Scenario.scenarioD Stakes.calls)) "fp1")
     = Some 97500000.
Proof.
  split.
  - apply delegations_add_up.
    + reflexivity.
    + apply scenarioD_delegation.
    + change (JS.keys (activeStakers Scenario.scenarioD))
        with ["slashing_test_1"].
      cbn. split; [| split; [discriminate | exact I]].
      intros [H|[]]. discriminate H.
  - vm_compute. reflexivity.
Defined.

(** ** Epochs and statistics *)

Lemma updateNetworkStats_epoch w :
  ns_currentEpoch (networkStats (fst (updateNetworkStats w)))
  = ns_currentEpoch (networkStats w)
  /\ lastEpochBlock (networkStats (fst (updateNetworkStats w)))
     = lastEpochBlock (networkStats w).
Proof.
  unfold updateNetworkStats.
  destruct (stakers_loop_throws w); [split; reflexivity |].
  destruct (sumActive (activeStakers w) 0 0). cbn. split; reflexivity.
Qed.

Lemma updateEpoch_epoch rnd w :
  currentEpoch (fst (updateEpoch rnd w)) = currentEpoch w + 1
  /\ ns_currentEpoch (networkStats (fst (updateEpoch rnd w))) = currentEpoch w + 1
  /\ lastEpochBlock (networkStats (fst (updateEpoch rnd w)))
     = lastEpochBlock (networkStats w).
Proof.
  split; [apply updateEpoch_fields |].
  unfold updateEpoch, updateProviderPerformance.
  destruct (providers_loop_throws _); [cbn; split; reflexivity |].
  match goal with
  | |- context [updateNetworkStats ?x] =>
      destruct (updateNetworkStats_epoch x) as (-> & ->)
  end.
  cbn. split; reflexivity.
Qed.

Lemma executeSlashing_epoch nowMs draw fpId reason w :
  ns_currentEpoch (networkStats (fst (executeSlashing nowMs draw fpId reason w)))
  = ns_currentEpoch (networkStats w).
Proof.
  unfold executeSlashing.
  destruct (JS.read (finalityProviders w) fpId) as [fp| |];
    try (destruct (slashLoop _ _ _ _ _ _ _) as [stakers t]);
    try (destruct (stakers_loop_throws w));
    try (destruct (String.eqb fpId "__proto__"));
    reflexivity.
Qed.

Lemma step_epoch w c :
  currentEpoch (WatcherCalls.step w c)
  = currentEpoch w + (if is_epoch c then 1 else 0)
  /\ (ns_currentEpoch (networkStats w) = currentEpoch w ->
      ns_currentEpoch (networkStats (WatcherCalls.step w c))
      = currentEpoch (WatcherCalls.step w c)).
Proof.
  destruct c as [[nowMs draw fpId reason|rnd|nowMs]|nowMs tx fpId];
    cbn [WatcherCalls.step Watcher.step is_epoch].
  - rewrite executeSlashing_epoch.
    destruct (executeSlashing_fields nowMs draw fpId reason w)
      as (_ & _ & _ & ->). split; [lia | auto].
  - destruct (updateEpoch_epoch rnd w) as (-> & -> & _). split; [lia | auto].
  - destruct (distributeStakingRewards_known nowMs w)
      as (_ & _ & _ & -> & ->). split; [lia | auto].
  - destruct (vout tx) as [|out outs] eqn:Hv.
    + unfold createStakingPosition. rewrite Hv. split; [lia | auto].
    + destruct (createStakingPosition_known nowMs tx fpId w out outs Hv)
        as (p & w' & -> & _ & _ & _ & -> & ->). split; [lia | auto].
Qed.

(** X18. The epoch counter counts the epoch updates: after any sequence of
    calls [currentEpoch] is what it was plus the number of [updateEpoch]
    calls among them, no other call moves it, and the copy kept in
    [networkStats.currentEpoch] stays equal to it. *)
Theorem epoch_counts_updates (w : Watcher.t) (cs : list WatcherCalls.call) :
  ns_currentEpoch (networkStats w) = currentEpoch w ->
  currentEpoch (WatcherCalls.run w cs)
  = currentEpoch w + Z.of_nat (length (List.filter is_epoch cs))
  /\ ns_currentEpoch (networkStats (WatcherCalls.run w cs))
     = currentEpoch (WatcherCalls.run w cs).
Proof.
  revert w. unfold WatcherCalls.run.
  induction cs as [|c cs IH]; intros w Hsync; cbn [fold_left List.filter].
  - cbn. split; [lia | exact Hsync].
  - destruct (step_epoch w c) as (Hstep & Hs).
    destruct (IH _ (Hs Hsync)) as (Hrun & Hsync').
    split; [| exact Hsync'].
    rewrite Hrun, Hstep. destruct (is_epoch c); cbn [length]; lia.
Qed.

Lemma epoch_counts_updates_witness :
  currentEpoch (WatcherCalls.run constructor Stakes.calls) = 1 + 1
  /\ ns_currentEpoch (networkStats (WatcherCalls.run constructor Stakes.calls))
     = currentEpoch (WatcherCalls.run constructor Stakes.calls).
Proof.
  destruct (epoch_counts_updates constructor Stakes.calls eq_refl) as (Hc & Hs).
  split; [exact Hc | exact Hs].
Defined.

Lemma fold_left_amounts (l : list StakingPosition) (a : Z) :
  fold_left (fun sum p => sum + amount p) l a = a + Spec.sum_Z (map amount l).
Proof.
  unfold Spec.sum_Z.
  revert a. induction l as [|p l IH]; intros a; cbn [fold_left fold_right map];
    [lia |].
  rewrite IH. lia.
Qed.

(** X19. Right after the statistics are recomputed the two views that
    [getStats] returns agree: the total and the number of active positions
    it computes itself are [networkStats.totalStaked] and
    [networkStats.totalDelegators]. After [updateEpoch] the epoch it
    reports is the one in the network statistics as well. (The recompute
    and the epoch update are ones whose loops do not throw.) *)
Theorem stats_views_agree (rnd : nat -> Q) (w : Watcher.t) :
  stakers_loop_throws w = false ->
  (let s := getStats (fst (updateNetworkStats w)) in
   totalActiveStake (stakingStats s) = totalStaked (st_networkStats s)
   /\ totalActivePositions (stakingStats s) = totalDelegators (st_networkStats s))
  /\ (providers_loop_throws w = false ->
      let s := getStats (fst (updateEpoch rnd w)) in
      totalActiveStake (stakingStats s) = totalStaked (st_networkStats s)
      /\ totalActivePositions (stakingStats s)
         = totalDelegators (st_networkStats s)
      /\ st_currentEpoch s = ns_currentEpoch (st_networkStats s)).
Proof.
  intros Hloop.
  assert (Hviews : forall w0,
             stakers_loop_throws w0 = false ->
             let s := getStats (fst (updateNetworkStats w0)) in
             totalActiveStake (stakingStats s) = totalStaked (st_networkStats s)
             /\ totalActivePositions (stakingStats s)
                = totalDelegators (st_networkStats s)).
  { intros w0 H0. unfold getStats.
    destruct (updateNetworkStats_fields w0) as (_ & -> & _).
    cbn [stakingStats st_networkStats totalActiveStake totalActivePositions].
    rewrite fold_left_amounts.
    unfold updateNetworkStats. rewrite H0, sumActive_spec.
    cbn [fst networkStats with_networkStats totalStaked totalDelegators].
    split; lia. }
  split; [apply Hviews, Hloop |].
  intros Hp.
  destruct (updateEpoch_epoch rnd w) as (Hc & Hn & _).
  assert (Hun : fst (updateEpoch rnd w)
                = fst (updateNetworkStats
                         (with_finalityProviders
                            (with_networkStats
                               (with_currentEpoch w (currentEpoch w + 1))
                               (ns_with_currentEpoch (networkStats w)
                                                     (currentEpoch w + 1)))
                            (updateProviders rnd 0 (finalityProviders w))))).
  { unfold updateEpoch, updateProviderPerformance.
    unfold providers_loop_throws in *.
    cbn [finalityProviders objectPrototype with_networkStats with_currentEpoch].
    now rewrite Hp. }
  cbn zeta. split; [| split].
  - rewrite Hun. apply Hviews. exact Hloop.
  - rewrite Hun. apply Hviews. exact Hloop.
  - unfold getStats. cbn [st_currentEpoch st_networkStats]. congruence.
Qed.

Lemma stats_views_agree_witness :
  totalActiveStake
    (stakingStats (getStats (fst (updateNetworkStats Scenario.scenarioD))))
  = 100000000.
Proof.
  destruct (stats_views_agree (fun _ => 0%Q) Scenario.scenarioD eq_refl)
    as ((Hs & _) & _).
  cbn zeta in Hs. rewrite Hs. vm_compute. reflexivity.
Defined.

(** ** Voting power *)

Lemma Qfloor_mono (x y : Q) : (x <= y)%Q -> Qfloor x <= Qfloor y.
Proof. apply Qfloor_resp_le. Qed.

(** X20. A position's voting power never exceeds the basic voting power of
    its amount, for a provider whose reputation and uptime are within their
    bounds; it is never negative for an amount that is not, and it grows
    with the amount. *)
Theorem voting_power_bounds (a b : Z) (fp : FinalityProvider) :
  Invariants.performance_bounded fp ->
  0 <= a <= b ->
  exists va vb,
    calculateVotingPower a (JS.Own fp) = Some va
    /\ calculateVotingPower b (JS.Own fp) = Some vb
    /\ 0 <= va
    /\ va <= calculateVotingPowerBasic a
    /\ va <= vb.
Proof.
  intros ((Hr1 & Hr2) & (Hu1 & Hu2)) (Ha & Hab).
  eexists _, _. split; [reflexivity |]. split; [reflexivity |].
  unfold calculateVotingPowerBasic, JS.Math_floor, JS.mul, JS.div, JS.lit.
  assert (Hqa : (0 <= inject_Z a)%Q) by (now apply inject_Z_nonneg).
  assert (Hqab : (inject_Z a <= inject_Z b)%Q)
    by (rewrite <- Zle_Qle; exact Hab).
  set (x := Double.round64 (inject_Z a / 100000000)).
  set (y := Double.round64 (inject_Z b / 100000000)).
  set (r := Double.round64 (reputation fp / 100)).
  set (u := Double.round64 (uptime fp / 100)).
  assert (Hx0 : (0 <= x)%Q).
  { apply round64_nonneg. apply Qle_shift_div_l; [reflexivity | lra]. }
  assert (Hxy : (x <= y)%Q).
  { apply round64_mono. apply Qmult_le_compat_r; [exact Hqab |].
    discriminate. }
  assert (Hxx : (Double.round64 x == x)%Q) by apply round64_idem.
  assert (Hr : (0 <= r <= 1)%Q).
  { split.
    - apply round64_nonneg. apply Qle_shift_div_l; [reflexivity | lra].
    - apply (round64_le_int _ 1); [simpl; lia |].
      apply Qle_shift_div_r; [reflexivity |]. change (inject_Z 1) with 1%Q. lra. }
  assert (Hu : (0 <= u <= 1)%Q).
  { split.
    - apply round64_nonneg. apply Qle_shift_div_l; [reflexivity | lra].
    - apply (round64_le_int _ 1); [simpl; lia |].
      apply Qle_shift_div_r; [reflexivity |]. change (inject_Z 1) with 1%Q. lra. }
  assert (Hshare : forall z m : Q,
             (0 <= z)%Q -> (0 <= m <= 1)%Q ->
             (0 <= z * m)%Q /\ (z * m <= z)%Q).
  { intros z m Hz [Hm0 Hm1]. split; [apply Qmult_le_0_compat; assumption |].
    assert (0 <= z * (1 - m))%Q by (apply Qmult_le_0_compat; lra). lra. }
  assert (Hone : (Double.round64 1.0 == 1)%Q) by (vm_compute; reflexivity).
  set (xr := Double.round64 (x * r)).
  set (yr := Double.round64 (y * r)).
  assert (Hxr : (0 <= xr)%Q /\ (xr <= x)%Q /\ (xr <= yr)%Q).
  { destruct (Hshare x r Hx0 Hr) as [H0 H1]. split; [| split].
    - apply round64_nonneg, H0.
    - rewrite <- Hxx. apply round64_mono, H1.
    - apply round64_mono. apply Qmult_le_compat_r; [exact Hxy | apply Hr]. }
  destruct Hxr as (Hxr0 & Hxr1 & Hxr2).
  set (xu := Double.round64 (xr * u)).
  set (yu := Double.round64 (yr * u)).
  assert (Hxu : (0 <= xu)%Q /\ (xu <= x)%Q /\ (xu <= yu)%Q).
  { destruct (Hshare xr u Hxr0 Hu) as [H0 H1]. split; [| split].
    - apply round64_nonneg, H0.
    - rewrite <- Hxx. apply round64_mono. lra.
    - apply round64_mono. apply Qmult_le_compat_r; [exact Hxr2 | apply Hu]. }
  destruct Hxu as (Hxu0 & Hxu1 & Hxu2).
  assert (Hx1 : (Double.round64 (x * Double.round64 1.0) == x)%Q).
  { rewrite (round64_comp _ x) by (rewrite Hone; ring). exact Hxx. }
  split; [| split].
  - change 0 with (Qfloor 0). apply Qfloor_mono.
    apply round64_nonneg. apply Qmult_le_0_compat; [exact Hxu0 | discriminate].
  - apply Qfloor_mono. apply round64_mono.
    apply Qmult_le_compat_r; [| discriminate].
    rewrite Hx1. exact Hxu1.
  - apply Qfloor_mono. apply round64_mono.
    apply Qmult_le_compat_r; [exact Hxu2 | discriminate].
Qed.

Lemma voting_power_bounds_witness :
  exists fp v,
    JS.get (finalityProviders constructor) "fp1" = Some fp
    /\ calculateVotingPower 100000000 (JS.Own fp) = Some v
    /\ v <= calculateVotingPowerBasic 100000000.
Proof.
  assert (Hfp : exists fp,
             JS.get (finalityProviders constructor) "fp1" = Some fp
             /\ Invariants.performance_bounded fp).
  { eexists. split; [vm_compute; reflexivity |].
    split; split; vm_compute; discriminate. }
  destruct Hfp as (fp & Hget & Hb).
  destruct (voting_power_bounds 100000000 100000000 fp Hb ltac:(lia))
    as (va & vb & Ha & _ & _ & Hle & _).
  exists fp, va. split; [exact Hget | split; [exact Ha | exact Hle]].
Defined.

End StakeFacts.

(* ===================================================================== *)
(** * The relay controller: the path to a mint and the delays *)
(* ===================================================================== *)

Section RelayFacts.
Import Trigger Relay.
Context {W : Type} `{LedgerClient W}.

Ltac controller :=
  unfold exec, processBabylonDeposit, validateDepositBeforeProcessing,
    try_catch, bind, emit, ask, act, update, throw_if, throw, ret.

Ltac to_props :=
  repeat match goal with
         | H : (_ || _) = false |- _ => apply orb_false_iff in H; destruct H
         | H : negb _ = false |- _ => apply negb_false_iff in H
         | H : negb _ = true |- _ => apply negb_true_iff in H
         | H : String.eqb _ _ = false |- _ => apply String.eqb_neq in H
         | H : String.eqb _ _ = true |- _ => apply String.eqb_eq in H
         | H : (_ =? _) = true |- _ => apply Z.eqb_eq in H
         | H : (_ =? _) = false |- _ => apply Z.eqb_neq in H
         | H : (_ <=? _) = true |- _ => apply Z.leb_le in H
         | H : (_ <=? _) = false |- _ => apply Z.leb_gt in H
         | H : (_ <? _) = true |- _ => apply Z.ltb_lt in H
         | H : (_ <? _) = false |- _ => apply Z.ltb_ge in H
         end.

Ltac no_mint :=
  let w1 := fresh "w1" in
  let r := fresh "r" in
  let Hr := fresh "Hr" in
  let Hne := fresh "Hne" in
  intros w1 r Hr Hne;
  try (injection Hr as <- <-);
  first [ split; [first [left; reflexivity | right; reflexivity] | reflexivity]
        | exfalso; apply Hne; to_props; subst; reflexivity ].

Ltac rejected :=
  eexists _, _, _; split; [rewrite <- ?app_assoc; reflexivity |];
  split;
  [ first [ exists 0%nat; reflexivity | exists 1%nat; reflexivity
          | exists 2%nat; reflexivity | exists 3%nat; reflexivity
          | exists 4%nat; reflexivity | exists 5%nat; reflexivity
          | exists 6%nat; reflexivity | exists 7%nat; reflexivity ]
  | split; [intros Hs; discriminate Hs |];
    split; [intros _; discriminate | no_mint] ].

(** One run of [processBabylonDeposit]: it never raises, its events are
    the first ones of the happy path, and it reports success only at the
    end of that path. When the register transaction does not come back
    with status 1 no mint is sent, and the world is as the register
    transaction left it. *)
Lemma process_shape (d : Deposit) (w : W) (tr : list event) :
  exists w' tr' o,
    processBabylonDeposit d (w, tr) = ((w', (tr ++ tr')%list), inr o)
    /\ (exists n, tr' = firstn n (happy_path d))
    /\ (success o = true ->
        tr' = happy_path d
        /\ paramsAccepted (clock w) d
        /\ notYetProcessed d w
        /\ isFinalityProviderAuthorized (finalityProvider d) w = true
        /\ minBalance <= getBalance w
        /\ exists w1,
            registerTx d w = (w1, inr 1)
            /\ mintTx (btcTxHash d) w1 = (w', inr 1))
    /\ (success o = false -> error o <> None)
    /\ (forall w1 r,
           registerTx d w = (w1, r) -> r <> inr 1 ->
           (w' = w \/ w' = w1) /\ count is_mint tr' = 0%nat).
Proof.
  controller. cbn beta iota.
  destruct (negb (validDate (unlockTime d * 1000))) eqn:Hdate.
  { exists w, []. eexists. rewrite app_nil_r. split; [reflexivity |].
    split; [exists 0%nat; reflexivity |].
    split; [intros Hs; discriminate Hs |].
    split; [intros _; discriminate | no_mint]. }
  repeat match goal with
         | |- context [if ?b then _ else _] => destruct b eqn:?
         end.
  all: try rejected.
  assert (Hacc : paramsAccepted (clock w) d).
  { match goal with
    | Hh : negb (isRealHash _) && _ = false |- _ => apply hash_accepted in Hh
    end.
    to_props. repeat split; try assumption; lia. }
  assert (Hnyp : notYetProcessed d w).
  { unfold notYetProcessed. assumption. }
  destruct (registerTx d w) as [w1 [m1|st1]] eqn:Hreg; cbn beta iota;
    [rejected |].
  destruct (negb (st1 =? 1)) eqn:Hst1; cbn beta iota.
  { eexists _, _, _. split; [rewrite <- ?app_assoc; reflexivity |].
    split; [exists 5%nat; reflexivity |].
    split; [intros Hs; discriminate Hs |].
    split; [intros _; discriminate |].
    intros w1' r' Hr' Hne'. injection Hr' as <- <-.
    split; [right; reflexivity | reflexivity]. }
  assert (Hone : st1 = 1) by (to_props; assumption). subst st1.
  destruct (mintTx (btcTxHash d) w1) as [w2 [m2|st2]] eqn:Hmint; cbn beta iota.
  { eexists _, _, _. split; [rewrite <- ?app_assoc; reflexivity |].
    split; [exists 6%nat; reflexivity |].
    split; [intros Hs; discriminate Hs |].
    split; [intros _; discriminate |].
    intros w1' r' Hr' Hne'. injection Hr' as <- <-. congruence. }
  destruct (negb (st2 =? 1)) eqn:Hst2; cbn beta iota.
  { eexists _, _, _. split; [rewrite <- ?app_assoc; reflexivity |].
    split; [exists 6%nat; reflexivity |].
    split; [intros Hs; discriminate Hs |].
    split; [intros _; discriminate |].
    intros w1' r' Hr' Hne'. injection Hr' as <- <-. congruence. }
  eexists _, _, _. split; [rewrite <- ?app_assoc; reflexivity |].
  split; [exists 7%nat; reflexivity |].
  split; [| split; [intros Hs; discriminate Hs |]].
  - intros _. to_props. subst st2.
    split; [reflexivity |]. split; [exact Hacc |]. split; [exact Hnyp |].
    split; [assumption |]. split; [lia |].
    exists w1. split; [reflexivity | exact Hmint].
  - intros w1' r' Hr' Hne'. injection Hr' as <- <-. congruence.
Qed.

(** X21. [processBabylonDeposit] reports success only at the end of one
    path: the deposit was not yet processed, its parameters passed the
    local checks, its provider was authorized and the relayer's balance was
    at least 0.005 ETH; the queries, the register transaction and the mint
    transaction were made once each, in that order, and both receipts had
    status 1. *)
Theorem success_follows_happy_path (d : Deposit) (w w' : W)
    (tr : list event) (o : Outcome) :
  exec (processBabylonDeposit d) w = ((w', tr), inr o) ->
  success o = true ->
  tr = happy_path d
  /\ paramsAccepted (clock w) d
  /\ notYetProcessed d w
  /\ isFinalityProviderAuthorized (finalityProvider d) w = true
  /\ minBalance <= getBalance w
  /\ exists w1,
      registerTx d w = (w1, inr 1) /\ mintTx (btcTxHash d) w1 = (w', inr 1).
Proof.
  intros Hexec Hs.
  destruct (process_shape d w []) as (w0 & tr0 & o0 & Hp & _ & Hok & _).
  unfold exec in Hexec. rewrite Hp in Hexec. cbn [app] in Hexec.
  injection Hexec as -> -> ->. exact (Hok Hs).
Qed.

Lemma delays_app tr1 tr2 : delays (tr1 ++ tr2) = (delays tr1 ++ delays tr2)%list.
Proof. unfold delays. apply flat_map_app. Qed.

Lemma delays_happy_prefix n d : delays (firstn n (happy_path d)) = [].
Proof. do 8 (destruct n as [|n]; [reflexivity |]). reflexivity. Qed.

Lemma backoff_bounds attempt :
  1 <= attempt -> 1000 <= backoff attempt <= 10000.
Proof.
  intros Ha. unfold backoff.
  assert (0 < 2 ^ (attempt - 1)) by (apply Z.pow_pos_nonneg; lia).
  lia.
Qed.

Lemma schedule_bounds n attempt :
  1 <= attempt -> Forall (fun ms => 1000 <= ms <= 10000) (schedule n attempt).
Proof.
  revert attempt. induction n as [|n IH]; intros attempt Ha; cbn [schedule].
  - constructor.
  - constructor; [now apply backoff_bounds | apply IH; lia].
Qed.

(** The loop with [remaining] iterations left, attempt [attempt] being the
    next: the delays it makes. *)
Lemma retryLoop_delays (remaining : nat) :
  forall attempt maxRetries d lastError (w : W) tr,
    attempt + Z.of_nat remaining = maxRetries + 1 ->
    remaining <> 0%nat \/ lastError <> None ->
    exists w' tr' o,
      retryLoop remaining attempt maxRetries d lastError (w, tr)
      = ((w', (tr ++ tr')%list), inr o)
      /\ (success o = false -> delays tr' = schedule (pred remaining) attempt)
      /\ (success o = true ->
          exists k, (k < remaining)%nat /\ delays tr' = schedule k attempt).
Proof.
  induction remaining as [|k IH];
    intros attempt maxRetries d lastError w tr Hsum Hne.
  - destruct lastError as [msg|]; [| destruct Hne; congruence].
    exists w, []. eexists. rewrite app_nil_r.
    split; [reflexivity |]. split; [reflexivity |].
    intros Hs. discriminate Hs.
  - cbn [retryLoop]. unfold bind at 1. unfold emit at 1. unfold bind at 1.
    destruct (process_shape d w (tr ++ [ProcessingAttempt attempt]))
      as (w1 & tr1 & o1 & Hp & (n1 & Hpre) & _).
    rewrite Hp.
    assert (Hd1 : delays tr1 = []) by (rewrite Hpre; apply delays_happy_prefix).
    destruct (success o1) eqn:Hs1.
    + exists w1, (ProcessingAttempt attempt :: tr1), o1.
      unfold ret. rewrite <- app_assoc. split; [reflexivity |].
      split; [congruence |].
      intros _. exists 0%nat. split; [lia |].
      change (ProcessingAttempt attempt :: tr1)
        with ([ProcessingAttempt attempt] ++ tr1)%list.
      rewrite delays_app, Hd1. reflexivity.
    + unfold bind at 1.
      set (msg := default "" (error o1)).
      destruct k as [|k].
      * replace (attempt <? maxRetries) with false
          by (symmetry; apply Z.ltb_ge; lia).
        unfold ret at 1. cbn [retryLoop]. unfold ret.
        eexists w1, ([ProcessingAttempt attempt] ++ tr1)%list, _.
        rewrite <- app_assoc. split; [reflexivity |].
        split; [| intros Hs; discriminate Hs].
        intros _. rewrite delays_app, Hd1. reflexivity.
      * replace (attempt <? maxRetries) with true
          by (symmetry; apply Z.ltb_lt; lia).
        unfold bind at 1. unfold emit at 1. unfold update at 1.
        destruct (IH (attempt + 1) maxRetries d (Some msg)
                    (sleep (Z.min (1000 * 2 ^ (attempt - 1)) 10000) w1)
                    (((tr ++ [ProcessingAttempt attempt]) ++ tr1)
                     ++ [Sleep (Z.min (1000 * 2 ^ (attempt - 1)) 10000)])%list)
          as (w3 & tr3 & o3 & Hloop & Hfail & Hok);
          [lia | right; discriminate |].
        rewrite Hloop.
        exists w3,
          ([ProcessingAttempt attempt] ++ tr1
           ++ [Sleep (Z.min (1000 * 2 ^ (attempt - 1)) 10000)] ++ tr3)%list,
          o3.
        split; [now rewrite <- !app_assoc |].
        rewrite !delays_app, Hd1. cbn [delays flat_map app].
        split.
        -- intros Hf. rewrite (Hfail Hf). reflexivity.
        -- intros Hs. destruct (Hok Hs) as (j & Hj & Hdj).
           exists (S j). split; [lia |]. rewrite Hdj. reflexivity.
Qed.

(** X22. The delays of the retry loop: after a failed attempt that is not
    the last the loop waits one second doubled with every attempt, ten
    seconds at most, and it does not wait after the last one; a run that
    fails has waited after each attempt but the last. With no attempt
    allowed the loop has no error to report and raises a TypeError. *)
Theorem retry_backoff (d : Deposit) (w : W) :
  exec (processBabylonDepositWithRetry d 0) w
  = ((w, []), inl "Cannot read properties of null (reading 'message')")
  /\ forall n,
      exists w' tr o,
        exec (processBabylonDepositWithRetry d (S n)) w = ((w', tr), inr o)
        /\ (success o = false -> delays tr = schedule n 1)
        /\ (success o = true ->
            exists k, (k <= n)%nat /\ delays tr = schedule k 1)
        /\ Forall (fun ms => 1000 <= ms <= 10000) (delays tr).
Proof.
  split; [reflexivity |].
  intros n.
  destruct (retryLoop_delays (S n) 1 (Z.of_nat (S n)) d None w [])
    as (w' & tr & o & Hloop & Hfail & Hok); [lia | left; discriminate |].
  exists w', tr, o. split; [exact Hloop |].
  split; [exact Hfail |].
  split.
  - intros Hs. destruct (Hok Hs) as (k & Hk & Hd).
    exists k. split; [lia | exact Hd].
  - destruct (success o) eqn:Hs.
    + destruct (Hok eq_refl) as (k & _ & ->). apply schedule_bounds. lia.
    + rewrite (Hfail eq_refl). apply schedule_bounds. lia.
Qed.

End RelayFacts.

(* ===================================================================== *)
(** * The relay controller in front of the contracts *)
(* ===================================================================== *)

Section RelayOnVault.
Import Trigger Relay.

Ltac on_vault :=
  unfold exec, processBabylonDeposit, validateDepositBeforeProcessing,
    try_catch, bind, emit, ask, act, update, throw_if, throw, ret.

Lemma vault_send_inv gas tx (w w1 : VaultWorld) (r : string + Z) :
  vault_send gas tx w = (w1, r) ->
  match r with
  | inl _ => chain w1 = chain w
  | inr st =>
      st = 1
      /\ gasLimit * gasPrice w <= ethBalance w
      /\ gas <= gasLimit
      /\ exists c, tx (vault_context w) (chain w) = inr c /\ w1 = mined w gas c
  end.
Proof.
  unfold vault_send. intros H.
  destruct (ethBalance w <? gasLimit * gasPrice w) eqn:Hb.
  { injection H as <- <-. reflexivity. }
  destruct (gasLimit <? gas) eqn:Hg.
  { injection H as <- <-. reflexivity. }
  destruct (tx (vault_context w) (chain w)) as [e|c] eqn:Htx.
  { injection H as <- <-. reflexivity. }
  injection H as <- <-.
  apply Z.ltb_ge in Hb. apply Z.ltb_ge in Hg.
  split; [reflexivity |]. split; [exact Hb |]. split; [exact Hg |].
  exists c. split; reflexivity.
Qed.

Lemma registered_register_fails (d : Deposit) (w : VaultWorld) :
  Vault.timestamp (Vault.getDeposit (chain w) (btcTxHash d)) <> 0 ->
  exists w1 msg, vault_registerTx d w = (w1, inl msg) /\ chain w1 = chain w.
Proof.
  intros Hts. unfold vault_registerTx.
  destruct (parse_address (checksummed w) (userAddress d)) as [usr|];
    [| eauto].
  destruct (register_duplicate_fails (chain w) (vault_context w) (btcTxHash d)
              usr (amount d) (unlockTime d) (finalityProvider d) Hts)
    as (e & He).
  unfold vault_send.
  destruct (ethBalance w <? gasLimit * gasPrice w); [eauto |].
  destruct (gasLimit <? registerGas w); [eexists _, _; split; reflexivity |].
  rewrite He. eexists _, _; split; reflexivity.
Qed.

Lemma process_registered (d : Deposit) (w : VaultWorld) (tr : list event) :
  Vault.timestamp (Vault.getDeposit (chain w) (btcTxHash d)) <> 0 ->
  exists w' tr' o,
    processBabylonDeposit d (w, tr) = ((w', (tr ++ tr')%list), inr o)
    /\ success o = false
    /\ chain w' = chain w
    /\ count is_mint tr' = 0%nat.
Proof.
  intros Hts.
  destruct (registered_register_fails d w Hts) as (w1 & msg & Hreg & Hc1).
  destruct (process_shape d w tr) as (w' & tr' & o & Hp & _ & Hok & _ & Hno).
  destruct (Hno w1 (inl msg) Hreg) as (Hw & Hm); [discriminate |].
  exists w', tr', o. split; [exact Hp |].
  split; [| split; [destruct Hw; subst w'; [reflexivity | exact Hc1]
                   | exact Hm]].
  destruct (success o) eqn:Hs; [| reflexivity].
  destruct (Hok eq_refl) as (_ & _ & _ & _ & _ & w2 & Hreg' & _).
  cbn [registerTx vault_client] in Hreg'. congruence.
Qed.

Lemma retry_registered (remaining : nat) :
  forall attempt maxRetries d lastError (w : VaultWorld) tr,
    Vault.timestamp (Vault.getDeposit (chain w) (btcTxHash d)) <> 0 ->
    remaining <> 0%nat \/ lastError <> None ->
    exists w' tr' o,
      retryLoop remaining attempt maxRetries d lastError (w, tr)
      = ((w', (tr ++ tr')%list), inr o)
      /\ success o = false
      /\ chain w' = chain w
      /\ count is_mint tr' = 0%nat.
Proof.
  induction remaining as [|k IH];
    intros attempt maxRetries d lastError w tr Hts Hne.
  - destruct lastError as [msg|]; [| destruct Hne; congruence].
    exists w, []. eexists. rewrite app_nil_r.
    split; [reflexivity |]. repeat split.
  - cbn [retryLoop]. unfold bind at 1. unfold emit at 1. unfold bind at 1.
    destruct (process_registered d w (tr ++ [ProcessingAttempt attempt]) Hts)
      as (w1 & tr1 & o1 & Hp & Hs1 & Hc1 & Hm1).
    rewrite Hp, Hs1. unfold bind at 1.
    set (msg := default "" (error o1)).
    assert (Hsleep :
              exists w2 tr2,
                (if attempt <? maxRetries
                 then bind (emit (Sleep (Z.min (1000 * 2 ^ (attempt - 1)) 10000)))
                           (fun _ => update
                              (sleep (Z.min (1000 * 2 ^ (attempt - 1)) 10000)))
                 else ret tt)
                  (w1, ((tr ++ [ProcessingAttempt attempt]) ++ tr1)%list)
                = ((w2, (((tr ++ [ProcessingAttempt attempt]) ++ tr1)
                         ++ tr2)%list), inr tt)
                /\ chain w2 = chain w1
                /\ count is_mint tr2 = 0%nat).
    { destruct (attempt <? maxRetries).
      - eexists _, [Sleep _]. split; [reflexivity | repeat split].
      - exists w1, []. rewrite app_nil_r.
        split; [reflexivity | repeat split]. }
    destruct Hsleep as (w2 & tr2 & Hsl & Hc2 & Hm2).
    rewrite Hsl.
    destruct (IH (attempt + 1) maxRetries d (Some msg) w2
                (((tr ++ [ProcessingAttempt attempt]) ++ tr1) ++ tr2)%list)
      as (w3 & tr3 & o3 & Hloop & Hs3 & Hc3 & Hm3);
      [now rewrite Hc2, Hc1 | right; discriminate |].
    rewrite Hloop.
    exists w3, ([ProcessingAttempt attempt] ++ tr1 ++ tr2 ++ tr3)%list, o3.
    split; [now rewrite <- !app_assoc |].
    split; [exact Hs3 |]. split; [congruence |].
    rewrite !count_app, Hm1, Hm2, Hm3. reflexivity.
Qed.

(** X23. The relayer cannot finish what it left half done. Once the vault
    holds a deposit for a transaction hash (registered, minted or not),
    every run of the retry loop for that hash fails, sends no mint and
    leaves the contracts as they are: a deposit whose register transaction
    went through and whose mint did not is registered again at every
    attempt, which the vault refuses, and is never minted. *)
Theorem registered_deposit_is_stuck (d : Deposit) (w : VaultWorld)
    (maxRetries : nat) :
  Vault.timestamp (Vault.getDeposit (chain w) (btcTxHash d)) <> 0 ->
  (0 < maxRetries)%nat ->
  exists w' tr o,
    exec (processBabylonDepositWithRetry d maxRetries) w = ((w', tr), inr o)
    /\ success o = false
    /\ chain w' = chain w
    /\ count is_mint tr = 0%nat.
Proof.
  intros Hts Hpos.
  destruct (retry_registered maxRetries 1 (Z.of_nat maxRetries) d None w []
              Hts) as (w' & tr & o & Hloop & Hs & Hc & Hm); [left; lia |].
  exists w', tr, o. repeat split; assumption.
Qed.

Lemma registered_deposit_is_stuck_witness :
  exists w' tr o,
    exec (processBabylonDepositWithRetry Scenario.deposit 3)
         Scenario.registeredWorld = ((w', tr), inr o)
    /\ success o = false
    /\ chain w' = chain Scenario.registeredWorld
    /\ count is_mint tr = 0%nat.
Proof.
  apply registered_deposit_is_stuck.
  - vm_compute. discriminate.
  - lia.
Defined.

(** X24. What a successful relay has done to the contracts: the register
    call and then the mint call returned, the second in the block after the
    first, the deposit stored under the transaction hash is processed and
    belongs to the address the user string denotes, and that address holds
    [amount * 10^10] more token units than before. *)
Theorem relayed_deposit_is_minted (d : Deposit) (w w' : VaultWorld)
    (tr : list event) (o : Outcome) :
  exec (processBabylonDeposit d) w = ((w', tr), inr o) ->
  success o = true ->
  exists usr c1,
    parse_address (checksummed w) (userAddress d) = Some usr
    /\ Vault.registerBabylonDeposit (vault_context w) (chain w) (btcTxHash d)
         usr (amount d) (unlockTime d) (finalityProvider d) = inr c1
    /\ Vault.mintStBTC (vault_context (mined w (registerGas w) c1)) c1
         (btcTxHash d) = inr (chain w')
    /\ Vault.processed (Vault.getDeposit (chain w') (btcTxHash d)) = true
    /\ Vault.user (Vault.getDeposit (chain w') (btcTxHash d)) = usr
    /\ Vault.balanceOf (Vault.stBTC (chain w')) usr
       = Vault.balanceOf (Vault.stBTC (chain w)) usr + amount d * 10 ^ 10.
Proof.
  intros Hexec Hs.
  destruct (process_shape d w []) as (w0 & tr0 & o0 & Hp & _ & Hok & _).
  unfold exec in Hexec. rewrite Hp in Hexec. cbn [app] in Hexec.
  injection Hexec as -> -> ->.
  destruct (Hok Hs) as (_ & _ & _ & _ & _ & w1 & Hreg & Hmint).
  cbn [registerTx mintTx vault_client] in Hreg, Hmint.
  unfold vault_registerTx in Hreg.
  destruct (parse_address (checksummed w) (userAddress d)) as [usr|];
    [| discriminate Hreg].
  apply vault_send_inv in Hreg as (_ & _ & _ & c1 & Hr & ->).
  unfold vault_mintTx in Hmint.
  apply vault_send_inv in Hmint as (_ & _ & _ & c2 & Hm & ->).
  cbn [chain mined] in Hm |- *.
  exists usr, c1. split; [reflexivity |]. split; [exact Hr |].
  split; [exact Hm |].
  apply register_inv in Hr as (_ & _ & _ & _ & _ & _ & _ & ->).
  apply mint_inv in Hm as (_ & _ & _ & _ & _ & token & Hmint & Hc2).
  rewrite !getDeposit_store in Hmint.
  cbn [Vault.user Vault.amount Vault.stBTC Vault.store_deposit] in Hmint.
  apply token_mint_inv in Hmint as (_ & _ & ->).
  subst c2.
  unfold Vault.getDeposit, Vault.balanceOf, Vault.store_deposit,
    Vault.set_deposit.
  cbn. rewrite ?lookup_insert_eq. cbn. rewrite ?lookup_insert_eq. cbn.
  repeat split.
Qed.

Lemma max_cap : Trigger.maxAmount * 10 ^ 10 <= Vault.MAX_UINT256.
Proof. vm_compute. discriminate. Qed.

(** X25. The relay goes through when nothing stands in its way: for a
    deposit that passes the local checks, with a user string that ethers
    takes for an address, a provider on the vault's list and a hash the
    vault has not seen, sent by the vault's owner while neither contract is
    paused, the vault is on the token's list and no total overflows; when
    the unlock time is still ahead of the block that carries the register
    transaction, both transactions fit the gas limit of 500000 the
    controller gives them, and the relayer's balance covers that limit for
    the first and, once the first is paid, for the second,
    [processBabylonDeposit] succeeds along the happy path. *)
Theorem relay_goes_through (d : Deposit) (w : VaultWorld) (usr : Vault.address) :
  paramsAccepted (hostTime w) d ->
  validDate (unlockTime d * 1000) = true ->
  parse_address (checksummed w) (userAddress d) = Some usr -> usr <> 0 ->
  0 < blockTime w < unlockTime d ->
  minBalance <= ethBalance w ->
  registerGas w <= gasLimit -> mintGas w <= gasLimit ->
  gasLimit * gasPrice w <= ethBalance w ->
  gasLimit * gasPrice w <= ethBalance w - registerGas w * gasPrice w ->
  Vault.owner (Vault.vault (chain w)) = relayer w ->
  Vault.paused (Vault.vault (chain w)) = false ->
  Vault.token_paused (Vault.stBTC (chain w)) = false ->
  Vault.authorized (Vault.stBTC (chain w)) !! Vault.vault_address (chain w)
  = Some true ->
  Vault.isFinalityProviderAuthorized (chain w) (finalityProvider d) = true ->
  Vault.timestamp (Vault.getDeposit (chain w) (btcTxHash d)) = 0 ->
  Vault.userBalance (chain w) usr + amount d * 10 ^ 10 <= Vault.MAX_UINT256 ->
  Vault.totalDeposits (Vault.vault (chain w)) + amount d * 10 ^ 10
  <= Vault.MAX_UINT256 ->
  Vault.totalSupply (Vault.stBTC (chain w)) + amount d * 10 ^ 10
  <= Vault.MAX_UINT256 ->
  exists w',
    exec (processBabylonDeposit d) w
    = ((w', happy_path d),
       inr {| success := true; error := None; attempts := None |}).
Proof.
  intros ((Hh & Hhash & Haddr & Hamt) & Hunlock) Hdate Husr Hnz Hblock Hgas
         Hrg Hmg Hfee1 Hfee2 Hown Hp Htp Hauth Hfp Hts Hbal Htot Hsup.
  pose proof max_cap as Hcap.
  set (dep := {| Vault.user := usr; Vault.amount := amount d;
                 Vault.btcTxHash := btcTxHash d;
                 Vault.unlockTime := unlockTime d;
                 Vault.finalityProvider := finalityProvider d;
                 Vault.timestamp := blockTime w;
                 Vault.processed := false |}).
  set (c1 := Vault.store_deposit (chain w) (btcTxHash d) dep).
  set (w1 := mined w (registerGas w) c1).
  assert (Hreg : vault_registerTx d w = (w1, inr 1)).
  { unfold vault_registerTx, vault_send. rewrite Husr.
    replace (ethBalance w <? gasLimit * gasPrice w) with false
      by (symmetry; apply Z.ltb_ge; lia).
    replace (gasLimit <? registerGas w) with false
      by (symmetry; apply Z.ltb_ge; lia).
    change (vault_context w) with (Vault.call_from (relayer w) (blockTime w)).
    rewrite (register_succeeds (chain w) (relayer w) (btcTxHash d) usr
               (amount d) (unlockTime d) (finalityProvider d) (blockTime w));
      try assumption; try lia.
    reflexivity. }
  assert (Hmint : exists c2,
             vault_mintTx (btcTxHash d) w1 = (mined w1 (mintGas w1) c2, inr 1)).
  { unfold vault_mintTx, vault_send.
    replace (ethBalance w1 <? gasLimit * gasPrice w1) with false
      by (symmetry; apply Z.ltb_ge; cbn [w1 mined ethBalance gasPrice]; lia).
    replace (gasLimit <? mintGas w1) with false
      by (symmetry; apply Z.ltb_ge; cbn [w1 mined mintGas]; lia).
    change (vault_context w1)
      with (Vault.call_from (relayer w) (blockTime w + 1)).
    change (chain w1) with c1.
    destruct (mint_succeeds c1 (relayer w) (btcTxHash d) (blockTime w + 1) dep)
      as (c2 & Hm & _).
    - exact Hown.
    - exact Hp.
    - exact Htp.
    - exact Hauth.
    - apply getDeposit_store.
    - cbn [dep Vault.timestamp]. lia.
    - reflexivity.
    - exact Hnz.
    - cbn [dep Vault.amount].
      assert (amount d * 10 ^ 10 <= maxAmount * 10 ^ 10) by lia. lia.
    - exact Hbal.
    - exact Htot.
    - exact Hsup.
    - rewrite Hm. eauto. }
  destruct Hmint as (c2 & Hmint).
  exists (mined w1 (mintGas w1) c2).
  on_vault. cbn beta iota.
  rewrite Hdate. cbn [negb]. cbn beta iota.
  cbn [getDepositStatus clock isFinalityProviderAuthorized getBalance
       registerTx mintTx vault_client].
  rewrite Hts. cbn [Z.ltb Z.compare andb ds_exists ds_processed].
  cbn beta iota.
  replace (String.eqb (btcTxHash d) "") with false
    by (symmetry; now apply String.eqb_neq).
  cbn beta iota.
  replace (negb (isRealHash (btcTxHash d)) && negb (isTestHash (btcTxHash d)))
    with false
    by (destruct (isRealHash (btcTxHash d)), (isTestHash (btcTxHash d));
        simpl in *; congruence).
  cbn beta iota. rewrite Haddr. cbn [negb]. cbn beta iota.
  replace ((amount d =? 0) || (amount d <=? 0) || (maxAmount <? amount d))
    with false
    by (symmetry; repeat (apply orb_false_iff; split);
        [apply Z.eqb_neq | apply Z.leb_gt | apply Z.ltb_ge]; lia).
  cbn beta iota.
  replace ((unlockTime d =? 0) || (unlockTime d <=? hostTime w)) with false
    by (symmetry; apply orb_false_iff; split;
        [apply Z.eqb_neq | apply Z.leb_gt]; lia).
  cbn beta iota. rewrite Hfp. cbn [negb]. cbn beta iota.
  replace (ethBalance w <? minBalance) with false
    by (symmetry; apply Z.ltb_ge; lia).
  cbn beta iota. rewrite Hreg. cbn beta iota. cbn [Z.eqb Pos.eqb negb].
  cbn beta iota. rewrite Hmint. cbn beta iota. cbn [Z.eqb Pos.eqb negb].
  reflexivity.
Qed.

(** Scenario A in front of the deployed contracts. *)
Lemma scenario_goes_through :
  exists w',
    exec (processBabylonDeposit Scenario.deposit) Scenario.world
    = ((w', happy_path Scenario.deposit),
       inr {| success := true; error := None; attempts := None |}).
Proof.
  exists (fst (fst (exec (processBabylonDeposit Scenario.deposit)
                         Scenario.world))).
  vm_compute. reflexivity.
Qed.

Lemma relay_goes_through_witness :
  exists w',
    exec (processBabylonDeposit Scenario.deposit) Scenario.world
    = ((w', happy_path Scenario.deposit),
       inr {| success := true; error := None; attempts := None |}).
Proof.
  eapply (relay_goes_through Scenario.deposit Scenario.world);
    try (vm_compute; reflexivity); try (vm_compute; discriminate).
  all: repeat split; try (vm_compute; reflexivity);
    try (vm_compute; discriminate).
Defined.

Lemma relayed_deposit_is_minted_witness :
  exists w' usr,
    parse_address (checksummed Scenario.world)
      (userAddress Scenario.deposit) = Some usr
    /\ Vault.balanceOf (Vault.stBTC (chain w')) usr = 0 + 250000000 * 10 ^ 10.
Proof.
  destruct scenario_goes_through as (w' & Hexec).
  destruct (relayed_deposit_is_minted Scenario.deposit Scenario.world w' _ _
              Hexec eq_refl) as (usr & c1 & Hu & _ & _ & _ & _ & Hb).
  exists w', usr. split; [exact Hu |].
  rewrite Hb. vm_compute in Hu. injection Hu as <-. reflexivity.
Defined.

Lemma success_follows_happy_path_witness :
  exists w',
    exec (processBabylonDeposit Scenario.deposit) Scenario.world
    = ((w', happy_path Scenario.deposit),
       inr {| success := true; error := None; attempts := None |})
    /\ minBalance <= getBalance Scenario.world.
Proof.
  destruct scenario_goes_through as (w' & Hexec).
  exists w'. split; [exact Hexec |].
  destruct (success_follows_happy_path Scenario.deposit Scenario.world w' _ _
              Hexec eq_refl) as (_ & _ & _ & _ & Hgas & _).
  exact Hgas.
Defined.

End RelayOnVault.

(* ===================================================================== *)
(** * The poller: what is emitted, and how often *)
(* ===================================================================== *)

Section ScannerFacts.
Import Scanner.

Lemma key_of_depositData nowMs relayerAddress options utxo :
  key_of (depositData nowMs relayerAddress options utxo) = key utxo.
Proof. reflexivity. Qed.

Lemma union_insert_front (a : string) (S P : gset string) :
  S ∪ ({[ a ]} ∪ P) = ({[ a ]} ∪ S) ∪ P.
Proof.
  rewrite (assoc_L (∪) S {[ a ]} P), (comm_L (∪) S {[ a ]}). reflexivity.
Qed.

Lemma union_rotate (A B C : gset string) : B ∪ (A ∪ C) = (A ∪ B) ∪ C.
Proof. rewrite (assoc_L (∪)), (comm_L (∪) B A). reflexivity. Qed.

Lemma keys_cons (a : string) (l : list string) :
  list_to_set (C := gset string) (a :: l) = {[ a ]} ∪ list_to_set l.
Proof. reflexivity. Qed.

(** The loop of a poll: the keys it adds are those of the events it emits,
    each of them new and emitted once, for an output it asked the type of
    and found to be P2WSH. *)
Lemma pollLoop_facts nowMs relayerAddress net options utxos :
  forall processedTxs,
    let r := pollLoop nowMs relayerAddress net options utxos processedTxs in
    fst r = list_to_set (map key_of (snd r)) ∪ processedTxs
    /\ List.NoDup (map key_of (snd r))
    /\ (forall d,
           In d (snd r) ->
           (key_of d ∉ processedTxs)
           /\ (exists utxo,
                  In utxo utxos
                  /\ d = depositData nowMs relayerAddress options utxo
                  /\ isBabylonP2WSHUTXO net (txid utxo) (vout utxo) = true))
    /\ (forall utxo,
           In utxo utxos ->
           isBabylonP2WSHUTXO net (txid utxo) (vout utxo) = true ->
           key utxo ∈ fst r).
Proof.
  induction utxos as [|u utxos IH]; intros processedTxs; cbn [pollLoop].
  - cbn [fst snd map]. split; [symmetry; apply (left_id_L ∅ (∪)) |].
    split; [constructor |]. split; [intros d [] | intros u []].
  - destruct (decide (key u ∈ processedTxs)) as [Hin|Hnew].
    { destruct (IH processedTxs) as (Hset & Hnd & Hem & Hall).
      split; [exact Hset |]. split; [exact Hnd |]. split.
      - intros d Hd. destruct (Hem d Hd) as (Hk & u' & Hu' & Hd' & Hb).
        split; [exact Hk |]. exists u'. split; [now right | now split].
      - intros u' [<-|Hu'] Hb; [| now apply Hall].
        rewrite Hset. now apply elem_of_union_r. }
    destruct (isBabylonP2WSHUTXO net (txid u) (vout u)) eqn:Hbab; cbn [negb].
    2:{ destruct (IH processedTxs) as (Hset & Hnd & Hem & Hall).
        split; [exact Hset |]. split; [exact Hnd |]. split.
        - intros d Hd. destruct (Hem d Hd) as (Hk & u' & Hu' & Hd' & Hb).
          split; [exact Hk |]. exists u'. split; [now right | now split].
        - intros u' [<-|Hu'] Hb; [congruence | now apply Hall]. }
    specialize (IH ({[ key u ]} ∪ processedTxs)).
    destruct (pollLoop nowMs relayerAddress net options utxos
                ({[ key u ]} ∪ processedTxs)) as [processedTxs' emitted].
    cbn [fst snd] in IH |- *.
    destruct IH as (Hset & Hnd & Hem & Hall).
    cbn [map]. rewrite key_of_depositData.
    split; [rewrite Hset, keys_cons; apply union_insert_front |].
    split.
    { constructor; [| exact Hnd].
      intros Hin. apply in_map_iff in Hin as (d & Hk & Hd).
      destruct (Hem d Hd) as (Hfresh & _). apply Hfresh.
      rewrite Hk. apply elem_of_union_l, elem_of_singleton. reflexivity. }
    split.
    + intros d [<-|Hd].
      * split; [rewrite key_of_depositData; exact Hnew |].
        exists u. split; [now left | now split].
      * destruct (Hem d Hd) as (Hk & u' & Hu' & Hd' & Hb).
        split; [intros Hp; apply Hk; now apply elem_of_union_r |].
        exists u'. split; [now right | now split].
    + intros u' [<-|Hu'] Hb.
      * rewrite Hset.
        apply elem_of_union_r, elem_of_union_l, elem_of_singleton. reflexivity.
      * now apply Hall.
Qed.

Lemma pollLoop_nothing nowMs relayerAddress net options utxos processedTxs :
  (forall utxo,
      In utxo utxos ->
      isBabylonP2WSHUTXO net (txid utxo) (vout utxo) = true ->
      key utxo ∈ processedTxs) ->
  pollLoop nowMs relayerAddress net options utxos processedTxs
  = (processedTxs, []).
Proof.
  induction utxos as [|u utxos IH]; intros Hall; cbn [pollLoop];
    [reflexivity |].
  destruct (decide (key u ∈ processedTxs)) as [Hin|Hnew].
  - apply IH. intros u' Hu'. apply Hall. now right.
  - destruct (isBabylonP2WSHUTXO net (txid u) (vout u)) eqn:Hbab; cbn [negb].
    + exfalso. apply Hnew, Hall; [now left | exact Hbab].
    + apply IH. intros u' Hu'. apply Hall. now right.
Qed.

(** X26. What a poll emits. Every event is for an output of the answer
    whose type the explorer gave as P2WSH and whose key [txid:vout] was not
    processed before, with the output's value as amount, the transaction id
    as hash and an unlock time of the lock days (30 unless given) after the
    clock reading, whether the output is confirmed or not; no key is
    emitted twice, the keys emitted are exactly those added to the
    processed set (outputs of another type are not remembered), and every
    P2WSH output of the answer has its key in the set afterwards. A failed
    request or a body that is not an array emits nothing. *)
Theorem poll_emits_new_outputs (nowMs : Z) (relayerAddress : option string)
    (net : Explorer) (btcAddress : string) (options : Options)
    (processedTxs : gset string) :
  let r := pollBabylonAddressForDeposits nowMs relayerAddress net btcAddress
             options processedTxs in
  fst r = list_to_set (map key_of (snd r)) ∪ processedTxs
  /\ List.NoDup (map key_of (snd r))
  /\ (forall d,
         In d (snd r) ->
         (key_of d ∉ processedTxs)
         /\ (exists utxos utxo,
                utxosOf net btcAddress = Some (Some utxos)
                /\ In utxo utxos
                /\ isBabylonP2WSHUTXO net (txid utxo) (vout utxo) = true
                /\ btcTxHash d = txid utxo /\ dd_vout d = vout utxo
                /\ amount d = value utxo
                /\ unlockTime d = nowMs / 1000 + lockDays options * 86400
                /\ finalityProvider d = providerOf options
                /\ userAddress d = relayerAddress))
  /\ (forall utxos utxo,
         utxosOf net btcAddress = Some (Some utxos) ->
         In utxo utxos ->
         isBabylonP2WSHUTXO net (txid utxo) (vout utxo) = true ->
         key utxo ∈ fst r)
  /\ (utxosOf net btcAddress = None \/ utxosOf net btcAddress = Some None ->
      r = (processedTxs, [])).
Proof.
  unfold pollBabylonAddressForDeposits.
  destruct (utxosOf net btcAddress) as [[utxos|]|] eqn:Hnet; cbn zeta.
  - destruct (pollLoop_facts nowMs relayerAddress net options utxos
                processedTxs) as (Hset & Hnd & Hem & Hall).
    split; [exact Hset |]. split; [exact Hnd |]. split; [| split].
    + intros d Hd. destruct (Hem d Hd) as (Hk & u & Hu & -> & Hb).
      split; [exact Hk |]. exists utxos, u.
      split; [reflexivity |]. split; [exact Hu |]. split; [exact Hb |].
      cbn. tauto.
    + intros utxos' u [= <-]. apply Hall.
    + intros [Hn|Hn]; discriminate Hn.
  - cbn [fst snd map]. split; [symmetry; apply (left_id_L ∅ (∪)) |].
    split; [constructor |]. split; [intros d [] |]. split; [| reflexivity].
    intros utxos u Hn. discriminate Hn.
  - cbn [fst snd map]. split; [symmetry; apply (left_id_L ∅ (∪)) |].
    split; [constructor |]. split; [intros d [] |]. split; [| reflexivity].
    intros utxos u Hn. discriminate Hn.
Qed.

Lemma keys_app (l k : list string) :
  list_to_set (C := gset string) (l ++ k)%list
  = list_to_set l ∪ list_to_set k.
Proof. apply list_to_set_app_L. Qed.

Lemma poll_again nowMs nowMs' relayerAddress net btcAddress options options'
    (p0 : gset string) :
  let r := pollBabylonAddressForDeposits nowMs relayerAddress net btcAddress
             options p0 in
  pollBabylonAddressForDeposits nowMs' relayerAddress net btcAddress
    options' (fst r)
  = (fst r, []).
Proof.
  unfold pollBabylonAddressForDeposits.
  destruct (utxosOf net btcAddress) as [[utxos|]|]; cbn zeta;
    [| reflexivity | reflexivity].
  apply pollLoop_nothing.
  apply (pollLoop_facts nowMs relayerAddress net options utxos p0).
Qed.

(** ** Calls on the event loop *)

Lemma advance_cases net options utxos (p0 : gset string) :
  advance net options utxos p0 = Finished
  \/ exists utxo rest,
      advance net options utxos p0 = Checking net options utxo rest
      /\ key utxo ∉ p0.
Proof.
  induction utxos as [|u utxos IH]; cbn [advance]; [now left |].
  destruct (decide (key u ∈ p0)) as [Hin|Hnew]; [exact IH |].
  right. exists u, utxos. split; [reflexivity | exact Hnew].
Qed.

Lemma advance_checking net options utxos (p0 : gset string) net' options'
    utxo rest :
  advance net options utxos p0 = Checking net' options' utxo rest ->
  key utxo ∉ p0.
Proof.
  intros H. destruct (advance_cases net options utxos p0)
    as [Hf|(u & r & Hc & Hnew)]; [congruence |].
  rewrite Hc in H. injection H as _ _ <- _. exact Hnew.
Qed.

(** One answer: at most one event, for the output the call was asking
    about; the key of the event is what is added to the processed set; and
    the output the call asks about next has a key that is not processed. *)
Lemma resume_facts nowMs relayerAddress call (p0 : gset string) call' p' e :
  resume nowMs relayerAddress call p0 = (call', p', e) ->
  p' = list_to_set (map key_of e) ∪ p0
  /\ (e = []
      \/ exists net options utxo rest,
          call = Checking net options utxo rest
          /\ e = [depositData nowMs relayerAddress options utxo])
  /\ (forall net options utxo rest,
         call' = Checking net options utxo rest -> key utxo ∉ p')
  /\ (call = Finished -> call' = Finished).
Proof.
  assert (Hempty : forall q : gset string, q = list_to_set (map key_of []) ∪ q).
  { intros q. cbn [map]. symmetry. apply (left_id_L ∅ (∪)). }
  destruct call as [net a o|net o u rest|]; cbn [resume].
  - destruct (utxosOf net a) as [[utxos|]|]; intros [= <- <- <-].
    + split; [apply Hempty |]. split; [now left |].
      split; [| discriminate].
      intros net' o' u' rest'. apply advance_checking.
    + split; [apply Hempty |]. split; [now left |].
      split; discriminate.
    + split; [apply Hempty |]. split; [now left |].
      split; discriminate.
  - destruct (isBabylonP2WSHUTXO net (txid u) (vout u)); cbn [negb];
      intros [= <- <- <-].
    + split; [cbn [map]; rewrite key_of_depositData; cbn [list_to_set];
              now rewrite (right_id_L ∅ (∪)) |].
      split; [right; now exists net, o, u, rest |].
      split; [| discriminate].
      intros net' o' u' rest'. apply advance_checking.
    + split; [apply Hempty |]. split; [now left |].
      split; [| discriminate].
      intros net' o' u' rest'. apply advance_checking.
  - intros [= <- <- <-].
    split; [apply Hempty |]. split; [now left |]. split; [discriminate |].
    reflexivity.
Qed.

Lemma drive_finished n nowMs relayerAddress (p0 : gset string) :
  drive n nowMs relayerAddress Finished p0 = (p0, []).
Proof.
  induction n as [|n IH]; cbn [drive resume]; [reflexivity |].
  rewrite IH. reflexivity.
Qed.

(** A call nothing comes between does what the loop does in one go. *)
Lemma drive_advance nowMs relayerAddress net options utxos :
  forall (p0 : gset string) n,
    (length utxos <= n)%nat ->
    drive n nowMs relayerAddress (advance net options utxos p0) p0
    = pollLoop nowMs relayerAddress net options utxos p0.
Proof.
  induction utxos as [|u utxos IH]; intros p0 n Hn; cbn [advance pollLoop].
  - apply drive_finished.
  - cbn [length] in Hn.
    destruct (decide (key u ∈ p0)) as [Hin|Hnew]; [apply IH; lia |].
    destruct n as [|n]; [lia |]. cbn [drive resume].
    destruct (isBabylonP2WSHUTXO net (txid u) (vout u)); cbn [negb].
    + rewrite IH by lia.
      destruct (pollLoop nowMs relayerAddress net options utxos
                  ({[ key u ]} ∪ p0)) as [p e].
      reflexivity.
    + rewrite IH by lia.
      destruct (pollLoop nowMs relayerAddress net options utxos p0)
        as [p e].
      reflexivity.
Qed.

Lemma drive_call nowMs relayerAddress net btcAddress options
    (p0 : gset string) n :
  (match utxosOf net btcAddress with
   | Some (Some utxos) => length utxos
   | _ => 0%nat
   end < n)%nat ->
  drive n nowMs relayerAddress (Fetching net btcAddress options) p0
  = pollBabylonAddressForDeposits nowMs relayerAddress net btcAddress options
      p0.
Proof.
  intros Hn. destruct n as [|n]; [lia |].
  unfold pollBabylonAddressForDeposits. cbn [drive resume].
  destruct (utxosOf net btcAddress) as [[utxos|]|].
  - rewrite drive_advance by lia.
    destruct (pollLoop nowMs relayerAddress net options utxos p0) as [p e].
    reflexivity.
  - rewrite drive_finished. reflexivity.
  - rewrite drive_finished. reflexivity.
Qed.

Lemma run_alone relayerAddress nowMs n :
  forall call (p0 : gset string) e0,
    let st := run relayerAddress (repeat (Answer 0 nowMs) n)
                {| processedTxs := p0; emitted := e0; calls := [call] |} in
    processedTxs st = fst (drive n nowMs relayerAddress call p0)
    /\ emitted st = (e0 ++ snd (drive n nowMs relayerAddress call p0))%list.
Proof.
  induction n as [|n IH]; intros call p0 e0; cbn zeta.
  - cbn. rewrite app_nil_r. split; reflexivity.
  - cbn [repeat]. unfold run. cbn [fold_left].
    change (step relayerAddress
              {| processedTxs := p0; emitted := e0; calls := [call] |}
              (Answer 0 nowMs))
      with (let '(call', p1, e1) := resume nowMs relayerAddress call p0 in
            {| processedTxs := p1; emitted := (e0 ++ e1)%list;
               calls := [call'] |}).
    cbn [drive].
    destruct (resume nowMs relayerAddress call p0) as [[call' p1] e1].
    destruct (IH call' p1 (e0 ++ e1)%list) as (Hp & He).
    unfold run in Hp, He. rewrite Hp, He.
    destruct (drive n nowMs relayerAddress call' p1) as [p2 e2].
    cbn [fst snd]. rewrite <- app_assoc. split; reflexivity.
Qed.

(** A call that is alone on the event loop and gets all its answers is a
    poll in one go. *)
Lemma call_alone relayerAddress nowMs net btcAddress options
    (p0 : gset string) n :
  (match utxosOf net btcAddress with
   | Some (Some utxos) => length utxos
   | _ => 0%nat
   end < n)%nat ->
  let st := run relayerAddress
              (Tick net btcAddress options :: repeat (Answer 0 nowMs) n)
              (start p0) in
  (processedTxs st, emitted st)
  = pollBabylonAddressForDeposits nowMs relayerAddress net btcAddress options
      p0.
Proof.
  intros Hn. cbn zeta.
  change (run relayerAddress
            (Tick net btcAddress options :: repeat (Answer 0 nowMs) n)
            (start p0))
    with (run relayerAddress (repeat (Answer 0 nowMs) n)
            {| processedTxs := p0; emitted := [];
               calls := [Fetching net btcAddress options] |}).
  destruct (run_alone relayerAddress nowMs n
              (Fetching net btcAddress options) p0 []) as (Hp & He).
  rewrite Hp, He, drive_call by exact Hn.
  destruct (pollBabylonAddressForDeposits nowMs relayerAddress net btcAddress
              options p0) as [p e].
  reflexivity.
Qed.

(** What holds of the watcher whatever the order of the answers. *)
Lemma step_keys relayerAddress (p0 : gset string) (st : Poller) (s : Step) :
  remembers p0 st /\ news_only p0 st ->
  remembers p0 (step relayerAddress st s)
  /\ news_only p0 (step relayerAddress st s).
Proof.
  unfold remembers, news_only. intros (Hp & He & Hc).
  destruct s as [net a o|i nowMs]; cbn [step].
  - cbn [processedTxs emitted calls]. split; [exact Hp |].
    split; [exact He |].
    intros j net' o' u rest Hj.
    apply lookup_app_Some in Hj as [Hj|[_ Hj]]; [now apply (Hc j) in Hj |].
    destruct (j - length (calls st))%nat; discriminate Hj.
  - destruct (calls st !! i) as [call|] eqn:Hi; [| now split].
    destruct (resume nowMs relayerAddress call (processedTxs st))
      as [[call' p'] e] eqn:Hr.
    apply resume_facts in Hr as (Hp' & Hev & Hnext & _).
    cbn [processedTxs emitted calls].
    split; [rewrite map_app, keys_app, Hp', Hp; apply union_rotate |].
    split.
    + intros d Hd. apply in_app_iff in Hd as [Hd|Hd]; [now apply He |].
      destruct Hev as [->|(net & o & u & rest & -> & ->)]; [destruct Hd |].
      destruct Hd as [<-|[]]. rewrite key_of_depositData.
      now apply (Hc i) in Hi.
    + intros j net o u rest Hj.
      apply list_lookup_insert_Some in Hj as [(_ & -> & _)|(_ & Hj)];
        [| now apply (Hc j) in Hj].
      specialize (Hnext _ _ _ _ eq_refl). rewrite Hp', Hp in Hnext.
      intros Hin. apply Hnext. now apply elem_of_union_r, elem_of_union_r.
Qed.

Lemma run_keys relayerAddress (p0 : gset string) (steps : list Step) :
  forall st,
    remembers p0 st /\ news_only p0 st ->
    remembers p0 (run relayerAddress steps st)
    /\ news_only p0 (run relayerAddress steps st).
Proof.
  induction steps as [|s steps IH]; intros st H; [exact H |].
  cbn [run fold_left]. apply IH, step_keys, H.
Qed.

Lemma start_keys (p0 : gset string) :
  remembers p0 (start p0) /\ news_only p0 (start p0).
Proof.
  unfold remembers, news_only, start. cbn [processedTxs emitted calls map].
  split; [symmetry; apply (left_id_L ∅ (∪)) |].
  split; [intros d [] |]. intros i net o u rest Hi. discriminate Hi.
Qed.

Lemma idle_finished (st : Poller) j call :
  idle st = true -> calls st !! j = Some call -> call = Finished.
Proof.
  unfold idle. intros Hidle Hj.
  rewrite forallb_forall in Hidle.
  apply list_elem_of_lookup_2, list_elem_of_In, Hidle in Hj.
  destruct call; [discriminate | discriminate | reflexivity].
Qed.

(** What a step keeps when the timer does not fire into a call under
    way. *)
Lemma step_in_turn relayerAddress (p0 : gset string) (st : Poller)
    (s : Step) :
  match s with
  | Tick _ _ _ => idle st = true
  | Answer _ _ => True
  end ->
  remembers p0 st /\ List.NoDup (map key_of (emitted st))
  /\ one_at_a_time st ->
  remembers p0 (step relayerAddress st s)
  /\ List.NoDup (map key_of (emitted (step relayerAddress st s)))
  /\ one_at_a_time (step relayerAddress st s).
Proof.
  unfold remembers, one_at_a_time.
  intros Hs (Hp & Hnd & k & Hothers & Hk).
  destruct s as [net a o|i nowMs]; cbn [step].
  - cbn [processedTxs emitted calls]. split; [exact Hp |].
    split; [exact Hnd |].
    exists (length (calls st)). split.
    + intros j call Hj Hne.
      apply lookup_app_Some in Hj as [Hj|[Hle Hj]];
        [now apply (idle_finished st j) |].
      destruct (j - length (calls st))%nat as [|m] eqn:Hm; [lia |].
      discriminate Hj.
    + intros net' o' u rest Hj.
      apply lookup_app_Some in Hj as [Hj|[_ Hj]].
      * apply (idle_finished st _ _ Hs) in Hj. discriminate Hj.
      * rewrite Nat.sub_diag in Hj. discriminate Hj.
  - destruct (calls st !! i) as [call|] eqn:Hi;
      [| split; [exact Hp |]; split; [exact Hnd |]; now exists k].
    destruct (resume nowMs relayerAddress call (processedTxs st))
      as [[call' p'] e] eqn:Hr.
    apply resume_facts in Hr as (Hp' & Hev & Hnext & Hfin).
    cbn [processedTxs emitted calls].
    split; [rewrite map_app, keys_app, Hp', Hp; apply union_rotate |].
    destruct (Nat.eq_dec i k) as [->|Hik].
    + split.
      * destruct Hev as [->|(net & o & u & rest & -> & ->)];
          [now rewrite app_nil_r |].
        rewrite map_app. cbn [map]. rewrite key_of_depositData.
        apply List.NoDup_app; [exact Hnd | repeat constructor; intros [] |].
        intros x Hx [<-|[]].
        apply (Hk _ _ _ _ Hi). rewrite Hp.
        apply elem_of_union_l, elem_of_list_to_set, list_elem_of_In, Hx.
      * exists k. split.
        -- intros j c Hj Hne.
           apply list_lookup_insert_Some in Hj as [(-> & _)|(_ & Hj)];
             [contradiction | now apply (Hothers j)].
        -- intros net o u rest Hj.
           apply list_lookup_insert_Some in Hj as [(_ & -> & _)|(Hne & _)];
             [| contradiction].
           now apply (Hnext net o u rest).
    + pose proof (Hothers i call Hi Hik) as Hcall. subst call.
      specialize (Hfin eq_refl). subst call'.
      cbn [resume] in Hp'.
      destruct Hev as [->|(net & o & u & rest & Hc & _)];
        [| discriminate Hc].
      rewrite app_nil_r. split; [exact Hnd |].
      rewrite list_insert_id by exact Hi.
      exists k. split; [exact Hothers |].
      intros net o u rest Hj. rewrite Hp'. cbn [map list_to_set].
      rewrite (left_id_L ∅ (∪)). now apply (Hk net o u rest).
Qed.

Lemma run_in_turn relayerAddress (p0 : gset string) (steps : list Step) :
  forall st,
    sequential relayerAddress steps st = true ->
    remembers p0 st /\ List.NoDup (map key_of (emitted st))
    /\ one_at_a_time st ->
    List.NoDup (map key_of (emitted (run relayerAddress steps st))).
Proof.
  induction steps as [|s steps IH]; intros st Hseq H; [apply H |].
  cbn [sequential] in Hseq. apply andb_true_iff in Hseq as (Hs & Hseq).
  cbn [run fold_left]. apply (IH _ Hseq).
  apply step_in_turn; [| exact H].
  destruct s; [exact Hs | exact I].
Qed.

Lemma start_in_turn (p0 : gset string) :
  remembers p0 (start p0) /\ List.NoDup (map key_of (emitted (start p0)))
  /\ one_at_a_time (start p0).
Proof.
  split; [apply start_keys |]. split; [constructor |].
  exists 0%nat. split; intros; discriminate.
Qed.

(** X27. An output is emitted at most once as long as the calls of the
    poller do not overlap, and can be emitted twice when they do. On the
    event loop, where the timer starts a call without waiting for the one
    before it and a call looks its key up before an await and adds it
    after: whatever the order of the answers, the processed set ends as
    what it was plus the keys emitted, and no key that was processed at
    the start is emitted; when every call is over before the timer fires
    again, no key [txid:vout] is emitted twice; a call that is alone on the
    loop is a poll in one go, and one that gets the answer of the poll
    before it emits nothing; and with a slow explorer two overlapping
    calls emit every new output twice. *)
Theorem outputs_emitted_once (relayerAddress : option string)
    (steps : list Step) (processedTxs0 : gset string) :
  (let st := run relayerAddress steps (start processedTxs0) in
   processedTxs st
   = list_to_set (map key_of (emitted st)) ∪ processedTxs0
   /\ (forall d, In d (emitted st) -> key_of d ∉ processedTxs0)
   /\ (sequential relayerAddress steps (start processedTxs0) = true ->
       List.NoDup (map key_of (emitted st))))
  /\ (forall nowMs net btcAddress options n,
         (match utxosOf net btcAddress with
          | Some (Some utxos) => length utxos
          | _ => 0%nat
          end < n)%nat ->
         let st := run relayerAddress
                     (Tick net btcAddress options
                        :: repeat (Answer 0 nowMs) n)
                     (start processedTxs0) in
         (processedTxs st, emitted st)
         = pollBabylonAddressForDeposits nowMs relayerAddress net btcAddress
             options processedTxs0)
  /\ (forall nowMs nowMs' net btcAddress options options',
         let r := pollBabylonAddressForDeposits nowMs relayerAddress net
                    btcAddress options processedTxs0 in
         pollBabylonAddressForDeposits nowMs' relayerAddress net btcAddress
           options' (fst r)
         = (fst r, []))
  /\ sequential relayerAddress overlapping (start ∅) = false
  /\ map key_of (emitted (run relayerAddress overlapping (start ∅)))
     = ["aa:0"; "aa:0"; "aa:1"; "aa:1"; "cc:0"; "cc:0"].
Proof.
  split; [| split; [| split; [| split]]].
  - cbn zeta.
    destruct (run_keys relayerAddress processedTxs0 steps
                (start processedTxs0) (start_keys processedTxs0))
      as (Hp & He & _).
    split; [exact Hp |]. split; [exact He |].
    intros Hseq.
    apply (run_in_turn relayerAddress processedTxs0 steps _ Hseq),
      start_in_turn.
  - intros nowMs net btcAddress options n Hn. now apply call_alone.
  - intros. apply poll_again.
  - reflexivity.
  - vm_compute. reflexivity.
Qed.

Lemma outputs_emitted_once_witness :
  sequential (Some "0xrelayer") inTurn (start ∅) = true
  /\ idle (run (Some "0xrelayer") inTurn (start ∅)) = true
  /\ map key_of (emitted (run (Some "0xrelayer") inTurn (start ∅)))
     = ["aa:0"; "aa:1"; "cc:0"]
  /\ List.NoDup
       (map key_of (emitted (run (Some "0xrelayer") inTurn (start ∅)))).
Proof.
  split; [vm_compute; reflexivity |].
  split; [vm_compute; reflexivity |].
  split; [vm_compute; reflexivity |].
  apply (outputs_emitted_once (Some "0xrelayer") inTurn ∅).
  vm_compute. reflexivity.
Defined.

Lemma pollLoop_emits nowMs relayerAddress net options utxos :
  forall processedTxs utxo,
    List.NoDup (map key utxos) ->
    In utxo utxos ->
    isBabylonP2WSHUTXO net (txid utxo) (vout utxo) = true ->
    key utxo ∉ processedTxs ->
    In (depositData nowMs relayerAddress options utxo)
       (snd (pollLoop nowMs relayerAddress net options utxos processedTxs)).
Proof.
  induction utxos as [|u utxos IH]; intros processedTxs utxo Hnd Hin Hbab Hnew;
    [destruct Hin |].
  cbn [map] in Hnd. apply List.NoDup_cons_iff in Hnd as (Hfirst & Hnd).
  cbn [pollLoop].
  destruct Hin as [->|Hin].
  - destruct (decide (key utxo ∈ processedTxs)) as [Hp|_]; [contradiction |].
    rewrite Hbab. cbn [negb].
    destruct (pollLoop nowMs relayerAddress net options utxos
                ({[ key utxo ]} ∪ processedTxs)) as [p e].
    now left.
  - assert (Hne : key utxo <> key u).
    { intros Heq. apply Hfirst. rewrite <- Heq. now apply in_map. }
    destruct (decide (key u ∈ processedTxs)) as [Hp|Hp]; [now apply IH |].
    destruct (isBabylonP2WSHUTXO net (txid u) (vout u)); cbn [negb];
      [| now apply IH].
    specialize (IH ({[ key u ]} ∪ processedTxs) utxo Hnd Hin Hbab).
    destruct (pollLoop nowMs relayerAddress net options utxos
                ({[ key u ]} ∪ processedTxs)) as [p e].
    cbn [snd] in IH |- *. right. apply IH.
    intros Hel. apply elem_of_union in Hel as [Hel|Hel]; [| contradiction].
    apply elem_of_singleton in Hel. contradiction.
Qed.

(** X28. The poller tells outputs apart, the vault transactions. Two new
    P2WSH outputs of one transaction are both emitted, as two deposits with
    the same transaction hash; once the vault has registered one of them
    (in a block of positive time), every registration under the hash of
    the other reverts, whatever its amount. *)
Theorem outputs_of_one_transaction (nowMs : Z) (relayerAddress : option string)
    (net : Explorer) (btcAddress : string) (options : Options)
    (processedTxs : gset string) (utxos : list Utxo) (u1 u2 : Utxo) :
  utxosOf net btcAddress = Some (Some utxos) ->
  List.NoDup (map key utxos) ->
  In u1 utxos -> In u2 utxos ->
  txid u1 = txid u2 -> vout u1 <> vout u2 ->
  isBabylonP2WSHUTXO net (txid u1) (vout u1) = true ->
  isBabylonP2WSHUTXO net (txid u2) (vout u2) = true ->
  key u1 ∉ processedTxs -> key u2 ∉ processedTxs ->
  let emitted :=
    snd (pollBabylonAddressForDeposits nowMs relayerAddress net btcAddress
           options processedTxs) in
  let d1 := depositData nowMs relayerAddress options u1 in
  let d2 := depositData nowMs relayerAddress options u2 in
  In d1 emitted /\ In d2 emitted
  /\ d1 <> d2
  /\ btcTxHash d1 = btcTxHash d2
  /\ forall ctx c c1 usr ctx' usr' amt' unlock' provider',
      0 < Vault.block_timestamp ctx ->
      Vault.registerBabylonDeposit ctx c (btcTxHash d1) usr (amount d1)
        (unlockTime d1) (finalityProvider d1) = inr c1 ->
      exists e,
        Vault.registerBabylonDeposit ctx' c1 (btcTxHash d2) usr' amt' unlock'
          provider' = inl e.
Proof.
  intros Hnet Hnd H1 H2 Ht Hv Hb1 Hb2 Hn1 Hn2 emitted d1 d2.
  subst emitted d1 d2. unfold pollBabylonAddressForDeposits. rewrite Hnet.
  split; [now apply pollLoop_emits |]. split; [now apply pollLoop_emits |].
  split; [intros Heq; apply Hv; now injection Heq |].
  split; [exact Ht |].
  intros ctx c c1 usr ctx' usr' amt' unlock' provider' Hpos Hreg.
  apply register_duplicate_fails.
  apply register_inv in Hreg as (_ & _ & _ & _ & _ & _ & _ & ->).
  cbn [btcTxHash depositData]. rewrite <- Ht.
  rewrite getDeposit_store. cbn. lia.
Qed.

Lemma outputs_of_one_transaction_witness :
  map btcTxHash
    (snd (pollBabylonAddressForDeposits 1700000000000 (Some "0xrelayer")
            explorer "tb1qwatched" options ∅))
  = ["aa"; "aa"; "cc"]
  /\ In (depositData 1700000000000 (Some "0xrelayer") options second_output)
        (snd (pollBabylonAddressForDeposits 1700000000000 (Some "0xrelayer")
                explorer "tb1qwatched" options ∅)).
Proof.
  split; [vm_compute; reflexivity |].
  apply (outputs_of_one_transaction 1700000000000 (Some "0xrelayer") explorer
           "tb1qwatched" options ∅
           [first_output; second_output; other_output; unconfirmed_output]
           first_output second_output).
  - reflexivity.
  - repeat constructor; vm_compute; intuition discriminate.
  - now left.
  - now right; left.
  - reflexivity.
  - discriminate.
  - reflexivity.
  - reflexivity.
  - apply not_elem_of_empty.
  - apply not_elem_of_empty.
Defined.

End ScannerFacts.

(* ===================================================================== *)
(** * The handler of deposit events *)
(* ===================================================================== *)

Section HandlerFacts.
Import Trigger Main.
Context {W : Type} `{LedgerClient W}.

(** X29. The handler of a deposit event never raises and makes at most
    three attempts. It makes none, and leaves the ledger alone, when the
    unlock time is no date, when an attached oracle validation is not
    valid or carries no attestations, or when the vault does not list the
    provider. Otherwise (so for every event of the poller, which attaches
    no validation, with a listed provider) it asks the vault for the
    provider and runs the retry loop with three attempts. The confidence
    of the validation is not looked at. *)
Theorem handler_attempts (depositData : Scanner.DepositData)
    (attached : option OracleValidation) (w : W) :
  (exists w' tr,
      exec (handleBabylonDeposit depositData attached) w = ((w', tr), inr tt)
      /\ (count is_attempt tr <= 3)%nat
      /\ (validDate (Scanner.unlockTime depositData * 1000) = false
          \/ refused attached
          \/ isFinalityProviderAuthorized
               (Scanner.finalityProvider depositData) w = false ->
          w' = w /\ count is_attempt tr = 0%nat
          /\ count is_register tr = 0%nat /\ count is_mint tr = 0%nat))
  /\ (validDate (Scanner.unlockTime depositData * 1000) = true ->
      ~ refused attached ->
      isFinalityProviderAuthorized (Scanner.finalityProvider depositData) w
      = true ->
      fst (exec (handleBabylonDeposit depositData attached) w)
      = fst (processBabylonDepositWithRetry (deposit_of depositData) 3
               (w, [IsFinalityProviderAuthorized
                      (Scanner.finalityProvider depositData)])))
  /\ (forall v c,
         exec (handleBabylonDeposit depositData (Some v)) w
         = exec (handleBabylonDeposit depositData
                   (Some {| isValid := isValid v; confidence := c;
                            validationHash := validationHash v;
                            attestations := attestations v |})) w).
Proof.
  assert (Hretry :
            exists w' tr' o,
              processBabylonDepositWithRetry (deposit_of depositData) 3
                (w, [IsFinalityProviderAuthorized
                       (Scanner.finalityProvider depositData)])
              = ((w', ([IsFinalityProviderAuthorized
                          (Scanner.finalityProvider depositData)] ++ tr')%list),
                 inr o)
              /\ (count is_attempt tr' <= 3)%nat).
  { destruct (retryLoop_spec 3 1 3 (deposit_of depositData) None w
                [IsFinalityProviderAuthorized
                   (Scanner.finalityProvider depositData)])
      as (w' & tr' & o & Hloop & Hle & _); [left; discriminate |].
    exists w', tr', o. split; [exact Hloop | exact Hle]. }
  destruct Hretry as (wr & trr & o & Hloop & Hle).
  split; [| split].
  - unfold exec, handleBabylonDeposit, try_catch, bind, throw_if, throw, ret,
      emit, ask.
    destruct (validDate (Scanner.unlockTime depositData * 1000)) eqn:Hdate;
      cbn [negb]; cbn beta iota.
    2:{ exists w, []. split; [reflexivity |]. split; [cbn; lia |].
        intros _. repeat split. }
    destruct attached as [v|]; cbn beta iota.
    + destruct (isValid v) eqn:Hvalid; cbn [negb]; cbn beta iota.
      2:{ exists w, []. split; [reflexivity |]. split; [cbn; lia |].
          intros _. repeat split. }
      destruct (attestations v) as [l|] eqn:Hatt; cbn beta iota.
      2:{ exists w, []. split; [reflexivity |]. split; [cbn; lia |].
          intros _. repeat split. }
      destruct (isFinalityProviderAuthorized
                  (Scanner.finalityProvider depositData) w) eqn:Hauth;
        cbn [negb app]; cbn beta iota.
      2:{ eexists w, _. split; [reflexivity |]. split; [cbn; lia |].
          intros _. repeat split. }
      rewrite Hloop. eexists wr, _. split; [reflexivity |].
      split; [rewrite count_app; cbn; lia |].
      intros [Hd|[[Hv|Ha]|Hf]]; congruence.
    + cbn [isValid attestations validateWithEnhancedOracle negb].
      cbn beta iota.
      destruct (isFinalityProviderAuthorized
                  (Scanner.finalityProvider depositData) w) eqn:Hauth;
        cbn [negb app]; cbn beta iota.
      2:{ eexists w, _. split; [reflexivity |]. split; [cbn; lia |].
          intros _. repeat split. }
      rewrite Hloop. eexists wr, _. split; [reflexivity |].
      split; [rewrite count_app; cbn; lia |].
      intros [Hd|[[]|Hf]]; congruence.
  - intros Hdate Hok Hauth.
    unfold exec, handleBabylonDeposit, try_catch, bind, throw_if, throw, ret,
      emit, ask.
    rewrite Hdate. cbn [negb]. cbn beta iota.
    destruct attached as [v|]; cbn beta iota.
    + destruct (isValid v) eqn:Hvalid;
        [| exfalso; apply Hok; now left].
      destruct (attestations v) as [l|] eqn:Hatt;
        [| exfalso; apply Hok; now right].
      cbn [negb app]. cbn beta iota. rewrite Hauth. cbn [negb].
      rewrite Hloop. reflexivity.
    + cbn [isValid attestations validateWithEnhancedOracle negb app].
      cbn beta iota. rewrite Hauth. cbn [negb].
      rewrite Hloop. reflexivity.
  - intros v c. reflexivity.
Qed.

End HandlerFacts.

(* ===================================================================== *)
(** * The utilities and the checks of the controller *)
(* ===================================================================== *)

Section UtilsFacts.
Import Trigger Utils.

Lemma hex_digit_value (c : ascii) :
  is_hex_digit c = true -> exists v, hex_value c = Some v /\ 0 <= v < 16.
Proof.
  unfold is_hex_digit, hex_value. cbn zeta.
  set (n := nat_of_ascii c). intros Hc.
  destruct ((48 <=? Z.of_nat n) && (Z.of_nat n <=? 57)) eqn:Hd.
  { apply andb_true_iff in Hd as (H1 & H2).
    apply Z.leb_le in H1, H2. eexists. split; [reflexivity | lia]. }
  destruct ((97 <=? Z.of_nat n) && (Z.of_nat n <=? 102)) eqn:Hl.
  { apply andb_true_iff in Hl as (H1 & H2).
    apply Z.leb_le in H1, H2. eexists. split; [reflexivity | lia]. }
  destruct ((65 <=? Z.of_nat n) && (Z.of_nat n <=? 70)) eqn:Hu.
  { apply andb_true_iff in Hu as (H1 & H2).
    apply Z.leb_le in H1, H2. eexists. split; [reflexivity | lia]. }
  exfalso.
  apply andb_false_iff in Hd, Hl, Hu.
  apply orb_true_iff in Hc as [Hc|Hc];
    [apply orb_true_iff in Hc as [Hc|Hc] |];
    apply andb_true_iff in Hc as (H1 & H2);
    apply Nat.leb_le in H1, H2;
    repeat match goal with
           | H : _ \/ _ |- _ => destruct H
           | H : (_ <=? _) = false |- _ => apply Z.leb_gt in H
           end; lia.
Qed.

Lemma parse_hex_digits (s : string) :
  all_chars is_hex_digit s = true ->
  forall acc,
    0 <= acc ->
    exists v,
      parse_hex s acc = Some v
      /\ 0 <= v < (acc + 1) * 16 ^ Z.of_nat (String.length s).
Proof.
  induction s as [|c s IH]; intros Hall acc Hacc; cbn [parse_hex String.length].
  - exists acc. split; [reflexivity |]. cbn. lia.
  - cbn [all_chars] in Hall. apply andb_true_iff in Hall as (Hc & Hs).
    destruct (hex_digit_value c Hc) as (v & -> & Hv).
    destruct (IH Hs (16 * acc + v)) as (r & Hr & Hb); [lia |].
    exists r. split; [exact Hr |].
    rewrite Nat2Z.inj_succ, Z.pow_succ_r by lia.
    assert (0 < 16 ^ Z.of_nat (String.length s)) by (apply Z.pow_pos_nonneg; lia).
    nia.
Qed.

(** X30. The address check of the utilities is stricter than the one the
    controller makes: a string the utility accepts ("0x" and 40 hex
    digits) passes the controller's check and, unless it mixes the two
    cases of the hex letters without spelling the checksum, denotes an
    address below 2^160 at the ledger; a string of mixed case with a wrong
    checksum passes both checks and is refused by the ledger client. The
    controller also lets through 42 characters after "0x" that are no hex
    digits, which denote no address. The utility's check of a transaction
    hash is the controller's check of a real hash. *)
Theorem utilities_check_more (checksummed : string -> bool) (a h : string) :
  (isValidEthereumAddress a = true ->
   validAddress (Some a) = true
   /\ exists usr,
       0 <= usr < 2 ^ 160
       /\ parse_address checksummed (Some a)
          = if mixed_case a && negb (checksummed a) then None else Some usr)
  /\ (exists bad,
         validAddress (Some bad) = true
         /\ isValidEthereumAddress bad = false
         /\ parse_address checksummed (Some bad) = None)
  /\ isValidBitcoinTxHash h = isRealHash h.
Proof.
  split; [| split; [| reflexivity]].
  - intros Hv. unfold isValidEthereumAddress in Hv.
    destruct a as [|c0 a]; [discriminate Hv |].
    destruct c0 as [[] [] [] [] [] [] [] []]; try discriminate Hv.
    destruct a as [|c1 digits]; [discriminate Hv |].
    destruct c1 as [[] [] [] [] [] [] [] []]; try discriminate Hv.
    apply andb_true_iff in Hv as (Hlen & Hall).
    apply Nat.eqb_eq in Hlen.
    split.
    + unfold validAddress, JS.startsWith. cbn. rewrite Hlen.
      destruct digits; reflexivity.
    + destruct (parse_hex_digits digits Hall 0) as (v & Hp & Hb); [lia |].
      exists v. rewrite Hlen in Hb.
      change ((0 + 1) * 16 ^ Z.of_nat 40) with (2 ^ 160) in Hb.
      split; [exact Hb |].
      unfold parse_address. rewrite Hlen.
      replace ((40 =? 40)%nat) with true by reflexivity.
      change (mixed_case
                (String (Ascii false false false false true true false false)
                   (String
                      (Ascii false false false true true true true false)
                      digits)))
        with (mixed_case digits).
      rewrite Hp. reflexivity.
  - exists "0xZZZZZZZZZZZZZZZZZZZZZZZZZZZZZZZZZZZZZZZZ".
    repeat split; vm_compute; reflexivity.
Qed.

Lemma utilities_check_more_witness :
  exists usr,
    parse_address (checksummed Scenario.world)
      (Some "0x70997970C51812dc3A010C7d01b50e0d17dc79C8")
    = Some usr
    /\ 0 <= usr < 2 ^ 160.
Proof.
  destruct (utilities_check_more (checksummed Scenario.world)
              "0x70997970C51812dc3A010C7d01b50e0d17dc79C8" "") as (H & _).
  destruct H as (_ & usr & Hb & Hp); [vm_compute; reflexivity |].
  exists usr. split; [exact Hp | exact Hb].
Defined.

(** A string both checks accept and the ledger client refuses: the
    scenario's address with its first letter in the other case. *)
Lemma bad_checksum_is_refused :
  isValidEthereumAddress "0x70997970c51812dc3A010C7d01b50e0d17dc79C8" = true
  /\ validAddress (Some "0x70997970c51812dc3A010C7d01b50e0d17dc79C8") = true
  /\ parse_address (checksummed Scenario.world)
       (Some "0x70997970c51812dc3A010C7d01b50e0d17dc79C8") = None.
Proof. repeat split; vm_compute; reflexivity. Qed.

End UtilsFacts.

